(* ===== verification/_CoqProject ===== *)
-Q . S2P
Prelude.v
Osal.v
Timer.v
PosixTimer.v
BinarySemaphore.v
Programs.v
Threads.v
Trace.v
TraceShared.v
TraceModels.v
IoShm.v
IoShmShared.v
IoShmThreads.v
IoShmModels.v
PosixBinarySemaphore.v
PosixMutex.v
PosixSpinlock.v
PosixSemaphore.v
PosixCondvar.v
PosixShm.v
PosixMq.v
PosixTask.v
Stm32.v
Stm32Shared.v
PikeosTimer.v
PikeosSync.v
PikeosTask.v
TaskShared.v
PikeosTaskShared.v
TaskReturns.v
PikeosShm.v
Double.v
Win32.v
VxWorks.v
Logger.v
ShmTest.v
Heap.v
Queue.v
QueueLists.v
QueueTails.v
QueueCircle.v
Queues.v
VxWorksTimer.v
Stm32Stubs.v
Output.v
OutputShared.v
ReturnCodes.v
