(* ===== verification/Prelude.v ===== *)
(** * libosal: a verification library

    libosal gives real-time applications one interface to the services of
    several operating systems: mutexes, counting and binary semaphores,
    condition variables, spin locks, shared memory, message queues, tasks,
    timers, and on top of them a recorder of timing traces (src/trace.c) and
    printing into a shared ring buffer (src/io.c). The interface is in
    include/libosal/; each back end implements it in a directory of its own
    under src/. This development models the POSIX, STM32, PikeOS, VxWorks and
    Win32 back ends, the parts above them, the tools (src/tools/) and the lists
    and queues of include/libosal/queue.h.

    ** How C is modelled

    A function is a computation in the monad [C W] of this file: it runs in a
    world [W] and returns, fails an [assert] ([Aborted]), does something
    undefined ([Undef]), or does not return ([NoReturn]). Pointers are [option]s,
    dereferenced by [assert_ptr] or [deref] as the source does or does not
    assert; out parameters are returned. Integers are [Z] with the conversions
    [u32], [u64], [s32], [s64] written where the source converts, and [dbl]
    rounds to [double]. [while] loops are [cloop] with fuel, counting loops
    [cfor]. [wp] is total correctness (it returns, and the result is right),
    [wlp] partial correctness, for calls that may block.

    The operating system is not part of the repository. Each file has a class of
    the calls its source makes (such as [PosixTimeOS]) and a second class of what
    the theorems rely on (such as [PosixTimeLaws]): the documented behaviour of
    POSIX, or for PikeOS what the comments of the sources say of the kernel.
    A Module [Sim] then gives a concrete system that satisfies the laws; the
    witness of a theorem runs on it.

    ** The files

    - Prelude: outcomes, the monad, its rules, machine integers, automation.
    - Osal: the return codes (include/libosal/osal.h.in), the build's
      configuration, <errno.h>, and [switch] for the many error translations.
    - Timer: include/libosal/timer.h. The macros carry in [double]; adding is
      exact all the same, comparing is comparing nanoseconds.
    - PosixTimer: src/posix/timer.c and src/timer.c. Sleeping ends, and not too
      early, however often it is interrupted; time-outs are exact.
    - BinarySemaphore: the interface of binary semaphores the clients use, with
      what it promises ([BinarySemaphoreSpec]).
    - Programs: programs as trees of single accesses to a memory ([prog]), two
      processes that run such programs in any interleaving ([step]), and the
      rely-guarantee reasoning ([safe]) by which an invariant of theirs follows
      from what each process does alone ([pair_reachable]); programs that end
      after a number of accesses, whatever these answer ([ends_within]).
    - Threads: any number of threads that call such programs, the histories of
      their calls, and the rule by which the functions refine an object that
      serves each call in one step ([linearizable]). A call that ends within a
      number of accesses returns in every schedule that gives its thread as many
      moves ([ends_within_returns]).
    - Trace: src/trace.c, against the interface of binary semaphores. A trace
      represents the history of recorded times; recording appends to it across
      swaps of the two buffers, the last time is read back, the analyses compute
      the statistics of the last complete block, allocation does not leak.
    - TraceShared: the same file as two threads run it, one that records and one
      that waits for blocks and analyses them, as programs over the accesses to
      the trace. Every complete block is analysed as long as the analysis keeps
      pace; what comes out when it does not. TraceModels: run without
      interruption, these programs do what the functions of Trace do, on any
      trace, undefined behaviour included.
    - IoShm: src/io.c. The ring in shared memory refines a bounded queue that
      drops its oldest message; messages are read in order. Setting up makes such
      a ring, or joins one that is there, and any sequence of calls then gets the
      answers of the queue.
    - IoShmShared: the same file as two processes run it, one that prints and
      one that reads: what is read as long as the ring does not run over, and
      the torn message when it does. IoShmThreads: any number of processes that
      set up, print and read; nobody leaves the ring, but messages can be lost.
      IoShmModels: not interrupted, the three do the same, so that none of
      them is about another program.
    - PosixBinarySemaphore: src/posix/binary_semaphore.c. The functions are
      programs over pthread operations, with two semantics: by one thread alone,
      which gives the instance of BinarySemaphore, and by threads interleaved
      ([step]), with an invariant from which linearizability, the absence of
      lost wake-ups and of deadlocks and the counting of posts and takes follow.
    - PosixMutex, PosixSpinlock, PosixSemaphore, PosixCondvar, PosixShm, PosixMq,
      PosixTask: the file of src/posix/ each is named after. Return codes are
      tied to what happened: a mutex is held exactly on the codes that say so, a
      semaphore unit or a message moves exactly on [OSAL_OK], attributes,
      and priorities round trip, an affinity is read back as far as it was
      granted, retry loops return. The laws speak of what the objects can do: a
      recursive mutex counts, a wait is woken or times out, the system grants a
      part of the processors.
    - TaskShared: creating tasks in src/posix/task.c as the creating and the new
      threads run it, the arguments being on the stack of the creating one; what
      differs from PikeOS is the class [Port]. PikeosTaskShared: the same of
      src/pikeos/task.c. TaskReturns: on both, no thread waits for ever.
    - Stm32: src/stm32/ timer, semaphores and mutex, with interrupt handlers as
      the environment that runs between two memory accesses. Stm32Shared: the
      same semaphores as the main program and interrupt handlers run them, access
      by access, with interrupts enabled or disabled by the caller, and the atomic
      semaphores they refine. Stm32Stubs: the functions
      of that back end that only check their arguments.
    - PikeosTimer, PikeosSync, PikeosTask, PikeosShm: src/pikeos/. Deadlines are
      computed in [double] there; the theorems say how exact they are. The calls
      of the kernel give every result the comments of the source list.
    - Double: the computations in [double] with fractions of Win32 and VxWorks.
    - Win32: src/win32/. Semaphores and mutexes; the milliseconds of a timed
      wait are computed in [double] with fractions, and proved exact.
    - VxWorks, VxWorksTimer: src/vxworks/. Semaphores, mutexes, condition
      variables and tasks; the timer is that of POSIX, function by function.
    - Output: the io.c of src/posix/, src/stm32/ and src/pikeos/. OutputShared:
      that of PikeOS as any number of threads run it, without deadlock.
    - Logger: src/tools/logger/main.c, the client of IoShm. ShmTest:
      src/tools/shmtest/main.c, the client of PosixShm.
    - Heap: the memory of the macros of include/libosal/queue.h, and an Iris
      separation logic for it. Queue: what the six kinds have in common, the
      operations on lists they implement and the class [Queue], the interface of
      a kind. QueueLists, QueueTails, QueueCircle: the macros, kind by kind.
      Queues: programs of macros, a traversal and CONCAT, whatever the kind.
    - ReturnCodes: what each header documents a function to return, and what the
      functions of the back ends return, all of them brought together, with a
      list of the divergences of each back end, and for each entry a system that
      shows it.

    A definition has the name of the function it models; where several are in
    one file they are in Modules ([Posix] of PosixBinarySemaphore; [Semaphore],
    [BinSem], [Mutex] and [Condvar] of PikeosSync, Win32 and VxWorks; [P4] of
    PikeosTaskShared; [Shared] of
    IoShmThreads and of the files whose names end in Shared for the functions as
    programs; [LIST], [TAILQ] and so on of the queues). A name ending in _round is one round of a loop of
    the function it is named after.

    ** What the theorems show

    A theorem numbered (C1), (C2), ... is a property of the program. C1 to C19
    are about parts of the program working together: refinements, what
    interleaved threads, processes and interrupt handlers do, and that calls
    return. The others are about single files; C32 takes the ring of src/io.c
    from its set-up to its last message. Where the code does something else than its
    headers say, the theorem states what it does: the wait that never
    returns on [EINVAL] (osal_binary_semaphore_timedwait_einval), the deadline
    that is not carried (osal_semaphore_timedwait_full_second), the policy set
    on the caller (osal_task_set_policy_acts_on_caller), the block analysed
    while it is overwritten (trace_shared_overrun), the message mixed of two
    (ring_two_printers_torn), the ring set up twice (ring_late_setup_loses), the
    mutex that is initialised twice (pikeos_puts_race), and others whose comments
    say so.

    ** Fuel

    A loop that ends on its own is proved to return for every fuel above a
    measure: the signals (or, on PikeOS, cancellations) still to come for
    interrupted calls, the readings of the clock for busy waiting. Loops that
    wait for another thread are proved partially correct ([wlp]); loops that
    never end are proved to give [NoReturn] for every fuel. In a program of
    single accesses a loop without fuel left cannot move; so the theorems on
    schedules (TaskReturns, bs_deadlock_free) speak of threads that have some,
    and count moves: a thread that has to wait for another one is out of its loop
    at the first test after the other one has done its part.

    ** What is not modelled

    The bodies that are commented out in src/stm32/; the formatting of
    vsnprintf, an uninterpreted function of IoShm, and osal_vfprintf where it
    only calls vfprintf; src/pikeos/osal.c, disabled by the preprocessor;
    src/osal.c, whose functions are empty. Interleavings are modelled of any
    number of threads of the POSIX and STM32 binary semaphores, of the STM32
    counting semaphore, of creating tasks on POSIX and PikeOS, of osal_puts on
    PikeOS and of the shared ring, and of one recording and one analysing thread; the other
    functions are modelled as one thread runs them, with other threads in the
    laws of the operating system's calls. A memory access is atomic and the
    accesses of a thread take effect in the order of the program; what a
    compiler or a processor may reorder is not modelled. *)

From stdpp Require Export base numbers option list gmap strings.
From Stdlib Require Export ZArith Lia.

Open Scope Z_scope.

(** ** Outcomes of a C function

    A C function that runs in a world [W] (the memory it touches and the
    operating system it calls) returns a value, or fails an [assert], or does
    something the C standard leaves undefined, or does not return: it blocks
    for ever or one of its loops is still running when the fuel given to the
    loop is used up. *)
Inductive outcome (W A : Type) : Type :=
  | Ret (a : A) (w : W)
  | Aborted
  | Undef
  | NoReturn.

Arguments Ret {W A} a w.
Arguments Aborted {W A}.
Arguments Undef {W A}.
Arguments NoReturn {W A}.

(** The monad of C code in a world [W]. *)
Definition C (W A : Type) : Type := W → outcome W A.

#[export] Instance C_ret {W} : MRet (C W) := λ A a w, Ret a w.
#[export] Instance C_bind {W} : MBind (C W) := λ A B f m w,
  match m w with
  | Ret a w' => f a w'
  | Aborted => Aborted
  | Undef => Undef
  | NoReturn => NoReturn
  end.

Section effects.
Context {W : Type}.

Definition aborts {A} : C W A := λ _, Aborted.
Definition undef {A} : C W A := λ _, Undef.
Definition no_return {A} : C W A := λ _, NoReturn.
Definition gets {A} (f : W → A) : C W A := λ w, Ret (f w) w.
Definition modify (f : W → W) : C W unit := λ w, Ret tt (f w).

(** [assert(e)] of <assert.h>, compiled without NDEBUG. *)
Definition c_assert (b : bool) : C W unit := if b then mret tt else aborts.

(** Reading through a pointer: [None] is the null pointer. *)
Definition deref {A} (p : option A) : C W A :=
  match p with Some a => mret a | None => undef end.

(** [assert(p != NULL)], then the object [p] points to. *)
Definition assert_ptr {A} (p : option A) : C W A :=
  match p with Some a => mret a | None => aborts end.

(** A loop: [body] goes round again with [inl] and leaves with [inr]. *)
Fixpoint cloop {S A} (fuel : nat) (body : S → C W (S + A)) (s : S) : C W A :=
  match fuel with
  | O => no_return
  | Datatypes.S n => r ← body s; match r with inl s' => cloop n body s' | inr a => mret a end
  end.

(** [for (i = i0; i < i0 + n; ++i) body], threading the locals [s]. *)
Fixpoint cfor {S} (n : nat) (i : Z) (body : Z → S → C W S) (s : S) : C W S :=
  match n with
  | O => mret s
  | Datatypes.S n' => s' ← body i s; cfor n' (i + 1) body s'
  end.
End effects.

(** ** Total and partial correctness

    [wp m Q w]: [m] started in [w] returns, without a failed assertion or
    undefined behaviour, and [Q] holds of what it returns. [wlp] also accepts
    that it does not return. *)
Definition wp {W A} (m : C W A) (Q : A → W → Prop) (w : W) : Prop :=
  match m w with Ret a w' => Q a w' | _ => False end.

Definition wlp {W A} (m : C W A) (Q : A → W → Prop) (w : W) : Prop :=
  match m w with Ret a w' => Q a w' | NoReturn => True | _ => False end.

(** ** Machine integers

    An unsigned [w]-bit value is its residue; a signed one is the residue in
    [-2^(w-1), 2^(w-1)). *)
Definition uwrap (w z : Z) : Z := z mod 2 ^ w.
Definition swrap (w z : Z) : Z := (z + 2 ^ (w - 1)) mod 2 ^ w - 2 ^ (w - 1).
Definition in_uint (w z : Z) : Prop := 0 ≤ z < 2 ^ w.
Definition in_sint (w z : Z) : Prop := - 2 ^ (w - 1) ≤ z < 2 ^ (w - 1).

Abbreviation u32 := (uwrap 32).
Abbreviation u64 := (uwrap 64).
Abbreviation s32 := (swrap 32).
Abbreviation s64 := (swrap 64).

(** [(attr & flag) != 0] *)
Definition has (attr flag : Z) : bool := negb (Z.land attr flag =? 0).

(** [if (attr & flag) acc |= bit;] *)
Definition or_if (b : bool) (bit acc : Z) : Z := if b then Z.lor acc bit else acc.

(** The value an integer has after conversion to the IEEE type [double]:
    rounded to 53 significant bits, to nearest, ties to even.  It is also the
    result of a [double] operation whose exact result is the integer [z]. *)
Definition dbl (z : Z) : Z :=
  if z <? 2 ^ 53 then z
  else
    let e := Z.log2 z - 52 in
    let q := z / 2 ^ e in
    let r := z mod 2 ^ e in
    let half := 2 ^ (e - 1) in
    (if (half <? r) || ((r =? half) && Z.odd q) then q + 1 else q) * 2 ^ e.

(** ** Automation *)

Create HintDb osal.
Create Rewrite HintDb osal.

(** Computes with the monad: unfolds binds, returns and the effects above. *)
Ltac c_unfold :=
  cbv beta iota delta [mbind C_bind mret C_ret c_assert assert_ptr deref gets modify
    aborts undef no_return] in *.

(** One case for each test the goal branches on, then linear arithmetic. *)
Ltac c_cases :=
  repeat first
    [ progress cbn beta iota in *
    | match goal with
      | |- context [if ?b then _ else _] => destruct b eqn:?
      end ].

Ltac zbool :=
  repeat match goal with
    | H : (_ =? _) = true |- _ => apply Z.eqb_eq in H
    | H : (_ =? _) = false |- _ => apply Z.eqb_neq in H
    | H : (_ <? _) = true |- _ => apply Z.ltb_lt in H
    | H : (_ <? _) = false |- _ => apply Z.ltb_ge in H
    | H : (_ <=? _) = true |- _ => apply Z.leb_le in H
    | H : (_ <=? _) = false |- _ => apply Z.leb_gt in H
    end.

(** ** Rules *)

Section rules.
Context {W : Type}.
Implicit Types w : W.

Lemma wp_ret {A} (a : A) (Q : A → W → Prop) w : Q a w → wp (mret a) Q w.
Proof. done. Qed.

Lemma wp_bind {A B} (m : C W A) (f : A → C W B) (Q : B → W → Prop) w :
  wp m (λ a w', wp (f a) Q w') w → wp (m ≫= f) Q w.
Proof. unfold wp. c_unfold. by destruct (m w). Qed.

Lemma wp_assoc {A B D} (m : C W A) (f : A → C W B) (g : B → C W D) Q w :
  wp ((m ≫= f) ≫= g) Q w → wp (m ≫= λ x, f x ≫= g) Q w.
Proof. unfold wp. c_unfold. by destruct (m w). Qed.

Lemma wp_mono {A} (m : C W A) (P Q : A → W → Prop) w :
  wp m P w → (∀ a w', P a w' → Q a w') → wp m Q w.
Proof. unfold wp. destruct (m w); naive_solver. Qed.

Lemma wlp_ret {A} (a : A) (Q : A → W → Prop) w : Q a w → wlp (mret a) Q w.
Proof. done. Qed.

Lemma wlp_bind {A B} (m : C W A) (f : A → C W B) (Q : B → W → Prop) w :
  wlp m (λ a w', wlp (f a) Q w') w → wlp (m ≫= f) Q w.
Proof. unfold wlp. c_unfold. by destruct (m w). Qed.

Lemma wlp_mono {A} (m : C W A) (P Q : A → W → Prop) w :
  wlp m P w → (∀ a w', P a w' → Q a w') → wlp m Q w.
Proof. unfold wlp. destruct (m w); naive_solver. Qed.

Lemma wp_wlp {A} (m : C W A) (Q : A → W → Prop) w : wp m Q w → wlp m Q w.
Proof. unfold wp, wlp. by destruct (m w). Qed.

Lemma wp_ret_inv {A} (m : C W A) (Q : A → W → Prop) w :
  wp m Q w → ∃ a w', m w = Ret a w' ∧ Q a w'.
Proof. unfold wp. destruct (m w); naive_solver. Qed.

(** Running the first part of a sequence. *)
Lemma bind_run {A B} (m : C W A) (f : A → C W B) a w w' :
  m w = Ret a w' → (m ≫= f) w = f a w'.
Proof. intros H. unfold mbind, C_bind. by rewrite H. Qed.

Lemma bind_undef {A B} (m : C W A) (f : A → C W B) w :
  m w = Undef → (m ≫= f) w = Undef.
Proof. intros H. unfold mbind, C_bind. by rewrite H. Qed.

(** A loop whose body keeps [I] and establishes [Q] when it leaves. *)
Lemma wlp_cloop {S A} (I : S → W → Prop) (Q : A → W → Prop) (body : S → C W (S + A)) :
  (∀ s w, I s w →
     wlp (body s) (λ r w', match r with inl s' => I s' w' | inr a => Q a w' end) w) →
  ∀ fuel s w, I s w → wlp (cloop fuel body s) Q w.
Proof.
  intros Hbody. induction fuel as [|n IH]; intros s w HI; [done|].
  simpl. apply wlp_bind. eapply wlp_mono; [by apply Hbody|].
  intros [s'|a] w' H; [by apply IH|done].
Qed.

(** A loop whose measure falls at every round returns, given more fuel than
    the measure it starts with. *)
Lemma wp_cloop {S A} (I : S → W → Prop) (m : S → W → nat) (Q : A → W → Prop)
    (body : S → C W (S + A)) :
  (∀ s w, I s w →
     wp (body s) (λ r w', match r with
                          | inl s' => I s' w' ∧ (m s' w' < m s w)%nat
                          | inr a => Q a w' end) w) →
  ∀ fuel s w, I s w → (m s w < fuel)%nat → wp (cloop fuel body s) Q w.
Proof.
  intros Hbody. induction fuel as [|n IH]; intros s w HI Hm; [lia|].
  simpl. apply wp_bind. eapply wp_mono; [by apply Hbody|].
  intros [s'|a] w' H; [|done]. destruct H. apply IH; [done|lia].
Qed.

(** More fuel does not change what a loop that returns does. *)
Lemma cloop_more {S A} (body : S → C W (S + A)) n k s w :
  cloop n body s w ≠ NoReturn → cloop (n + k) body s w = cloop n body s w.
Proof.
  revert s w. induction n as [|n IH]; intros s w H; [done|].
  simpl in *. unfold mbind, C_bind in *. destruct (body s w) as [[s'|a] w'| | |]; try done.
  by apply IH.
Qed.

(** A loop whose body always goes round again never returns. *)
Lemma cloop_diverges {S A} (I : S → W → Prop) (body : S → C W (S + A)) :
  (∀ s w, I s w → ∃ s' w', body s w = Ret (inl s') w' ∧ I s' w') →
  ∀ fuel s w, I s w → cloop fuel body s w = NoReturn.
Proof.
  intros Hbody. induction fuel as [|n IH]; intros s w HI; [done|].
  simpl. unfold mbind, C_bind. destruct (Hbody s w HI) as (s' & w' & -> & HI'). by apply IH.
Qed.

Lemma wp_cfor {S} (I : nat → S → W → Prop) n i0 (body : Z → S → C W S) s w :
  I O s w →
  (∀ k s w, (k < n)%nat → I k s w → wp (body (i0 + Z.of_nat k) s) (λ s' w', I (Datatypes.S k) s' w') w) →
  wp (cfor n i0 body s) (λ s' w', I n s' w') w.
Proof.
  revert I i0 s w. induction n as [|n IH]; intros I i0 s w H0 Hstep; [done|].
  simpl. apply wp_bind. eapply wp_mono.
  - specialize (Hstep O s w ltac:(lia) H0). by rewrite Z.add_0_r in Hstep.
  - intros s' w' H1. apply (IH (λ k, I (Datatypes.S k))); [done|].
    intros k s1 w1 Hk HI. specialize (Hstep (Datatypes.S k) s1 w1 ltac:(lia) HI).
    by replace (i0 + 1 + Z.of_nat k) with (i0 + Z.of_nat (Datatypes.S k)) by lia.
Qed.
End rules.

(** ** Integers *)

Lemma uwrap_id w z : in_uint w z → uwrap w z = z.
Proof. intros H. by apply Z.mod_small. Qed.

Lemma uwrap_range w z : 0 ≤ w → in_uint w (uwrap w z).
Proof. intros Hw. apply Z.mod_pos_bound. lia. Qed.

Lemma swrap_id w z : 0 < w → in_sint w z → swrap w z = z.
Proof.
  intros Hw H. unfold swrap, in_sint in *.
  assert (2 ^ w = 2 * 2 ^ (w - 1)) by (rewrite <- Z.pow_succ_r by lia; f_equal; lia).
  rewrite Z.mod_small; lia.
Qed.

Lemma swrap_high w z : 0 < w → 2 ^ (w - 1) ≤ z < 2 ^ w → swrap w z = z - 2 ^ w.
Proof.
  intros Hw H. unfold swrap.
  assert (2 ^ w = 2 * 2 ^ (w - 1)) by (rewrite <- Z.pow_succ_r by lia; f_equal; lia).
  rewrite <- (Z.mod_unique (z + 2 ^ (w - 1)) (2 ^ w) 1 (z + 2 ^ (w - 1) - 2 ^ w)); lia.
Qed.

Lemma uwrap_add_l w a b : uwrap w (uwrap w a + b) = uwrap w (a + b).
Proof. apply Zplus_mod_idemp_l. Qed.

Lemma uwrap_add_r w a b : uwrap w (a + uwrap w b) = uwrap w (a + b).
Proof. apply Zplus_mod_idemp_r. Qed.

(** *** Rounding to [double] *)

Lemma dbl_small z : z < 2 ^ 53 → dbl z = z.
Proof. intros H. unfold dbl. destruct (Z.ltb_spec z (2 ^ 53)); lia. Qed.

#[export] Hint Rewrite uwrap_id dbl_small using (unfold in_uint in *; lia) : osal.
#[export] Hint Resolve wp_ret uwrap_range : osal.
