(* ===== verification/Osal.v ===== *)
(** * Return codes and error numbers

    The return codes of include/libosal/osal.h.in ([osal_retval_t] is [int]),
    the build configuration the sources test with the preprocessor, and the
    error numbers of <errno.h> the POSIX back end compares with. *)

From S2P Require Import Prelude.

(** ** include/libosal/osal.h.in *)

Definition OSAL_OK : Z := 0.
Definition OSAL_ERR_OPERATION_FAILED : Z := -1.
Definition OSAL_ERR_INVALID_PARAM : Z := -2.
Definition OSAL_ERR_PERMISSION_DENIED : Z := -3.
Definition OSAL_ERR_SYSTEM_LIMIT_REACHED : Z := -4.
Definition OSAL_ERR_TIMEOUT : Z := -5.
Definition OSAL_ERR_UNAVAILABLE : Z := -6.
Definition OSAL_ERR_OUT_OF_MEMORY : Z := -7.
Definition OSAL_ERR_NOT_RECOVERABLE : Z := -8.
Definition OSAL_ERR_OWNER_DEAD : Z := -9.
Definition OSAL_ERR_DEAD_LOCK : Z := -10.
Definition OSAL_ERR_BUSY : Z := -11.
Definition OSAL_ERR_NOT_FOUND : Z := -12.
Definition OSAL_ERR_NOT_IMPLEMENTED : Z := -13.
Definition OSAL_ERR_NO_DATA : Z := -14.
Definition OSAL_ERR_INTERRUPTED : Z := -15.
Definition OSAL_ERR_MUTEX_IS_LOCKED : Z := -16.

(** ** The configuration macros LIBOSAL_HAVE_* set by the build *)

Class Config := {
  LIBOSAL_HAVE_PTHREAD_MUTEXATTR_SETROBUST : bool;
  LIBOSAL_HAVE_ENOTRECOVERABLE : bool;
  LIBOSAL_HAVE_PTHREAD_SETAFFINITY_NP : bool;
  LIBOSAL_HAVE_SYS_PRCTL_H : bool;
  LIBOSAL_HAVE_SIGSTOP : bool;
  LIBOSAL_HAVE_SIGCONT : bool;
}.

(** What CMake and configure find on Linux with glibc. *)
Definition linux_config : Config := {|
  LIBOSAL_HAVE_PTHREAD_MUTEXATTR_SETROBUST := true;
  LIBOSAL_HAVE_ENOTRECOVERABLE := true;
  LIBOSAL_HAVE_PTHREAD_SETAFFINITY_NP := true;
  LIBOSAL_HAVE_SYS_PRCTL_H := true;
  LIBOSAL_HAVE_SIGSTOP := true;
  LIBOSAL_HAVE_SIGCONT := true;
|}.

(** ** <errno.h>, with the numbers Linux gives them *)

Definition EPERM : Z := 1.
Definition ENOENT : Z := 2.
Definition ESRCH : Z := 3.
Definition EINTR : Z := 4.
Definition EBADF : Z := 9.
Definition EAGAIN : Z := 11.
Definition ENOMEM : Z := 12.
Definition EACCES : Z := 13.
Definition EBUSY : Z := 16.
Definition EEXIST : Z := 17.
Definition ENODEV : Z := 19.
Definition EINVAL : Z := 22.
Definition ENFILE : Z := 23.
Definition EMFILE : Z := 24.
Definition ETXTBSY : Z := 26.
Definition ENOSPC : Z := 28.
Definition EDEADLK : Z := 35.
Definition ENAMETOOLONG : Z := 36.
Definition ENOSYS : Z := 38.
Definition EOVERFLOW : Z := 75.
Definition EMSGSIZE : Z := 90.
Definition ETIMEDOUT : Z := 110.
Definition EOWNERDEAD : Z := 130.
Definition ENOTRECOVERABLE : Z := 131.

(** A C [switch] on an error number: the first listed case that matches, or the
    default. *)
Fixpoint switch (e : Z) (cases : list (Z * Z)) (dflt : Z) : Z :=
  match cases with
  | [] => dflt
  | (k, r) :: cases => if e =? k then r else switch e cases dflt
  end.

(** [r] is one of the codes a header lists. *)
Definition one_of (codes : list Z) (r : Z) : Prop := r ∈ codes.

(** One case for each number a [switch] compares with. *)
Ltac switch_cases :=
  cbn [switch app];
  repeat (first
    [ match goal with
      | |- context [?e =? ?k] => is_var e; destruct (Z.eqb_spec e k); [subst e|]
      end
    | match goal with
      | |- context [if ?b then _ else _] =>
          lazymatch b with context [if _ then _ else _] => fail | _ => destruct b eqn:? end
      end ]; cbn [switch app]; try done).

(** ** Lemmas *)

Lemma switch_one_of e cases dflt codes :
  Forall (one_of codes) (dflt :: cases.*2) → one_of codes (switch e cases dflt).
Proof.
  induction cases as [|[k r] cases IH]; simpl; intros H; inversion_clear H as [|?? Hd Hc]; [done|].
  inversion_clear Hc as [|?? Hr Hc'].
  destruct (e =? k); [done|]. by apply IH; constructor.
Qed.

Lemma switch_not_ok e cases dflt :
  Forall (λ r, r ≠ OSAL_OK) (dflt :: cases.*2) → switch e cases dflt ≠ OSAL_OK.
Proof.
  induction cases as [|[k r] cases IH]; simpl; intros H; inversion_clear H as [|?? Hd Hc]; [done|].
  inversion_clear Hc as [|?? Hr Hc'].
  destruct (e =? k); [done|]. by apply IH; constructor.
Qed.

Lemma switch_default e cases dflt : e ∉ cases.*1 → switch e cases dflt = dflt.
Proof.
  induction cases as [|[k r] cases IH]; simpl; [done|]. intros [Hk Hc]%not_elem_of_cons.
  apply Z.eqb_neq in Hk as ->. by apply IH.
Qed.
