(* ===== verification/Timer.v ===== *)
(** * Timers: include/libosal/timer.h

    The timer structure and the macros that add, compare and convert timers.
    The literal [1E9] of the macros has type [double], so the carry of
    [osal_timer_add] compares and subtracts in floating point: [dbl] of the
    prelude is that conversion. *)

From S2P Require Import Prelude Osal.

Definition NSEC_PER_SEC : Z := 1000000000.

Record osal_timer : Type := mk_timer { sec : Z; nsec : Z }.

(** [struct timespec] of <time.h>; both fields are signed. *)
Record timespec : Type := mk_timespec { tv_sec : Z; tv_nsec : Z }.

#[export] Instance osal_timer_eq_dec : EqDecision osal_timer.
Proof. solve_decision. Defined.

(** The carry of the two adding macros: [if (nsec >= 1E9) { ++sec; nsec -= 1E9; }]. *)
Definition timer_carry (s n : Z) : osal_timer :=
  if 1000000000 <=? dbl n then mk_timer (u64 (s + 1)) (dbl (dbl n - 1000000000))
  else mk_timer s n.

Definition osal_timer_add (a b : osal_timer) : osal_timer :=
  timer_carry (u64 (sec a + sec b)) (u64 (nsec a + nsec b)).

Definition osal_timer_add_nsec (a : osal_timer) (n : Z) : osal_timer :=
  timer_carry (sec a) (u64 (nsec a + n)).

(** The macro takes the comparison operator as an argument. *)
Definition osal_timer_cmp (a b : osal_timer) (CMP : Z → Z → bool) : bool :=
  if sec a =? sec b then CMP (nsec a) (nsec b) else CMP (sec a) (sec b).

Definition osal_timer_to_nsec (a : osal_timer) : Z :=
  u64 (u64 (sec a * NSEC_PER_SEC) + nsec a).

(** ** Specification *)

(** A timer as the operations build it: 64-bit seconds, less than one second
    of nanoseconds. *)
Definition timer_wf (t : osal_timer) : Prop := in_uint 64 (sec t) ∧ 0 ≤ nsec t < NSEC_PER_SEC.

Definition timer_wfb (t : osal_timer) : bool :=
  (0 <=? sec t) && (sec t <? 2 ^ 64) && (0 <=? nsec t) && (nsec t <? NSEC_PER_SEC).

(** The time a timer stands for, in nanoseconds, without any width. *)
Definition timer_total (t : osal_timer) : Z := sec t * NSEC_PER_SEC + nsec t.

Definition timespec_total (ts : timespec) : Z := tv_sec ts * NSEC_PER_SEC + tv_nsec ts.
Definition timespec_wf (ts : timespec) : Prop := 0 ≤ tv_sec ts < 2 ^ 63 ∧ 0 ≤ tv_nsec ts < NSEC_PER_SEC.

(** Splitting a number of nanoseconds as [osal_sleep_until_nsec] and
    [osal_timer_init] do. *)
Definition timer_of_nsec (n : Z) : osal_timer := mk_timer (n / NSEC_PER_SEC) (n mod NSEC_PER_SEC).

(** ** Lemmas *)

Lemma timer_wfb_spec t : timer_wfb t = true ↔ timer_wf t.
Proof. unfold timer_wfb, timer_wf, in_uint. rewrite !andb_true_iff, !Z.leb_le, !Z.ltb_lt. lia. Qed.

(** The exponent of the last place of a large integer's [double]. *)
Lemma dbl_exponent z : 2 ^ 53 ≤ z → 1 ≤ Z.log2 z - 52 ∧ 2 ^ 52 ≤ z / 2 ^ (Z.log2 z - 52).
Proof.
  intros H. assert (53 ≤ Z.log2 z) as Hl by (apply Z.log2_le_pow2; lia).
  split; [lia|]. apply Z.div_le_lower_bound; [lia|].
  rewrite <- Z.pow_add_r by lia. replace (Z.log2 z - 52 + 52) with (Z.log2 z) by lia.
  apply Z.log2_spec. lia.
Qed.

Lemma dbl_large z : 2 ^ 53 ≤ z → 2 ^ 53 ≤ dbl z.
Proof.
  intros H. destruct (dbl_exponent z H) as [He Hq]. unfold dbl.
  destruct (Z.ltb_spec z (2 ^ 53)); [lia|].
  set (e := Z.log2 z - 52) in *.
  assert (2 ≤ 2 ^ e) by (change 2 with (2 ^ 1) at 1; apply Z.pow_le_mono_r; lia).
  destruct (_ || _); nia.
Qed.

(** The conversion errs by at most half a unit in the last place. *)
Lemma dbl_error z : 2 ^ 53 ≤ z → Z.abs (dbl z - z) * 2 ≤ 2 ^ (Z.log2 z - 52).
Proof.
  intros H. destruct (dbl_exponent z H) as [He _]. unfold dbl.
  destruct (Z.ltb_spec z (2 ^ 53)); [lia|].
  set (e := Z.log2 z - 52) in *.
  assert (2 ^ e = 2 * 2 ^ (e - 1)) as Hh by (rewrite <- Z.pow_succ_r by lia; f_equal; lia).
  assert (0 < 2 ^ (e - 1)) by (apply Z.pow_pos_nonneg; lia).
  pose proof (Z.div_mod z (2 ^ e) ltac:(lia)) as Hdm.
  pose proof (Z.mod_pos_bound z (2 ^ e) ltac:(lia)) as Hr.
  set (q := z / 2 ^ e) in *. set (r := z mod 2 ^ e) in *.
  destruct (Z.ltb_spec (2 ^ (e - 1)) r); simpl.
  - nia.
  - destruct (Z.eqb_spec r (2 ^ (e - 1))); simpl; [destruct (Z.odd q)|]; nia.
Qed.

(** Comparing with a constant below [2^53] in [double] is comparing exactly. *)
Lemma dbl_leb c z : c < 2 ^ 53 → (c <=? dbl z) = (c <=? z).
Proof.
  intros Hc. destruct (Z.lt_ge_cases z (2 ^ 53)) as [Hz|Hz].
  - by rewrite dbl_small.
  - pose proof (dbl_large z Hz). destruct (Z.leb_spec c (dbl z)), (Z.leb_spec c z); lia.
Qed.

Lemma timer_carry_spec s n :
  0 ≤ n < 2 ^ 53 →
  timer_carry s n = if 1000000000 <=? n then mk_timer (u64 (s + 1)) (n - 1000000000) else mk_timer s n.
Proof.
  intros Hn. unfold timer_carry. rewrite dbl_leb by lia.
  destruct (1000000000 <=? n) eqn:?; [|done]. zbool.
  by rewrite (dbl_small n), dbl_small by lia.
Qed.

Lemma timer_of_nsec_wf n : in_uint 64 n → timer_wf (timer_of_nsec n).
Proof.
  unfold timer_wf, timer_of_nsec, in_uint, NSEC_PER_SEC; simpl. intros H.
  pose proof (Z.mod_pos_bound n 1000000000). split; [|lia].
  split; [apply Z.div_pos; lia|]. apply Z.div_lt_upper_bound; lia.
Qed.

Lemma timer_of_nsec_total n : timer_total (timer_of_nsec n) = n.
Proof. unfold timer_total, timer_of_nsec, NSEC_PER_SEC; simpl. pose proof (Z.div_mod n 1000000000). lia. Qed.

Lemma timer_add_total a b :
  timer_wf a → timer_wf b → sec a + sec b + 1 < 2 ^ 64 →
  timer_wf (osal_timer_add a b) ∧
  timer_total (osal_timer_add a b) = timer_total a + timer_total b.
Proof.
  unfold timer_wf, timer_total, in_uint, NSEC_PER_SEC. intros [??] [??] ?. unfold osal_timer_add.
  rewrite !uwrap_id by (unfold in_uint; lia). rewrite timer_carry_spec by lia.
  destruct (1000000000 <=? nsec a + nsec b) eqn:?; zbool; simpl.
  - rewrite uwrap_id by (unfold in_uint; lia). lia.
  - lia.
Qed.

Lemma timer_cmp_total a b (CMP : Z → Z → bool) :
  timer_wf a → timer_wf b →
  CMP ∈ [Z.ltb; Z.leb; Z.gtb; Z.geb; Z.eqb; λ x y, negb (x =? y)] →
  osal_timer_cmp a b CMP = CMP (timer_total a) (timer_total b).
Proof.
  unfold timer_wf, timer_total, in_uint, NSEC_PER_SEC. intros [??] [??] Hc. unfold osal_timer_cmp.
  rewrite !elem_of_cons, elem_of_nil in Hc.
  destruct (Z.eqb_spec (sec a) (sec b)), Hc as [->|[->|[->|[->|[->|[->|[]]]]]]]; lia.
Qed.

#[export] Hint Resolve timer_of_nsec_wf : osal.

(** ** Properties *)

(** (C28) Adding two well-formed timers gives a well-formed timer that stands for
    exactly the sum of the two times, although the carry is computed in
    [double]: no rounding, no lost second, as long as the seconds do not
    overflow 64 bits. *)
Theorem osal_timer_add_exact a b :
  timer_wf a → timer_wf b → sec a + sec b + 1 < 2 ^ 64 →
  timer_wf (osal_timer_add a b) ∧
  timer_total (osal_timer_add a b) = timer_total a + timer_total b.
Proof. apply timer_add_total. Qed.

Lemma osal_timer_add_exact_witness :
  osal_timer_add (mk_timer 7 999999999) (mk_timer 1 1) = mk_timer 9 0 ∧
  timer_total (osal_timer_add (mk_timer 7 999999999) (mk_timer 1 1)) = 7999999999 + 1000000001.
Proof.
  split; [vm_compute; reflexivity|].
  refine (proj2 (osal_timer_add_exact (mk_timer 7 999999999) (mk_timer 1 1) _ _ _));
    try apply timer_wfb_spec; vm_compute; reflexivity.
Defined.

(** Adding nanoseconds is exact and keeps the timer well formed for an
    offset of at most one second; with two seconds or more the single carry
    leaves a nanosecond field out of range, whatever the timer. *)
Theorem osal_timer_add_nsec_range a n :
  timer_wf a → sec a + 1 < 2 ^ 64 → 0 ≤ n < 2 ^ 52 →
  timer_total (osal_timer_add_nsec a n) = timer_total a + n ∧
  (n ≤ NSEC_PER_SEC → timer_wf (osal_timer_add_nsec a n)) ∧
  (2 * NSEC_PER_SEC ≤ n → ¬ timer_wf (osal_timer_add_nsec a n)).
Proof.
  unfold timer_wf, timer_total, in_uint, NSEC_PER_SEC. intros [??] ??. unfold osal_timer_add_nsec.
  rewrite !uwrap_id by (unfold in_uint; lia). rewrite timer_carry_spec by lia.
  destruct (1000000000 <=? nsec a + n) eqn:?; zbool; simpl.
  - rewrite uwrap_id by (unfold in_uint; lia). lia.
  - lia.
Qed.

Lemma osal_timer_add_nsec_range_witness :
  timer_total (osal_timer_add_nsec (mk_timer 3 5) 2500000000) = 3000000005 + 2500000000 ∧
  ¬ timer_wf (osal_timer_add_nsec (mk_timer 3 5) 2500000000).
Proof.
  destruct (osal_timer_add_nsec_range (mk_timer 3 5) 2500000000) as (H & _ & Hn).
  - apply timer_wfb_spec. vm_compute. reflexivity.
  - vm_compute. reflexivity.
  - split; [by vm_compute|vm_compute; reflexivity].
  - split; [exact H|]. apply Hn. by vm_compute.
Defined.

(** Comparing well-formed timers with any of the C comparison operators is
    comparing the times they stand for. *)
Theorem osal_timer_cmp_total a b :
  timer_wf a → timer_wf b →
  Forall (λ CMP, osal_timer_cmp a b CMP = CMP (timer_total a) (timer_total b))
    [Z.ltb; Z.leb; Z.gtb; Z.geb; Z.eqb; λ x y, negb (x =? y)].
Proof.
  intros Ha Hb. apply Forall_forall. intros CMP H. by apply timer_cmp_total.
Qed.

Lemma osal_timer_cmp_total_witness :
  osal_timer_cmp (mk_timer 1 999999999) (mk_timer 2 0) Z.ltb = true.
Proof.
  pose proof (osal_timer_cmp_total (mk_timer 1 999999999) (mk_timer 2 0)) as H.
  rewrite Forall_cons in H. destruct H as [H _].
  - apply timer_wfb_spec. vm_compute. reflexivity.
  - apply timer_wfb_spec. vm_compute. reflexivity.
  - rewrite H. reflexivity.
Defined.
