(* ===== verification/PosixTimer.v ===== *)
(** * Clocks, sleeping and timeouts: src/posix/timer.c and src/timer.c

    The C functions over the POSIX clock calls, which are parameters
    ([PosixTimeOS]); what POSIX documents of them is [PosixTimeLaws]. A pointer
    to a timer the function writes is the [option] of its old content ([None]
    is NULL) and the new content is returned. *)

From S2P Require Import Prelude Osal Timer.

(** <time.h> *)
Definition CLOCK_REALTIME : Z := 0.
Definition CLOCK_MONOTONIC : Z := 1.
Definition TIMER_ABSTIME : Z := 1.

(** The operating system, and the global variable of the file. A call that
    fills a structure returns [None] when it leaves it unwritten. *)
Class PosixTimeOS (W : Type) := {
  global_clock_id : W → Z;
  set_global_clock_id : Z → W → W;
  clock_gettime : Z → C W (Z * option timespec);
  clock_nanosleep : Z → Z → timespec → C W (Z * option timespec);
  perror : string → C W unit;
}.

Section posix_timer.
Context {W : Type} `{!PosixTimeOS W}.

(** One round of the [while (1)] of [osal_sleep], on the locals [ts], [rest]. *)
Definition osal_sleep_round (s : timespec * option timespec) :
    C W ((timespec * option timespec) + unit) :=
  let '(ts, rest) := s in
  id ← gets global_clock_id;
  '(ret, out) ← clock_nanosleep id 0 ts;
  let rest := match out with Some r => Some r | None => rest end in
  if ret =? 0 then mret (inr tt)
  else ts' ← deref rest; mret (inl (ts', rest)).

Definition osal_sleep (fuel : nat) (nsec : Z) : C W unit :=
  cloop fuel osal_sleep_round
    (mk_timespec (nsec / NSEC_PER_SEC) (nsec mod NSEC_PER_SEC), None).

(** One round of the [do ... while (local_ret == EINTR)] of [osal_sleep_until]. *)
Definition osal_sleep_until_round (ts : timespec) : C W (timespec + Z) :=
  id ← gets global_clock_id;
  '(local_ret, _) ← clock_nanosleep id TIMER_ABSTIME ts;
  mret (if local_ret =? EINTR then inl ts else inr local_ret).

Definition osal_sleep_until (fuel : nat) (timer : option osal_timer) : C W Z :=
  timer ← assert_ptr timer;
  let ts := mk_timespec (s64 (sec timer)) (s64 (nsec timer)) in
  local_ret ← cloop fuel osal_sleep_until_round ts;
  mret (if local_ret =? EINVAL then OSAL_ERR_INVALID_PARAM
        else if negb (local_ret =? 0) then OSAL_ERR_OPERATION_FAILED
        else OSAL_OK).

Definition osal_sleep_until_nsec (fuel : nat) (nsec : Z) : C W Z :=
  let abs_to := mk_timer (nsec / NSEC_PER_SEC) (nsec mod NSEC_PER_SEC) in
  osal_sleep_until fuel (Some abs_to).

Definition osal_timer_set_clock_source (clock_id : Z) : C W unit :=
  modify (set_global_clock_id clock_id).

Definition osal_timer_get_clock_source : C W Z := gets global_clock_id.

Definition osal_timer_gettime (timer : option osal_timer) : C W (Z * osal_timer) :=
  timer ← assert_ptr timer;
  id ← gets global_clock_id;
  '(r, ts) ← clock_gettime id;
  if r =? -1 then
    perror "clock_gettime";; mret (OSAL_ERR_UNAVAILABLE, timer)
  else
    ts ← deref ts;
    mret (OSAL_OK, mk_timer (u64 (tv_sec ts)) (u64 (tv_nsec ts))).

Definition osal_timer_gettime_nsec : C W Z :=
  '(local_ret, tmr) ← osal_timer_gettime (Some (mk_timer 0 0));
  mret (if local_ret =? OSAL_OK then u64 (u64 (sec tmr * NSEC_PER_SEC) + nsec tmr) else 0).

Definition osal_timer_init (timer : option osal_timer) (timeout : Z) : C W osal_timer :=
  timer ← assert_ptr timer;
  id ← gets global_clock_id;
  '(r, ts) ← clock_gettime id;
  (if r =? -1 then perror "clock_gettime" else mret tt);;
  ts ← deref ts;
  let a := mk_timer (u64 (tv_sec ts)) (u64 (tv_nsec ts)) in
  let b := mk_timer (timeout / NSEC_PER_SEC) (timeout mod NSEC_PER_SEC) in
  mret (osal_timer_add a b).

Definition osal_timer_expired (timer : option osal_timer) : C W Z :=
  timer ← assert_ptr timer;
  '(ret, act) ← osal_timer_gettime (Some (mk_timer 0 0));
  mret (if ret =? OSAL_OK then
          if osal_timer_cmp act timer Z.ltb then ret else OSAL_ERR_TIMEOUT
        else ret).
End posix_timer.

(** ** src/timer.c: busy waiting

    The file calls [osal_timer_gettime_nsec] of whichever back end is built. *)
Class OsalClock (W : Type) := gettime_nsec : C W Z.

Section busy_wait.
Context {W : Type} `{!OsalClock W}.

Definition osal_busy_wait_until_nsec (fuel : nat) (nsec : Z) : C W Z :=
  cloop fuel (λ _ : unit,
    now ← gettime_nsec;
    mret (if now <? nsec then inl tt else inr OSAL_OK)) tt.

(** [readings k w w']: [k] calls of the clock, each of them too early for
    [nsec], lead from [w] to [w']. *)
Inductive early_readings (nsec : Z) : nat → W → W → Prop :=
  | early_none w : early_readings nsec 0 w w
  | early_step k w now w1 w2 :
      gettime_nsec w = Ret now w1 → now < nsec →
      early_readings nsec k w1 w2 → early_readings nsec (S k) w w2.
End busy_wait.

#[export] Instance posix_clock {W} `{!PosixTimeOS W} : OsalClock W := osal_timer_gettime_nsec.

(** ** What POSIX documents of the clock calls *)

Definition timespec_norm (ts : timespec) : Prop := 0 ≤ tv_sec ts ∧ 0 ≤ tv_nsec ts < NSEC_PER_SEC.

Class PosixTimeLaws (W : Type) `{!PosixTimeOS W} := {
  supported : Z → Prop;
  time_of : Z → W → Z;
  (** signals still to be delivered to the thread *)
  signals : W → nat;
  clock_gettime_law id w : supported id →
    ∃ ts w', clock_gettime id w = Ret (0, Some ts) w' ∧ timespec_norm ts ∧
      timespec_total ts = time_of id w' ∧ time_of id w ≤ time_of id w' ∧
      global_clock_id w' = global_clock_id w;
  (** a relative sleep ends when the time has passed, or is interrupted and
      says what remains *)
  nanosleep_rel_law id ts w : supported id → timespec_wf ts →
    ∃ r rest w', clock_nanosleep id 0 ts w = Ret (r, rest) w' ∧
      global_clock_id w' = global_clock_id w ∧
      ((r = 0 ∧ time_of id w + timespec_total ts ≤ time_of id w') ∨
       (r = EINTR ∧ (signals w' < signals w)%nat ∧
        ∃ ts', rest = Some ts' ∧ timespec_wf ts' ∧
          time_of id w + timespec_total ts ≤ time_of id w' + timespec_total ts'));
  (** an absolute sleep *)
  nanosleep_abs_law id ts w : supported id → timespec_wf ts →
    ∃ r rest w', clock_nanosleep id TIMER_ABSTIME ts w = Ret (r, rest) w' ∧
      global_clock_id w' = global_clock_id w ∧
      ((r = 0 ∧ timespec_total ts ≤ time_of id w') ∨
       (r = EINTR ∧ (signals w' < signals w)%nat));
  nanosleep_einval_law id flags ts w : tv_nsec ts < 0 ∨ NSEC_PER_SEC ≤ tv_nsec ts →
    ∃ rest w', clock_nanosleep id flags ts w = Ret (EINVAL, rest) w';
}.

Section laws.
Context {W : Type} `{!PosixTimeOS W, !PosixTimeLaws W}.
Implicit Types w : W.

Definition clock_time w : Z := time_of (global_clock_id w) w.

(** ** Lemmas *)

Lemma gettime_spec tmr w :
  supported (global_clock_id w) →
  wp (osal_timer_gettime (Some tmr)) (λ r w',
    global_clock_id w' = global_clock_id w ∧ clock_time w ≤ clock_time w' ∧
    r.1 = OSAL_OK ∧
    (clock_time w' < 2 ^ 64 * NSEC_PER_SEC →
       timer_wf r.2 ∧ timer_total r.2 = clock_time w')) w.
Proof.
  intros Hs. unfold wp, osal_timer_gettime, clock_time. c_unfold.
  destruct (clock_gettime_law _ w Hs) as (ts & w' & -> & [??] & Htot & Hmono & Hid).
  simpl. rewrite Hid. split_and!; [done..|].
  unfold timespec_total, NSEC_PER_SEC in *. intros Hb.
  unfold timer_wf, timer_total, in_uint; simpl.
  rewrite !uwrap_id by (unfold in_uint; unfold NSEC_PER_SEC in *; lia).
  unfold NSEC_PER_SEC in *; lia.
Qed.

Lemma sleep_round_spec T ts rest w :
  supported (global_clock_id w) → timespec_wf ts → T ≤ clock_time w + timespec_total ts →
  wp (osal_sleep_round (ts, rest)) (λ r w',
    supported (global_clock_id w') ∧
    match r with
    | inl (ts', _) => timespec_wf ts' ∧ T ≤ clock_time w' + timespec_total ts' ∧
                      (signals w' < signals w)%nat
    | inr _ => T ≤ clock_time w'
    end) w.
Proof.
  intros Hs Hts HT. unfold wp, osal_sleep_round, clock_time in *. c_unfold.
  destruct (nanosleep_rel_law _ ts w Hs Hts) as (r & out & w' & -> & Hid & [[-> Ht]|(-> & Hsig & ts' & -> & Hwf & Ht)]);
    simpl; rewrite Hid; split_and!; (done || lia).
Qed.
End laws.

(** ** Properties *)

(** (C13) [osal_sleep] returns, and not before the requested time has passed on
    the configured clock, however many signals interrupt it: it needs one round
    per signal and one more. *)
Theorem osal_sleep_sleeps {W} `{!PosixTimeOS W, !PosixTimeLaws W} (w : W) fuel n :
  supported (global_clock_id w) → in_uint 64 n → (signals w < fuel)%nat →
  wp (osal_sleep fuel n) (λ _ w', clock_time w + n ≤ clock_time w') w.
Proof.
  intros Hs Hn Hf.
  eapply wp_cloop with (m := λ _ w', signals w')
    (I := λ s w', supported (global_clock_id w') ∧ timespec_wf s.1 ∧
                  clock_time w + n ≤ clock_time w' + timespec_total s.1); [|clear Hf|exact Hf].
  - intros [ts rest] w' (Hs' & Hts & HT). eapply wp_mono; [by apply (sleep_round_spec _ _ _ _ Hs' Hts HT)|].
    intros [[ts' rest']|[]] w''; simpl; tauto.
  - pose proof (timer_of_nsec_wf n Hn) as [??]. pose proof (timer_of_nsec_total n).
    unfold timer_of_nsec, timer_total, timespec_wf, timespec_total, in_uint, NSEC_PER_SEC in *; simpl in *.
    split; [done|]. split; [|lia]. split; [|lia]. split; [lia|]. apply Z.div_lt_upper_bound; lia.
Qed.


(** Splitting an absolute time in nanoseconds into seconds and nanoseconds,
    as [osal_sleep_until_nsec] does, and reading it back with
    [osal_timer_to_nsec] is the identity on all 64-bit values, and the timer is
    well formed. *)
Theorem timer_of_nsec_roundtrip n :
  in_uint 64 n → timer_wf (timer_of_nsec n) ∧ osal_timer_to_nsec (timer_of_nsec n) = n.
Proof.
  intros Hn. split; [by apply timer_of_nsec_wf|].
  unfold osal_timer_to_nsec. rewrite uwrap_add_l.
  change (sec (timer_of_nsec n) * NSEC_PER_SEC + nsec (timer_of_nsec n)) with (timer_total (timer_of_nsec n)).
  rewrite timer_of_nsec_total. by apply uwrap_id.
Qed.

Lemma timer_of_nsec_roundtrip_witness :
  osal_timer_to_nsec (timer_of_nsec 18446744073709551615) = 18446744073709551615.
Proof. apply (timer_of_nsec_roundtrip 18446744073709551615). vm_compute. by split. Defined.

(** [osal_timer_init] sets the timer to the current time of the configured
    clock plus the timeout, exactly, and well formed. *)
Theorem osal_timer_init_deadline {W} `{!PosixTimeOS W, !PosixTimeLaws W} (w : W) old timeout :
  supported (global_clock_id w) → in_uint 64 timeout →
  wp (osal_timer_init (Some old) timeout) (λ t w',
    clock_time w ≤ clock_time w' ∧
    (clock_time w' < 2 ^ 63 * NSEC_PER_SEC →
       timer_wf t ∧ timer_total t = clock_time w' + timeout)) w.
Proof.
  intros Hs Ht. unfold wp, osal_timer_init, clock_time. c_unfold.
  destruct (clock_gettime_law _ w Hs) as (ts & w' & -> & [??] & Htot & Hmono & Hid).
  simpl. rewrite Hid. split; [done|]. intros Hb. unfold timespec_total in *.
  change (mk_timer (timeout / NSEC_PER_SEC) (timeout mod NSEC_PER_SEC)) with (timer_of_nsec timeout).
  pose proof (timer_of_nsec_wf _ Ht) as Hwf. pose proof (timer_of_nsec_total timeout) as Htt.
  assert (sec (timer_of_nsec timeout) < 2 ^ 62) as Hq.
  { unfold timer_of_nsec, NSEC_PER_SEC, in_uint in *; simpl. apply Z.div_lt_upper_bound; lia. }
  rewrite !(uwrap_id 64) by (unfold in_uint; unfold NSEC_PER_SEC in *; lia).
  revert Hwf Htt Hq. generalize (timer_of_nsec timeout) as b. intros b Hwf Htt Hq.
  edestruct (timer_add_total (mk_timer (tv_sec ts) (tv_nsec ts)) b)
    as [Hw' ->]; [|done|..].
  - unfold timer_wf, in_uint; simpl. unfold NSEC_PER_SEC in *; lia.
  - simpl. unfold NSEC_PER_SEC in *; lia.
  - rewrite Htt. split; [done|]. unfold timer_total; simpl. lia.
Qed.

(** [osal_timer_expired] reports OSAL_ERR_TIMEOUT exactly when the clock has
    reached the timer, and OSAL_OK exactly when it has not. *)
Theorem osal_timer_expired_iff {W} `{!PosixTimeOS W, !PosixTimeLaws W} (w : W) t :
  supported (global_clock_id w) → timer_wf t →
  wp (osal_timer_expired (Some t)) (λ r w',
    clock_time w ≤ clock_time w' ∧
    (clock_time w' < 2 ^ 64 * NSEC_PER_SEC →
       r = if timer_total t <=? clock_time w' then OSAL_ERR_TIMEOUT else OSAL_OK)) w.
Proof.
  intros Hs Ht. unfold osal_timer_expired. apply wp_bind; simpl. apply wp_ret, wp_bind.
  eapply wp_mono; [by apply gettime_spec|].
  intros [ret act] w'; simpl. intros (Hid & Hmono & -> & Hact). apply wp_ret. simpl.
  split; [done|]. intros Hb. destruct (Hact Hb) as [Hwf <-].
  rewrite (timer_cmp_total _ _ Z.ltb Hwf Ht) by (rewrite elem_of_cons; by left).
  destruct (Z.ltb_spec (timer_total act) (timer_total t)),
    (Z.leb_spec (timer_total t) (timer_total act)); lia || done.
Qed.

(** Busy waiting returns in a world exactly when, after some early readings
    that fit the fuel, the clock reads at least the requested time there; and
    it never returns anything but OSAL_OK. *)
Theorem osal_busy_wait_until_nsec_iff {W} `{!OsalClock W} (w w2 : W) fuel n r :
  osal_busy_wait_until_nsec fuel n w = Ret r w2 ↔
  r = OSAL_OK ∧ ∃ k w1 now, (k < fuel)%nat ∧ early_readings n k w w1 ∧
    gettime_nsec w1 = Ret now w2 ∧ n ≤ now.
Proof.
  unfold osal_busy_wait_until_nsec. revert w.
  induction fuel as [|fuel IH]; intros w.
  { split; [done|]. intros (_ & k & ? & ? & ? & _). lia. }
  simpl. split.
  - c_unfold. destruct (gettime_nsec w) as [now w1| | |] eqn:Hg; try done.
    destruct (Z.ltb_spec now n).
    + rewrite IH. intros (-> & k & w3 & now' & Hk & He & Hlast & Hn). split; [done|].
      exists (S k), w3, now'. split_and!; try done; [lia|]. by eapply early_step.
    + intros [= <- <-]. split; [done|]. exists 0%nat, w, now. split_and!; [lia|constructor|done|done].
  - intros (-> & k & w1 & now & Hk & He & Hlast & Hn). destruct He as [w|k' w now' w' w1 Hg Hlt He'].
    + c_unfold. rewrite Hlast. by destruct (Z.ltb_spec now n); [lia|].
    + c_unfold. rewrite Hg. destruct (Z.ltb_spec now' n); [|lia].
      apply IH. split; [done|]. exists k', w1, now. split_and!; (done || lia).
Qed.

(** When the configured clock cannot be read, [osal_timer_gettime_nsec]
    returns 0, so busy waiting for any later time never returns, whatever the
    fuel: the error is not reported. *)
Theorem osal_busy_wait_bad_clock {W} `{!PosixTimeOS W} (w : W) fuel n :
  (∀ id w, ∃ ts w', clock_gettime id w = Ret (-1, ts) w') →
  (∀ s w, ∃ w', perror s w = Ret tt w') →
  0 < n → osal_busy_wait_until_nsec fuel n w = NoReturn.
Proof.
  intros Hbad Hperr Hn. apply (cloop_diverges (λ _ _, True)); [|done].
  intros [] w0 _. unfold gettime_nsec, posix_clock, osal_timer_gettime_nsec, osal_timer_gettime.
  c_unfold. destruct (Hbad (global_clock_id w0) w0) as (ts & w1 & ->). simpl.
  destruct (Hperr "clock_gettime"%string w1) as [w2 ->]. simpl.
  exists tt, w2. by destruct (Z.ltb_spec 0 n); [|lia].
Qed.

(** ** A concrete clock, for the witnesses *)

Module Sim.
Record world : Type := mk_world { clk : Z; now : N; sigs : nat }.

(** A thread that is interrupted [sigs] times, each time before it has slept. *)
#[global] Instance os : PosixTimeOS world := {|
  global_clock_id := clk;
  set_global_clock_id id w := mk_world id (now w) (sigs w);
  clock_gettime id w :=
    Ret (0, Some (mk_timespec (Z.of_N (now w) / NSEC_PER_SEC) (Z.of_N (now w) mod NSEC_PER_SEC))) w;
  clock_nanosleep id flags ts w :=
    if (tv_nsec ts <? 0) || (NSEC_PER_SEC <=? tv_nsec ts) then Ret (EINVAL, None) w
    else match sigs w with
         | S k => Ret (EINTR, Some ts) (mk_world (clk w) (now w) k)
         | O =>
             let t := Z.to_N (timespec_total ts) in
             Ret (0, None)
               (mk_world (clk w) (if (flags =? TIMER_ABSTIME)%Z then N.max (now w) t else N.add (now w) t) 0)
         end;
  perror _ w := Ret tt w;
|}.

#[global] Instance laws : PosixTimeLaws world.
Proof.
  refine {| supported := λ _, True; time_of := λ _ w, Z.of_N (now w); signals := sigs |}.
  - intros id w _. eexists _, w. split; [done|]. pose proof (N2Z.is_nonneg (now w)).
    pose proof (timer_of_nsec_total (Z.of_N (now w))) as Htot.
    pose proof (Z.mod_pos_bound (Z.of_N (now w)) 1000000000 ltac:(lia)).
    split; [split; simpl; [apply Z.div_pos; unfold NSEC_PER_SEC; lia|unfold NSEC_PER_SEC; lia]|].
    split; [exact Htot|]. by split.
  - intros id ts w _ Hts. pose proof Hts as [??]. unfold clock_nanosleep, os.
    destruct (Z.ltb_spec (tv_nsec ts) 0), (Z.leb_spec NSEC_PER_SEC (tv_nsec ts)); simpl; try lia.
    unfold timespec_total, NSEC_PER_SEC in *.
    destruct (sigs w) as [|k] eqn:Hk; do 3 eexists; (split; [done|]); (split; [done|]); simpl.
    + left. split; [done|]. rewrite N2Z.inj_add, Z2N.id by lia. lia.
    + right. split; [done|]. split; [lia|]. exists ts. split_and!; (done || lia).
  - intros id ts w _ Hts. pose proof Hts as [??]. unfold clock_nanosleep, os.
    destruct (Z.ltb_spec (tv_nsec ts) 0), (Z.leb_spec NSEC_PER_SEC (tv_nsec ts)); simpl; try lia.
    unfold timespec_total, NSEC_PER_SEC in *.
    destruct (sigs w) as [|k] eqn:Hk; do 3 eexists; (split; [done|]); (split; [done|]); simpl.
    + left. split; [done|]. rewrite N2Z.inj_max, Z2N.id by lia. lia.
    + right. split; [done|]. lia.
  - intros id flags ts w H. exists None, w. unfold clock_nanosleep, os.
    by destruct (Z.ltb_spec (tv_nsec ts) 0), (Z.leb_spec NSEC_PER_SEC (tv_nsec ts)); simpl; try lia.
Defined.
End Sim.

Lemma osal_sleep_sleeps_witness :
  osal_sleep 3 2500000000 (Sim.mk_world CLOCK_MONOTONIC 7 2) = Ret tt (Sim.mk_world CLOCK_MONOTONIC 2500000007 0) ∧
  wp (osal_sleep 3 2500000000) (λ _ w', 7 + 2500000000 ≤ clock_time w') (Sim.mk_world CLOCK_MONOTONIC 7 2).
Proof.
  split; [vm_compute; reflexivity|].
  refine (osal_sleep_sleeps (Sim.mk_world CLOCK_MONOTONIC 7 2) 3 2500000000 _ _ _); [exact I|by vm_compute|simpl; lia].
Defined.


Lemma osal_timer_init_deadline_witness :
  wp (osal_timer_init (Some (mk_timer 0 0)) 2000000000) (λ t w',
    clock_time (Sim.mk_world CLOCK_REALTIME 999999999 0) ≤ clock_time w' ∧
    (clock_time w' < 2 ^ 63 * NSEC_PER_SEC →
       timer_wf t ∧ timer_total t = clock_time w' + 2000000000))
    (Sim.mk_world CLOCK_REALTIME 999999999 0).
Proof.
  refine (osal_timer_init_deadline (Sim.mk_world CLOCK_REALTIME 999999999 0) (mk_timer 0 0) 2000000000 _ _); [exact I|by vm_compute].
Defined.

Lemma osal_timer_expired_iff_witness :
  wp (osal_timer_expired (Some (mk_timer 1 0))) (λ r w',
    clock_time (Sim.mk_world CLOCK_REALTIME 999999999 0) ≤ clock_time w' ∧
    (clock_time w' < 2 ^ 64 * NSEC_PER_SEC →
       r = if 1000000000 <=? clock_time w' then OSAL_ERR_TIMEOUT else OSAL_OK))
    (Sim.mk_world CLOCK_REALTIME 999999999 0).
Proof.
  refine (osal_timer_expired_iff (Sim.mk_world CLOCK_REALTIME 999999999 0) (mk_timer 1 0) _ _);
    [exact I|apply timer_wfb_spec; vm_compute; reflexivity].
Defined.

(** A machine whose clock cannot be read. *)
Definition broken_clock_os : PosixTimeOS unit := {|
  global_clock_id _ := 77;
  set_global_clock_id _ w := w;
  clock_gettime _ w := Ret (-1, None) w;
  clock_nanosleep _ _ _ w := Ret (EINVAL, None) w;
  perror _ w := Ret tt w;
|}.

Lemma osal_busy_wait_bad_clock_witness :
  @osal_busy_wait_until_nsec unit (@posix_clock unit broken_clock_os) 1000 5 tt = NoReturn.
Proof.
  apply (@osal_busy_wait_bad_clock unit broken_clock_os); [|by eexists|lia].
  intros id []. by exists None, tt.
Defined.
