(* ===== verification/BinarySemaphore.v ===== *)
(** * The binary semaphore the rest of the library uses

    include/libosal/binary_semaphore.h as an interface: the operations of a
    back end ([BinarySemaphore]) and what its clients rely on
    ([BinarySemaphoreSpec]). A back end's file gives the instance; the clients
    (src/trace.c) are verified against the interface. *)

From S2P Require Import Prelude Osal Timer.

(** Addresses of objects. *)
Abbreviation loc := positive.

Class BinarySemaphore (W : Type) := {
  osal_binary_semaphore_init : option loc → C W Z;
  osal_binary_semaphore_post : option loc → C W Z;
  osal_binary_semaphore_trywait : option loc → C W Z;
  osal_binary_semaphore_timedwait : option loc → option osal_timer → C W Z;
}.

(** Seen by one thread, between two of its calls: [bs_posted l w] says that the
    semaphore at [l] is up in [w]. *)
Class BinarySemaphoreSpec (W : Type) `{!BinarySemaphore W} := {
  bs_ready : loc → W → Prop;
  bs_posted : loc → W → bool;
  bs_init_spec l w :
    wp (osal_binary_semaphore_init (Some l)) (λ r w',
      r = OSAL_OK → bs_ready l w' ∧ bs_posted l w' = false) w;
  bs_post_spec l w : bs_ready l w →
    wp (osal_binary_semaphore_post (Some l)) (λ r w',
      r = OSAL_OK ∧ bs_ready l w' ∧ bs_posted l w' = true) w;
  bs_trywait_spec l w : bs_ready l w →
    wp (osal_binary_semaphore_trywait (Some l)) (λ r w',
      bs_ready l w' ∧ bs_posted l w' = false ∧
      r = if bs_posted l w then OSAL_OK else OSAL_ERR_BUSY) w;
}.
