(* ===== verification/Programs.v ===== *)
(** * Programs over single accesses, and two processes that interleave

    A function that shares memory with another thread or process is a tree of
    the accesses it makes, one after the other ([prog]); an access answers with
    an integer. Two such processes run in turns ([step]). Each is verified by
    itself against what the other one may do between two accesses ([safe],
    rely-guarantee), and [pair_reachable] puts the two proofs together. *)

From S2P Require Import Prelude.
Open Scope list_scope.

(** ** Programs *)
Inductive prog (E A : Type) : Type :=
  | Done (a : A)
  | Vis (e : E) (k : Z → prog E A)
  | AssertFailed
  | OutOfFuel.
Arguments Done {E A} a.
Arguments Vis {E A} e k.
Arguments AssertFailed {E A}.
Arguments OutOfFuel {E A}.

Fixpoint prog_bind {E A B} (f : A → prog E B) (p : prog E A) : prog E B :=
  match p with
  | Done a => f a
  | Vis e k => Vis e (λ r, prog_bind f (k r))
  | AssertFailed => AssertFailed
  | OutOfFuel => OutOfFuel
  end.

#[export] Instance prog_ret {E} : MRet (prog E) := λ A a, Done a.
#[export] Instance prog_mbind {E} : MBind (prog E) := λ A B f p, prog_bind f p.

Definition emit {E} (e : E) : prog E Z := Vis e Done.

(** A loop: [body] goes round again with [None] and leaves with [Some]. *)
Fixpoint ploop {E A} (fuel : nat) (body : prog E (option A)) : prog E A :=
  match fuel with
  | O => OutOfFuel
  | S n => r ← body; match r with None => ploop n body | Some a => mret a end
  end.

(** [for (i = i0; i < i0 + n; ++i) body], threading the locals [s]. *)
Fixpoint pfor {E S} (n : nat) (i : Z) (body : Z → S → prog E S) (s : S) : prog E S :=
  match n with
  | O => mret s
  | Datatypes.S n' => s' ← body i s; pfor n' (i + 1) body s'
  end.

(** ** A program that is not interrupted *)
Section run.
Context {E R : Type} (access : E → R → option (Z * R)).

Fixpoint run {A} (p : prog E A) (r : R) : option (A * R) :=
  match p with
  | Done x => Some (x, r)
  | Vis e k => '(a, r') ← access e r; run (k a) r'
  | AssertFailed | OutOfFuel => None
  end.

Lemma run_bind {A B} (p : prog E A) (f : A → prog E B) r :
  run (p ≫= f) r = '(x, r') ← run p r; run (f x) r'.
Proof.
  revert r. induction p as [x|e k IH| |]; intros r; [done| |done..]. simpl.
  destruct (access e r) as [[a r']|]; [|done]. apply IH.
Qed.
End run.

(** ** A program that ends within [n] accesses, whatever they answer *)
Fixpoint ends_within {E A} (n : nat) (p : prog E A) {struct p} : Prop :=
  match p with
  | Done _ => True
  | Vis _ k => match n with O => False | S n' => ∀ a, ends_within n' (k a) end
  | AssertFailed | OutOfFuel => False
  end.

Lemma ends_within_mono {E A} n m (p : prog E A) : (n ≤ m)%nat → ends_within n p → ends_within m p.
Proof.
  revert n m. induction p as [x|e k IH| |]; intros n m Hnm Hp; [done| |done..].
  destruct n as [|n]; [done|]. destruct m as [|m]; [lia|]. simpl in *. intros a. apply (IH a n); [lia|apply Hp].
Qed.

Lemma ends_within_bind {E A B} n m (p : prog E A) (f : A → prog E B) :
  ends_within n p → (∀ x, ends_within m (f x)) → ends_within (n + m) (p ≫= f).
Proof.
  intros Hp Hf. revert n Hp. induction p as [x|e k IH| |]; intros n Hp; simpl in Hp; [| |done..].
  - apply (ends_within_mono m); [lia|apply Hf].
  - destruct n as [|n]; [done|]. intros a. by apply IH.
Qed.

(** ** One process against what the other may do

    [R] is the memory, [G] what only the proof keeps track of. [rely x y]: from
    [x] the other process may have led to [y]; [guar]: what an access of this
    one may do. An access that is not [enabled] waits. *)
Definition always {E R} : E → R → bool := λ _ _, true.

Section safe.
Context {E R G : Type} (access : E → R → option (Z * R)) (enabled : E → R → bool) (inv : R → G → Prop).
Context (rely guar : R * G → R * G → Prop) `{!PreOrder rely}.

(** The rest [p] of a call, which stands at [r], never leaves the memory, does
    only what is guaranteed, and ends with [Φ]. *)
Fixpoint safe {A} (Φ : A → R → G → Prop) (p : prog E A) (r : R) (g : G) : Prop :=
  match p with
  | Done x => Φ x r g
  | Vis e c => ∀ r1 g1, rely (r, g) (r1, g1) → inv r1 g1 → enabled e r1 = true →
      ∃ a r2 g2, access e r1 = Some (a, r2) ∧ inv r2 g2 ∧ guar (r1, g1) (r2, g2) ∧ safe Φ (c a) r2 g2
  | AssertFailed => False
  | OutOfFuel => True
  end.

Lemma safe_mono {A} (Φ Ψ : A → R → G → Prop) p r g :
  safe Φ p r g → (∀ x r g, Φ x r g → Ψ x r g) → safe Ψ p r g.
Proof.
  intros H HΦ. revert r g H. induction p as [x|e c IH| |]; intros r g H; [by apply HΦ| |done..].
  intros r1 g1 Hr Hi Hen. destruct (H r1 g1 Hr Hi Hen) as (a & r2 & g2 & ? & ? & ? & ?).
  exists a, r2, g2. split_and!; [done..|]. by apply IH.
Qed.

Lemma safe_bind {A B} Φ (p : prog E A) (f : A → prog E B) r g :
  safe (λ x, safe Φ (f x)) p r g → safe Φ (p ≫= f) r g.
Proof.
  revert r g. induction p as [x|e c IH| |]; intros r g H; [done| |done..].
  intros r1 g1 Hr Hi Hen. destruct (H r1 g1 Hr Hi Hen) as (a & r2 & g2 & ? & ? & ? & ?).
  exists a, r2, g2. split_and!; [done..|]. by apply IH.
Qed.

(** What holds of a process still holds when the other one has run. *)
Lemma safe_rely {A} (Φ : A → R → G → Prop) p r g r1 g1 :
  (∀ x, Φ x r g → Φ x r1 g1) → safe Φ p r g → rely (r, g) (r1, g1) → safe Φ p r1 g1.
Proof.
  destruct p as [x|e c| |]; intros HΦ H Hr; [by apply HΦ| |done..].
  intros r2 g2 Hr2 Hi. apply H; [by etrans|done].
Qed.

Lemma safe_emit {A} Φ (e : E) (f : Z → prog E A) r g :
  (∀ r1 g1, rely (r, g) (r1, g1) → inv r1 g1 → enabled e r1 = true →
     ∃ a r2 g2, access e r1 = Some (a, r2) ∧ inv r2 g2 ∧ guar (r1, g1) (r2, g2) ∧ safe Φ (f a) r2 g2) →
  safe Φ (emit e ≫= f) r g.
Proof. done. Qed.

(** An access whose answer [v] and effect [F] follow from what is known of the
    memory, [K], which the other process does not change. *)
Lemma safe_access {A} (K K' : R → Prop) Φ (e : E) v (F : R → R) (f : Z → prog E A) r g g' :
  (∀ r g r1 g1, K r → rely (r, g) (r1, g1) → K r1 ∧ g1 = g) →
  (∀ r1, K r1 → inv r1 g → enabled e r1 = true →
     access e r1 = Some (v, F r1) ∧ inv (F r1) g' ∧ guar (r1, g) (F r1, g') ∧ K' (F r1)) →
  K r → (∀ r2, K' r2 → safe Φ (f v) r2 g') → safe Φ (emit e ≫= f) r g.
Proof.
  intros Hstable He HK Hf r1 g1 Hr Hi Hen. destruct (Hstable _ _ _ _ HK Hr) as [HK1 ->].
  destruct (He r1 HK1 Hi Hen) as (Ha & Hi2 & Hg & HK2). exists v, (F r1), g'. split_and!; [done..|]. by apply Hf.
Qed.

Lemma safe_pfor {S} (I : nat → S → R → G → Prop) n i0 (body : Z → S → prog E S) s r g :
  I O s r g →
  (∀ k s r g, (k < n)%nat → I k s r g → safe (I (Datatypes.S k)) (body (i0 + Z.of_nat k) s) r g) →
  safe (I n) (pfor n i0 body s) r g.
Proof.
  revert I i0 s r g. induction n as [|n IH]; intros I i0 s r g H0 Hstep; [done|].
  simpl. apply safe_bind. eapply safe_mono.
  - specialize (Hstep O s r g ltac:(lia) H0). by rewrite Z.add_0_r in Hstep.
  - intros s' r' g' H1. apply (IH (λ k, I (Datatypes.S k))); [done|].
    intros k s1 r1 g1 Hk HI. specialize (Hstep (Datatypes.S k) s1 r1 g1 ltac:(lia) HI).
    by replace (i0 + 1 + Z.of_nat k) with (i0 + Z.of_nat (Datatypes.S k)) by lia.
Qed.

Lemma safe_ploop {A} (I : R → G → Prop) (Φ : A → R → G → Prop) fuel (body : prog E (option A)) r g :
  I r g → (∀ r g, I r g → safe (λ x r g, match x with None => I r g | Some a => Φ a r g end) body r g) →
  safe Φ (ploop fuel body) r g.
Proof.
  intros HI Hbody. revert r g HI. induction fuel as [|n IH]; intros r g HI; [done|].
  simpl. apply safe_bind. eapply safe_mono; [by apply Hbody|]. intros [a|] r1 g1 H1; [done|by apply IH].
Qed.
End safe.

(** ** Two processes

    The first one makes the calls [call1 t] for the [t] of a list; it starts a
    call only when [may] of the memory. The second one makes calls [call2 c] of
    its choice, and collects what they return. *)
Section pair.
Context {E R T A C B : Type} (access : E → R → option (Z * R)).
Context (call1 : T → prog E A) (call2 : C → prog E B).

(** Each process is inside of a call or between two. *)
Record state : Type := mk_state {
  mem : R;
  todo : list T;
  first : option (prog E A);
  second : option (prog E B);
  got : list B;
}.

Inductive step (may : R → bool) : state → state → Prop :=
  | FirstStart r t ts q g :
      may r = true → step may (mk_state r (t :: ts) None q g) (mk_state r ts (Some (call1 t)) q g)
  | FirstStep r ts e k q g a r' :
      access e r = Some (a, r') →
      step may (mk_state r ts (Some (Vis e k)) q g) (mk_state r' ts (Some (k a)) q g)
  | FirstDone r ts x q g : step may (mk_state r ts (Some (Done x)) q g) (mk_state r ts None q g)
  | SecondStart r ts p c g : step may (mk_state r ts p None g) (mk_state r ts p (Some (call2 c)) g)
  | SecondStep r ts p e k g a r' :
      access e r = Some (a, r') →
      step may (mk_state r ts p (Some (Vis e k)) g) (mk_state r' ts p (Some (k a)) g)
  | SecondDone r ts p x g :
      step may (mk_state r ts p (Some (Done x)) g) (mk_state r ts p None (g ++ [x])).

(** A process is about to make an access that is not there. *)
Definition out_of_bounds (s : state) : Prop :=
  (∃ e k, first s = Some (Vis e k) ∧ access e (mem s) = None) ∨
  (∃ e k, second s = Some (Vis e k) ∧ access e (mem s) = None).

(** *** Schedules, to run the processes on concrete inputs *)
Inductive move : Type := First | Second (c : C).

Definition exec (may : R → bool) (m : move) (s : state) : option state :=
  match m with
  | First =>
      match first s with
      | None =>
          match todo s with
          | t :: ts => if may (mem s) then Some (mk_state (mem s) ts (Some (call1 t)) (second s) (got s)) else None
          | [] => None
          end
      | Some (Vis e k) => '(a, r) ← access e (mem s); Some (mk_state r (todo s) (Some (k a)) (second s) (got s))
      | Some (Done _) => Some (mk_state (mem s) (todo s) None (second s) (got s))
      | Some _ => None
      end
  | Second c =>
      match second s with
      | None => Some (mk_state (mem s) (todo s) (first s) (Some (call2 c)) (got s))
      | Some (Vis e k) => '(a, r) ← access e (mem s); Some (mk_state r (todo s) (first s) (Some (k a)) (got s))
      | Some (Done x) => Some (mk_state (mem s) (todo s) (first s) None (got s ++ [x]))
      | Some _ => None
      end
  end.

Fixpoint schedule (may : R → bool) (l : list move) (s : state) : option state :=
  match l with [] => Some s | m :: l => s ← exec may m s; schedule may l s end.

Lemma exec_step may m s s' : exec may m s = Some s' → step may s s'.
Proof.
  destruct s as [r ts p q g], m as [|c]; simpl.
  - destruct p as [[x|e k| |]|]; try done.
    + intros [= <-]. constructor.
    + destruct (access e r) as [[a r']|] eqn:Ha; intros [= <-]. by constructor.
    + destruct ts as [|t ts]; [done|]. destruct (may r) eqn:Hm; intros [= <-]. by constructor.
  - destruct q as [[x|e k| |]|]; try done.
    + intros [= <-]. constructor.
    + destruct (access e r) as [[a r']|] eqn:Ha; intros [= <-]. by constructor.
    + intros [= <-]. constructor.
Qed.

Lemma schedule_reachable may l s s' : schedule may l s = Some s' → rtc (step may) s s'.
Proof.
  revert s. induction l as [|m l IH]; simpl; intros s H; [by injection H as ->|].
  destruct (exec may m s) as [s1|] eqn:Hm; [|done]. eapply rtc_l; [by eapply exec_step|]. by apply IH.
Qed.

(** *** The two proofs together

    What one process relies on is what the other one guarantees. [idle1 ts]
    holds between two calls of the first process that has [ts] left to do,
    [idle2 g] between two calls of the second one that has got [g]. *)
Section proof.
Context {G : Type} (inv : R → G → Prop) (rely1 rely2 : R * G → R * G → Prop).
Context `{!PreOrder rely1, !PreOrder rely2} (may : R → bool).
Context (idle1 : list T → R → G → Prop) (idle2 : list B → R → G → Prop).

Abbreviation safe1 := (safe access always inv rely1 rely2).
Abbreviation safe2 := (safe access always inv rely2 rely1).

Context (idle1_rely : ∀ ts r g r1 g1, idle1 ts r g → rely1 (r, g) (r1, g1) → idle1 ts r1 g1).
Context (idle2_rely : ∀ l r g r1 g1, idle2 l r g → rely2 (r, g) (r1, g1) → idle2 l r1 g1).
Context (call1_safe : ∀ t ts r g, inv r g → idle1 (t :: ts) r g → may r = true →
  safe1 (λ _, idle1 ts) (call1 t) r g).
Context (call2_safe : ∀ c l r g, inv r g → idle2 l r g → safe2 (λ x, idle2 (l ++ [x])) (call2 c) r g).

Definition first_inv (p : option (prog E A)) (ts : list T) : R → G → Prop :=
  match p with None => idle1 ts | Some p => safe1 (λ _, idle1 ts) p end.

(** What it has got was right when the present call began. *)
Definition second_inv (q : option (prog E B)) (l : list B) (r : R) (g : G) : Prop :=
  match q with
  | None => idle2 l r g
  | Some q => safe2 (λ x, idle2 (l ++ [x])) q r g ∧ ∃ r0 g0, inv r0 g0 ∧ idle2 l r0 g0
  end.

Definition pair_inv (s : state) : Prop := ∃ g,
  inv (mem s) g ∧ first_inv (first s) (todo s) (mem s) g ∧ second_inv (second s) (got s) (mem s) g.

Lemma first_inv_rely p ts r g r1 g1 : first_inv p ts r g → rely1 (r, g) (r1, g1) → first_inv p ts r1 g1.
Proof.
  destruct p as [p|]; simpl; [|apply idle1_rely]. intros H Hr. eapply safe_rely; [done| |done|done].
  intros _ Hi. by eapply idle1_rely.
Qed.

Lemma second_inv_rely q l r g r1 g1 : second_inv q l r g → rely2 (r, g) (r1, g1) → second_inv q l r1 g1.
Proof.
  destruct q as [q|]; simpl; [|apply idle2_rely]. intros [H Hg] Hr. split; [|done].
  eapply safe_rely; [done| |done|done]. intros x Hi. by eapply idle2_rely.
Qed.

Lemma pair_step s s' : pair_inv s → step may s s' → pair_inv s'.
Proof.
  intros (gh & Hinv & H1 & H2) Hstep. destruct Hstep as
    [r t ts q l Hmay|r ts e k q l a r' Ha|r ts x q l|r ts p c l|r ts p e k l a r' Ha|r ts p x l]; simpl in *.
  - exists gh. split; [done|]. split; [by apply call1_safe|done].
  - destruct (H1 r gh ltac:(reflexivity) Hinv eq_refl) as (a' & r2 & g2 & Ha' & Hinv2 & Hg & Hp).
    rewrite Ha in Ha'. injection Ha' as <- <-. exists g2. split; [done|]. split; [done|]. by eapply second_inv_rely.
  - by exists gh.
  - exists gh. split; [done|]. split; [done|]. split; [by apply call2_safe|by exists r, gh].
  - destruct H2 as [H2 Hgot]. destruct (H2 r gh ltac:(reflexivity) Hinv eq_refl) as (a' & r2 & g2 & Ha' & Hinv2 & Hg & Hq).
    rewrite Ha in Ha'. injection Ha' as <- <-. exists g2. split; [done|]. split; [by eapply first_inv_rely|done].
  - exists gh. by destruct H2.
Qed.

Lemma pair_reachable s s' : pair_inv s → rtc (step may) s s' → pair_inv s'.
Proof. intros Hs Hsteps. induction Hsteps as [|s s1 s2 Hstep _ IH]; [done|]. by eapply IH, pair_step. Qed.

Lemma pair_got s : pair_inv s → ∃ r g, inv r g ∧ idle2 (got s) r g.
Proof.
  intros (gh & Hinv & _ & H2). destruct (second s) as [q|]; [by destruct H2|by exists (mem s), gh].
Qed.

Lemma pair_in_bounds s : pair_inv s → ¬ out_of_bounds s.
Proof.
  intros (gh & Hinv & H1 & H2) [(e & k & Hs & Ha)|(e & k & Hs & Ha)].
  - rewrite Hs in H1. destruct (H1 _ gh ltac:(reflexivity) Hinv eq_refl) as (a & r & g2 & Ha' & _). congruence.
  - rewrite Hs in H2. destruct H2 as [H2 _]. destruct (H2 _ gh ltac:(reflexivity) Hinv eq_refl) as (a & r & g2 & Ha' & _). congruence.
Qed.
End proof.
End pair.

Arguments mk_state {E R T A B} mem todo first second got.
Arguments First {C}.
Arguments Second {C} c.
