(* ===== verification/Threads.v ===== *)
(** * Any number of threads, and the objects they implement

    Threads call functions, which are programs over single accesses (Programs),
    in any interleaving ([tstep]); the calls and what they return are the
    [history]. Each function is verified by itself against what the other
    threads may do between two accesses ([threads_reachable]).

    An atomic object ([ostep]) serves a call in one step, some time between the
    call and its return. A set of functions is linearizable when each of their
    histories is one of such an object; [linearizable] is the rule by which that
    is proved: the step in which a call takes effect is found for each function
    by itself. *)

From S2P Require Import Prelude Programs.
Open Scope list_scope.

Inductive action (C B : Type) : Type :=
  | Invoke (t : nat) (c : C)
  | Return (t : nat) (b : B).
Arguments Invoke {C B} t c.
Arguments Return {C B} t b.

(** ** Threads *)
Section threads.
Context {E R C B : Type}.

(** Accesses that are not [enabled] wait. A call begins when [start] allows it;
    [start] may write variables that are not of the program. *)
Context (access : nat → E → R → option (Z * R)) (enabled : nat → E → R → bool).
Context (call : nat → C → prog E B) (start : nat → C → R → option R).

Record threads : Type := mk_threads {
  memory : R;
  running : gmap nat (prog E B);
  history : list (action C B);
}.

Inductive tstep : threads → threads → Prop :=
  | Starts t c r r' P h :
      P !! t = None → start t c r = Some r' →
      tstep (mk_threads r P h) (mk_threads r' (<[t := call t c]> P) (h ++ [Invoke t c]))
  | Accesses t e k a r r' P h :
      P !! t = Some (Vis e k) → enabled t e r = true → access t e r = Some (a, r') →
      tstep (mk_threads r P h) (mk_threads r' (<[t := k a]> P) h)
  | Returns t b r P h :
      P !! t = Some (Done b) →
      tstep (mk_threads r P h) (mk_threads r (delete t P) (h ++ [Return t b])).

(** A thread is about to make an access that is undefined, or an assertion of
    it has failed. *)
Definition faulty (s : threads) : Prop :=
  ∃ t p, running s !! t = Some p ∧
    match p with
    | Vis e _ => enabled t e (memory s) = true ∧ access t e (memory s) = None
    | AssertFailed => True
    | _ => False
    end.

(** *** Schedules, to run threads on concrete inputs

    A thread that is in no call starts the one that is given. *)
Definition texec (m : nat * option C) (s : threads) : option threads :=
  let '(t, c) := m in
  match running s !! t with
  | None =>
      c ← c; r ← start t c (memory s);
      Some (mk_threads r (<[t := call t c]> (running s)) (history s ++ [Invoke t c]))
  | Some (Vis e k) =>
      if enabled t e (memory s) then
        '(a, r) ← access t e (memory s); Some (mk_threads r (<[t := k a]> (running s)) (history s))
      else None
  | Some (Done b) => Some (mk_threads (memory s) (delete t (running s)) (history s ++ [Return t b]))
  | Some _ => None
  end.

Fixpoint tschedule (l : list (nat * option C)) (s : threads) : option threads :=
  match l with [] => Some s | m :: l => s ← texec m s; tschedule l s end.

Lemma texec_step m s s' : texec m s = Some s' → tstep s s'.
Proof.
  destruct m as [t c], s as [r P h]; simpl. destruct (P !! t) as [[b|e k| |]|] eqn:HP; try done.
  - intros [= <-]. by constructor.
  - destruct (enabled t e r) eqn:He; [|done]. destruct (access t e r) as [[a r']|] eqn:Ha; [|done].
    intros [= <-]. by econstructor.
  - destruct c as [c|]; [|done]. simpl. destruct (start t c r) as [r'|] eqn:Hs; [|done]. intros [= <-].
    by constructor.
Qed.

Lemma tschedule_reachable l s s' : tschedule l s = Some s' → rtc tstep s s'.
Proof.
  revert s. induction l as [|m l IH]; simpl; intros s H; [by injection H as ->|].
  destruct (texec m s) as [s1|] eqn:Hm; [|done]. eapply rtc_l; [by eapply texec_step|]. by apply IH.
Qed.

(** *** Calls that end

    A thread whose call ends within [n] accesses has returned after [n] of its
    own moves and one more, whatever the other threads do. *)
Lemma texec_history m s s' : texec m s = Some s' → ∃ h, history s' = history s ++ h.
Proof.
  intros [t c r r' P h|t e k a r r' P h|t b r P h]%texec_step; simpl; eauto. exists []. by rewrite app_nil_r.
Qed.

Lemma tschedule_history l s s' : tschedule l s = Some s' → ∃ h, history s' = history s ++ h.
Proof.
  revert s. induction l as [|m l IH]; simpl; intros s H; [injection H as ->; exists []; by rewrite app_nil_r|].
  destruct (texec m s) as [s1|] eqn:Hm; [|done]. simpl in H. destruct (IH _ H) as [h2 ->].
  destruct (texec_history _ _ _ Hm) as [h1 ->]. exists (h1 ++ h2). by rewrite app_assoc.
Qed.

(** A move of another thread. *)
Lemma texec_other t m s s' : m.1 ≠ t → texec m s = Some s' → running s' !! t = running s !! t.
Proof.
  destruct m as [t' c], s as [r P h]. simpl. intros Hne.
  destruct (P !! t') as [[b|e k| |]|]; try done.
  - intros [= <-]. simpl. by rewrite lookup_delete_ne.
  - destruct (enabled t' e r); [|done]. destruct (access t' e r) as [[a r']|]; [|done]. intros [= <-].
    simpl. by rewrite lookup_insert_ne.
  - destruct c as [c|]; [|done]. simpl. destruct (start t' c r); [|done]. intros [= <-]. simpl. by rewrite lookup_insert_ne.
Qed.

Definition moves_of (t : nat) (l : list (nat * option C)) : nat := length (filter (λ m, m.1 = t) l).

Lemma ends_within_returns n t p l s s' :
  running s !! t = Some p → ends_within n p → tschedule l s = Some s' → (n < moves_of t l)%nat →
  ∃ b h, history s' = history s ++ h ∧ Return t b ∈ h.
Proof.
  unfold moves_of. revert n p s. induction l as [|m l IH]; intros n p s Hp Hn H Hl; [simpl in Hl; lia|].
  simpl in H. destruct (texec m s) as [s1|] eqn:Hm; [|done]. simpl in H.
  destruct (texec_history _ _ _ Hm) as [h1 Hh1]. destruct (decide (m.1 = t)) as [Ht|Hne].
  - rewrite filter_cons_True in Hl by done. simpl in Hl. destruct m as [t' c], s as [r P h]; simpl in *. subst t'.
    rewrite Hp in Hm. destruct p as [b|e k| |]; [| |done..].
    + injection Hm as <-. simpl in *. destruct (tschedule_history _ _ _ H) as [h2 Hh2]. simpl in Hh2.
      exists b, ([Return t b] ++ h2). rewrite Hh2, <- app_assoc. split; [done|]. set_solver.
    + destruct (enabled t e r); [|done]. destruct (access t e r) as [[a r']|]; [|done]. injection Hm as <-.
      destruct n as [|n]; [done|]. simpl in Hn.
      destruct (IH n (k a) _ (lookup_insert_eq _ _ _) (Hn a) H ltac:(lia)) as (b & h2 & Hh2 & Hb). by exists b, h2.
  - rewrite filter_cons_False in Hl by done.
    destruct (IH n p s1) as (b & h2 & Hh2 & Hb); [by rewrite (texec_other t m s s1)|done..|].
    exists b, (h1 ++ h2). rewrite Hh2, Hh1, app_assoc. split; [done|]. set_solver.
Qed.

(** What holds of every call, and of what is left of a call after an access. *)
Lemma tstep_programs (P : prog E B → Prop) s s' :
  (∀ t c, P (call t c)) → (∀ e k a, P (Vis e k) → P (k a)) → (∀ t p, running s !! t = Some p → P p) →
  rtc tstep s s' → ∀ t p, running s' !! t = Some p → P p.
Proof.
  intros Hcall Hk Hs Hsteps. induction Hsteps as [|s s1 s2 Hstep _ IH]; [done|]. apply IH. clear IH.
  destruct Hstep as [t c r r' Q h|t e k a r r' Q h HQ|t b r Q h]; simpl in *; intros t' p.
  - intros [[_ <-]|[_ Hp]]%lookup_insert_Some; [apply Hcall|by eapply Hs].
  - intros [[_ <-]|[_ Hp]]%lookup_insert_Some; [by eapply Hk, Hs|by eapply Hs].
  - intros [_ Hp]%lookup_delete_Some. by eapply Hs.
Qed.

(** When every call ends, no thread is out of fuel. *)
Lemma tstep_ends s s' :
  (∀ t c, ∃ n, ends_within n (call t c)) → (∀ t p, running s !! t = Some p → ∃ n, ends_within n p) →
  rtc tstep s s' → ∀ t p, running s' !! t = Some p → ∃ n, ends_within n p.
Proof.
  intros Hcall. apply tstep_programs; [done|]. intros e k a [[|n] Hn]; [done|]. exists n. apply Hn.
Qed.

(** Some thread that is in a call can go on. *)
Definition can_step (s : threads) : Prop := ∃ t, is_Some (texec (t, None) s).

Lemma can_step_at s t p :
  running s !! t = Some p → ¬ faulty s → (∃ n, ends_within n p) →
  (∀ e k, p = Vis e k → enabled t e (memory s) = true) → can_step s.
Proof.
  intros Hp Hf [n Hn] He. exists t. destruct s as [r P h]; simpl in *. rewrite Hp.
  destruct p as [b|e k| |]; [by eauto| |done..]. rewrite He with (k := k) by done.
  destruct (access t e r) as [[a r']|] eqn:Ha; [by eauto|]. exfalso. apply Hf. exists t, (Vis e k). simpl.
  split; [done|]. split; [by eapply He|done].
Qed.

(** *** The proofs of the functions together

    [G] is what only the proof keeps track of, the history ([hist]) with it.
    [rely t x y]: from [x] threads other than [t] may have led to [y]; so a step
    of [t] is to keep what the others rely on. *)
Section proof.
Context {G : Type} (hist : G → list (action C B)) (inv : R → G → Prop) (rely : nat → R * G → R * G → Prop).
Context `{!∀ t, PreOrder (rely t)}.
Context (idle : nat → R → G → Prop) (finished : nat → B → R → G → Prop).

Definition others (t : nat) (x y : R * G) : Prop := ∀ t', t' ≠ t → rely t' x y.
Definition guar (t : nat) (x y : R * G) : Prop := hist y.2 = hist x.2 ∧ others t x y.

Abbreviation tsafe t := (safe (access t) (enabled t) inv (rely t) (guar t)).

Context (idle_rely : ∀ t r g r1 g1, idle t r g → rely t (r, g) (r1, g1) → idle t r1 g1).
Context (finished_rely : ∀ t b r g r1 g1, finished t b r g → rely t (r, g) (r1, g1) → finished t b r1 g1).
Context (start_safe : ∀ t c r r' g, inv r g → idle t r g → start t c r = Some r' → ∃ g',
  hist g' = hist g ++ [Invoke t c] ∧ inv r' g' ∧ others t (r, g) (r', g') ∧ tsafe t (finished t) (call t c) r' g').
Context (return_safe : ∀ t b r g, inv r g → finished t b r g → ∃ g',
  hist g' = hist g ++ [Return t b] ∧ inv r g' ∧ others t (r, g) (r, g') ∧ idle t r g').

Definition thread_inv (P : gmap nat (prog E B)) (t : nat) : R → G → Prop :=
  match P !! t with None => idle t | Some p => tsafe t (finished t) p end.

Definition threads_inv (s : threads) : Prop := ∃ g,
  inv (memory s) g ∧ hist g = history s ∧ ∀ t, thread_inv (running s) t (memory s) g.

Lemma thread_inv_rely P t r g r1 g1 : thread_inv P t r g → rely t (r, g) (r1, g1) → thread_inv P t r1 g1.
Proof.
  unfold thread_inv. destruct (P !! t) as [p|]; [|apply idle_rely]. intros Hp Hr.
  eapply safe_rely; [apply _| |exact Hp|exact Hr]. intros b Hb. by eapply finished_rely.
Qed.

(** A step of [t] that keeps what the others rely on. *)
Lemma thread_update P P' t r g r' g' :
  (∀ t', t' ≠ t → P' !! t' = P !! t') → (∀ t, thread_inv P t r g) → others t (r, g) (r', g') →
  thread_inv P' t r' g' → ∀ t', thread_inv P' t' r' g'.
Proof.
  intros HP' Hall Ho Ht t'. destruct (decide (t' = t)) as [->|Hne]; [done|].
  unfold thread_inv. rewrite HP' by done. eapply thread_inv_rely; [apply Hall|by apply Ho].
Qed.

Lemma threads_step s s' : threads_inv s → tstep s s' → threads_inv s'.
Proof.
  intros (g & Hinv & Hh & Hall) Hstep.
  destruct Hstep as [t c r r' P h HP Hs|t e k a r r' P h HP He Ha|t b r P h HP]; simpl in *;
    pose proof (Hall t) as Ht; unfold thread_inv in Ht; rewrite HP in Ht.
  - destruct (start_safe _ _ _ _ _ Hinv Ht Hs) as (g' & Hh' & Hinv' & Ho & Hp). exists g'. simpl.
    split; [done|]. split; [by rewrite Hh', Hh|]. eapply thread_update; [|exact Hall|exact Ho|].
    + intros t' Hne. by rewrite lookup_insert_ne.
    + unfold thread_inv. by rewrite lookup_insert_eq.
  - destruct (Ht r g ltac:(reflexivity) Hinv He) as (a' & r2 & g' & Ha' & Hinv' & [Hh' Ho] & Hp).
    rewrite Ha in Ha'. injection Ha' as <- <-. exists g'. simpl.
    split; [done|]. split; [by simpl in Hh'; rewrite Hh'|]. eapply thread_update; [|exact Hall|exact Ho|].
    + intros t' Hne. by rewrite lookup_insert_ne.
    + unfold thread_inv. by rewrite lookup_insert_eq.
  - destruct (return_safe _ _ _ _ Hinv Ht) as (g' & Hh' & Hinv' & Ho & Hi). exists g'. simpl.
    split; [done|]. split; [by rewrite Hh', Hh|]. eapply thread_update; [|exact Hall|exact Ho|].
    + intros t' Hne. by rewrite lookup_delete_ne.
    + unfold thread_inv. by rewrite lookup_delete_eq.
Qed.

Lemma threads_reachable s s' : threads_inv s → rtc tstep s s' → threads_inv s'.
Proof. intros Hs Hsteps. induction Hsteps as [|s s1 s2 Hstep _ IH]; [done|]. by eapply IH, threads_step. Qed.

Lemma threads_not_faulty s : threads_inv s → ¬ faulty s.
Proof.
  intros (g & Hinv & _ & Hall) (t & p & Hp & Hf). specialize (Hall t). unfold thread_inv in Hall. rewrite Hp in Hall.
  destruct p as [b|e k| |]; [done| |done..]. destruct Hf as [He Ha].
  destruct (Hall _ g ltac:(reflexivity) Hinv He) as (a & r & g2 & Ha' & _). congruence.
Qed.

Lemma threads_start r g : inv r g → hist g = [] → (∀ t, idle t r g) → threads_inv (mk_threads r ∅ []).
Proof. intros Hi Hh Hid. exists g. split; [done|]. split; [done|]. intros t. unfold thread_inv. simpl. by rewrite lookup_empty. Qed.
End proof.

(** *** Threads that keep the memory sound

    Each thread keeps [J], whatever the calls and the history are. [rely t r r']:
    from [r] threads other than [t] may have led to [r']; [ready t r]: what
    thread [t], in no call, leaves and finds. *)
Section sound.
Context (J : R → Prop) (rely : nat → R → R → Prop) `{!∀ t, PreOrder (rely t)}.
Context (ready : nat → R → Prop) (ready_rely : ∀ t r r', ready t r → rely t r r' → ready t r').

Definition keeps {A} (t : nat) (Φ : A → R → Prop) (p : prog E A) (r : R) : Prop :=
  safe (access t) (enabled t) (λ r (_ : unit), J r) (λ x y, rely t x.1 y.1)
    (λ x y, ∀ t', t' ≠ t → rely t' x.1 y.1) (λ a r _, Φ a r) p r tt.

Lemma keeps_bind {A A'} t (Φ : A' → R → Prop) (Ψ : A → R → Prop) (p : prog E A) (f : A → prog E A') r :
  keeps t Ψ p r → (∀ a r, Ψ a r → keeps t Φ (f a) r) → keeps t Φ (p ≫= f) r.
Proof. intros Hp Hf. apply safe_bind. eapply safe_mono; [exact Hp|]. intros a r1 [] Ha. by apply Hf. Qed.

(** An access of a thread that knows [K] of the memory, which the others do not
    change, and [K'] afterwards. *)
Lemma keeps_access {A} t (K : R → Prop) (K' : Z → R → Prop) e (f : Z → prog E A) Φ r :
  (∀ r r', K r → rely t r r' → K r') → K r →
  (∀ r, K r → J r → ∃ a r', access t e r = Some (a, r') ∧ J r' ∧ (∀ t', t' ≠ t → rely t' r r') ∧ K' a r') →
  (∀ a r, K' a r → keeps t Φ (f a) r) → keeps t Φ (emit e ≫= f) r.
Proof.
  intros Hst HK He Hf. apply safe_emit. intros r1 [] Hr Hj _.
  destruct (He r1 (Hst _ _ HK Hr) Hj) as (a & r2 & Ha & Hj2 & Hrl & HK2). exists a, r2, tt.
  split; [done|]. split; [done|]. split; [done|]. by apply Hf.
Qed.

(** What the calls return is [good]. *)
Context (good : B → Prop).
Context (start_sound : ∀ t c r r', J r → ready t r → start t c r = Some r' →
  J r' ∧ (∀ t', t' ≠ t → rely t' r r') ∧ keeps t (λ b r, good b ∧ ready t r) (call t c) r').

Definition good_history (h : list (action C B)) : Prop := ∀ t b, Return t b ∈ h → good b.
Definition mem_rely (t : nat) (x y : R * list (action C B)) : Prop := rely t x.1 y.1.

#[local] Instance mem_rely_preorder t : PreOrder (mem_rely t).
Proof. split; [by intros [r h]; unfold mem_rely|]. intros [r1 h1] [r2 h2] [r3 h3]. unfold mem_rely. simpl. by etrans. Qed.

Lemma keeps_safe t p r h :
  good_history h → keeps t (λ b r, good b ∧ ready t r) p r →
  safe (access t) (enabled t) (λ r h, J r ∧ good_history h) (mem_rely t) (guar id mem_rely t)
    (λ b r _, good b ∧ ready t r) p r h.
Proof.
  unfold keeps. revert r h. induction p as [b|e k IH| |]; intros r h Hh Hp; [done| |done..].
  intros r1 h1 Hr [Hj Hh1] He. destruct (Hp r1 tt Hr Hj He) as (a & r2 & [] & Ha & Hj2 & Hrl & Hk).
  exists a, r2, h1. split; [done|]. split; [done|]. split; [by split|]. by apply IH.
Qed.

Lemma sound_reachable r s :
  J r → (∀ t, ready t r) → rtc tstep (mk_threads r ∅ []) s →
  J (memory s) ∧ good_history (history s) ∧ ¬ faulty s.
Proof.
  intros Hr Hready Hsteps.
  assert (threads_inv id (λ r h, J r ∧ good_history h) mem_rely (λ t r _, ready t r)
    (λ t b r _, good b ∧ ready t r) s) as Hs.
  { eapply threads_reachable; [apply _|..|exact Hsteps].
    - intros t r1 h1 r2 h2 Hrd Hrl. by eapply ready_rely.
    - intros t b r1 h1 r2 h2 [Hb Hrd] Hrl. split; [done|by eapply ready_rely].
    - intros t c r1 r2 h [Hj Hh] Hrd Hst. destruct (start_sound _ _ _ _ Hj Hrd Hst) as (Hj2 & Hrl & Hk).
      exists (h ++ [Invoke t c]). split; [done|].
      assert (good_history (h ++ [Invoke t c])) by (intros t' b [Hb|Hb%list_elem_of_singleton]%elem_of_app; [by eapply Hh|done]).
      split; [done|]. split; [done|]. by apply keeps_safe.
    - intros t b r1 h [Hj Hh] [Hb Hrd]. exists (h ++ [Return t b]). split; [done|]. split.
      + split; [done|]. intros t' b' [Hb'|Hb'%list_elem_of_singleton]%elem_of_app; [by eapply Hh|]. by injection Hb' as -> ->.
      + split; [|done]. intros t' _. unfold mem_rely. simpl. reflexivity.
    - apply (threads_start id _ _ _ _ _ []); [|done..]. split; [done|]. by intros t b ?%elem_of_nil. }
  pose proof (threads_not_faulty _ _ _ _ _ _ Hs) as Hf. destruct Hs as (h & [Hj Hh] & Hhist & _). simpl in Hhist. by subst.
Qed.
End sound.
End threads.

Arguments mk_threads {E R C B} memory running history.

(** ** Atomic objects *)
Section atomic.
Context {S C B : Type} (spec : nat → C → S → B → S → Prop).

Inductive status : Type :=
  | Waiting (c : C)
  | Answered (b : B).

Record object : Type := mk_object {
  value : S;
  pending : gmap nat status;
  past : list (action C B);
}.

Inductive ostep : object → object → Prop :=
  | OInvoke v P h t c :
      P !! t = None → ostep (mk_object v P h) (mk_object v (<[t := Waiting c]> P) (h ++ [Invoke t c]))
  | OServe v v' P h t c b :
      P !! t = Some (Waiting c) → spec t c v b v' → ostep (mk_object v P h) (mk_object v' (<[t := Answered b]> P) h)
  | OReturn v P h t b :
      P !! t = Some (Answered b) → ostep (mk_object v P h) (mk_object v (delete t P) (h ++ [Return t b])).

(** [h] is a history of the object that begins with [v]; what the calls that
    are not pending any more have made of it is [v']. *)
Definition atomic_history (v : S) (h : list (action C B)) : Prop :=
  ∃ o, rtc ostep (mk_object v ∅ []) o ∧ past o = h.

(** [rep r v]: the memory [r] represents the value [v]. [ready t r]: what
    thread [t], in no call, leaves and finds. *)
Section linearizable.
Context {E R : Type} (access : nat → E → R → option (Z * R)) (enabled : nat → E → R → bool).
Context (call : nat → C → prog E B) (start : nat → C → R → option R).
Context (v0 : S) (rep : R → S → Prop) (rely : nat → R → R → Prop) `{!∀ t, PreOrder (rely t)}.
Context (ready : nat → R → Prop) (ready_rely : ∀ t r r', ready t r → rely t r r' → ready t r').

Definition obj_inv (r : R) (o : object) : Prop := rep r (value o) ∧ rtc ostep (mk_object v0 ∅ []) o.
Definition obj_rely (t : nat) (x y : R * object) : Prop := pending y.2 !! t = pending x.2 !! t ∧ rely t x.1 y.1.
Definition obj_idle (t : nat) (r : R) (o : object) : Prop := pending o !! t = None ∧ ready t r.
Definition obj_finished (t : nat) (b : B) (r : R) (o : object) : Prop := pending o !! t = Some (Answered b) ∧ ready t r.

#[export] Instance obj_rely_preorder t : PreOrder (obj_rely t).
Proof.
  split; [by intros [r o]|]. intros [r1 o1] [r2 o2] [r3 o3] [H1 H2] [H3 H4]. split; simpl in *; [congruence|by etrans].
Qed.

(** Thread [t], whose call stands at [st], runs the rest of a function. *)
Abbreviation serves t := (safe (access t) (enabled t) obj_inv (obj_rely t) (guar past obj_rely t)).

(** What a call may do to the object when it is at [st]: nothing, or take
    effect. *)
Definition moves (t : nat) (st : status) (v : S) (st' : status) (v' : S) : Prop :=
  (st' = st ∧ v' = v) ∨ ∃ c b, st = Waiting c ∧ st' = Answered b ∧ spec t c v b v'.

(** An access of a thread that knows [K] of the memory, which the others do not
    change, and [K'] afterwards. *)
Lemma serve_access {A} (K : R → Prop) (K' : Z → status → R → Prop) (Φ : A → R → object → Prop) t st e f r o :
  (∀ r r1, K r → rely t r r1 → K r1) → K r → pending o !! t = Some st →
  (∀ r1 v, K r1 → rep r1 v → enabled t e r1 = true → ∃ a r2 st' v',
     access t e r1 = Some (a, r2) ∧ rep r2 v' ∧ (∀ t', t' ≠ t → rely t' r1 r2) ∧ moves t st v st' v' ∧ K' a st' r2) →
  (∀ a st' r2 o2, K' a st' r2 → pending o2 !! t = Some st' → serves t Φ (f a) r2 o2) →
  serves t Φ (emit e ≫= f) r o.
Proof.
  intros Hstable HK Hst He Hf. apply safe_emit. intros r1 o1 [Hp Hr] [Hrep Ho] Hen. simpl in Hp, Hr.
  destruct (He r1 (value o1) (Hstable _ _ HK Hr) Hrep Hen) as (a & r2 & st' & v' & Ha & Hrep' & Hrely & Hm & HK').
  rewrite Hst in Hp. destruct o1 as [v P h]; simpl in *.
  destruct Hm as [[-> ->]|(c & b & -> & -> & Hs)].
  - exists a, r2, (mk_object v P h). split; [done|]. split; [done|]. split; [|by apply (Hf a st)].
    split; [done|]. intros t' Hne. split; [done|by apply Hrely].
  - exists a, r2, (mk_object v' (<[t:=Answered b]> P) h). split; [done|].
    split; [split; [done|]; eapply rtc_r; [exact Ho|by econstructor]|].
    split; [|by apply (Hf a (Answered b)); [|simpl; apply lookup_insert_eq]].
    split; [done|]. intros t' Hne. split; [by apply lookup_insert_ne|by apply Hrely].
Qed.

Context (start_rep : ∀ t c r r' v, rep r v → start t c r = Some r' → rep r' v ∧ ∀ t', t' ≠ t → rely t' r r').
Context (call_serves : ∀ t c r r' o, rep r (value o) → start t c r = Some r' → pending o !! t = Some (Waiting c) →
  ready t r → serves t (obj_finished t) (call t c) r' o).

Lemma linearizable r s :
  rep r v0 → (∀ t, ready t r) → rtc (tstep access enabled call start) (mk_threads r ∅ []) s →
  (∃ o, rtc ostep (mk_object v0 ∅ []) o ∧ past o = history s ∧ rep (memory s) (value o)) ∧
  (∀ t, running s !! t = None → ready t (memory s)) ∧ ¬ faulty access enabled s.
Proof.
  intros Hr Hready Hsteps.
  assert (threads_inv access enabled past obj_inv obj_rely obj_idle obj_finished s) as Hs.
  { eapply (threads_reachable _ _ call start); [apply _|..|exact Hsteps].
    - intros t r1 o r2 o2 [Hi Hrd] [Hp Hrl]. split; [simpl in Hp; congruence|by eapply ready_rely].
    - intros t b r1 o r2 o2 [Hi Hrd] [Hp Hrl]. split; [simpl in Hp; congruence|by eapply ready_rely].
    - intros t c r1 r2 [v P h] [Hrep Ho] [Hi Hrd] Hst. simpl in *.
      destruct (start_rep _ _ _ _ _ Hrep Hst) as [Hrep' Hrely].
      exists (mk_object v (<[t:=Waiting c]> P) (h ++ [Invoke t c])). split; [done|].
      split; [split; [done|]; eapply rtc_r; [exact Ho|by constructor]|]. split.
      + intros t' Hne. split; [by apply lookup_insert_ne|by apply Hrely].
      + by eapply call_serves; [|done|simpl; apply lookup_insert_eq|].
    - intros t b r1 [v P h] [Hrep Ho] [Hfin Hrd]. simpl in *.
      exists (mk_object v (delete t P) (h ++ [Return t b])). split; [done|].
      split; [split; [done|]; eapply rtc_r; [exact Ho|by constructor]|]. split.
      + intros t' Hne. split; [by apply lookup_delete_ne|reflexivity].
      + split; [apply lookup_delete_eq|done].
    - apply (threads_start _ _ past _ _ _ _ r (mk_object v0 ∅ [])); [by split|done|].
      intros t. split; [apply lookup_empty|done]. }
  split; [|split; [|exact (threads_not_faulty _ _ _ _ _ _ _ _ Hs)]]; destruct Hs as (o & [Hrep Ho] & Hh & Hall).
  - by exists o.
  - intros t Ht. specialize (Hall t). unfold thread_inv in Hall. rewrite Ht in Hall. by destruct Hall.
Qed.
End linearizable.
End atomic.

Arguments mk_object {S C B} value pending past.
Arguments Waiting {C B} c.
Arguments Answered {C B} b.
