(* ===== verification/Trace.v ===== *)
(** * Timing traces: src/trace.c

    A trace is a double buffer of time stamps: [osal_trace_time] fills the
    active half, and when it is full swaps the halves and posts a binary
    semaphore; the analysis reads the half filled last.

    An array on the heap is its base address with its cells ([arr]; a null
    pointer is [None]), held by the one structure that points to it. [malloc]
    and [free] are the operations of [Malloc], with the C library's contract
    [MallocLaws]. The semaphore and the clock come in through their interfaces.
    Pointers to results ([avg], ...) are the [option] of the old content and
    are not aliases of each other. *)

From S2P Require Import Prelude Osal Timer PosixTimer BinarySemaphore.

(** [malloc] gives the address of a block, or [None] for NULL, and the value
    the fresh cells happen to hold. *)
Class Malloc (W : Type) := {
  malloc : Z → C W (option loc * Z);
  free : loc → C W unit;
}.

Record arr : Type := mk_arr { base : loc; cells : list Z }.

Record osal_trace : Type := mk_trace {
  cnt : Z;
  act_buf : Z;
  pos : Z;
  sync_sem : loc;
  time_in_ns : list (option arr);
  tmp : option arr;
}.

(** [sizeof(osal_trace_t)] on x86-64 Linux. *)
Definition sizeof_osal_trace : Z := 136.

(** Where the analysis stores its results. *)
Record stats : Type := mk_stats {
  avg : Z;
  avg_jit : Z;
  max_jit : Z;
  min_val : option Z;
  max_val : option Z;
}.

(** [(uint64_t)sqrt(m)] for a [double] [m] with an integer value: the square
    root rounded to 53 significant bits, then truncated. [k] fraction bits make
    the scaled root a 53-bit integer. *)
Definition c_sqrt (m : Z) : Z :=
  if m =? 0 then 0
  else
    let k := 53 - (Z.log2 m / 2 + 1) in
    let n := m * 4 ^ k in
    let s := Z.sqrt n in
    (if s <? n - s * s then s + 1 else s) / 2 ^ k.

Section trace.
Context {W : Type} `{!Malloc W, !BinarySemaphore W, !OsalClock W}.

(** [a[i]] and [a[i] = v]. *)
Definition rd (a : option arr) (i : Z) : C W Z :=
  a ← deref a;
  if 0 <=? i then deref (cells a !! Z.to_nat i) else undef.

Definition wr (a : option arr) (i v : Z) : C W (option arr) :=
  a ← deref a;
  if (0 <=? i) && (i <? Z.of_nat (length (cells a)))
  then mret (Some (mk_arr (base a) (<[Z.to_nat i := v]> (cells a))))
  else undef.

(** [trace->time_in_ns[i]], an array of two pointers. *)
Definition buffer (t : osal_trace) (i : Z) : C W (option arr) :=
  if (i =? 0) || (i =? 1) then deref (time_in_ns t !! Z.to_nat i) else undef.

Definition set_buffer (t : osal_trace) (i : Z) (a : option arr) : osal_trace :=
  mk_trace (cnt t) (act_buf t) (pos t) (sync_sem t) (<[Z.to_nat i := a]> (time_in_ns t)) (tmp t).

Definition set_tmp (t : osal_trace) (a : option arr) : osal_trace :=
  mk_trace (cnt t) (act_buf t) (pos t) (sync_sem t) (time_in_ns t) a.

(** [malloc(sizeof(osal_uint64_t) * n)]. *)
Definition malloc_u64 (n : Z) : C W (option arr) :=
  '(p, junk) ← malloc (8 * n);
  mret (match p with
        | Some l => Some (mk_arr l (replicate (Z.to_nat n) junk))
        | None => None end).

(** [memset(a, 0, ...)] over the whole array. *)
Definition memset0 (a : option arr) : C W (option arr) :=
  a ← deref a; mret (Some (mk_arr (base a) (replicate (length (cells a)) 0))).

(** [if (a != 0) { free(a); }] *)
Definition free_arr (a : option arr) : C W unit :=
  match a with Some a => free (base a) | None => mret tt end.

(** The label [error_exit] of [osal_trace_alloc]. *)
Definition trace_error_exit (l : loc) (t : osal_trace) : C W unit :=
  free_arr (tmp t);;
  a1 ← buffer t 1; free_arr a1;;
  a0 ← buffer t 0; free_arr a0;;
  free l.

Definition osal_trace_alloc (trace : option (option (loc * osal_trace))) (cnt : Z) :
    C W (Z * option (loc * osal_trace)) :=
  _ ← assert_ptr trace;
  '(p, _) ← malloc sizeof_osal_trace;
  l ← deref p;
  let t := mk_trace cnt 0 0 l [None; None] None in
  ret ← osal_binary_semaphore_init (Some l);
  if negb (ret =? OSAL_OK) then trace_error_exit l t;; mret (ret, Some (l, t))
  else
    a0 ← malloc_u64 cnt;
    a1 ← malloc_u64 cnt;
    at_ ← malloc_u64 cnt;
    let t := mk_trace cnt 0 0 l [a0; a1] at_ in
    match a0, a1, at_ with
    | Some _, Some _, Some _ =>
        z0 ← memset0 a0; z1 ← memset0 a1; zt ← memset0 at_;
        mret (ret, Some (l, mk_trace cnt 0 0 l [z0; z1] zt))
    | _, _, _ => trace_error_exit l t;; mret (OSAL_ERR_OUT_OF_MEMORY, Some (l, t))
    end.

Definition osal_trace_free (trace : option (loc * osal_trace)) : C W unit :=
  '(l, t) ← assert_ptr trace;
  free_arr (tmp t);;
  a1 ← buffer t 1; free_arr a1;;
  a0 ← buffer t 0; free_arr a0;;
  free l.

Definition osal_trace_time (trace : option osal_trace) (time : Z) : C W osal_trace :=
  t ← assert_ptr trace;
  a ← buffer t (act_buf t);
  a' ← wr a (pos t) time;
  let t := set_buffer t (act_buf t) a' in
  let pos' := u32 (pos t + 1) in
  if cnt t <=? pos' then
    let t := mk_trace (cnt t) (if act_buf t =? 0 then 1 else 0) 0 (sync_sem t) (time_in_ns t) (tmp t) in
    _ ← osal_binary_semaphore_post (Some (sync_sem t));
    mret t
  else mret (mk_trace (cnt t) (act_buf t) pos' (sync_sem t) (time_in_ns t) (tmp t)).

Definition osal_trace_point (trace : option osal_trace) : C W (Z * osal_trace) :=
  t ← assert_ptr trace;
  ret_time ← gettime_nsec;
  t' ← osal_trace_time (Some t) ret_time;
  mret (ret_time, t').

Definition osal_trace_get_last_time (trace : option osal_trace) : C W Z :=
  t ← assert_ptr trace;
  if pos t =? 0 then
    a ← buffer t (if act_buf t =? 0 then 1 else 0);
    rd a (u32 (cnt t - 1))
  else
    a ← buffer t (act_buf t);
    rd a (u32 (pos t - 1)).

Definition osal_trace_timedwait (trace : option osal_trace) (timeout : option osal_timer) : C W Z :=
  t ← deref trace;
  osal_binary_semaphore_timedwait (Some (sync_sem t)) timeout.

(** The minimum and maximum of a loop body: initialised in the round [i = 0],
    then lowered and raised; a null pointer is left alone. *)
Definition upd_min (i v : Z) (m : option Z) : option Z :=
  m ← m; let m := if i =? 0 then v else m in Some (if v <? m then v else m).

Definition upd_max (i v : Z) (m : option Z) : option Z :=
  m ← m; let m := if i =? 0 then v else m in Some (if m <? v then v else m).

(** One round of the second loop of an analysis, on [(max_jit, avg_jit)]. The
    difference is taken in [uint64_t] and converted to [int64_t]; negating the
    least [int64_t] and a square that does not fit are undefined. *)
Definition jitter_round (avg v : Z) (s : Z * Z) : C W (Z * Z) :=
  let '(max_jit, avg_jit) := s in
  let dev := s64 (u64 (avg - v)) in
  dev ← (if dev <? 0 then if dev =? - 2 ^ 63 then undef else mret (- dev) else mret dev);
  let max_jit := if max_jit <? dev then dev else max_jit in
  if 2 ^ 63 <=? dev * dev then undef
  else mret (max_jit, u64 (avg_jit + dev * dev)).

Definition osal_trace_analyze_min_max (trace : option osal_trace)
    (avg avg_jit max_jit min_val max_val : option Z) : C W (osal_trace * stats) :=
  t ← assert_ptr trace;
  _ ← assert_ptr avg; _ ← assert_ptr avg_jit; _ ← assert_ptr max_jit;
  buf ← buffer t (if act_buf t =? 1 then 0 else 1);
  let n := u32 (cnt t - 1) in
  '(tmp', avg, min_val, max_val) ←
    cfor (Z.to_nat n) 0 (λ i '(tmp', avg, min_val, max_val),
      x ← rd buf (i + 1);
      y ← rd buf i;
      let v := u64 (x - y) in
      tmp' ← wr tmp' i v;
      mret (tmp', u64 (avg + v), upd_min i v min_val, upd_max i v max_val))
    (tmp t, 0, min_val, max_val);
  avg ← (if n =? 0 then undef else mret (avg / n));
  '(max_jit, avg_jit) ←
    cfor (Z.to_nat n) 0 (λ i s, v ← rd tmp' i; jitter_round avg v s) (0, 0);
  avg_jit ← (if cnt t =? 0 then undef else mret (c_sqrt (dbl (avg_jit / cnt t))));
  mret (set_tmp t tmp', mk_stats avg avg_jit max_jit min_val max_val).

Definition osal_trace_analyze (trace : option osal_trace) (avg avg_jit max_jit : option Z) :
    C W (osal_trace * stats) :=
  osal_trace_analyze_min_max trace avg avg_jit max_jit None None.

Definition osal_trace_analyze_rel_min_max (trace : option osal_trace)
    (avg avg_jit max_jit min_val max_val : option Z) : C W stats :=
  t ← assert_ptr trace;
  _ ← assert_ptr avg; _ ← assert_ptr avg_jit; _ ← assert_ptr max_jit;
  buf ← buffer t (if act_buf t =? 1 then 0 else 1);
  let n := cnt t in
  '(avg, min_val, max_val) ←
    cfor (Z.to_nat n) 0 (λ i '(avg, min_val, max_val),
      v ← rd buf i;
      mret (u64 (avg + v), upd_min i v min_val, upd_max i v max_val))
    (0, min_val, max_val);
  avg ← (if n =? 0 then undef else mret (avg / n));
  '(max_jit, avg_jit) ←
    cfor (Z.to_nat n) 0 (λ i s, v ← rd buf i; jitter_round avg v s) (0, 0);
  mret (mk_stats avg (c_sqrt (dbl (avg_jit / n))) max_jit min_val max_val).

Definition osal_trace_analyze_rel (trace : option osal_trace) (avg avg_jit max_jit : option Z) :
    C W stats :=
  osal_trace_analyze_rel_min_max trace avg avg_jit max_jit None None.
End trace.

(** ** What the C library promises of [malloc] and [free] *)

Class MallocLaws (W : Type) `{!Malloc W} := {
  live : W → gset loc;
  malloc_law n w : ∃ p junk w', malloc n w = Ret (p, junk) w' ∧
    match p with
    | None => live w' = live w
    | Some l => (l ∉ live w) ∧ live w' = ({[l]} ∪ live w)
    end;
  free_law l w : l ∈ live w → ∃ w', free l w = Ret tt w' ∧ live w' = live w ∖ {[l]};
}.

(** ** Specification

    [trace_view t act oth]: a well-formed trace whose active half holds [act]
    and whose other half holds [oth]. *)
Definition trace_view (t : osal_trace) (act oth : list Z) : Prop :=
  ∃ la lo lt ct,
    ((act_buf t = 0 ∧ time_in_ns t = [Some (mk_arr la act); Some (mk_arr lo oth)]) ∨
     (act_buf t = 1 ∧ time_in_ns t = [Some (mk_arr lo oth); Some (mk_arr la act)])) ∧
    tmp t = Some (mk_arr lt ct) ∧
    0 < cnt t < 2 ^ 32 ∧ 0 ≤ pos t < cnt t ∧
    length act = Z.to_nat (cnt t) ∧ length oth = Z.to_nat (cnt t) ∧ length ct = Z.to_nat (cnt t).

(** The trace holds the end of the history [h] of all recorded times: the
    stamps of the block being filled, and before them, unless no block has been
    completed yet, the last complete block. *)
Definition trace_rep (t : osal_trace) (h : list Z) : Prop :=
  ∃ act oth, trace_view t act oth ∧
    (h = take (Z.to_nat (pos t)) act ∨
     ∃ prev, h = prev ++ oth ++ take (Z.to_nat (pos t)) act ∧
             (length prev mod Z.to_nat (cnt t) = 0)%nat).

(** The memory a trace owns. *)
Definition arr_blocks (a : option arr) : gset loc :=
  match a with Some a => {[base a]} | None => ∅ end.

Definition trace_blocks (l : loc) (t : osal_trace) : gset loc :=
  {[l]} ∪ (arr_blocks (mjoin (time_in_ns t !! 0%nat)) ∪
           (arr_blocks (mjoin (time_in_ns t !! 1%nat)) ∪ arr_blocks (tmp t))).

(** Records a list of times, one call after the other. *)
Fixpoint record_all {W} `{!BinarySemaphore W} (t : osal_trace) (ts : list Z) : C W osal_trace :=
  match ts with
  | [] => mret t
  | x :: ts => t' ← osal_trace_time (Some t) x; record_all t' ts
  end.

(** *** What an analysis computes of a block of stamps *)

Fixpoint intervals (b : list Z) : list Z :=
  match b with
  | x :: ((y :: _) as b') => u64 (y - x) :: intervals b'
  | _ => []
  end.

Definition sumZ (l : list Z) : Z := foldl Z.add 0 l.
Definition max_dev (a : Z) (l : list Z) : Z := foldl (λ m v, Z.max m (Z.abs (a - v))) 0 l.
Definition sum_sq_dev (a : Z) (l : list Z) : Z := foldl (λ s v, s + (a - v) * (a - v)) 0 l.
Definition min_list (l : list Z) : Z := foldl Z.min (hd 0 l) l.
Definition max_list (l : list Z) : Z := foldl Z.max (hd 0 l) l.

(** The statistics of a block of intervals, [n] of them, over [c] stamps. *)
Definition stats_of (ivs : list Z) (c : Z) (mn mx : option Z) : stats :=
  let a := u64 (sumZ ivs) / Z.of_nat (length ivs) in
  mk_stats a (c_sqrt (dbl (u64 (sum_sq_dev a ivs) / c))) (max_dev a ivs)
    ((λ _, min_list ivs) <$> mn) ((λ _, max_list ivs) <$> mx).

(** No deviation of the block overflows the square in [int64_t]. *)
Definition jitter_fits (ivs : list Z) : Prop :=
  let a := u64 (sumZ ivs) / Z.of_nat (length ivs) in
  Forall (λ v, (a - v) * (a - v) < 2 ^ 63) ivs.

(** ** Lemmas *)

Section lemmas.
Context {W : Type} `{!Malloc W, !BinarySemaphore W, !OsalClock W}.
Implicit Types (t : osal_trace) (w : W).

Lemma wp_buffer t i a (Q : option arr → W → Prop) w :
  (i = 0 ∨ i = 1) → time_in_ns t !! Z.to_nat i = Some a → Q a w → wp (buffer t i) Q w.
Proof. intros [-> | ->] H HQ; unfold wp, buffer; c_unfold; simpl in *; by rewrite H. Qed.

Lemma wp_rd a i x (Q : Z → W → Prop) w :
  cells a !! i = Some x → Q x w → wp (rd (Some a) (Z.of_nat i)) Q w.
Proof.
  intros H HQ. unfold wp, rd. c_unfold. destruct (Z.leb_spec 0 (Z.of_nat i)); [|lia].
  rewrite Nat2Z.id. by rewrite H.
Qed.

Lemma wp_wr a i x (Q : option arr → W → Prop) w :
  (i < length (cells a))%nat → Q (Some (mk_arr (base a) (<[i:=x]> (cells a)))) w →
  wp (wr (Some a) (Z.of_nat i) x) Q w.
Proof.
  intros H HQ. unfold wp, wr. c_unfold.
  destruct (Z.leb_spec 0 (Z.of_nat i)), (Z.ltb_spec (Z.of_nat i) (Z.of_nat (length (cells a))));
    simpl; try lia. by rewrite Nat2Z.id.
Qed.

Lemma trace_view_active t act oth :
  trace_view t act oth →
  ∃ la lo, time_in_ns t !! Z.to_nat (act_buf t) = Some (Some (mk_arr la act)) ∧
    time_in_ns t !! Z.to_nat (if act_buf t =? 0 then 1 else 0) = Some (Some (mk_arr lo oth)) ∧
    (act_buf t = 0 ∨ act_buf t = 1) ∧
    (if act_buf t =? 1 then 0 else 1) = (if act_buf t =? 0 then 1 else 0).
Proof.
  intros (la & lo & lt & ct & [[Hb Ht]|[Hb Ht]] & _); rewrite Ht, Hb; exists la, lo; simpl; auto.
Qed.

Lemma take_S_insert (l : list Z) i x :
  (i < length l)%nat → take (S i) (<[i:=x]> l) = take i l ++ [x].
Proof.
  intros H. rewrite (take_S_r _ _ x) by (by apply list_lookup_insert_eq).
  by rewrite take_insert_ge.
Qed.
End lemmas.

Lemma trace_time_step {W} `{!BinarySemaphore W, !BinarySemaphoreSpec W} t h x (w : W) :
  trace_rep t h → bs_ready (sync_sem t) w →
  wp (osal_trace_time (Some t) x) (λ t' w',
    trace_rep t' (h ++ [x]) ∧ cnt t' = cnt t ∧ sync_sem t' = sync_sem t ∧
    if pos t + 1 <? cnt t then w' = w
    else bs_ready (sync_sem t) w' ∧ bs_posted (sync_sem t) w' = true) w.
Proof.
  intros (act & oth & Hv & Hh) Hready.
  destruct (trace_view_active t act oth Hv) as (la' & lo' & Hact & _ & Hb01 & _).
  destruct Hv as (la & lo & lt & ct & Hbuf & Htmp & Hc & Hp & Hla & Hlo & Hlt).
  unfold osal_trace_time. apply wp_bind; simpl. apply wp_ret, wp_bind.
  eapply wp_buffer; [done|exact Hact|]. apply wp_bind.
  rewrite <- (Z2Nat.id (pos t)) by lia. set (p := Z.to_nat (pos t)) in *.
  assert (Z.of_nat p = pos t) as Hpt by lia.
  apply wp_wr; simpl; [lia|]. rewrite Hpt, uwrap_id by (unfold in_uint; lia).
  set (act' := <[p:=x]> act).
  assert (take (S p) act' = take p act ++ [x]) as Htk by (apply take_S_insert; lia).
  assert (length act' = Z.to_nat (cnt t)) as Hla' by (unfold act'; by rewrite length_insert).
  destruct (Z.ltb_spec (pos t + 1) (cnt t)) as [Hlt1|Hge];
    destruct (Z.leb_spec (cnt t) (pos t + 1)); try lia.
  - apply wp_ret. split; [|done]. exists act', oth. split.
    + exists la', lo, lt, ct. split_and!; simpl; try done; try lia.
      destruct Hbuf as [[-> ->]|[-> ->]]; [left|right]; done.
    + simpl. replace (Z.to_nat (pos t + 1)) with (S p) by lia. rewrite Htk.
      destruct Hh as [->|(prev & -> & Hm)]; [by left|right; exists prev; by rewrite <- !app_assoc].
  - apply wp_bind. simpl. eapply wp_mono; [by apply bs_post_spec|]. intros r w' (_ & Hr' & Hposted).
    apply wp_ret. split; [|done]. exists oth, act'. split.
    + exists lo, la', lt, ct. split_and!; simpl; try done; try lia.
      destruct Hbuf as [[-> ->]|[-> ->]]; [right|left]; done.
    + simpl. right. rewrite take_0, app_nil_r.
      rewrite <- (firstn_all act'), Hla'. replace (Z.to_nat (cnt t)) with (S p) by lia. rewrite Htk.
      destruct Hh as [->|(prev & -> & Hm)].
      * exists []. split; [done|]. apply Nat.Div0.mod_0_l.
      * exists (prev ++ oth). split; [by rewrite <- !app_assoc|].
        rewrite length_app, Hlo. replace (S p) with (Z.to_nat (cnt t)) by lia.
        rewrite <- (Nat.mul_1_l (Z.to_nat (cnt t))) at 1. by rewrite Nat.Div0.mod_add.
Qed.

Lemma record_all_rep {W} `{!BinarySemaphore W, !BinarySemaphoreSpec W} t h ts (w : W) :
  trace_rep t h → bs_ready (sync_sem t) w → wp (record_all t ts) (λ t' _, trace_rep t' (h ++ ts)) w.
Proof.
  revert t h w. induction ts as [|x ts IH]; intros t h w Hrep Hready; simpl.
  - rewrite app_nil_r. by apply wp_ret.
  - apply wp_bind. eapply wp_mono; [by apply trace_time_step|].
    intros t' w' (Hrep' & Hcnt & Hsem & Hw). rewrite cons_middle, app_assoc. apply IH; [done|].
    rewrite Hsem. destruct (pos t + 1 <? cnt t); [by subst|by destruct Hw].
Qed.

Lemma trace_last_time {W} t h x (w : W) :
  trace_rep t (h ++ [x]) → wp (osal_trace_get_last_time (Some t)) (λ r w', r = x ∧ w' = w) w.
Proof.
  intros (act & oth & Hv & Hh).
  destruct (trace_view_active t act oth Hv) as (la & lo & Hact & Hoth & Hb01 & _).
  destruct Hv as (? & ? & lt & ct & _ & _ & Hc & Hp & Hla & Hlo & _).
  assert ((if act_buf t =? 0 then 1 else 0) = 0 ∨ (if act_buf t =? 0 then 1 else 0) = 1) as Ho01.
  { by destruct (act_buf t =? 0); [right|left]. }
  unfold osal_trace_get_last_time. apply wp_bind; simpl. apply wp_ret.
  destruct (Z.eqb_spec (pos t) 0) as [Hp0|Hp0].
  - apply wp_bind. eapply wp_buffer; [done|exact Hoth|].
    rewrite uwrap_id by (unfold in_uint; lia). rewrite Hp0 in Hh. rewrite take_0 in Hh.
    destruct Hh as [Hh|(prev & Hh & _)]; [by destruct h|].
    rewrite app_nil_r in Hh.
    replace (cnt t - 1) with (Z.of_nat (pred (length oth))) by lia.
    apply (wp_rd _ _ x); [|done]. simpl.
    destruct oth as [|y oth _] using rev_ind; simpl in *; [lia|].
    rewrite app_assoc in Hh. apply app_inj_tail in Hh as [_ ->].
    rewrite length_app, Nat.add_comm. simpl. by rewrite lookup_app_r, Nat.sub_diag by lia.
  - apply wp_bind. eapply wp_buffer; [done|exact Hact|].
    rewrite uwrap_id by (unfold in_uint; lia).
    replace (pos t - 1) with (Z.of_nat (pred (Z.to_nat (pos t)))) by lia.
    apply (wp_rd _ _ x); [|done]. simpl.
    destruct (lookup_lt_is_Some_2 act (pred (Z.to_nat (pos t)))) as [y Hy]; [lia|].
    replace (Z.to_nat (pos t)) with (S (pred (Z.to_nat (pos t)))) in Hh by lia.
    rewrite (take_S_r _ _ y) in Hh by done. rewrite Hy. f_equal.
    destruct Hh as [Hh|(prev & Hh & _)]; [|rewrite !app_assoc in Hh]; by apply app_inj_tail in Hh as [_ ->].
Qed.

(** *** Folds over a block *)

Lemma foldl_add_shift l a : foldl Z.add a l = a + sumZ l.
Proof.
  unfold sumZ. revert a. induction l as [|x l IH]; intros a; simpl; [lia|].
  rewrite (IH (a + x)), (IH (0 + x)). lia.
Qed.

Lemma sumZ_snoc l x : sumZ (l ++ [x]) = sumZ l + x.
Proof. unfold sumZ. by rewrite foldl_snoc. Qed.

Lemma min_list_snoc l x : l ≠ [] → min_list (l ++ [x]) = Z.min (min_list l) x.
Proof. intros H. unfold min_list. rewrite foldl_snoc. by destruct l. Qed.

Lemma max_list_snoc l x : l ≠ [] → max_list (l ++ [x]) = Z.max (max_list l) x.
Proof. intros H. unfold max_list. rewrite foldl_snoc. by destruct l. Qed.

Lemma min_list_spec l : l ≠ [] → min_list l ∈ l ∧ Forall (Z.le (min_list l)) l.
Proof.
  induction l as [|x l IH] using rev_ind; [done|intros _].
  destruct (decide (l = [])) as [->|Hl].
  - unfold min_list; simpl. rewrite Z.min_id. split; [set_solver|by repeat constructor].
  - rewrite min_list_snoc by done. destruct (IH Hl) as [Hin Hall]. split.
    + destruct (Z.min_spec (min_list l) x) as [[_ ->]|[_ ->]]; set_solver.
    + apply Forall_app. split; [|constructor; [lia|done]].
      eapply Forall_impl; [exact Hall|]. intros; simpl in *; lia.
Qed.

Lemma max_list_spec l : l ≠ [] → max_list l ∈ l ∧ Forall (λ v, v ≤ max_list l) l.
Proof.
  induction l as [|x l IH] using rev_ind; [done|intros _].
  destruct (decide (l = [])) as [->|Hl].
  - unfold max_list; simpl. rewrite Z.max_id. split; [set_solver|by repeat constructor].
  - rewrite max_list_snoc by done. destruct (IH Hl) as [Hin Hall]. split.
    + destruct (Z.max_spec (max_list l) x) as [[_ ->]|[_ ->]]; set_solver.
    + apply Forall_app. split; [|constructor; [lia|done]].
      eapply Forall_impl; [exact Hall|]. intros; simpl in *; lia.
Qed.

Lemma max_dev_spec a l :
  0 ≤ max_dev a l ∧ Forall (λ v, Z.abs (a - v) ≤ max_dev a l) l ∧
  (l ≠ [] → ∃ v, v ∈ l ∧ max_dev a l = Z.abs (a - v)).
Proof.
  unfold max_dev. induction l as [|x l (H0 & Hall & Hex)] using rev_ind; [by repeat constructor|].
  rewrite foldl_snoc. split; [lia|split].
  - apply Forall_app. split; [|constructor; [lia|done]].
    eapply Forall_impl; [exact Hall|]. intros; simpl in *; lia.
  - intros _. destruct (Z.max_spec (foldl (λ m v, Z.max m (Z.abs (a - v))) 0 l) (Z.abs (a - x)))
      as [[_ ->]|[Hle ->]]; [exists x; set_solver|].
    destruct (decide (l = [])) as [->|Hl]; [exists x; simpl in *; split; [set_solver|lia]|].
    destruct (Hex Hl) as (v & Hv & ->). exists v. set_solver.
Qed.

Lemma length_intervals b : length (intervals b) = pred (length b).
Proof. induction b as [|x [|y b] IH]; simpl in *; [done..|by rewrite IH]. Qed.

Lemma intervals_lookup b i y x :
  b !! i = Some y → b !! S i = Some x → intervals b !! i = Some (u64 (x - y)).
Proof.
  revert i. induction b as [|z [|z' b] IH]; intros [|i] Hy Hx; simpl in *; try done.
  - by injection Hy as ->; injection Hx as ->.
  - by apply IH.
Qed.

(** The intervals add up to the distance between the last and the first stamp,
    modulo the width of the counters. *)
Lemma sum_intervals x b :
  u64 (sumZ (intervals (x :: b))) = u64 (List.last b x - x).
Proof.
  revert x. induction b as [|y b IH]; intros x; [simpl; by rewrite Z.sub_diag|].
  specialize (IH y).
  change (intervals (x :: y :: b)) with (u64 (y - x) :: intervals (y :: b)).
  revert IH. generalize (intervals (y :: b)) as l. intros l IH.
  unfold sumZ; simpl foldl. rewrite foldl_add_shift, Z.add_0_l, uwrap_add_l, <- uwrap_add_r, IH, uwrap_add_r.
  f_equal. replace (List.last (y :: b) x) with (List.last b y); [lia|].
  destruct b as [|z b]; [done|]. simpl. clear. revert z.
  induction b as [|? b IH]; intros z; [done|]. simpl. apply IH.
Qed.

Lemma insert_take_drop (l c : list Z) k v :
  (k < length c)%nat → (k ≤ length l)%nat →
  <[k:=v]> (take k l ++ drop k c) = (take k l ++ [v]) ++ drop (S k) c.
Proof.
  intros Hc Hl. rewrite insert_app_r_alt by (rewrite length_take; lia).
  rewrite length_take, Nat.min_l, Nat.sub_diag by done.
  destruct (drop k c) as [|y d] eqn:Hd.
  - apply (f_equal length) in Hd. rewrite length_drop in Hd. simpl in Hd. lia.
  - rewrite <- app_assoc. simpl. do 2 f_equal.
    replace (S k) with (k + 1)%nat by lia. by rewrite <- drop_drop, Hd.
Qed.

Lemma upd_min_step l k v m0 :
  (k < length l)%nat → l !! k = Some v →
  upd_min (Z.of_nat k) v ((λ m, if Nat.eqb k 0 then m else min_list (take k l)) <$> m0) =
  (λ _, min_list (take (S k) l)) <$> m0.
Proof.
  intros Hk Hv. destruct m0 as [m|]; [|done]. unfold upd_min; simpl. f_equal.
  rewrite (take_S_r _ _ v) by done. destruct k as [|k]; simpl.
  - unfold min_list; simpl. rewrite Z.min_id. by destruct (v <? v).
  - rewrite min_list_snoc; [|destruct l; simpl in *; [lia|done]].
    destruct (Z.ltb_spec v (min_list (take (S k) l))); lia.
Qed.

Lemma upd_max_step l k v m0 :
  (k < length l)%nat → l !! k = Some v →
  upd_max (Z.of_nat k) v ((λ m, if Nat.eqb k 0 then m else max_list (take k l)) <$> m0) =
  (λ _, max_list (take (S k) l)) <$> m0.
Proof.
  intros Hk Hv. destruct m0 as [m|]; [|done]. unfold upd_max; simpl. f_equal.
  rewrite (take_S_r _ _ v) by done. destruct k as [|k]; simpl.
  - unfold max_list; simpl. rewrite Z.max_id. by destruct (v <? v).
  - rewrite max_list_snoc; [|destruct l; simpl in *; [lia|done]].
    destruct (Z.ltb_spec (max_list (take (S k) l)) v); lia.
Qed.

(** One round of the jitter loop, when the deviation fits its square in an
    [int64_t]. *)
Lemma jitter_round_spec {W} a v mj aj (w : W) :
  (a - v) * (a - v) < 2 ^ 63 →
  jitter_round a v (mj, aj) w = Ret (Z.max mj (Z.abs (a - v)), u64 (aj + (a - v) * (a - v))) w.
Proof.
  intros Hsq. assert (- 2 ^ 32 < a - v < 2 ^ 32) by nia.
  assert (s64 (u64 (a - v)) = a - v) as Hdev.
  { rewrite <- (swrap_id 64 (a - v)) at 2 by (unfold in_sint; lia).
    unfold swrap. f_equal. apply uwrap_add_l. }
  unfold jitter_round. rewrite Hdev. c_unfold.
  destruct (Z.ltb_spec (a - v) 0); [destruct (Z.eqb_spec (a - v) (- 2 ^ 63)); [lia|]|].
  - replace (- (a - v) * - (a - v)) with ((a - v) * (a - v)) by lia.
    destruct (Z.leb_spec (2 ^ 63) ((a - v) * (a - v))); [lia|].
    do 3 f_equal. destruct (Z.ltb_spec mj (- (a - v))); lia.
  - destruct (Z.leb_spec (2 ^ 63) ((a - v) * (a - v))); [lia|].
    do 3 f_equal. destruct (Z.ltb_spec mj (a - v)); lia.
Qed.

(** The jitter loop over an array that starts with [l]. *)
Lemma jitter_loop_spec {W} a base l rest (w : W) :
  Forall (λ v, (a - v) * (a - v) < 2 ^ 63) l →
  wp (cfor (length l) 0 (λ i s, v ← rd (Some (mk_arr base (l ++ rest))) i; jitter_round a v s) (0, 0))
     (λ s w', s = (max_dev a l, u64 (sum_sq_dev a l)) ∧ w' = w) w.
Proof.
  intros Hall.
  eapply wp_mono; [apply wp_cfor with (I := λ k s w',
    s = (max_dev a (take k l), u64 (sum_sq_dev a (take k l))) ∧ w' = w)|].
  - by rewrite take_0.
  - intros k s w1 Hk [-> ->]. apply wp_bind.
    destruct (lookup_lt_is_Some_2 l k Hk) as [v Hv].
    eapply wp_rd; [simpl; by rewrite lookup_app_l|].
    unfold wp. rewrite jitter_round_spec by (by eapply (Forall_lookup_1 _ _ _ _ Hall)).
    split; [|done]. rewrite (take_S_r _ _ v) by done.
    unfold max_dev, sum_sq_dev. rewrite !foldl_snoc. f_equal. apply uwrap_add_l.
  - intros s w'. by rewrite firstn_all.
Qed.

(** *** The first loops of the analyses *)

Lemma interval_loop_spec {W} base b baset ct mn mx (w : W) :
  (length b = S (length (intervals b)))%nat → (length (intervals b) < length ct)%nat →
  wp (cfor (length (intervals b)) 0 (λ i '(tmp', avg, min_val, max_val),
        x ← rd (Some (mk_arr base b)) (i + 1);
        y ← rd (Some (mk_arr base b)) i;
        let v := u64 (x - y) in
        tmp' ← wr tmp' i v;
        mret (tmp', u64 (avg + v), upd_min i v min_val, upd_max i v max_val))
      (Some (mk_arr baset ct), 0, mn, mx))
     (λ s w', let ivs := intervals b in
        s = (Some (mk_arr baset (ivs ++ drop (length ivs) ct)), u64 (sumZ ivs),
             (λ m, if Nat.eqb (length ivs) 0 then m else min_list ivs) <$> mn,
             (λ m, if Nat.eqb (length ivs) 0 then m else max_list ivs) <$> mx) ∧ w' = w) w.
Proof.
  intros Hb Hct. set (ivs := intervals b) in *.
  eapply wp_mono; [apply wp_cfor with (I := λ k s w',
    s = (Some (mk_arr baset (take k ivs ++ drop k ct)), u64 (sumZ (take k ivs)),
         (λ m, if Nat.eqb k 0 then m else min_list (take k ivs)) <$> mn,
         (λ m, if Nat.eqb k 0 then m else max_list (take k ivs)) <$> mx) ∧ w' = w)|].
  - rewrite take_0, drop_0. by destruct mn, mx.
  - intros k s w1 Hk [-> ->].
    destruct (lookup_lt_is_Some_2 b (S k)) as [x Hx]; [lia|].
    destruct (lookup_lt_is_Some_2 b k) as [y Hy]; [lia|].
    pose proof (intervals_lookup _ _ _ _ Hy Hx) as Hv. fold ivs in Hv.
    apply wp_bind. replace (0 + Z.of_nat k + 1) with (Z.of_nat (S k)) by lia.
    eapply wp_rd; [exact Hx|]. apply wp_bind. eapply wp_rd; [exact Hy|]. apply wp_bind.
    apply wp_wr; simpl.
    { rewrite length_app, length_take, length_drop. lia. }
    apply wp_ret. split; [|done].
    rewrite insert_take_drop, <- (take_S_r _ _ _ Hv) by lia.
    rewrite (take_S_r _ _ _ Hv), sumZ_snoc, uwrap_add_l, <- (take_S_r _ _ _ Hv).
    f_equal; [f_equal|].
    + rewrite (upd_min_step _ _ _ _ Hk Hv). by destruct mn.
    + rewrite (upd_max_step _ _ _ _ Hk Hv). by destruct mx.
  - intros s w' [-> ->]. by rewrite firstn_all.
Qed.

Lemma sum_loop_spec {W} base b mn mx (w : W) :
  wp (cfor (length b) 0 (λ i '(avg, min_val, max_val),
        v ← rd (Some (mk_arr base b)) i;
        mret (u64 (avg + v), upd_min i v min_val, upd_max i v max_val)) (0, mn, mx))
     (λ s w',
        s = (u64 (sumZ b), (λ m, if Nat.eqb (length b) 0 then m else min_list b) <$> mn,
             (λ m, if Nat.eqb (length b) 0 then m else max_list b) <$> mx) ∧ w' = w) w.
Proof.
  eapply wp_mono; [apply wp_cfor with (I := λ k s w',
    s = (u64 (sumZ (take k b)),
         (λ m, if Nat.eqb k 0 then m else min_list (take k b)) <$> mn,
         (λ m, if Nat.eqb k 0 then m else max_list (take k b)) <$> mx) ∧ w' = w)|].
  - rewrite take_0. by destruct mn, mx.
  - intros k s w1 Hk [-> ->].
    destruct (lookup_lt_is_Some_2 b k Hk) as [v Hv].
    apply wp_bind. eapply wp_rd; [exact Hv|]. apply wp_ret. split; [|done].
    rewrite (take_S_r _ _ _ Hv), sumZ_snoc, uwrap_add_l, <- (take_S_r _ _ _ Hv).
    f_equal; [f_equal|].
    + rewrite (upd_min_step _ _ _ _ Hk Hv). by destruct mn.
    + rewrite (upd_max_step _ _ _ _ Hk Hv). by destruct mx.
  - intros s w' [-> ->]. by rewrite firstn_all.
Qed.

Lemma analyze_stats {W} t act oth o1 o2 o3 mn mx (w : W) :
  trace_view t act oth → 2 ≤ cnt t → jitter_fits (intervals oth) →
  wp (osal_trace_analyze_min_max (Some t) (Some o1) (Some o2) (Some o3) mn mx)
     (λ r w', r.2 = stats_of (intervals oth) (cnt t) mn mx ∧ trace_view r.1 act oth ∧ w' = w) w.
Proof.
  intros Hv Hc Hfits. pose proof (trace_view_active t act oth Hv) as (la & lo & _ & Hoth & Hb01 & Hsel).
  destruct Hv as (la' & lo' & lt & ct & Hbuf & Htmp & Hcw & Hp & Hla & Hlo & Hlt).
  unfold osal_trace_analyze_min_max. do 4 (apply wp_bind; apply wp_ret). apply wp_bind.
  rewrite Hsel. eapply wp_buffer; [by destruct (act_buf t =? 0); [right|left]|exact Hoth|].
  assert (length oth = S (length (intervals oth))) as Hlb by (rewrite length_intervals; lia).
  assert (length (intervals oth) ≠ 0)%nat as Hne by lia.
  rewrite uwrap_id by (unfold in_uint; lia).
  replace (Z.to_nat (cnt t - 1)) with (length (intervals oth)) by lia.
  replace (cnt t - 1) with (Z.of_nat (length (intervals oth))) by lia.
  apply wp_bind. rewrite Htmp. eapply wp_mono; [apply interval_loop_spec; lia|].
  intros s w1 [-> ->]. apply Nat.eqb_neq in Hne as Hne'. rewrite Hne'.
  destruct (Z.eqb_spec (Z.of_nat (length (intervals oth))) 0); [lia|].
  apply wp_bind, wp_ret, wp_bind.
  eapply wp_mono; [by apply jitter_loop_spec|]. intros s w1 [-> ->].
  destruct (Z.eqb_spec (cnt t) 0); [lia|]. apply wp_bind, wp_ret, wp_ret. simpl.
  split; [unfold stats_of; f_equal; by destruct mn, mx|]. split; [|done].
  exists la', lo', lt, (intervals oth ++ drop (length (intervals oth)) ct). simpl.
  split; [exact Hbuf|]. rewrite length_app, length_drop. split_and!; (done || lia).
Qed.

Lemma analyze_rel_stats {W} t act oth o1 o2 o3 mn mx (w : W) :
  trace_view t act oth → jitter_fits oth →
  wp (osal_trace_analyze_rel_min_max (Some t) (Some o1) (Some o2) (Some o3) mn mx)
     (λ s w', s = stats_of oth (cnt t) mn mx ∧ w' = w) w.
Proof.
  intros Hv Hfits. pose proof (trace_view_active t act oth Hv) as (la & lo & _ & Hoth & Hb01 & Hsel).
  destruct Hv as (la' & lo' & lt & ct & Hbuf & Htmp & Hcw & Hp & Hla & Hlo & Hlt).
  unfold osal_trace_analyze_rel_min_max. do 4 (apply wp_bind; apply wp_ret). apply wp_bind.
  rewrite Hsel. eapply wp_buffer; [by destruct (act_buf t =? 0); [right|left]|exact Hoth|].
  rewrite <- Hlo. replace (cnt t) with (Z.of_nat (length oth)) by lia.
  apply wp_bind. eapply wp_mono; [apply sum_loop_spec|]. intros s w1 [-> ->].
  assert (length oth ≠ 0)%nat as Hne by lia. apply Nat.eqb_neq in Hne as ->.
  destruct (Z.eqb_spec (Z.of_nat (length oth)) 0); [lia|].
  apply wp_bind, wp_ret, wp_bind.
  eapply wp_mono; [pose proof (jitter_loop_spec (u64 (sumZ oth) / Z.of_nat (length oth)) lo oth [] w Hfits) as H;
                   rewrite app_nil_r in H; exact H|]. intros s w1 [-> ->].
  apply wp_ret. split; [|done]. unfold stats_of. f_equal; by destruct mn, mx.
Qed.

(** The sum telescopes when the stamps do not decrease. *)
Lemma sum_intervals_exact b :
  b ≠ [] → Forall (in_uint 64) b → hd 0 b ≤ List.last b 0 →
  u64 (sumZ (intervals b)) = List.last b 0 - hd 0 b.
Proof.
  intros Hne Hall Hle. destruct b as [|x b]; [done|]. rewrite sum_intervals.
  assert (List.last (x :: b) 0 = List.last b x) as Hl.
  { destruct b as [|y b]; [done|]. simpl. clear. revert y.
    induction b as [|z b IH]; intros y; [done|]. simpl. apply IH. }
  rewrite Hl in Hle |- *. apply uwrap_id.
  assert (List.last b x ∈ x :: b) as Hin.
  { clear. destruct b as [|y b _] using rev_ind; [set_solver|].
    rewrite List.last_last. set_solver. }
  rewrite Forall_forall in Hall. pose proof (Hall _ Hin). assert (in_uint 64 x) by (apply Hall; left).
  unfold in_uint in *. simpl in Hle. simpl hd. lia.
Qed.

(** Below [2^52] the truncated [double] square root is the integer one. *)
Lemma c_sqrt_exact m : 0 ≤ m < 2 ^ 52 → c_sqrt m = Z.sqrt m.
Proof.
  intros Hm. unfold c_sqrt. destruct (Z.eqb_spec m 0) as [->|Hm0]; [done|].
  pose proof (Z.log2_spec m ltac:(lia)) as [_ Hlog].
  assert (Z.log2 m < 52) by (apply Z.log2_lt_pow2; lia).
  pose proof (Z.log2_nonneg m). pose proof (Z.div_mod (Z.log2 m) 2 ltac:(lia)).
  pose proof (Z.mod_pos_bound (Z.log2 m) 2 ltac:(lia)).
  set (L := Z.log2 m / 2 + 1) in *. set (k := 53 - L). set (n := m * 4 ^ k).
  assert (4 ^ k = 2 ^ k * 2 ^ k) as H4 by (rewrite <- Z.pow_add_r, Z.add_diag by lia; symmetry; apply (Z.pow_mul_r 2 2); lia).
  assert (2 ^ 27 ≤ 2 ^ k) by (apply Z.pow_le_mono_r; lia).
  pose proof (Z.sqrt_spec m ltac:(lia)) as [Hr1 Hr2]. pose proof (Z.sqrt_nonneg m).
  set (r := Z.sqrt m) in *.
  assert (r < 2 ^ 26) by (assert (r * r < 2 ^ 52) by lia; nia).
  pose proof (Z.sqrt_spec n ltac:(unfold n; nia)) as [Hs1 Hs2]. pose proof (Z.sqrt_nonneg n).
  set (s := Z.sqrt n) in *. set (p := 2 ^ k) in *.
  assert (n = m * (p * p)) as Hn by (unfold n; by rewrite H4). clearbody n.
  assert (r * p ≤ s) by (apply Z.sqrt_le_square; nia).
  assert (s < (r + 1) * p) by (apply Z.sqrt_lt_square; nia).
  assert (∀ q, r * p ≤ q < (r + 1) * p → q / p = r) as Hdiv.
  { intros q Hq. symmetry. apply (Z.div_unique q p r (q - p * r)); lia. }
  destruct (Z.ltb_spec s (n - s * s)); apply Hdiv; [|lia].
  enough (s + 1 ≠ (r + 1) * p) by lia. intros Heq.
  assert (m ≤ (r + 1) * (r + 1) - 1) by lia.
  assert (n ≤ ((r + 1) * (r + 1) - 1) * (p * p)) by (rewrite Hn; apply Z.mul_le_mono_nonneg_r; nia).
  assert (((r + 1) * (r + 1) - 1) * (p * p) = (s + 1) * (s + 1) - p * p) by (rewrite Heq; ring).
  assert (p * p ≤ s + 1) by lia. nia.
Qed.

Lemma sum_sq_dev_pos a l : 0 ≤ sum_sq_dev a l.
Proof.
  unfold sum_sq_dev. induction l as [|x l IH] using rev_ind; [done|].
  rewrite foldl_snoc. pose proof (Z.square_nonneg (a - x)). lia.
Qed.

(** Under these bounds the average jitter of a block is an integer square
    root. *)
Lemma stats_jitter ivs c mn mx :
  let a := u64 (sumZ ivs) / Z.of_nat (length ivs) in
  0 < c → sum_sq_dev a ivs < 2 ^ 64 → sum_sq_dev a ivs / c < 2 ^ 52 →
  avg_jit (stats_of ivs c mn mx) = Z.sqrt (sum_sq_dev a ivs / c).
Proof.
  intros a Hc H64 H52. unfold stats_of, avg_jit. fold a.
  pose proof (sum_sq_dev_pos a ivs). rewrite (uwrap_id 64) by (unfold in_uint; lia). pose proof (Z.div_pos _ _ H Hc).
  rewrite dbl_small by lia. by apply c_sqrt_exact.
Qed.

(** *** Memory *)

Section memory.
Context {W : Type} `{!Malloc W, !BinarySemaphore W, !MallocLaws W}.

Lemma wp_free l (Q : unit → W → Prop) w :
  l ∈ live w → (∀ w', live w' = live w ∖ {[l]} → Q tt w') → wp (free l) Q w.
Proof. intros Hl HQ. unfold wp. destruct (free_law l w Hl) as (w' & -> & Hw). by apply HQ. Qed.

Lemma wp_free_arr a (Q : unit → W → Prop) w :
  arr_blocks a ⊆ live w → (∀ w', live w' = live w ∖ arr_blocks a → Q tt w') → wp (free_arr a) Q w.
Proof.
  destruct a as [a|]; simpl; intros Hl HQ; [apply wp_free; [set_solver|done]|].
  apply wp_ret, HQ. set_solver.
Qed.

Lemma wp_malloc_u64 n (Q : option arr → W → Prop) w :
  (∀ a w', arr_blocks a ## live w → live w' = arr_blocks a ∪ live w →
     (∀ x, a = Some x → length (cells x) = Z.to_nat n) → Q a w') →
  wp (malloc_u64 n) Q w.
Proof.
  intros HQ. unfold malloc_u64. apply wp_bind. unfold wp at 1.
  destruct (malloc_law (8 * n) w) as (p & junk & w' & -> & Hp).
  apply wp_ret. destruct p as [l|]; apply HQ; simpl.
  - set_solver.
  - by destruct Hp.
  - intros x [= <-]. simpl. by rewrite length_replicate.
  - set_solver.
  - set_solver.
  - done.
Qed.

(** Freeing the four blocks of a trace. *)
Lemma trace_release l t a0 a1 w :
  time_in_ns t = [a0; a1] → {[l]} ⊆ live w → trace_blocks l t ⊆ live w →
  {[l]} ## arr_blocks a0 → {[l]} ## arr_blocks a1 → {[l]} ## arr_blocks (tmp t) →
  arr_blocks a0 ## arr_blocks a1 → arr_blocks a0 ## arr_blocks (tmp t) →
  arr_blocks a1 ## arr_blocks (tmp t) →
  wp (trace_error_exit l t) (λ _ w', live w' = live w ∖ trace_blocks l t) w.
Proof.
  unfold trace_blocks. intros Ht Hl Hsub Hl0 Hl1 Hlt H01 H0t H1t. rewrite Ht in *. simpl in *.
  unfold trace_error_exit. apply wp_bind, wp_free_arr; [set_solver|]. intros w1 Hw1.
  apply wp_bind. eapply wp_buffer; [by right|by rewrite Ht|].
  apply wp_bind, wp_free_arr; [rewrite Hw1; clear Hw1 Ht; set_solver|]. intros w2 Hw2.
  rewrite Hw1 in Hw2. clear Hw1 w1.
  apply wp_bind. eapply wp_buffer; [by left|by rewrite Ht|].
  apply wp_bind, wp_free_arr; [rewrite Hw2; clear Hw2 Ht; set_solver|]. intros w3 Hw3.
  rewrite Hw2 in Hw3. clear Hw2 w2.
  apply wp_free; [rewrite Hw3; clear Hw3 Ht; set_solver|]. intros w4 Hw4.
  rewrite Hw4, Hw3, !difference_difference_l_L. f_equal. clear. set_solver.
Qed.

Lemma trace_release_fresh l t a0 a1 (L : gset loc) w :
  time_in_ns t = [a0; a1] → l ∉ L → arr_blocks a0 ## {[l]} ∪ L →
  arr_blocks a1 ## arr_blocks a0 ∪ ({[l]} ∪ L) →
  arr_blocks (tmp t) ## arr_blocks a1 ∪ (arr_blocks a0 ∪ ({[l]} ∪ L)) →
  live w = arr_blocks (tmp t) ∪ (arr_blocks a1 ∪ (arr_blocks a0 ∪ ({[l]} ∪ L))) →
  live w = trace_blocks l t ∪ L ∧ trace_blocks l t ## L ∧
  wp (trace_error_exit l t) (λ _ w', live w' = L) w.
Proof.
  intros Ht Hl H0 H1 H2 Hw.
  assert (live w = trace_blocks l t ∪ L) as Hw'.
  { unfold trace_blocks. rewrite Hw, Ht. simpl. clear. set_solver. }
  assert (trace_blocks l t ## L) as Hd.
  { unfold trace_blocks. rewrite Ht. simpl. clear Ht Hw Hw'. set_solver. }
  split; [done|]. split; [done|].
  eapply wp_mono; [apply (trace_release l t a0 a1)|]; [done|..].
  1: rewrite Hw; clear; set_solver.
  1: rewrite Hw'; clear; set_solver.
  7: intros _ w' ->; rewrite Hw'; clear -Hd; set_solver.
  all: clear Hw Hw' Hd Ht; set_solver.
Qed.

Lemma trace_free_release t l w :
  osal_trace_free (Some (l, t)) w = trace_error_exit l t w.
Proof. done. Qed.

(** What [osal_trace_alloc] gives: on success a trace with an empty history
    whose blocks are fresh and which [osal_trace_free] gives back, on failure
    nothing. *)
Definition trace_alloc_post (w : W) (n : Z) (rp : Z * option (loc * osal_trace)) (w' : W) : Prop :=
  ∃ l t, rp.2 = Some (l, t) ∧
    if rp.1 =? OSAL_OK
    then live w' = trace_blocks l t ∪ live w ∧ trace_blocks l t ## live w ∧
         wp (osal_trace_free rp.2) (λ _ w'', live w'' = live w) w' ∧
         (0 < n < 2 ^ 32 → trace_rep t [] ∧ cnt t = n)
    else live w' = live w.

Lemma trace_alloc_null n o w junk w' :
  malloc sizeof_osal_trace w = Ret (None, junk) w' → osal_trace_alloc (Some o) n w = Undef.
Proof. intros H. unfold osal_trace_alloc. c_unfold. by rewrite H. Qed.

Lemma trace_alloc_spec n o w l junk w' :
  (∀ l w, wp (osal_binary_semaphore_init (Some l)) (λ _ w', live w' = live w) w) →
  malloc sizeof_osal_trace w = Ret (Some l, junk) w' →
  wp (osal_trace_alloc (Some o) n) (trace_alloc_post w n) w.
Proof.
  intros Hinit Hm. destruct (malloc_law sizeof_osal_trace w) as (p & j & w1 & Hm1 & Hl).
  rewrite Hm in Hm1. injection Hm1 as <- <- <-. destruct Hl as [Hl Hw'].
  unfold osal_trace_alloc. apply wp_bind, wp_ret, wp_bind. unfold wp at 1. rewrite Hm.
  apply wp_bind, wp_ret, wp_bind. eapply wp_mono; [apply Hinit|]. intros r w1 Hw1.
  destruct (Z.eqb_spec r OSAL_OK) as [->|Hr]; simpl.
  - apply wp_bind, wp_malloc_u64. intros a0 w2 Hd0 Hw2 Hc0.
    apply wp_bind, wp_malloc_u64. intros a1 w3 Hd1 Hw3 Hc1.
    apply wp_bind, wp_malloc_u64. intros at_ w4 Hdt Hw4 Hct.
    rewrite Hw1, Hw' in *. rewrite Hw2 in *. rewrite Hw3 in *.
    pose proof (trace_release_fresh l (mk_trace n 0 0 l [a0; a1] at_) a0 a1 (live w) w4
      eq_refl Hl Hd0 Hd1 Hdt Hw4) as (Hblocks & Hdisj & Hexit). clear Hw1 Hw2 Hw3 Hd0 Hd1 Hdt.
    destruct a0 as [a0|], a1 as [a1|], at_ as [at_|];
      try (apply wp_bind; eapply wp_mono; [exact Hexit|]; intros ? w5 Hw5; apply wp_ret;
           by eexists l, _).
    unfold memset0. do 3 apply wp_bind, wp_ret. apply wp_ret. eexists l, _. split; [done|].
    cbn [fst snd]. rewrite Z.eqb_refl. split; [exact Hblocks|]. split; [exact Hdisj|]. split; [exact Hexit|].
    intros Hn. split; [|done]. exists (replicate (length (cells a0)) 0), (replicate (length (cells a1)) 0).
    split; [|left; done]. eexists _, _, _, _. split; [left; done|]. simpl.
    rewrite !length_replicate, (Hc0 _ eq_refl), (Hc1 _ eq_refl), (Hct _ eq_refl). split_and!; (done || lia).
  - apply wp_bind. rewrite Hw' in Hw1. eapply wp_mono;
      [apply (trace_release_fresh l (mk_trace n 0 0 l [None; None] None) None None (live w));
       simpl; try done; rewrite ?Hw1; clear -Hl; set_solver|].
    intros ? w2 Hw2. apply wp_ret. eexists l, _. split; [done|].
    simpl. by destruct (Z.eqb_spec r OSAL_OK).
Qed.
End memory.

(** ** A concrete heap and semaphore

    Memory that runs out after [room] allocations, addresses above all live
    ones, fresh cells holding 7; semaphores that are up or down. *)
Module Sim.
Record world : Type := mk_world { blocks : gset loc; room : nat; sems : gmap loc bool }.

Definition top (s : gset loc) : loc := foldr Pos.max 1%positive (elements s).

#[global] Instance heap : Malloc world := {|
  malloc _ w :=
    match room w with
    | O => Ret (None, 7) w
    | S k => let l := Pos.succ (top (blocks w)) in
             Ret (Some l, 7) (mk_world ({[l]} ∪ blocks w) k (sems w))
    end;
  free l w :=
    if decide (l ∈ blocks w) then Ret tt (mk_world (blocks w ∖ {[l]}) (room w) (sems w)) else Undef;
|}.

Lemma top_fresh (s : gset loc) : Pos.succ (top s) ∉ s.
Proof.
  intros H. apply elem_of_elements in H. unfold top in H. revert H.
  enough (∀ x l, x ∈ l → (x ≤ foldr Pos.max 1 l)%positive) as Hmax.
  { intros H. apply Hmax in H. lia. }
  intros x l. induction l as [|y l IH]; simpl; [set_solver|].
  intros [->|H]%elem_of_cons; [lia|]. specialize (IH H). lia.
Qed.

#[global] Instance laws : MallocLaws world.
Proof.
  refine {| live := blocks |}.
  - intros n w. simpl. destruct (room w); do 3 eexists; (split; [done|]); [done|].
    split; [apply top_fresh|done].
  - intros l w H. simpl. rewrite decide_True by done. by eexists.
Defined.

#[global] Instance sem : BinarySemaphore world := {|
  osal_binary_semaphore_init p := l ← assert_ptr p;
    modify (λ w, mk_world (blocks w) (room w) (<[l := false]> (sems w)));; mret OSAL_OK;
  osal_binary_semaphore_post p := l ← assert_ptr p;
    modify (λ w, mk_world (blocks w) (room w) (<[l := true]> (sems w)));; mret OSAL_OK;
  osal_binary_semaphore_trywait p := l ← assert_ptr p;
    ((λ w, Ret (if default false (sems w !! l) then OSAL_OK else OSAL_ERR_BUSY)
              (mk_world (blocks w) (room w) (<[l := false]> (sems w)))) : C world Z);
  osal_binary_semaphore_timedwait p _ := _ ← assert_ptr p; mret OSAL_ERR_TIMEOUT;
|}.

#[global] Instance spec : BinarySemaphoreSpec world.
Proof.
  refine {| bs_ready := λ l w, is_Some (sems w !! l); bs_posted := λ l w, default false (sems w !! l) |};
    intros l w; unfold wp; simpl; c_unfold; simpl; intros; rewrite lookup_insert_eq; by eauto.
Defined.

(** A trace of three stamps, its active half partly filled. *)
Definition trace3 : osal_trace :=
  mk_trace 3 1 1 4 [Some (mk_arr 1 [10; 25; 50]); Some (mk_arr 2 [60; 0; 0])] (Some (mk_arr 3 [0; 0; 0])).

Definition world3 : world := mk_world {[1; 2; 3; 4]}%positive 0 {[4%positive := false]}.

Lemma trace3_view : trace_view trace3 [60; 0; 0] [10; 25; 50].
Proof. exists 2%positive, 1%positive, 3%positive, [0; 0; 0]. split; [by right|]. split_and!; (done || simpl; lia). Qed.

Lemma trace3_rep : trace_rep trace3 [10; 25; 50; 60].
Proof. exists [60; 0; 0], [10; 25; 50]. split; [apply trace3_view|]. right. by exists []. Qed.

Lemma trace3_ready : bs_ready (sync_sem trace3) world3.
Proof. exists false. reflexivity. Qed.
End Sim.

(** ** Properties *)

(** (C11) Recording a time appends it to the history the trace holds; nothing
    outside the trace changes, except that the semaphore is posted exactly when
    the recorded time completes a block. *)
Theorem osal_trace_time_rep {W} `{!BinarySemaphore W, !BinarySemaphoreSpec W} t h x (w : W) :
  trace_rep t h → bs_ready (sync_sem t) w →
  wp (osal_trace_time (Some t) x) (λ t' w',
    trace_rep t' (h ++ [x]) ∧ cnt t' = cnt t ∧ sync_sem t' = sync_sem t ∧
    if pos t + 1 <? cnt t then w' = w
    else bs_ready (sync_sem t) w' ∧ bs_posted (sync_sem t) w' = true) w.
Proof. apply trace_time_step. Qed.

Lemma osal_trace_time_rep_witness :
  wp (osal_trace_time (Some Sim.trace3) 75) (λ t' _, trace_rep t' [10; 25; 50; 60; 75]) Sim.world3.
Proof.
  eapply wp_mono;
    [refine (osal_trace_time_rep Sim.trace3 _ 75 Sim.world3 Sim.trace3_rep Sim.trace3_ready)|].
  by intros t w [H _].
Defined.

(** (C18) After any number of recorded times, [osal_trace_get_last_time] returns
    the time recorded last, across all buffer swaps. *)
Theorem osal_trace_last_recorded {W} `{!BinarySemaphore W, !BinarySemaphoreSpec W} t h ts x (w : W) :
  trace_rep t h → bs_ready (sync_sem t) w →
  wp (t' ← record_all t (ts ++ [x]); osal_trace_get_last_time (Some t')) (λ r _, r = x) w.
Proof.
  intros Hrep Hready. apply wp_bind. eapply wp_mono; [by apply record_all_rep|].
  intros t' w' Hr. simpl in Hr. rewrite app_assoc in Hr.
  eapply wp_mono; [by eapply trace_last_time|]. by intros r ? [-> _].
Qed.

Lemma osal_trace_last_recorded_witness :
  wp (t' ← record_all Sim.trace3 ([75; 90; 92] ++ [100]); osal_trace_get_last_time (Some t'))
     (λ r _, r = 100) Sim.world3.
Proof.
  refine (osal_trace_last_recorded Sim.trace3 _ _ 100 Sim.world3 Sim.trace3_rep Sim.trace3_ready).
Defined.

(** (C21) The statistics [osal_trace_analyze_min_max] computes of the block
    recorded last, whose stamps do not run backwards: the average is the distance
    between the last and the first stamp over the number of intervals; the
    maximal jitter bounds every deviation from it and is attained; minimum and
    maximum are intervals and bound all of them. The average jitter is not the
    standard deviation trace.h calls it: the squared deviations of the [cnt - 1]
    intervals are summed, but the sum is divided by [cnt], so the result is the
    integer square root of less than their mean, and never above the standard
    deviation. The trace's contents stay. *)
Theorem osal_trace_analyze_min_max_stats {W} t act oth o1 o2 o3 mn mx (w : W) :
  trace_view t act oth → 2 ≤ cnt t → Forall (in_uint 64) oth → hd 0 oth ≤ List.last oth 0 →
  jitter_fits (intervals oth) →
  wp (osal_trace_analyze_min_max (Some t) (Some o1) (Some o2) (Some o3) (Some mn) (Some mx))
     (λ '(t', s) w', trace_view t' act oth ∧ w' = w ∧
        let ivs := intervals oth in
        avg s = (List.last oth 0 - hd 0 oth) / (cnt t - 1) ∧
        Forall (λ v, Z.abs (avg s - v) ≤ max_jit s) ivs ∧
        (∃ v, v ∈ ivs ∧ max_jit s = Z.abs (avg s - v)) ∧
        (∃ lo hi, min_val s = Some lo ∧ max_val s = Some hi ∧ lo ∈ ivs ∧ hi ∈ ivs ∧
                  Forall (λ v, lo ≤ v ≤ hi) ivs) ∧
        (sum_sq_dev (avg s) ivs < 2 ^ 64 → sum_sq_dev (avg s) ivs / cnt t < 2 ^ 52 →
         avg_jit s = Z.sqrt (sum_sq_dev (avg s) ivs / cnt t) ∧
         avg_jit s ≤ Z.sqrt (sum_sq_dev (avg s) ivs / Z.of_nat (length ivs)))) w.
Proof.
  intros Hv Hc Hall Hle Hfits. eapply wp_mono; [by apply analyze_stats|].
  intros [t' s] w' (Hs & Hv' & ->). simpl in Hs, Hv'. subst s. split; [done|]. split; [done|].
  pose proof Hv as (_ & _ & _ & _ & _ & _ & _ & _ & _ & Hlo & _).
  assert (intervals oth ≠ []) as Hne.
  { intros H. pose proof (length_intervals oth) as Hl. rewrite H in Hl. simpl in Hl. lia. }
  destruct (max_dev_spec (avg (stats_of (intervals oth) (cnt t) (Some mn) (Some mx))) (intervals oth))
    as (_ & Hmax & Hex).
  destruct (min_list_spec _ Hne) as [Hmin1 Hmin2], (max_list_spec _ Hne) as [Hmax1 Hmax2].
  split; [|split; [exact Hmax|split; [by apply Hex|split]]].
  - simpl. rewrite sum_intervals_exact by (done || by destruct oth). f_equal.
    rewrite length_intervals. lia.
  - exists (min_list (intervals oth)), (max_list (intervals oth)). split_and!; try done.
    apply Forall_and. by split.
  - intros H64 H52. rewrite stats_jitter by (done || lia). split; [done|].
    apply Z.sqrt_le_mono, Z.div_le_compat_l; [apply sum_sq_dev_pos|]. rewrite length_intervals. lia.
Qed.

(** Deviations of 5 and 5, and an average "standard deviation" of 4. *)
Example osal_trace_analyze_jitter_low :
  wp (osal_trace_analyze_min_max (Some Sim.trace3) (Some 0) (Some 0) (Some 0) None None)
     (λ '(_, s) _, avg_jit s = 4 ∧ Z.sqrt (sum_sq_dev (avg s) (intervals [10; 25; 50]) / 2) = 5) Sim.world3.
Proof. by vm_compute. Qed.

Lemma osal_trace_analyze_min_max_stats_witness :
  wp (osal_trace_analyze_min_max (Some Sim.trace3) (Some 0) (Some 0) (Some 0) (Some 0) (Some 0))
     (λ '(_, s) _, avg s = 20 ∧ max_jit s = 5) Sim.world3.
Proof.
  assert (jitter_fits (intervals [10; 25; 50])) as Hj.
  { repeat constructor. }
  eapply wp_mono;
    [refine (osal_trace_analyze_min_max_stats Sim.trace3 [60; 0; 0] [10; 25; 50] 0 0 0 0 0 Sim.world3
       Sim.trace3_view _ _ _ Hj)|].
  - done.
  - repeat (constructor; [split; [lia|done]|]). constructor.
  - done.
  - intros [t s] w (_ & _ & Ha & Hm & (v & Hv & Hmv) & _). simpl in Ha. change (50 - 10) with 40 in Ha.
    split; [exact Ha|]. rewrite Ha in Hmv. simpl in Hv.
    apply elem_of_cons in Hv as [->|[->|[]%elem_of_nil]%elem_of_cons]; exact Hmv.
Defined.

(** The statistics [osal_trace_analyze_rel_min_max] computes of a block of
    durations: the average of the durations, a maximal jitter that bounds every
    deviation from it and is attained, the least and the greatest duration, and
    the integer square root of the mean square deviation. *)
Theorem osal_trace_analyze_rel_min_max_stats {W} t act oth o1 o2 o3 mn mx (w : W) :
  trace_view t act oth → in_uint 64 (sumZ oth) → jitter_fits oth →
  wp (osal_trace_analyze_rel_min_max (Some t) (Some o1) (Some o2) (Some o3) (Some mn) (Some mx))
     (λ s w', w' = w ∧ avg s = sumZ oth / cnt t ∧
        Forall (λ v, Z.abs (avg s - v) ≤ max_jit s) oth ∧
        (∃ v, v ∈ oth ∧ max_jit s = Z.abs (avg s - v)) ∧
        (∃ lo hi, min_val s = Some lo ∧ max_val s = Some hi ∧ lo ∈ oth ∧ hi ∈ oth ∧
                  Forall (λ v, lo ≤ v ≤ hi) oth) ∧
        (sum_sq_dev (avg s) oth < 2 ^ 64 → sum_sq_dev (avg s) oth / cnt t < 2 ^ 52 →
         avg_jit s = Z.sqrt (sum_sq_dev (avg s) oth / cnt t))) w.
Proof.
  intros Hv Hsum Hfits. eapply wp_mono; [by eapply analyze_rel_stats|]. intros s w' [-> ->].
  split; [done|]. pose proof Hv as (_ & _ & _ & _ & _ & _ & Hc & _ & _ & Hlo & _).
  assert (oth ≠ []) as Hne by (intros ->; simpl in Hlo; lia).
  destruct (max_dev_spec (avg (stats_of oth (cnt t) (Some mn) (Some mx))) oth) as (_ & Hmax & Hex).
  destruct (min_list_spec _ Hne) as [Hmin1 Hmin2], (max_list_spec _ Hne) as [Hmax1 Hmax2].
  split; [|split; [exact Hmax|split; [by apply Hex|split]]].
  - simpl. rewrite uwrap_id by done. f_equal. lia.
  - exists (min_list oth), (max_list oth). split_and!; try done. apply Forall_and. by split.
  - intros H64 H52. apply stats_jitter; [lia|exact H64|exact H52].
Qed.

Lemma osal_trace_analyze_rel_min_max_stats_witness :
  wp (osal_trace_analyze_rel_min_max (Some Sim.trace3) (Some 0) (Some 0) (Some 0) (Some 0) (Some 0))
     (λ s _, avg s = 28) Sim.world3.
Proof.
  assert (jitter_fits [10; 25; 50]) as Hj by repeat constructor.
  eapply wp_mono;
    [refine (osal_trace_analyze_rel_min_max_stats Sim.trace3 [60; 0; 0] [10; 25; 50] 0 0 0 0 0 Sim.world3
       Sim.trace3_view _ Hj)|].
  - split; [discriminate|reflexivity].
  - intros s w (_ & H & _). exact H.
Defined.

(** With a single sample per block there is no interval, and
    [osal_trace_analyze_min_max] divides by zero. *)
Theorem osal_trace_analyze_single_undef {W} t act oth o1 o2 o3 mn mx (w : W) :
  trace_view t act oth → cnt t = 1 →
  osal_trace_analyze_min_max (Some t) (Some o1) (Some o2) (Some o3) mn mx w = Undef.
Proof.
  intros Hv Hc. destruct (trace_view_active t act oth Hv) as (la & lo & _ & Hoth & Hb01 & Hsel).
  unfold osal_trace_analyze_min_max, buffer. c_unfold. rewrite Hsel, Hoth, Hc.
  by destruct Hb01 as [-> | ->].
Qed.

Lemma osal_trace_analyze_single_undef_witness :
  let t := mk_trace 1 0 0 4 [Some (mk_arr 1 [5]); Some (mk_arr 2 [6])] (Some (mk_arr 3 [0])) in
  osal_trace_analyze_min_max (Some t) (Some 0) (Some 0) (Some 0) None None Sim.world3 = Undef.
Proof.
  intros t. refine (osal_trace_analyze_single_undef t [5] [6] 0 0 0 None None Sim.world3 _ eq_refl).
  exists 1%positive, 2%positive, 3%positive, [0]. split; [by left|]. split_and!; (done || simpl; lia).
Defined.

(** (C26) Memory safety of a trace's life: if the first [malloc] gives NULL the
    structure is cleared through the null pointer; otherwise [osal_trace_alloc]
    returns, and either reports an error having given back all memory it
    took, or a trace with an empty history that owns only fresh blocks, all of
    which [osal_trace_free] gives back. *)
Theorem osal_trace_alloc_memory {W} `{!Malloc W, !BinarySemaphore W, !MallocLaws W} o n (w : W) :
  (∀ l w, wp (osal_binary_semaphore_init (Some l)) (λ _ w', live w' = live w) w) →
  (osal_trace_alloc (Some o) n w = Undef ∧ ∃ junk w', malloc sizeof_osal_trace w = Ret (None, junk) w') ∨
  wp (osal_trace_alloc (Some o) n) (trace_alloc_post w n) w.
Proof.
  intros Hinit. destruct (malloc_law sizeof_osal_trace w) as ([l|] & junk & w' & Hm & _).
  - right. by eapply trace_alloc_spec.
  - left. split; [by eapply trace_alloc_null|by eauto].
Qed.

Lemma osal_trace_alloc_memory_witness :
  osal_trace_alloc (Some None) 3 (Sim.mk_world ∅ 4 ∅) ≠ Undef ∧
  wp (osal_trace_alloc (Some None) 3) (trace_alloc_post (Sim.mk_world ∅ 4 ∅) 3) (Sim.mk_world ∅ 4 ∅).
Proof.
  destruct (osal_trace_alloc_memory None 3 (Sim.mk_world ∅ 4 ∅)) as [[_ (? & ? & H)]|H].
  - intros l w. reflexivity.
  - discriminate H.
  - split; [|exact H]. intros E. unfold wp in H. by rewrite E in H.
Defined.
