(* ===== verification/TraceShared.v ===== *)
(** * Tracing while another thread analyses: src/trace.c

    One thread records with [osal_trace_time]; another one waits with
    [osal_trace_timedwait] for a block to be complete and then analyses it.
    Neither takes a lock. The functions are programs over the single accesses to
    the trace (Programs), which the two threads interleave in any order. The
    binary semaphore is its flag, set and taken in one access, as proved of its
    implementation (PosixBinarySemaphore). The member [cnt], which is not
    written after the allocation, is the variable [n].

    If the analysis of a block ends before the next block is complete, every
    block is analysed, once and in order, and its statistics are right; if it
    does not, they may be of no block at all. *)

From S2P Require Import Prelude Programs Osal Timer BinarySemaphore Trace.
Open Scope list_scope.

(** ** The memory *)

(** [busy] is not a variable of the program: it is true from the moment the
    analysing thread is told that a block is complete ([SemTimedwait]) until it
    has its statistics ([Finish]). *)
Record shared : Type := mk_shared { tr : osal_trace; flag : bool; busy : bool }.

Inductive event : Type :=
  | ReadActBuf
  | WriteActBuf (v : Z)
  | ReadPos
  | WritePos (v : Z)
  | ReadTime (buf i : Z)
  | WriteTime (buf i v : Z)
  | ReadTmp (i : Z)
  | WriteTmp (i v : Z)
  | SemPost
  | SemTimedwait
  | Finish
  | Undefined.

Abbreviation prog := (Programs.prog event).

Definition array (t : osal_trace) (buf : Z) : option arr :=
  guard (buf = 0 ∨ buf = 1);; mjoin (time_in_ns t !! Z.to_nat buf).

Definition cell (a : arr) (i : Z) : option Z := guard (0 ≤ i);; cells a !! Z.to_nat i.

Definition with_cell (a : arr) (i v : Z) : option arr :=
  guard (0 ≤ i < Z.of_nat (length (cells a)));; Some (mk_arr (base a) (<[Z.to_nat i := v]> (cells a))).

Definition set_tr (r : shared) (t : osal_trace) : shared := mk_shared t (flag r) (busy r).
Definition set_act_buf (t : osal_trace) (v : Z) : osal_trace :=
  mk_trace (cnt t) v (pos t) (sync_sem t) (time_in_ns t) (tmp t).
Definition set_pos (t : osal_trace) (v : Z) : osal_trace :=
  mk_trace (cnt t) (act_buf t) v (sync_sem t) (time_in_ns t) (tmp t).

(** [None]: outside of an array, or undefined. *)
Definition access (e : event) (r : shared) : option (Z * shared) :=
  let t := tr r in
  match e with
  | ReadActBuf => Some (act_buf t, r)
  | WriteActBuf v => Some (0, set_tr r (set_act_buf t v))
  | ReadPos => Some (pos t, r)
  | WritePos v => Some (0, set_tr r (set_pos t v))
  | ReadTime buf i => a ← array t buf; v ← cell a i; Some (v, r)
  | WriteTime buf i v => a ← array t buf; a ← with_cell a i v; Some (0, set_tr r (set_buffer t buf (Some a)))
  | ReadTmp i => a ← tmp t; v ← cell a i; Some (v, r)
  | WriteTmp i v => a ← tmp t; a ← with_cell a i v; Some (0, set_tr r (set_tmp t (Some a)))
  | SemPost => Some (OSAL_OK, mk_shared t true (busy r))
  | SemTimedwait => Some (if flag r then (OSAL_OK, mk_shared t false true) else (OSAL_ERR_TIMEOUT, r))
  | Finish => Some (0, mk_shared t (flag r) false)
  | Undefined => None
  end.

(** A computation on local variables. *)
Definition local {A} (m : C unit A) : prog A :=
  match m tt with Ret a _ => mret a | NoReturn => OutOfFuel | Aborted => AssertFailed | Undef => Vis Undefined (λ _, OutOfFuel) end.

Module Shared.
Section programs.
Context (n : Z) (mn mx : option Z).

Definition osal_trace_time (time : Z) : prog unit :=
  act_buf ← emit ReadActBuf;
  pos ← emit ReadPos;
  _ ← emit (WriteTime act_buf pos time);
  pos ← emit ReadPos;
  _ ← emit (WritePos (u32 (pos + 1)));
  pos ← emit ReadPos;
  if n <=? pos then
    act_buf ← emit ReadActBuf;
    _ ← emit (WriteActBuf (if act_buf =? 0 then 1 else 0));
    _ ← emit (WritePos 0);
    _ ← emit SemPost;
    mret tt
  else mret tt.

(** The member [tmp] belongs to the analysing thread; of several reads of the
    same element in one round only the first is an access here. *)
Definition osal_trace_analyze_min_max : prog stats :=
  act_buf ← emit ReadActBuf;
  let act_buffer := if act_buf =? 1 then 0 else 1 in
  let k := u32 (n - 1) in
  '(avg, min_val, max_val) ←
    pfor (Z.to_nat k) 0 (λ i '(avg, min_val, max_val),
      x ← emit (ReadTime act_buffer (i + 1));
      y ← emit (ReadTime act_buffer i);
      _ ← emit (WriteTmp i (u64 (x - y)));
      v ← emit (ReadTmp i);
      mret (u64 (avg + v), upd_min i v min_val, upd_max i v max_val)) (0, mn, mx);
  avg ← local (if k =? 0 then undef else mret (avg / k));
  '(max_jit, avg_jit) ←
    pfor (Z.to_nat k) 0 (λ i s, v ← emit (ReadTmp i); local (jitter_round avg v s)) (0, 0);
  avg_jit ← local (if n =? 0 then undef else mret (c_sqrt (dbl (avg_jit / n))));
  mret (mk_stats avg avg_jit max_jit min_val max_val).

(** One round of the analysing thread. *)
Definition wait_and_analyze (_ : unit) : prog (Z * option stats) :=
  ret ← emit SemTimedwait;
  if ret =? OSAL_OK then
    s ← osal_trace_analyze_min_max;
    _ ← emit Finish;
    mret (ret, Some s)
  else mret (ret, None).

(** The recording thread completes a block only when the one before has been
    taken and analysed. *)
Definition in_time (r : shared) : bool := (pos (tr r) + 1 <? n) || negb (flag r || busy r).

(** The statistics the analysing thread has got. *)
Definition analysed (g : list (Z * option stats)) : list (option stats) := snd <$> filter (λ x, x.1 = OSAL_OK) g.
End programs.
End Shared.

(** ** What holds at every access

    Of the times [ts], [b] complete blocks have been announced. As long as the
    last of them is [pending], the half that is not active holds it, and
    belongs to the analysing thread. *)
Section invariant.
Context (n : Z) (mn mx : option Z) (ts : list Z) (Hn : 2 ≤ n < 2 ^ 32).
Implicit Types (r : shared) (b k : nat) (a p : Z) (x : arr) (d : bool).

Abbreviation N := (Z.to_nat n).

Definition block b : list Z := take N (drop (b * N) ts).
Definition block_stats b : stats := stats_of (intervals (block b)) n mn mx.
Definition pending r : bool := flag r || busy r.
Definition other (a : Z) : Z := if a =? 1 then 0 else 1.

Definition half r (a : Z) : list Z :=
  match time_in_ns (tr r) !! Z.to_nat a with Some (Some x) => cells x | _ => [] end.

Record wf r : Prop := {
  wf_act : act_buf (tr r) = 0 ∨ act_buf (tr r) = 1;
  wf_time : ∃ x0 x1, time_in_ns (tr r) = [Some x0; Some x1] ∧ length (cells x0) = N ∧ length (cells x1) = N;
  wf_tmp : ∃ x, tmp (tr r) = Some x ∧ length (cells x) = N;
}.

Definition inv r b : Prop :=
  wf r ∧ (flag r = true → busy r = false) ∧ (b * N ≤ length ts)%nat ∧
  (pending r = true → ∃ b', b = S b' ∧ half r (other (act_buf (tr r))) = block b').

(** The recording thread relies on the other one to take, and nothing else. *)
Definition rely_rec (x y : shared * nat) : Prop :=
  y.2 = x.2 ∧ act_buf (tr y.1) = act_buf (tr x.1) ∧ pos (tr y.1) = pos (tr x.1) ∧
  time_in_ns (tr y.1) = time_in_ns (tr x.1) ∧
  (pending x.1 = false → pending y.1 = false) ∧ (flag x.1 = false → flag y.1 = false).

(** The analysing thread relies on the pending block to stay, and on a new one
    to be announced only when none is pending. *)
Definition rely_ana (x y : shared * nat) : Prop :=
  tmp (tr y.1) = tmp (tr x.1) ∧ busy y.1 = busy x.1 ∧
  (flag y.1 = flag x.1 ∧ y.2 = x.2 ∨ pending x.1 = false ∧ flag y.1 = true ∧ y.2 = S x.2) ∧
  (pending x.1 = true →
   act_buf (tr y.1) = act_buf (tr x.1) ∧
   half y.1 (other (act_buf (tr x.1))) = half x.1 (other (act_buf (tr x.1)))).

#[global] Instance rely_rec_preorder : PreOrder rely_rec.
Proof.
  split; [by intros x; split_and!|]. intros x y z (? & ? & ? & ? & ? & ?) (? & ? & ? & ? & ? & ?).
  split_and!; (congruence || auto).
Qed.

#[global] Instance rely_ana_preorder : PreOrder rely_ana.
Proof.
  split; [intros x; split_and!; auto|]. intros x y z (Ht & Hb & Hf & Hp) (Ht' & Hb' & Hf' & Hp').
  unfold rely_ana, pending in *.
  assert (flag x.1 || busy x.1 = true → flag y.1 || busy y.1 = true) as Hpp.
  { rewrite Hb. destruct Hf as [[-> _]|(_ & -> & _)]; [done|]. by intros. }
  split_and!; [congruence|congruence| |].
  - destruct Hf as [[Hf1 Hf2]|(Hf1 & Hf2 & Hf3)], Hf' as [[Hf1' Hf2']|(Hf1' & Hf2' & Hf3')].
    + left. split; congruence.
    + right. split; [by rewrite <- Hf1, <- Hb|]. split; congruence.
    + right. split; [done|]. split; congruence.
    + by rewrite Hf2 in Hf1'.
  - intros H. destruct (Hp H) as [Ha Hh], (Hp' (Hpp H)) as [Ha' Hh']. rewrite Ha in Ha', Hh'.
    split; congruence.
Qed.

Abbreviation rec_ok := (safe access always inv rely_rec rely_ana).
Abbreviation ana_ok := (safe access always inv rely_ana rely_rec).

(** *** The recording thread *)

(** What it knows of the memory: it alone writes the active buffer, the
    position and the times; [d]: no block is pending. *)
Definition knows (a p : Z) (x0 x1 : arr) (d : bool) r : Prop :=
  act_buf (tr r) = a ∧ pos (tr r) = p ∧ time_in_ns (tr r) = [Some x0; Some x1] ∧ (d = true → pending r = false).

Lemma knows_stable a p x0 x1 d r (g : nat) r1 (g1 : nat) :
  knows a p x0 x1 d r → rely_rec (r, g) (r1, g1) → knows a p x0 x1 d r1 ∧ g1 = g.
Proof.
  intros (Ha & Hp & Ht & Hd) (Hg & Ha1 & Hp1 & Ht1 & Hd1 & _). simpl in *. split; [|done].
  split_and!; [congruence..|]. intros H. auto.
Qed.

(** An access of the recording thread. *)
Lemma rec_access {A} e v F a p x0 x1 a' p' x0' x1' d (Φ : A → shared → nat → Prop) (c : Z → prog A) r b :
  (∀ r, knows a p x0 x1 d r → inv r b →
     access e r = Some (v, F r) ∧ inv (F r) b ∧ rely_ana (r, b) (F r, b) ∧ knows a' p' x0' x1' d (F r)) →
  knows a p x0 x1 d r → (∀ r, knows a' p' x0' x1' d r → rec_ok Φ (c v) r b) → rec_ok Φ (emit e ≫= c) r b.
Proof.
  intros He HK Hc. eapply (safe_access _ _ _ _ _ (knows a p x0 x1 d) (knows a' p' x0' x1' d)); [|by auto|done..].
  intros ????. apply knows_stable.
Qed.

Lemma rely_ana_refl r b : rely_ana (r, b) (r, b).
Proof. reflexivity. Qed.

Lemma rec_read_act {A} a p x0 x1 d (Φ : A → shared → nat → Prop) (c : Z → prog A) r b :
  knows a p x0 x1 d r → (∀ r, knows a p x0 x1 d r → rec_ok Φ (c a) r b) → rec_ok Φ (emit ReadActBuf ≫= c) r b.
Proof.
  apply (rec_access _ _ id). intros r1 HK Hi. split; [|split; [done|split; [done|done]]].
  destruct HK as (<- & _). done.
Qed.

Lemma rec_read_pos {A} a p x0 x1 d (Φ : A → shared → nat → Prop) (c : Z → prog A) r b :
  knows a p x0 x1 d r → (∀ r, knows a p x0 x1 d r → rec_ok Φ (c p) r b) → rec_ok Φ (emit ReadPos ≫= c) r b.
Proof.
  apply (rec_access _ _ id). intros r1 HK Hi. split; [|split; [done|split; [done|done]]].
  destruct HK as (_ & <- & _). done.
Qed.

Lemma rec_write_pos {A} v a p x0 x1 d (Φ : A → shared → nat → Prop) (c : Z → prog A) r b :
  knows a p x0 x1 d r → (∀ r, knows a v x0 x1 d r → rec_ok Φ (c 0) r b) → rec_ok Φ (emit (WritePos v) ≫= c) r b.
Proof.
  apply (rec_access _ _ (λ r, set_tr r (set_pos (tr r) v))). intros r1 (Ha & Hp & Ht & Hd) ([H1 H2 H3] & Hf & Hle & Hb).
  split; [done|]. split; [by split; [split|]|]. split; [by split_and!; auto|]. by split_and!.
Qed.
(** The active half, and the halves after [v] was stored at [p] of it. *)
Definition active a x0 x1 : arr := if a =? 0 then x0 else x1.
Definition stored x p (v : Z) : arr := mk_arr (base x) (<[Z.to_nat p := v]> (cells x)).

Lemma half_knows a p x0 x1 d r c :
  knows a p x0 x1 d r → c = 0 ∨ c = 1 → half r c = cells (active c x0 x1).
Proof. intros (_ & _ & Ht & _) Hc. unfold half. rewrite Ht. by destruct Hc as [-> | ->]. Qed.

Lemma rec_write_time {A} v a p x0 x1 d (Φ : A → shared → nat → Prop) (c : Z → prog A) r b :
  knows a p x0 x1 d r → a = 0 ∨ a = 1 → 0 ≤ p < n → length (cells x0) = N → length (cells x1) = N →
  (∀ r, knows a p (if a =? 0 then stored x0 p v else x0) (if a =? 0 then x1 else stored x1 p v) d r →
     rec_ok Φ (c 0) r b) →
  rec_ok Φ (emit (WriteTime a p v) ≫= c) r b.
Proof.
  intros HK Ha Hp Hl0 Hl1. revert HK.
  apply (rec_access _ _ (λ r, set_tr r (set_buffer (tr r) a (Some (stored (active a x0 x1) p v))))).
  intros r1 HK ([H1 H2 H3] & Hf & Hle & Hb). pose proof HK as (Hact & Hpos & Ht & Hd).
  assert (array (tr r1) a = Some (active a x0 x1)) as Harr.
  { unfold array. rewrite option_guard_True by done. rewrite Ht. by destruct Ha as [-> | ->]. }
  assert (Z.of_nat (length (cells (active a x0 x1))) = n) as Hl by (unfold active; destruct (a =? 0); lia).
  split; [|split; [|split]].
  - unfold access, with_cell. rewrite Harr. simpl. rewrite option_guard_True by lia. done.
  - split; [|split; [done|split; [done|]]].
    + split; [done| |done]. simpl. rewrite Ht. destruct Ha as [-> | ->]; simpl; do 2 eexists;
        (split; [reflexivity|]); simpl; rewrite ?length_insert; done.
    + intros Hpd. destruct (Hb Hpd) as (b' & -> & Hh). exists b'. split; [done|].
      rewrite <- Hh. simpl. rewrite Hact. unfold half. simpl. rewrite Ht. by destruct Ha as [-> | ->].
  - split_and!; simpl; [done|done|by left|]. intros _. split; [done|]. rewrite Hact. unfold half. simpl.
    rewrite Ht. by destruct Ha as [-> | ->].
  - split_and!; simpl; try done. rewrite Ht. by destruct Ha as [-> | ->].
Qed.

(** The halves are swapped only when no block is pending. *)
Lemma rec_swap {A} a p x0 x1 (Φ : A → shared → nat → Prop) (c : Z → prog A) r b :
  knows a p x0 x1 true r → a = 0 ∨ a = 1 →
  (∀ r, knows (if a =? 0 then 1 else 0) p x0 x1 true r → rec_ok Φ (c 0) r b) →
  rec_ok Φ (emit (WriteActBuf (if a =? 0 then 1 else 0)) ≫= c) r b.
Proof.
  intros HK Ha. revert HK. apply (rec_access _ _ (λ r, set_tr r (set_act_buf (tr r) (if a =? 0 then 1 else 0)))).
  intros r1 (Hact & Hpos & Ht & Hd) ([H1 H2 H3] & Hf & Hle & Hb). specialize (Hd eq_refl).
  split; [done|]. split; [|split].
  - split; [|split; [done|split; [done|]]]; [|unfold pending in *; simpl; congruence].
    split; [|done|done]. simpl. by destruct Ha as [-> | ->]; [right|left].
  - split_and!; simpl; [done|done|by left|]. congruence.
  - by split_and!.
Qed.

(** The block is announced. *)
Lemma rec_post {A} a p x0 x1 (Φ : A → shared → nat → Prop) (c : Z → prog A) r b :
  knows a p x0 x1 true r → a = 0 ∨ a = 1 → (S b * N ≤ length ts)%nat → cells (active (other a) x0 x1) = block b →
  (∀ r, knows a p x0 x1 false r → rec_ok Φ (c OSAL_OK) r (S b)) →
  rec_ok Φ (emit SemPost ≫= c) r b.
Proof.
  intros HK Ha Hle Hblk Hc.
  refine (safe_access _ _ _ _ _ (knows a p x0 x1 true) (knows a p x0 x1 false) _ _ _
    (λ r, mk_shared (tr r) true (busy r)) _ _ _ (S b) _ _ HK Hc).
  { intros ????. apply knows_stable. }
  intros r1 HK1 ([H1 H2 H3] & Hf & _ & Hb). pose proof HK1 as (Hact & Hpos & Ht & Hd). specialize (Hd eq_refl).
  unfold pending in Hd. apply orb_false_iff in Hd as [Hfl Hbu]. split; [done|]. split; [|split].
  - split; [by split|]. split; [done|]. split; [done|]. intros _. exists b. split; [done|]. simpl.
    rewrite <- Hblk, Hact. refine (half_knows a p x0 x1 false _ _ _ _); [by split_and!|].
    by destruct Ha as [-> | ->]; [right|left].
  - split_and!; simpl; [done|done| |].
    + right. unfold pending. by rewrite Hfl, Hbu.
    + unfold pending. simpl. by rewrite Hfl, Hbu.
  - by split_and!.
Qed.

(** Between two calls [p] times of block number [b] are in the active half. *)
Definition recording_idle (rest : list Z) r b : Prop := ∃ (p : nat) a x0 x1,
  knows a (Z.of_nat p) x0 x1 false r ∧ (a = 0 ∨ a = 1) ∧ (p < N)%nat ∧
  length (cells x0) = N ∧ length (cells x1) = N ∧
  take p (cells (active a x0 x1)) = take p (drop (b * N) ts) ∧ rest = drop (b * N + p) ts.

Lemma osal_trace_time_safe v rest r b :
  recording_idle (v :: rest) r b → Shared.in_time n r = true →
  rec_ok (λ _, recording_idle rest) (Shared.osal_trace_time n v) r b.
Proof.
  intros (p & a & x0 & x1 & HK & Ha & Hp & Hl0 & Hl1 & Htk & Hrest) Htime.
  assert (ts !! (b * N + p)%nat = Some v) as Hv by (by rewrite <- (Nat.add_0_r (b * N + p)), <- lookup_drop, <- Hrest).
  assert (rest = drop (S (b * N + p)) ts) as Hrest' by (by rewrite (drop_S _ _ _ Hv) in Hrest; injection Hrest).
  set (d := bool_decide (S p = N)).
  assert (knows a (Z.of_nat p) x0 x1 d r) as HKd.
  { destruct HK as (H1 & H2 & H3 & _). split_and!; [done..|]. unfold d. intros Hd%bool_decide_eq_true.
    unfold Shared.in_time in Htime. rewrite H2 in Htime. fold (pending r) in Htime.
    destruct (Z.ltb_spec (Z.of_nat p + 1) n); [lia|]. by destruct (pending r). }
  unfold Shared.osal_trace_time.
  eapply rec_read_act; [exact HKd|]. clear dependent r. intros r HK.
  eapply rec_read_pos; [exact HK|]. clear dependent r. intros r HK.
  eapply rec_write_time; [exact HK|done|lia|done..|]. clear dependent r. intros r HK.
  set (y0 := if a =? 0 then stored x0 (Z.of_nat p) v else x0) in *.
  set (y1 := if a =? 0 then x1 else stored x1 (Z.of_nat p) v) in *.
  assert (length (cells y0) = N ∧ length (cells y1) = N) as [Hy0 Hy1].
  { unfold y0, y1. destruct (a =? 0); simpl; rewrite ?length_insert; done. }
  assert (take (S p) (cells (active a y0 y1)) = take (S p) (drop (b * N) ts)) as Htk'.
  { assert (cells (active a y0 y1) = <[p := v]> (cells (active a x0 x1))) as ->.
    { unfold y0, y1, active, stored. destruct (a =? 0); simpl; by rewrite Nat2Z.id. }
    assert (p < length (cells (active a x0 x1)))%nat by (unfold active; destruct (a =? 0); lia).
    rewrite take_S_insert, Htk by done. symmetry. apply take_S_r. by rewrite lookup_drop. }
  eapply rec_read_pos; [exact HK|]. clear dependent r. intros r HK.
  rewrite uwrap_id by (unfold in_uint; lia).
  eapply rec_write_pos; [exact HK|]. clear dependent r. intros r HK.
  eapply rec_read_pos; [exact HK|]. clear dependent r. intros r HK.
  destruct (Z.leb_spec n (Z.of_nat p + 1)) as [Hfull|Hnot].
  - assert (d = true) as Hd by (apply bool_decide_eq_true; lia). rewrite Hd in HK.
    eapply rec_read_act; [exact HK|]. clear dependent r. intros r HK.
    eapply rec_swap; [exact HK|done|]. clear dependent r. intros r HK.
    eapply rec_write_pos; [exact HK|]. clear dependent r. intros r HK.
    pose proof (lookup_lt_Some _ _ _ Hv).
    assert (active (other (if a =? 0 then 1 else 0)) y0 y1 = active a y0 y1) as Hoa by (by destruct Ha as [-> | ->]).
    eapply rec_post; [exact HK|by destruct Ha as [-> | ->]; [right|left]|lia| |].
    { rewrite Hoa. trans (take (S p) (cells (active a y0 y1))).
      - symmetry. apply take_ge. unfold active; destruct (a =? 0); lia.
      - rewrite Htk'. unfold block. f_equal. lia. }
    clear dependent r. intros r HK. exists 0%nat, (if a =? 0 then 1 else 0), y0, y1.
    split; [done|]. split; [by destruct Ha as [-> | ->]; [right|left]|]. split; [lia|]. split; [done|].
    split; [done|]. split; [done|]. rewrite Hrest'. f_equal. lia.
  - exists (S p), a, y0, y1. replace (Z.of_nat (S p)) with (Z.of_nat p + 1) by lia.
    split; [by destruct HK as (?&?&?&?); split_and!|]. split_and!; try done; [lia|]. rewrite Hrest'. f_equal. lia.
Qed.
(** *** The analysing thread *)

(** What it knows while a block [blk] is its own: where it is, and its [tmp]. *)
Definition owns a (blk : list Z) (lt : loc) (c : list Z) r : Prop :=
  busy r = true ∧ act_buf (tr r) = a ∧ half r (other a) = blk ∧ tmp (tr r) = Some (mk_arr lt c).

Lemma owns_stable a blk lt c r (g : nat) r1 (g1 : nat) :
  owns a blk lt c r → rely_ana (r, g) (r1, g1) → owns a blk lt c r1 ∧ g1 = g.
Proof.
  intros (Hb & Ha & Hh & Ht) (Ht1 & Hb1 & Hf1 & Hp1). simpl in *.
  assert (pending r = true) as Hp by (unfold pending; rewrite Hb; apply orb_true_r).
  destruct (Hp1 Hp) as [Ha1 Hh1]. split.
  - split_and!; [congruence| |rewrite <- Ha, Hh1; congruence|congruence]. congruence.
  - destruct Hf1 as [[_ ->]|[Hf1 _]]; [done|congruence].
Qed.

Lemma array_half r c : wf r → c = 0 ∨ c = 1 → ∃ x, array (tr r) c = Some x ∧ cells x = half r c.
Proof.
  intros [_ (x0 & x1 & Ht & _) _] Hc. unfold array, half. rewrite option_guard_True by done. rewrite Ht.
  destruct Hc as [-> | ->]; simpl; by eexists.
Qed.

Lemma ana_access {A} e v F a blk lt c c' (Φ : A → shared → nat → Prop) (f : Z → prog A) r b :
  (∀ r, owns a blk lt c r → inv r b →
     access e r = Some (v, F r) ∧ inv (F r) b ∧ rely_rec (r, b) (F r, b) ∧ owns a blk lt c' (F r)) →
  owns a blk lt c r → (∀ r, owns a blk lt c' r → ana_ok Φ (f v) r b) → ana_ok Φ (emit e ≫= f) r b.
Proof.
  intros He HK Hc. eapply (safe_access _ _ _ _ _ (owns a blk lt c) (owns a blk lt c')); [|by auto|done..].
  intros ????. apply owns_stable.
Qed.

Lemma ana_read_act {A} a blk lt c (Φ : A → shared → nat → Prop) (f : Z → prog A) r b :
  owns a blk lt c r → (∀ r, owns a blk lt c r → ana_ok Φ (f a) r b) → ana_ok Φ (emit ReadActBuf ≫= f) r b.
Proof.
  apply (ana_access _ _ id). intros r1 HK Hi. split; [|split; [done|split; [done|done]]].
  destruct HK as (_ & <- & _). done.
Qed.

Lemma ana_read_time {A} i v a blk lt c (Φ : A → shared → nat → Prop) (f : Z → prog A) r b :
  owns a blk lt c r → blk !! i = Some v → (∀ r, owns a blk lt c r → ana_ok Φ (f v) r b) →
  ana_ok Φ (emit (ReadTime (other a) (Z.of_nat i)) ≫= f) r b.
Proof.
  intros HK Hv. revert HK. apply (ana_access _ _ id). intros r1 HK Hi. split; [|split; [done|split; [done|done]]].
  destruct HK as (_ & Ha & Hh & _). destruct Hi as [Hwf _].
  destruct (array_half r1 (other a) Hwf) as (x & Hx & Hc); [unfold other; destruct (a =? 1); auto|].
  unfold access. rewrite Hx. simpl. unfold cell. rewrite option_guard_True by lia. simpl.
  by rewrite Hc, Hh, Nat2Z.id, Hv.
Qed.

Lemma ana_read_tmp {A} i v a blk lt c (Φ : A → shared → nat → Prop) (f : Z → prog A) r b :
  owns a blk lt c r → c !! i = Some v → (∀ r, owns a blk lt c r → ana_ok Φ (f v) r b) →
  ana_ok Φ (emit (ReadTmp (Z.of_nat i)) ≫= f) r b.
Proof.
  intros HK Hv. revert HK. apply (ana_access _ _ id). intros r1 HK Hi. split; [|split; [done|split; [done|done]]].
  destruct HK as (_ & _ & _ & Ht). unfold access. rewrite Ht. simpl. unfold cell.
  rewrite option_guard_True by lia. simpl. by rewrite Nat2Z.id, Hv.
Qed.

Lemma ana_write_tmp {A} i v a blk lt c (Φ : A → shared → nat → Prop) (f : Z → prog A) r b :
  owns a blk lt c r → (i < length c)%nat → (∀ r, owns a blk lt (<[i := v]> c) r → ana_ok Φ (f 0) r b) →
  ana_ok Φ (emit (WriteTmp (Z.of_nat i) v) ≫= f) r b.
Proof.
  intros HK Hi. revert HK.
  apply (ana_access _ _ (λ r, set_tr r (set_tmp (tr r) (Some (mk_arr lt (<[i := v]> c)))))).
  intros r1 (Hb & Ha & Hh & Ht) ([H1 H2 (x & Hx & Hlx)] & Hf & Hp).
  split; [|split; [|split]].
  - unfold access, with_cell. rewrite Ht. simpl. rewrite option_guard_True by lia. simpl. by rewrite Nat2Z.id.
  - split; [|done]. split; [done..|]. eexists. split; [done|]. simpl. rewrite length_insert.
    rewrite Ht in Hx. injection Hx as <-. exact Hlx.
  - by split_and!.
  - by split_and!.
Qed.

Lemma ana_finish {A} a blk lt c (Φ : A → shared → nat → Prop) (f : Z → prog A) r b :
  owns a blk lt c r → (∀ r, flag r = false → busy r = false → ana_ok Φ (f 0) r b) →
  ana_ok Φ (emit Finish ≫= f) r b.
Proof.
  intros HK Hc. refine (safe_access _ _ _ _ _ (owns a blk lt c) (λ r, flag r = false ∧ busy r = false) _ _ _
    (λ r, mk_shared (tr r) (flag r) false) _ _ _ b _ _ HK _).
  - intros ????. apply owns_stable.
  - intros r1 (Hb & _) (Hwf & Hf & Hle & Hp).
    assert (flag r1 = false) as Hfl by (destruct (flag r1); [by specialize (Hf eq_refl); congruence|done]).
    split; [done|]. split; [|split; [|by split]].
    + split; [by destruct Hwf; split|]. split; [done|]. split; [done|]. unfold pending. simpl. by rewrite Hfl.
    + split_and!; try done. intros _. unfold pending. simpl. by rewrite Hfl.
  - intros r2 [??]. by apply Hc.
Qed.

(** A computation on local variables that is defined. *)
Lemma ana_local {A B} (m : C unit A) y (Φ : B → shared → nat → Prop) (f : A → prog B) r b :
  m tt = Ret y tt → ana_ok Φ (f y) r b → ana_ok Φ (local m ≫= f) r b.
Proof. intros Hm. unfold local. by rewrite Hm. Qed.

Lemma analyze_safe a blk lt ct r b :
  owns a blk lt ct r → length blk = N → length ct = N → jitter_fits (intervals blk) →
  ana_ok (λ s r b', s = stats_of (intervals blk) n mn mx ∧ b' = b ∧ ∃ c, owns a blk lt c r)
    (Shared.osal_trace_analyze_min_max n mn mx) r b.
Proof.
  intros HK Hblk Hct Hfits. set (ivs := intervals blk) in *.
  assert (S (length ivs) = N) as Hl by (unfold ivs; rewrite length_intervals; lia).
  unfold Shared.osal_trace_analyze_min_max. eapply ana_read_act; [exact HK|]. clear dependent r. intros r HK.
  change (if a =? 1 then 0 else 1) with (other a).
  rewrite uwrap_id by (unfold in_uint; lia).
  replace (Z.to_nat (n - 1)) with (length ivs) by lia. replace (n - 1) with (Z.of_nat (length ivs)) by lia.
  apply safe_bind. eapply safe_mono.
  { apply (safe_pfor _ _ _ _ _ (λ k s r b', b' = b ∧ owns a blk lt (take k ivs ++ drop k ct) r ∧
      s = (u64 (sumZ (take k ivs)), (λ m, if Nat.eqb k 0 then m else min_list (take k ivs)) <$> mn,
           (λ m, if Nat.eqb k 0 then m else max_list (take k ivs)) <$> mx))).
    - split; [done|]. split; [exact HK|]. by destruct mn, mx.
    - clear dependent r. intros k s r b' Hk (-> & HK & ->). rewrite Z.add_0_l.
      destruct (lookup_lt_is_Some_2 blk (S k)) as [x Hx]; [lia|].
      destruct (lookup_lt_is_Some_2 blk k) as [y Hy]; [lia|].
      pose proof (intervals_lookup _ _ _ _ Hy Hx) as Hv. fold ivs in Hv.
      replace (Z.of_nat k + 1) with (Z.of_nat (S k)) by lia.
      eapply ana_read_time; [exact HK|exact Hx|]. clear dependent r. intros r HK.
      eapply ana_read_time; [exact HK|exact Hy|]. clear dependent r. intros r HK.
      eapply ana_write_tmp; [exact HK|rewrite length_app, length_take, length_drop; lia|].
      rewrite insert_take_drop, <- (take_S_r _ _ _ Hv) by lia. clear dependent r. intros r HK.
      eapply ana_read_tmp; [exact HK|rewrite lookup_app_l, lookup_take_lt by (rewrite ?length_take; lia); exact Hv|].
      clear dependent r. intros r HK. split; [done|]. split; [exact HK|].
      rewrite (take_S_r _ _ _ Hv), sumZ_snoc, uwrap_add_l, <- (take_S_r _ _ _ Hv).
      f_equal; [f_equal|].
      + rewrite (upd_min_step _ _ _ _ Hk Hv). by destruct mn.
      + rewrite (upd_max_step _ _ _ _ Hk Hv). by destruct mx. }
  clear dependent r. intros s r b' (-> & HK & ->). rewrite firstn_all in HK |- *.
  assert (Nat.eqb (length ivs) 0 = false) as -> by (apply Nat.eqb_neq; lia).
  eapply ana_local; [by destruct (Z.eqb_spec (Z.of_nat (length ivs)) 0); [lia|]|].
  apply safe_bind. eapply safe_mono.
  { apply (safe_pfor _ _ _ _ _ (λ k s r b', b' = b ∧ owns a blk lt (ivs ++ drop (length ivs) ct) r ∧
      s = (max_dev (u64 (sumZ ivs) / Z.of_nat (length ivs)) (take k ivs),
           u64 (sum_sq_dev (u64 (sumZ ivs) / Z.of_nat (length ivs)) (take k ivs))))).
    - by split_and!.
    - clear dependent r. intros k s r b' Hk (-> & HK & ->). rewrite Z.add_0_l.
      destruct (lookup_lt_is_Some_2 ivs k Hk) as [v Hv].
      eapply ana_read_tmp; [exact HK|by rewrite lookup_app_l by lia|]. clear dependent r. intros r HK.
      unfold local. rewrite jitter_round_spec by (by eapply (Forall_lookup_1 _ _ _ _ Hfits)).
      split; [done|]. split; [exact HK|]. rewrite (take_S_r _ _ v) by done.
      unfold max_dev, sum_sq_dev. rewrite !foldl_snoc. f_equal. apply uwrap_add_l. }
  clear dependent r. intros s r b' (-> & HK & ->). rewrite firstn_all.
  eapply ana_local; [by destruct (Z.eqb_spec n 0); [lia|]|].
  split; [|split; [done|by eexists]]. unfold stats_of. f_equal; by destruct mn, mx.
Qed.
(** Between two rounds the announced blocks have been analysed, but for one
    that is still to be taken. *)
Definition analysing_idle (got : list (Z * option stats)) r b : Prop :=
  busy r = false ∧
  Shared.analysed got = (λ k, Some (block_stats k)) <$> seq 0 (b - if flag r then 1 else 0).

Context (Hfits : ∀ k, (S k * N ≤ length ts)%nat → jitter_fits (intervals (block k))).

Lemma recording_idle_rely rest r b r1 b1 :
  recording_idle rest r b → rely_rec (r, b) (r1, b1) → recording_idle rest r1 b1.
Proof.
  intros (p & a & x0 & x1 & HK & H) Hr. destruct (knows_stable _ _ _ _ _ _ _ _ _ HK Hr) as [HK1 ->].
  by exists p, a, x0, x1.
Qed.

Lemma analysing_idle_rely got r b r1 b1 :
  analysing_idle got r b → rely_ana (r, b) (r1, b1) → analysing_idle got r1 b1.
Proof.
  intros [Hb Hg] (_ & Hb1 & Hf & _). simpl in *. split; [congruence|].
  destruct Hf as [[-> ->]|(Hp & -> & ->)]; [done|]. unfold pending in Hp. apply orb_false_iff in Hp as [Hp _].
  rewrite Hp, Nat.sub_0_r in Hg. by rewrite Nat.sub_1_r.
Qed.

Lemma analysed_snoc got ret o :
  Shared.analysed (got ++ [(ret, o)]) = Shared.analysed got ++ if ret =? OSAL_OK then [o] else [].
Proof.
  unfold Shared.analysed. rewrite filter_app, fmap_app. f_equal. rewrite filter_cons, filter_nil. simpl.
  destruct (Z.eqb_spec ret OSAL_OK); [by rewrite decide_True|by rewrite decide_False].
Qed.

Lemma wait_and_analyze_safe got u r b :
  analysing_idle got r b →
  ana_ok (λ res, analysing_idle (got ++ [res])) (Shared.wait_and_analyze n mn mx u) r b.
Proof.
  intros Hidle. refine (safe_emit _ _ _ _ _ _ _ _ _ _ _). intros r1 b1 Hr Hinv.
  destruct (analysing_idle_rely _ _ _ _ _ Hidle Hr) as [Hbusy Hgot].
  clear dependent r. destruct (flag r1) eqn:Hfl.
  - pose proof Hinv as (Hwf & _ & Hle & Hp). assert (pending r1 = true) as Hpd by (unfold pending; by rewrite Hfl).
    destruct (Hp Hpd) as (k & -> & Hh). rewrite Nat.sub_1_r in Hgot. simpl in Hgot.
    exists OSAL_OK, (mk_shared (tr r1) false true), (S k).
    split; [simpl; by rewrite Hfl|]. split; [by split; [by destruct Hwf; split|split; [done|split; [done|]]]; intros _; exists k|].
    split; [split_and!; simpl; (done || congruence)|].
    destruct (wf_tmp _ Hwf) as (x & Hx & Hlx). apply safe_bind.
    refine (safe_mono _ _ _ _ _ _ _ _ _ _ (analyze_safe (act_buf (tr r1)) (block k) (base x) (cells x) _ _ _ _ _ _) _).
    + split_and!; [done|done|exact Hh|]. simpl. rewrite Hx. by destruct x.
    + unfold block. rewrite length_take, length_drop. lia.
    + done.
    + by apply Hfits.
    + intros s r2 b2 (-> & -> & c & HK). refine (ana_finish _ _ _ _ _ _ _ _ HK _).
      intros r3 Hfl3 Hbusy3. split; [done|]. rewrite analysed_snoc, Hgot, Hfl3, Nat.sub_0_r.
      by rewrite seq_S, fmap_app.
  - exists OSAL_ERR_TIMEOUT, r1, b1. split; [simpl; by rewrite Hfl|]. split; [done|]. split; [by split_and!|].
    split; [done|]. rewrite analysed_snoc, Hgot, Hfl. by rewrite app_nil_r.
Qed.

(** The two threads. *)
Abbreviation system :=
  (step access (Shared.osal_trace_time n) (Shared.wait_and_analyze n mn mx) (Shared.in_time n)).

Definition system_inv : state (A := unit) → Prop := pair_inv access inv rely_rec rely_ana recording_idle analysing_idle.

Lemma trace_system_reachable s s' : system_inv s → rtc system s s' → system_inv s' ∧ ¬ out_of_bounds access s'.
Proof.
  intros Hs Hsteps. assert (system_inv s') as Hs'; [|split; [done|]].
  - eapply pair_reachable; [apply _..| | | | |exact Hs|exact Hsteps].
    + apply recording_idle_rely.
    + apply analysing_idle_rely.
    + intros v rest r b _ H. by apply osal_trace_time_safe.
    + intros u got r b _ H. by apply wait_and_analyze_safe.
  - exact (pair_in_bounds _ _ _ _ _ _ _ Hs').
Qed.
End invariant.

(** ** A small trace: two blocks of two times *)
Module Sim.
Definition arr0 (l : loc) : arr := mk_arr l [0; 0].
Definition trace2 : osal_trace := mk_trace 2 0 0 1%positive [Some (arr0 2); Some (arr0 3)] (Some (arr0 4)).
Definition start (ts : list Z) : state (E := event) (A := unit) (B := Z * option stats) :=
  mk_state (mk_shared trace2 false false) ts None None [].

(** While the first block is analysed the first half of the second one is
    recorded, the accesses taking turns. *)
Definition turns : list move :=
  replicate 20 First ++ concat (replicate 8 [Second tt; First]) ++ replicate 2 (Second tt) ++
  replicate 12 First ++ replicate 10 (Second tt).

(** The recording thread does not wait for the analysis: it completes the second
    block and begins a third one between the reads of the two times. *)
Definition overrun : list move :=
  replicate 20 First ++ replicate 4 (Second tt) ++ replicate 28 First ++ replicate 6 (Second tt).
End Sim.

Lemma trace2_view : trace_view Sim.trace2 [0; 0] [0; 0].
Proof.
  exists 2%positive, 3%positive, 4%positive, [0; 0]. split; [by left|]. split; [done|]. simpl. split_and!; (done || lia).
Qed.

Lemma trace_system_start mn mx t act oth ts :
  trace_view t act oth → pos t = 0 →
  system_inv (cnt t) mn mx ts (mk_state (mk_shared t false false) ts None None []).
Proof.
  intros (la & lo & lt & ct & Hbuf & Htmp & Hc & _ & Hla & Hlo & Hlt) Hpos. exists 0%nat. split; [|split].
  - split; [|by split; [|split; [simpl; lia|]]]. split; simpl.
    + destruct Hbuf as [[-> _]|[-> _]]; auto.
    + destruct Hbuf as [[_ ->]|[_ ->]]; do 2 eexists; split; (reflexivity || done).
    + rewrite Htmp. by eexists.
  - simpl. exists 0%nat. destruct Hbuf as [[Ha Ht]|[Ha Ht]]; do 3 eexists;
      (split; [split_and!; simpl; [exact Ha|exact Hpos|exact Ht|done]|]); split_and!; (auto || simpl; try lia; done).
  - by split.
Qed.

(** ** Properties *)

(** (C8) One thread records times and another one waits for blocks and analyses
    them; no lock is taken, and the accesses of the two come in any order. As
    long as a block is completed only when the one before has been analysed,
    neither thread leaves the arrays, the analysing thread gets the statistics
    of the complete blocks, in order, each of them once, and when the recording
    thread is done and no block is pending it has got them all. *)
Theorem trace_shared_blocks mn mx t act oth ts s :
  trace_view t act oth → pos t = 0 → 2 ≤ cnt t →
  let n := cnt t in
  (∀ k, (S k * Z.to_nat n ≤ length ts)%nat → jitter_fits (intervals (block n ts k))) →
  rtc (step access (Shared.osal_trace_time n) (Shared.wait_and_analyze n mn mx) (Shared.in_time n))
    (mk_state (mk_shared t false false) ts None None []) s →
  ¬ out_of_bounds access s ∧
  ∃ k, (k * Z.to_nat n ≤ length ts)%nat ∧
    Shared.analysed (got s) = (λ i, Some (block_stats n mn mx ts i)) <$> seq 0 k ∧
    (first s = None → todo s = [] → second s = None → flag (mem s) = false →
     k = (length ts / Z.to_nat n)%nat).
Proof.
  intros Hv Hpos Hc n Hfits Hsteps. assert (2 ≤ n < 2 ^ 32) as Hn by (destruct Hv as (?&?&?&?&?&?&?&_); lia).
  pose proof (trace_system_start mn mx t act oth ts Hv Hpos) as Hstart.
  destruct (trace_system_reachable n mn mx ts Hn Hfits _ _ Hstart Hsteps) as [Hinv Hb]. split; [done|].
  exists (length (Shared.analysed (got s))).
  destruct (pair_got _ _ _ _ _ _ _ Hinv) as (r0 & b0 & (_ & _ & Hle & _) & _ & Hgot). split; [|split].
  - rewrite Hgot, length_fmap, length_seq. nia.
  - rewrite Hgot at 1. by rewrite Hgot, length_fmap, length_seq.
  - destruct Hinv as (b & (_ & _ & Hleb & _) & H1 & H2). intros Hf Htodo Hs Hfl. rewrite Hf, Htodo in H1.
    rewrite Hs in H2. simpl in H1, H2. destruct H2 as [_ H2]. rewrite H2, Hfl, length_fmap, length_seq, Nat.sub_0_r.
    destruct H1 as (p & _ & _ & _ & _ & _ & Hp & _ & _ & _ & Hd). apply (f_equal length) in Hd.
    rewrite length_drop in Hd. simpl in Hd. apply (Nat.div_unique _ _ _ (length ts - b * Z.to_nat n)); lia.
Qed.

(** Two blocks of two times each are recorded; the analysis gets both. *)
Lemma trace_shared_blocks_witness :
  ∃ s, rtc (step access (Shared.osal_trace_time 2) (Shared.wait_and_analyze 2 (Some 0) (Some 0)) (Shared.in_time 2))
         (Sim.start [10; 25; 50; 90]) s ∧
       Shared.analysed (got s) = [Some (mk_stats 15 0 0 (Some 15) (Some 15)); Some (mk_stats 40 0 0 (Some 40) (Some 40))] ∧
       ¬ out_of_bounds access s.
Proof.
  eexists. assert (schedule access (Shared.osal_trace_time 2) (Shared.wait_and_analyze 2 (Some 0) (Some 0))
    (Shared.in_time 2) Sim.turns (Sim.start [10; 25; 50; 90]) = Some _) as Hs by (vm_compute; reflexivity).
  apply schedule_reachable in Hs. split; [exact Hs|]. split; [reflexivity|].
  refine (proj1 (trace_shared_blocks (Some 0) (Some 0) Sim.trace2 [0; 0] [0; 0] [10; 25; 50; 90] _ trace2_view eq_refl _ _ Hs));
    [done|]. intros [|[|k]] Hk; [repeat constructor; done..|simpl in Hk; lia].
Defined.

(** Not interrupted, recording a time does to the trace, access by access, what
    [osal_trace_time] of Trace does as a whole, and announces the blocks it
    posts. *)
Theorem trace_shared_sequential {W} `{!BinarySemaphore W} t act oth v t' (w w' : W) f d :
  trace_view t act oth → osal_trace_time (Some t) v w = Ret t' w' →
  run access (Shared.osal_trace_time (cnt t) v) (mk_shared t f d) =
    Some (tt, mk_shared t' (f || negb (pos t + 1 <? cnt t)) d).
Proof.
  intros (la & lo & lt & ct & Hbuf & Htmp & Hc & Hp & Hla & Hlo & Hlt).
  destruct t as [n a p sem tm tp]. simpl in *. intros H.
  assert (∃ x0 x1, tm = [Some x0; Some x1] ∧ length (cells x0) = Z.to_nat n ∧ length (cells x1) = Z.to_nat n ∧
    (a = 0 ∨ a = 1)) as (x0 & x1 & -> & H0 & H1 & Ha).
  { destruct Hbuf as [[-> ->]|[-> ->]]; do 2 eexists; (split; [reflexivity|]); auto. }
  assert (u32 (p + 1) = p + 1) as Hu by (apply uwrap_id; unfold in_uint; lia).
  assert (∀ x, length (cells x) = Z.to_nat n → (0 <=? p) && (p <? Z.of_nat (length (cells x))) = true) as Hin by lia.
  assert (∀ x, length (cells x) = Z.to_nat n → with_cell x p v = Some (stored x p v)) as Hst.
  { intros x Hx. unfold with_cell. by rewrite option_guard_True by lia. }
  clear Hbuf. unfold osal_trace_time, wr in H. unfold Shared.osal_trace_time.
  destruct Ha as [-> | ->]; c_unfold; simpl in H |- *;
    rewrite ?(Hin x0), ?(Hin x1) in H by done; rewrite ?(Hst x0), ?(Hst x1) by done; simpl in H |- *; rewrite Hu in *;
    (destruct (Z.leb_spec n (p + 1)), (Z.ltb_spec (p + 1) n); [lia| | |lia]); simpl in H |- *;
    rewrite ?orb_true_r, ?orb_false_r; try (destruct (osal_binary_semaphore_post _ w); [|done..]);
    by injection H as <- _.
Qed.

(** When the analysis takes longer than the next block, the recording thread
    overwrites the times that are being read: of the times 10, 25, 50, 90 and
    1000 the analysing thread gets the interval from the fifth to the second,
    975 nanoseconds below zero, as the average, with [OSAL_OK]. *)
Theorem trace_shared_overrun :
  ∃ s, rtc (step access (Shared.osal_trace_time 2) (Shared.wait_and_analyze 2 None None) (λ _, true))
         (Sim.start [10; 25; 50; 90; 1000]) s ∧
       got s = [(OSAL_OK, Some (mk_stats (2 ^ 64 - 975) 0 0 None None))].
Proof.
  eexists. assert (schedule access (Shared.osal_trace_time 2) (Shared.wait_and_analyze 2 None None) (λ _, true)
    Sim.overrun (Sim.start [10; 25; 50; 90; 1000]) = Some _) as Hs by (vm_compute; reflexivity).
  apply schedule_reachable in Hs. split; [exact Hs|]. reflexivity.
Qed.
