(* ===== verification/TraceModels.v ===== *)
(** * Tracing as a whole and access by access: src/trace.c

    Trace has the functions as computations on a trace, TraceShared has them as
    programs over its single accesses. A thread that is not interrupted does the
    same in both, on any trace: the same result and the same trace, and the one
    is undefined when the other is. *)

From S2P Require Import Prelude Programs Osal Timer BinarySemaphore Trace TraceShared.
Open Scope list_scope.

Section agree.
Context {W : Type}.

(** The program, from [r], does what the computation does: [f] is its result and
    [g] the memory. *)
Definition agrees {A B} (f : A → B) (g : A → shared) (m : C W A) (p : prog B) (r : shared) : Prop :=
  ∀ w, Programs.run access p r = match m w with Ret a _ => Some (f a, g a) | _ => None end.

Lemma agrees_ret {A B} (f : A → B) (g : A → shared) a : agrees f g (mret a) (mret (f a)) (g a).
Proof. done. Qed.

Lemma agrees_bind {A B A' B'} (f : A → B) g (f' : A' → B') g' m p (k : A → C W A') (q : B → prog B') r :
  agrees f g m p r → (∀ a, agrees f' g' (k a) (q (f a)) (g a)) → agrees f' g' (m ≫= k) (p ≫= q) r.
Proof.
  intros Hm Hk w. rewrite run_bind, (Hm w). unfold mbind, C_bind. destruct (m w) as [a w'| | |]; [|done..]. apply Hk.
Qed.

(** What the program reads and the computation has. *)
Lemma agrees_known {A B} (f : A → B) g m e v (q : Z → prog B) r :
  access e r = Some (v, r) → agrees f g m (q v) r → agrees f g m (emit e ≫= q) r.
Proof. intros He Hq w. rewrite run_bind. simpl. rewrite He. apply Hq. Qed.

Lemma agrees_for {A B} (f : A → B) g n i (body : Z → A → C W A) (body' : Z → B → prog B) a :
  (∀ i a, agrees f g (body i a) (body' i (f a)) (g a)) →
  agrees f g (cfor n i body a) (pfor n i body' (f a)) (g a).
Proof.
  intros Hbody. revert i a. induction n as [|n IH]; intros i a; [apply agrees_ret|].
  simpl. apply (agrees_bind f g); [apply Hbody|]. intros a'. apply IH.
Qed.

Lemma agrees_undef {A B} (f : A → B) g p r : Programs.run access p r = None → agrees f g undef p r.
Proof. by intros H w. Qed.

Lemma agrees_local {A} (m : C W A) (m' : C unit A) r :
  (∀ w, match m w, m' tt with Ret a _, Ret a' _ => a = a' | Undef, Undef => True | _, _ => False end) →
  agrees id (λ _, r) m (local m') r.
Proof. intros Hm w. specialize (Hm w). unfold local. destruct (m w), (m' tt); by subst. Qed.

(** *** The accesses *)
Lemma agrees_rd t fl d a buf i :
  time_in_ns t !! Z.to_nat buf = Some a → buf = 0 ∨ buf = 1 →
  agrees id (λ _, mk_shared t fl d) (rd a i) (emit (ReadTime buf i)) (mk_shared t fl d).
Proof.
  intros Ha Hbuf w. unfold rd. simpl. unfold array. rewrite option_guard_True by done. simpl. rewrite Ha. simpl.
  destruct a as [a|]; [|done]. unfold cell. simpl. destruct (Z.leb_spec 0 i).
  - rewrite option_guard_True by done. simpl. unfold mbind, C_bind, mret, C_ret. simpl. by destruct (cells a !! Z.to_nat i).
  - by rewrite option_guard_False by lia.
Qed.

Definition with_tmp (t : osal_trace) (fl d : bool) (a : option arr) : shared := mk_shared (set_tmp t a) fl d.

Lemma agrees_rd_tmp t fl d a i :
  agrees id (λ _, with_tmp t fl d a) (rd a i) (emit (ReadTmp i)) (with_tmp t fl d a).
Proof.
  intros w. unfold rd. simpl. destruct a as [a|]; [|done]. unfold cell. simpl. destruct (Z.leb_spec 0 i).
  - rewrite option_guard_True by done. simpl. unfold mbind, C_bind, mret, C_ret. simpl. by destruct (cells a !! Z.to_nat i).
  - by rewrite option_guard_False by lia.
Qed.

(** The element of [tmp] is written, and read again. *)
Lemma agrees_wr_tmp t fl d a i v :
  agrees (λ _, v) (with_tmp t fl d) (wr a i v) (emit (WriteTmp i v) ≫= λ _, emit (ReadTmp i)) (with_tmp t fl d a).
Proof.
  intros w. unfold wr. simpl. destruct a as [a|]; [|done]. unfold with_cell. simpl.
  destruct (decide (0 ≤ i < Z.of_nat (length (cells a)))) as [Hi|Hi].
  - rewrite option_guard_True by done. unfold mbind, C_bind, mret, C_ret. simpl.
    destruct (Z.leb_spec 0 i); [|lia]. destruct (Z.ltb_spec i (Z.of_nat (length (cells a)))); [|lia]. simpl.
    unfold cell. rewrite option_guard_True by lia. simpl. by rewrite list_lookup_insert_eq by lia.
  - rewrite option_guard_False by done. unfold mbind, C_bind, mret, C_ret. simpl.
    destruct (Z.leb_spec 0 i); [|done]. by destruct (Z.ltb_spec i (Z.of_nat (length (cells a)))); [lia|].
Qed.

Lemma agrees_jitter avg v s r : agrees id (λ _, r) (jitter_round avg v s) (local (jitter_round avg v s)) r.
Proof.
  apply agrees_local. intros w. unfold jitter_round. destruct s as [max_jit avg_jit].
  cbv zeta. unfold mbind, C_bind, mret, C_ret, undef. destruct (s64 (u64 (avg - v)) <? 0).
  - destruct (_ =? - 2 ^ 63); [done|]. by destruct (2 ^ 63 <=? _).
  - by destruct (2 ^ 63 <=? _).
Qed.

Lemma agrees_assert {A B A'} (f : A → B) g (x : A') k p r :
  agrees f g (k x) p r → agrees f g (assert_ptr (Some x) ≫= k) p r.
Proof. intros H w. apply H. Qed.

(** ** The functions *)
(** A round of the first loop. *)
Lemma first_round_agrees t fl d buf idx i tmp' a (m m' : option Z) :
  time_in_ns t !! Z.to_nat idx = Some buf → idx = 0 ∨ idx = 1 →
  agrees (λ '(_, a, m, m'), (a, m, m')) (λ '(tmp', _, _, _), with_tmp t fl d tmp')
    (x ← rd buf (i + 1); y ← rd buf i; tmp' ← wr tmp' i (u64 (x - y));
     mret (tmp', u64 (a + u64 (x - y)), upd_min i (u64 (x - y)) m, upd_max i (u64 (x - y)) m'))
    (x ← emit (ReadTime idx (i + 1)); y ← emit (ReadTime idx i); _ ← emit (WriteTmp i (u64 (x - y)));
     v ← emit (ReadTmp i); mret (u64 (a + v), upd_min i v m, upd_max i v m')) (with_tmp t fl d tmp').
Proof.
  intros Hbuf Hidx. apply (agrees_bind id (λ _, with_tmp t fl d tmp')); [by apply agrees_rd|]. intros x.
  apply (agrees_bind id (λ _, with_tmp t fl d tmp')); [by apply agrees_rd|]. intros y.
  apply (agrees_bind _ _ _ _ _ _ _ (λ v, mret (u64 (a + v), upd_min i v m, upd_max i v m')) _ (agrees_wr_tmp t fl d tmp' i _)).
  intros b. done.
Qed.

Lemma analyze_agrees t fl d avg avg_jit max_jit mn mx :
  agrees snd (λ x, mk_shared x.1 fl d)
    (Trace.osal_trace_analyze_min_max (Some t) (Some avg) (Some avg_jit) (Some max_jit) mn mx)
    (Shared.osal_trace_analyze_min_max (cnt t) mn mx) (mk_shared t fl d).
Proof.
  unfold Trace.osal_trace_analyze_min_max, Shared.osal_trace_analyze_min_max. do 4 apply agrees_assert.
  apply (agrees_known _ _ _ _ (act_buf t)); [done|]. cbv beta zeta. set (idx := if act_buf t =? 1 then 0 else 1).
  assert (idx = 0 ∨ idx = 1) as Hidx by (unfold idx; destruct (act_buf t =? 1); auto).
  assert (Trace.buffer (W := W) t idx = deref (time_in_ns t !! Z.to_nat idx)) as -> by (by destruct Hidx as [-> | ->]).
  destruct (time_in_ns t !! Z.to_nat idx) as [buf|] eqn:Hbuf.
  2:{ apply agrees_undef. rewrite run_bind. destruct (Z.to_nat (u32 (cnt t - 1))) eqn:Hk.
      - simpl. destruct (Z.eqb_spec (u32 (cnt t - 1)) 0) as [|Hne]; [done|].
        pose proof (uwrap_range 32 (cnt t - 1) ltac:(lia)) as Hr. unfold in_uint in Hr. lia.
      - simpl. unfold array. rewrite option_guard_True by done. simpl. by rewrite Hbuf. }
  apply agrees_assert. destruct t as [c ab ps sem bufs tm]. cbn [cnt act_buf time_in_ns tmp set_tmp] in *.
  set (t := mk_trace c ab ps sem bufs tm).
  apply (agrees_bind (λ '(_, a, m, m'), (a, m, m')) (λ '(tmp', _, _, _), with_tmp t fl d tmp')).
  { apply (agrees_for (λ '(_, a, m, m'), (a, m, m')) (λ '(tmp', _, _, _), with_tmp t fl d tmp') _ 0 _ _ (tm, 0, mn, mx)).
    intros i [[[tmp' a] m] m']. apply (first_round_agrees t fl d buf idx); done. }
  intros [[[tmp' a] m] m']. apply (agrees_bind id (λ _, with_tmp t fl d tmp')).
  { apply agrees_local. intros w. by destruct (_ =? 0). }
  intros av. apply (agrees_bind id (λ _, with_tmp t fl d tmp')).
  { apply (agrees_for id (λ _, with_tmp t fl d tmp')). intros i s.
    apply (agrees_bind id (λ _, with_tmp t fl d tmp')); [apply agrees_rd_tmp|]. intros v. apply agrees_jitter. }
  intros [mj aj]. apply (agrees_bind id (λ _, with_tmp t fl d tmp')); [|done].
  apply agrees_local. intros w. by destruct (_ =? 0).
Qed.

(** The time is written. *)
Lemma agrees_wr t fl d a buf i v :
  time_in_ns t !! Z.to_nat buf = Some a → buf = 0 ∨ buf = 1 →
  agrees (λ _, 0) (λ a', mk_shared (set_buffer t buf a') fl d) (wr a i v) (emit (WriteTime buf i v)) (mk_shared t fl d).
Proof.
  intros Ha Hbuf w. unfold wr. simpl. unfold array. rewrite option_guard_True by done. simpl. rewrite Ha. simpl.
  destruct a as [a|]; [|done]. unfold with_cell. simpl. unfold mbind, C_bind, mret, C_ret. simpl.
  destruct (decide (0 ≤ i < Z.of_nat (length (cells a)))) as [Hi|Hi].
  - rewrite option_guard_True by done. simpl.
    destruct (Z.leb_spec 0 i); [|lia]. by destruct (Z.ltb_spec i (Z.of_nat (length (cells a)))); [|lia].
  - rewrite option_guard_False by done.
    destruct (Z.leb_spec 0 i); [|done]. by destruct (Z.ltb_spec i (Z.of_nat (length (cells a)))); [lia|].
Qed.
End agree.

Lemma wr_world {W} a i v (w : W) a' w' : wr a i v w = Ret a' w' → w' = w.
Proof.
  unfold wr. destruct a as [a|]; [|done]. unfold mbind, C_bind, mret, C_ret. simpl. by destruct (_ && _); intros [= _ <-].
Qed.

Section time.
Context {W : Type} `{!BinarySemaphore W, !BinarySemaphoreSpec W}.

(** What is left of recording when the time has been written. *)
Definition advance (n : Z) : prog unit :=
  pos ← emit ReadPos;
  _ ← emit (WritePos (u32 (pos + 1)));
  pos ← emit ReadPos;
  if n <=? pos then
    act_buf ← emit ReadActBuf;
    _ ← emit (WriteActBuf (if act_buf =? 0 then 1 else 0));
    _ ← emit (WritePos 0);
    _ ← emit SemPost;
    mret tt
  else mret tt.

Definition advance_whole (t : osal_trace) : C W osal_trace :=
  let pos' := u32 (pos t + 1) in
  if cnt t <=? pos' then
    let t := mk_trace (cnt t) (if act_buf t =? 0 then 1 else 0) 0 (sync_sem t) (time_in_ns t) (tmp t) in
    _ ← osal_binary_semaphore_post (Some (sync_sem t));
    mret t
  else mret (mk_trace (cnt t) (act_buf t) pos' (sync_sem t) (time_in_ns t) (tmp t)).

Lemma advance_agrees t d (w : W) :
  bs_ready (sync_sem t) w →
  Programs.run access (advance (cnt t)) (mk_shared t (bs_posted (sync_sem t) w) d) =
  match advance_whole t w with
  | Ret t' w' => Some (tt, mk_shared t' (bs_posted (sync_sem t) w') d)
  | _ => None
  end.
Proof.
  intros Hready. unfold advance, advance_whole. destruct t as [n a p sem bufs tm].
  cbn [cnt act_buf pos sync_sem time_in_ns tmp] in *. simpl. destruct (n <=? u32 (p + 1)); [|done].
  pose proof (bs_post_spec sem w Hready) as Hpost. unfold wp in Hpost. unfold mbind, C_bind.
  destruct (osal_binary_semaphore_post (Some sem) w) as [ret w'| | |]; [|done..].
  destruct Hpost as (_ & _ & Hup). unfold mret, C_ret. by rewrite Hup.
Qed.

(** What recording leaves, and whether it posts, is the same. *)
Lemma time_agrees t time d (w : W) :
  bs_ready (sync_sem t) w →
  Programs.run access (Shared.osal_trace_time (cnt t) time) (mk_shared t (bs_posted (sync_sem t) w) d) =
  match Trace.osal_trace_time (Some t) time w with
  | Ret t' w' => Some (tt, mk_shared t' (bs_posted (sync_sem t) w') d)
  | _ => None
  end.
Proof.
  intros Hready. set (r := mk_shared _ _ _).
  assert (Programs.run access (Shared.osal_trace_time (cnt t) time) r =
    '(_, r1) ← Programs.run access (emit (WriteTime (act_buf t) (pos t) time)) r; Programs.run access (advance (cnt t)) r1) as ->.
  { rewrite <- (run_bind access _ (λ _, advance (cnt t))). done. }
  assert (Trace.osal_trace_time (Some t) time w =
    (a ← Trace.buffer t (act_buf t); a' ← wr a (pos t) time; advance_whole (set_buffer t (act_buf t) a')) w) as -> by done.
  destruct (decide (act_buf t = 0 ∨ act_buf t = 1)) as [Hact|Hact].
  2:{ simpl. unfold array. rewrite option_guard_False by done. unfold mbind, C_bind. simpl. unfold buffer.
      destruct (Z.eqb_spec (act_buf t) 0); [lia|]. by destruct (Z.eqb_spec (act_buf t) 1); [lia|]. }
  assert (Trace.buffer (W := W) t (act_buf t) = deref (time_in_ns t !! Z.to_nat (act_buf t))) as ->.
  { unfold buffer. by destruct Hact as [-> | ->]. }
  destruct (time_in_ns t !! Z.to_nat (act_buf t)) as [buf|] eqn:Hbuf.
  2:{ simpl. unfold array. rewrite option_guard_True by done. simpl. by rewrite Hbuf. }
  unfold r. rewrite (agrees_wr t (bs_posted (sync_sem t) w) d buf (act_buf t) (pos t) time Hbuf Hact w).
  unfold mbind at 2 3, C_bind. cbn [deref]. unfold mret, C_ret.
  destruct (wr buf (pos t) time w) as [a' w'| | |] eqn:Hwr; [|done..]. apply wr_world in Hwr as ->.
  by apply (advance_agrees (set_buffer t (act_buf t) a')).
Qed.
End time.

(** ** The models agree *)

(** Recording and analysing agree in the two models, on any trace, also an
    ill-formed one: a thread that is not interrupted leaves, access by access,
    the trace that [osal_trace_time] and [osal_trace_analyze_min_max] of Trace
    leave, raises the flag exactly when they post the semaphore, gets the same
    statistics, and does something undefined exactly when they do. *)
Lemma trace_models_agree {W} `{!BinarySemaphore W, !BinarySemaphoreSpec W} t time d fl avg avg_jit max_jit mn mx (w : W) :
  bs_ready (sync_sem t) w →
  Programs.run access (Shared.osal_trace_time (cnt t) time) (mk_shared t (bs_posted (sync_sem t) w) d) =
    match Trace.osal_trace_time (Some t) time w with
    | Ret t' w' => Some (tt, mk_shared t' (bs_posted (sync_sem t) w') d)
    | _ => None
    end ∧
  agrees snd (λ x, mk_shared x.1 fl d)
    (Trace.osal_trace_analyze_min_max (W := W) (Some t) (Some avg) (Some avg_jit) (Some max_jit) mn mx)
    (Shared.osal_trace_analyze_min_max (cnt t) mn mx) (mk_shared t fl d).
Proof. intros Hready. split; [by apply time_agrees|apply analyze_agrees]. Qed.
