(* ===== verification/IoShm.v ===== *)
(** * Printing to shared memory: src/io.c

    [osal_printf] writes into a ring of fixed-size slots in shared memory once
    [osal_io_shm_setup] has mapped one, and to standard output before that;
    [osal_io_shm_get_message] takes the oldest message out.

    The world is the static pointer [osal_io_shm_buffer], the mapped regions by
    address, and the environment [E] with everything else. The other parts of
    the library come in through [IoEnv]; a call may change the world in any way
    [IoLaws] does not exclude, so what another process does to the ring during
    [osal_semaphore_timedwait] is part of that call. C string literals are
    written as in the source, escapes included; the text [vsnprintf] makes of a
    format is a parameter, the truncation it does is not.

    The specification is a queue that drops its oldest message ([push]); a
    process that sets the ring up, or joins one that is there, and then prints
    and reads gets the answers of that queue ([queue_session]). The class
    [IoSegment] has what the set-up relies on. *)

From S2P Require Import Prelude Osal Timer BinarySemaphore.
Open Scope list_scope.

Definition LIBOSAL_IO_SHM_MAGIC : Z := 0x00AFFE00.
Definition LIBOSAL_IO_SHM_MAX_MSG_SIZE : Z := 512.

(** A mapped [osal_io_shm_t]; the members [mtx] and [sem] are known by the
    region's address, [msgs] is what is mapped behind the header. *)
Record osal_io_shm_t : Type := mk_ring {
  magic : Z;
  max_messages : Z;
  max_message_size : Z;
  new_msg : Z;
  act_printed : Z;
  act_written : Z;
  msgs : list Z;
}.

(** [sizeof] of the variable [osal_io_shm], an [osal_shm_t] (a descriptor and a
    size), and of the header [struct osal_io_shm] (with a [pthread_mutex_t] of
    40 and a [sem_t] of 32 bytes) on x86-64 Linux. *)
Definition sizeof_osal_shm : Z := 16.
Definition sizeof_osal_io_shm_t : Z := 112.

Definition OSAL_SHM_ATTR__FLAG__RDWR : Z := 0x00000002.
Definition OSAL_SHM_ATTR__FLAG__CREAT : Z := 0x00000004.
Definition OSAL_SHM_ATTR__FLAG__MAP : Z := 0x00000020.
Definition OSAL_SHM_ATTR__MODE__SHIFT : Z := 16.
Definition OSAL_SHM_MAP_ATTR__PROT_READ : Z := 0x00000002.
Definition OSAL_SHM_MAP_ATTR__PROT_WRITE : Z := 0x00000004.
Definition OSAL_SHM_MAP_ATTR__SHARED : Z := 0x00000100.
Definition OSAL_MUTEX_ATTR__ROBUST : Z := 0x00000010.
Definition OSAL_MUTEX_ATTR__PROCESS_SHARED : Z := 0x00000020.
Definition OSAL_SEMAPHORE_ATTR__PROCESS_SHARED : Z := 0x00000020.

Record io {E : Type} : Type := mk_io {
  osal_io_shm_buffer : option loc;
  regions : gmap loc osal_io_shm_t;
  env : E;
}.
Arguments io : clear implicits.
Arguments mk_io {E} _ _ _.

(** An argument of a format. *)
Inductive farg : Type :=
  | AInt (z : Z)
  | AStr (s : list Z)
  | APtr.

Class IoEnv (E : Type) := {
  vtext : string → list farg → list Z;
  osal_puts : list Z → C (io E) Z;
  osal_semaphore_init : loc → Z → Z → C (io E) Z;
  osal_semaphore_post : loc → C (io E) Z;
  osal_semaphore_timedwait : loc → osal_timer → C (io E) Z;
  osal_mutex_init : loc → Z → C (io E) Z;
  osal_shm_open : list Z → Z → Z → C (io E) Z;
  osal_shm_map : Z → C (io E) (Z * option loc);
}.

(** [strncpy(_, src, n)]: the [n] bytes it writes, or [None] if it reads past
    the end of the memory [src] points into. *)
Fixpoint strncpy_bytes (n : nat) (src : list Z) : option (list Z) :=
  match n, src with
  | O, _ => Some []
  | S _, [] => None
  | S n', c :: src' => if c =? 0 then Some (replicate n 0) else cons c <$> strncpy_bytes n' src'
  end.

Section io.
Context {E : Type} `{!IoEnv E}.

(** [osal_io_shm_buffer->...], reading and writing. *)
Definition buffer_ring : C (io E) (loc * osal_io_shm_t) :=
  p ← gets osal_io_shm_buffer;
  l ← deref p;
  rs ← gets regions;
  r ← deref (rs !! l);
  mret (l, r).

Definition put_ring (l : loc) (r : osal_io_shm_t) : C (io E) unit :=
  modify (λ w, mk_io (osal_io_shm_buffer w) (<[l := r]> (regions w)) (env w)).

Definition set_printed (r : osal_io_shm_t) (v : Z) : osal_io_shm_t :=
  mk_ring (magic r) (max_messages r) (max_message_size r) (new_msg r) v (act_written r) (msgs r).

Definition set_written (r : osal_io_shm_t) (v : Z) : osal_io_shm_t :=
  mk_ring (magic r) (max_messages r) (max_message_size r) (new_msg r) (act_printed r) v (msgs r).

Definition set_msgs (r : osal_io_shm_t) (m : list Z) : osal_io_shm_t :=
  mk_ring (magic r) (max_messages r) (max_message_size r) (new_msg r) (act_printed r) (act_written r) m.

(** [(v + 1) % max_messages], computed in [osal_size_t], stored in 32 bits. *)
Definition next_index (r : osal_io_shm_t) (v : Z) : C (io E) Z :=
  if max_messages r =? 0 then undef else mret (u32 (u32 (v + 1) mod max_messages r)).

(** [msgs + index * max_message_size]. *)
Definition slot_offset (r : osal_io_shm_t) (i : Z) : Z := u64 (i * max_message_size r).

(** [strncpy(msgs + off, src, max_message_size)] and
    [strncpy(msg, msgs + off, max_message_size)]. *)
Definition strncpy_to_ring (r : osal_io_shm_t) (off : Z) (src : list Z) : C (io E) osal_io_shm_t :=
  bs ← deref (strncpy_bytes (Z.to_nat (max_message_size r)) src);
  if off + max_message_size r <=? Z.of_nat (length (msgs r))
  then mret (set_msgs r (list_inserts (Z.to_nat off) bs (msgs r)))
  else undef.

Definition strncpy_from_ring (r : osal_io_shm_t) (off : Z) (msg : list Z) : C (io E) (list Z) :=
  bs ← deref (strncpy_bytes (Z.to_nat (max_message_size r)) (drop (Z.to_nat off) (msgs r)));
  if max_message_size r <=? Z.of_nat (length msg)
  then mret (bs ++ drop (Z.to_nat (max_message_size r)) msg)
  else undef.

Definition osal_io_shm_get_message (msg : list Z) (to : option osal_timer) : C (io E) (Z * list Z) :=
  '(l, r) ← buffer_ring;
  (if act_printed r =? act_written r then
     match to with
     | Some to => _ ← osal_semaphore_timedwait l to; mret tt
     | None => mret tt
     end
   else mret tt);;
  '(l, r) ← buffer_ring;
  if negb (act_printed r =? act_written r) then
    act ← next_index r (act_printed r);
    let r := set_printed r act in
    put_ring l r;;
    msg' ← strncpy_from_ring r (slot_offset r (act_printed r)) msg;
    mret (OSAL_OK, msg')
  else mret (OSAL_ERR_UNAVAILABLE, msg).

(** [char buf[530]] after [vsnprintf(buf, sizeof(buf), fmt, va)]. *)
Definition printf_buf (fmt : string) (args : list farg) : list Z :=
  take 529 (vtext fmt args) ++ [0].

Definition osal_printf (fmt : option string) (args : list farg) : C (io E) Z :=
  fmt ← assert_ptr fmt;
  let buf := printf_buf fmt args in
  p ← gets osal_io_shm_buffer;
  match p with
  | Some _ =>
      '(l, r) ← buffer_ring;
      next_write ← next_index r (act_written r);
      let tmp := slot_offset r next_write in
      r ← (if next_write =? act_printed r
           then act ← next_index r (act_printed r); mret (set_printed r act)
           else mret r);
      r ← strncpy_to_ring r tmp buf;
      put_ring l (set_written r next_write);;
      _ ← osal_semaphore_post l;
      mret OSAL_OK
  | None =>
      _ ← osal_puts buf;
      mret OSAL_OK
  end.

Definition osal_io_shm_setup (shm_name : option (list Z)) (max_msgs max_msg_size : Z) : C (io E) Z :=
  shm_name ← assert_ptr shm_name;
  let shm_attr_msr := Z.lor (Z.lor OSAL_SHM_ATTR__FLAG__RDWR OSAL_SHM_ATTR__FLAG__MAP)
                            (Z.shiftl 0x1B6 OSAL_SHM_ATTR__MODE__SHIFT) in
  let expected_shm_size := u64 (sizeof_osal_shm + u64 (max_msg_size * max_msgs)) in
  local_retval ← osal_shm_open shm_name shm_attr_msr expected_shm_size;
  local_retval ←
    (if negb (local_retval =? OSAL_OK) then
       _ ← osal_printf (Some "shared memory %s does not exists, try creating a new one\n"%string)
             [AStr shm_name];
       osal_shm_open shm_name (Z.lor shm_attr_msr OSAL_SHM_ATTR__FLAG__CREAT) expected_shm_size
     else mret local_retval);
  if negb (local_retval =? OSAL_OK) then
    _ ← osal_printf (Some "osal_shm_open(%p, %s, %p) returned error: %d\n"%string)
          [APtr; AStr shm_name; APtr; AInt local_retval];
    mret OSAL_OK
  else
    let map_attr := Z.lor (Z.lor OSAL_SHM_MAP_ATTR__PROT_WRITE OSAL_SHM_MAP_ATTR__PROT_READ)
                          OSAL_SHM_MAP_ATTR__SHARED in
    '(local_retval, tmp) ← osal_shm_map map_attr;
    if negb (local_retval =? OSAL_OK) then
      _ ← osal_printf (Some "osal_shm_map(%p, %p) returned error: %d\n"%string)
            [APtr; APtr; AInt local_retval];
      mret OSAL_OK
    else
      _ ← osal_printf (Some "osal_io_shm: opened and mapped successfully!\n"%string) [];
      modify (λ w, mk_io tmp (regions w) (env w));;
      '(l, r) ← buffer_ring;
      if magic r =? LIBOSAL_IO_SHM_MAGIC then
        _ ← osal_printf (Some "osal_io_shm: found magic, skipping initialization.\n"%string) [];
        '(_, r) ← buffer_ring;
        _ ← osal_printf (Some "osal_io_shm: maximum number of messages -> %lu\n"%string)
              [AInt (max_messages r)];
        '(_, r) ← buffer_ring;
        _ ← osal_printf (Some "osal_io_shm: maximum length of messages -> %lu\n"%string)
              [AInt (max_message_size r)];
        mret OSAL_OK
      else
        put_ring l (mk_ring (magic r) max_msgs max_msg_size (new_msg r) 0 0 (msgs r));;
        _ ← osal_mutex_init l (Z.lor OSAL_MUTEX_ATTR__ROBUST OSAL_MUTEX_ATTR__PROCESS_SHARED);
        _ ← osal_semaphore_init l OSAL_SEMAPHORE_ATTR__PROCESS_SHARED 0;
        '(l, r) ← buffer_ring;
        put_ring l (mk_ring LIBOSAL_IO_SHM_MAGIC (max_messages r) (max_message_size r) 0
                      (act_printed r) (act_written r) (msgs r));;
        mret OSAL_OK.
End io.

(** What the calls into the rest of the library leave alone: the static pointer
    and the ring (another process is not assumed to write while a message is
    being posted); the text of a format holds no NUL. *)
Class IoLaws (E : Type) `{!IoEnv E} := {
  vtext_law fmt args : Forall (λ c, c ≠ 0) (vtext fmt args);
  post_law l (w : io E) :
    wp (osal_semaphore_post l) (λ _ w', osal_io_shm_buffer w' = osal_io_shm_buffer w ∧ regions w' = regions w) w;
  puts_law s (w : io E) :
    wp (osal_puts s) (λ _ w', osal_io_shm_buffer w' = osal_io_shm_buffer w ∧ regions w' = regions w) w;
}.

(** ** Specification: a bounded queue that drops its oldest message *)

(** What a slot of [n] bytes holds of a text, and what [osal_printf] puts in. *)
Definition slot_text (n : Z) (t : list Z) : list Z :=
  take (Z.to_nat n) t ++ replicate (Z.to_nat n - length t) 0.

Definition message {E} `{!IoEnv E} (n : Z) (m : string * list farg) : list Z :=
  slot_text n (take 529 (vtext m.1 m.2)).

(** A queue of at most [cap] messages. *)
Definition push {A} (cap : nat) (q : list A) (m : A) : list A :=
  drop (length q + 1 - cap) (q ++ [m]).

Definition slot (r : osal_io_shm_t) (i : Z) : list Z :=
  take (Z.to_nat (max_message_size r)) (drop (Z.to_nat (i * max_message_size r)) (msgs r)).

Definition ring_wf (r : osal_io_shm_t) : Prop :=
  0 < max_messages r < 2 ^ 32 ∧
  0 ≤ max_message_size r ≤ LIBOSAL_IO_SHM_MAX_MSG_SIZE ∧
  max_messages r * max_message_size r ≤ Z.of_nat (length (msgs r)) ∧
  0 ≤ act_printed r < max_messages r ∧ 0 ≤ act_written r < max_messages r.

(** A ring that represents the queue [q] of messages not yet taken. *)
Definition ring_rep (r : osal_io_shm_t) (q : list (list Z)) : Prop :=
  ring_wf r ∧
  Z.of_nat (length q) < max_messages r ∧
  act_written r = (act_printed r + Z.of_nat (length q)) mod max_messages r ∧
  ∀ k m, q !! k = Some m →
    slot r ((act_printed r + 1 + Z.of_nat k) mod max_messages r) = m ∧
    strncpy_bytes (Z.to_nat (max_message_size r)) m = Some m.

(** The world whose static pointer leads to such a ring. *)
Definition io_rep {E} (l : loc) (w : io E) (n sz : Z) (q : list (list Z)) : Prop :=
  osal_io_shm_buffer w = Some l ∧
  ∃ r, regions w !! l = Some r ∧ max_messages r = n ∧ max_message_size r = sz ∧ ring_rep r q.

Fixpoint print_all {E} `{!IoEnv E} (ms : list (string * list farg)) : C (io E) unit :=
  match ms with
  | [] => mret tt
  | (fmt, args) :: ms => _ ← osal_printf (Some fmt) args; print_all ms
  end.

(** Takes [n] messages without waiting, each into a fresh buffer. *)
Fixpoint get_all {E} `{!IoEnv E} (n : nat) : C (io E) (list (Z * list Z)) :=
  match n with
  | O => mret []
  | S n => m ← osal_io_shm_get_message (replicate 512 0) None; ms ← get_all n; mret (m :: ms)
  end.

(** A program that prints and reads, into arrays of its own. *)
Inductive io_op : Type :=
  | Print (fmt : string) (args : list farg)
  | Get (msg : list Z) (to : option osal_timer).

Definition op_wf (o : io_op) : Prop :=
  match o with Print _ _ => True | Get msg _ => length msg = Z.to_nat LIBOSAL_IO_SHM_MAX_MSG_SIZE end.

Fixpoint io_session {E} `{!IoEnv E} (ops : list io_op) : C (io E) (list (Z * list Z)) :=
  match ops with
  | [] => mret []
  | Print fmt args :: ops => ret ← osal_printf (Some fmt) args; out ← io_session ops; mret ((ret, []) :: out)
  | Get msg to :: ops => x ← osal_io_shm_get_message msg to; out ← io_session ops; mret (x :: out)
  end.

(** What a queue answers, and what is left in it: of the array of the reader the
    first [sz] bytes are overwritten, or none when there is no message. *)
Fixpoint queue_session {E} `{!IoEnv E} (n sz : Z) (q : list (list Z)) (ops : list io_op) :
    list (Z * list Z) * list (list Z) :=
  match ops with
  | [] => ([], q)
  | Print fmt args :: ops =>
      let '(out, q') := queue_session n sz (push (Z.to_nat n - 1) q (message sz (fmt, args))) ops in
      ((OSAL_OK, []) :: out, q')
  | Get msg to :: ops =>
      match q with
      | [] => let '(out, q') := queue_session n sz [] ops in ((OSAL_ERR_UNAVAILABLE, msg) :: out, q')
      | m :: q => let '(out, q') := queue_session n sz q ops in
                  ((OSAL_OK, m ++ drop (Z.to_nat sz) msg) :: out, q')
      end
  end.

(** What [osal_io_shm_setup] prints into a ring that is there already. *)
Definition found (n sz : Z) : list (string * list farg) :=
  [("osal_io_shm: found magic, skipping initialization.\n"%string, []);
   ("osal_io_shm: maximum number of messages -> %lu\n"%string, [AInt n]);
   ("osal_io_shm: maximum length of messages -> %lu\n"%string, [AInt sz])].

(** The segment [r0], asked for with room for [n] messages of [sz] bytes, is set
    up to be a ring of [n'] messages of [sz'] bytes that holds [q]: it is new and
    there is room in it, or it has the magic number and is a ring. *)
Definition segment {E} `{!IoEnv E} (r0 : osal_io_shm_t) (n sz n' sz' : Z) (q : list (list Z)) : Prop :=
  (magic r0 ≠ LIBOSAL_IO_SHM_MAGIC ∧ n' = n ∧ sz' = sz ∧ q = [] ∧
   0 < n < 2 ^ 32 ∧ 0 ≤ sz ≤ LIBOSAL_IO_SHM_MAX_MSG_SIZE ∧ n * sz ≤ Z.of_nat (length (msgs r0))) ∨
  (magic r0 = LIBOSAL_IO_SHM_MAGIC ∧ max_messages r0 = n' ∧ max_message_size r0 = sz' ∧
   ∃ q0, ring_rep r0 q0 ∧ q = foldl (push (Z.to_nat n' - 1)) q0 (message sz' <$> found n' sz')).

(** What setting up and waiting rely on: a segment that may be created can be
    opened, it is mapped at [l], where it holds [r0], and the other calls, that
    on the semaphore included while no other process prints, leave it alone. *)
Definition undisturbed {E A} (m : C (io E) A) : Prop :=
  ∀ w, wp m (λ _ w', osal_io_shm_buffer w' = osal_io_shm_buffer w ∧ regions w' = regions w) w.

Class IoSegment (E : Type) `{!IoEnv E} (l : loc) (r0 : osal_io_shm_t) := {
  open_law nm a s (w : io E) :
    wp (osal_shm_open nm a s) (λ r w', (Z.testbit a 2 = true → r = OSAL_OK) ∧
                                       osal_io_shm_buffer w' = osal_io_shm_buffer w) w;
  map_law a (w : io E) :
    wp (osal_shm_map a) (λ x w', x = (OSAL_OK, Some l) ∧
      osal_io_shm_buffer w' = osal_io_shm_buffer w ∧ regions w' !! l = Some r0) w;
  mutex_init_law a : undisturbed (osal_mutex_init l a);
  semaphore_init_law a v : undisturbed (osal_semaphore_init l a v);
  timedwait_law to : undisturbed (osal_semaphore_timedwait l to);
}.

(** ** Lemmas *)

Lemma strncpy_bytes_length n src bs : strncpy_bytes n src = Some bs → length bs = n.
Proof.
  revert src bs. induction n as [|n IH]; intros [|c src] bs; simpl; try naive_solver.
  destruct (c =? 0); [intros [= <-]; simpl; by rewrite length_replicate|].
  intros (b & H & ->)%fmap_Some. simpl. by rewrite (IH src).
Qed.

Lemma strncpy_bytes_zeros n k : (n ≤ k)%nat → strncpy_bytes n (replicate k 0) = Some (replicate n 0).
Proof. destruct n, k; simpl; (done || lia). Qed.

(** Copying a terminated text that has no NUL inside. *)
Lemma strncpy_bytes_text n t :
  Forall (λ c, c ≠ 0) t → strncpy_bytes n (t ++ [0]) = Some (take n t ++ replicate (n - length t) 0).
Proof.
  revert n. induction t as [|c t IH]; intros [|n] Ht; simpl; try done.
  inversion_clear Ht as [|?? Hc Ht']. apply Z.eqb_neq in Hc as ->. by rewrite IH.
Qed.

(** Copying what has been copied, from memory that goes on behind it. *)
Lemma strncpy_bytes_again n m bs rest :
  strncpy_bytes n m = Some m → bs = m ++ rest → strncpy_bytes n bs = Some m.
Proof.
  intros H ->. revert m H. induction n as [|n IH]; intros [|c m]; simpl; try done.
  destruct (c =? 0); [done|]. intros (b & H & [= <-])%fmap_Some. by rewrite (IH m).
Qed.

Lemma strncpy_bytes_idem n src m : strncpy_bytes n src = Some m → strncpy_bytes n m = Some m.
Proof.
  revert src m. induction n as [|n IH]; intros [|c src] m; simpl; try naive_solver.
  destruct (c =? 0) eqn:Hc; [intros [= <-]; simpl; done|].
  intros (b & H & ->)%fmap_Some. rewrite Hc. by rewrite (IH src).
Qed.

(** Writing one slot changes that slot and no other. *)
Lemma slot_write r i bs j :
  0 ≤ max_message_size r → 0 ≤ i → 0 ≤ j →
  length bs = Z.to_nat (max_message_size r) →
  (i + 1) * max_message_size r ≤ Z.of_nat (length (msgs r)) →
  slot (set_msgs r (list_inserts (Z.to_nat (i * max_message_size r)) bs (msgs r))) j =
  if i =? j then bs else slot r j.
Proof.
  unfold slot; simpl. set (s := max_message_size r). intros Hs Hi Hj Hbs Hlen.
  apply list_eq. intros k. rewrite lookup_take.
  destruct (decide (k < Z.to_nat s)%nat) as [Hk|Hk].
  - rewrite lookup_drop. destruct (Z.eqb_spec i j) as [->|Hne].
    + rewrite list_lookup_inserts by nia. f_equal. lia.
    + rewrite lookup_take_lt, lookup_drop by done.
      assert (i < j ∨ j < i) as [Hij|Hij] by lia.
      * apply list_lookup_inserts_ge. nia.
      * apply list_lookup_inserts_lt. nia.
  - symmetry. apply lookup_ge_None. destruct (i =? j); [lia|]. rewrite length_take. lia.
Qed.

Lemma mod_index p n a b :
  0 < n → 0 ≤ a < n → 0 ≤ b < n → (p + a) mod n = (p + b) mod n → a = b.
Proof.
  intros Hn Ha Hb H. assert ((a - b) mod n = 0) as Hm.
  { replace (a - b) with ((p + a) - (p + b)) by lia. rewrite Zminus_mod, H, Z.sub_diag. apply Z.mod_0_l. lia. }
  apply Z.mod_divide in Hm as [k Hk]; [|lia].
  assert (k < 1) by nia. assert (-1 < k) by nia. assert (k = 0) as -> by lia. lia.
Qed.

Section lemmas.
Context {E : Type} `{!IoEnv E}.

Lemma wp_buffer_ring l r (Q : loc * osal_io_shm_t → io E → Prop) w :
  osal_io_shm_buffer w = Some l → regions w !! l = Some r → Q (l, r) w → wp buffer_ring Q w.
Proof. intros H1 H2 HQ. unfold wp, buffer_ring. c_unfold. by rewrite H1, H2. Qed.

Lemma buffer_ring_pure x (w w' : io E) : buffer_ring w = Ret x w' → w' = w.
Proof.
  unfold buffer_ring. c_unfold. destruct (osal_io_shm_buffer w) as [l|]; [|done].
  destruct (regions w !! l); congruence.
Qed.

Lemma wp_next_index r v (Q : Z → io E → Prop) w :
  0 < max_messages r < 2 ^ 32 → 0 ≤ v < max_messages r →
  Q ((v + 1) mod max_messages r) w → wp (next_index r v) Q w.
Proof.
  intros Hn Hv HQ. unfold next_index. destruct (Z.eqb_spec (max_messages r) 0); [lia|].
  apply wp_ret. pose proof (Z.mod_pos_bound (v + 1) (max_messages r) ltac:(lia)).
  by rewrite !uwrap_id by (unfold in_uint; lia || (rewrite uwrap_id by (unfold in_uint; lia); lia)).
Qed.
End lemmas.

(** Appending a message to a ring: after the slot behind the newest message has
    been written, the queue with the message appended is in the slots. *)
Lemma ring_slots_push r q i m :
  ring_rep r q → i = (act_written r + 1) mod max_messages r →
  strncpy_bytes (Z.to_nat (max_message_size r)) m = Some m →
  let r' := set_msgs r (list_inserts (Z.to_nat (i * max_message_size r)) m (msgs r)) in
  i = (act_printed r + (Z.of_nat (length q) + 1)) mod max_messages r ∧
  (i + 1) * max_message_size r ≤ Z.of_nat (length (msgs r)) ∧
  ∀ k x, (q ++ [m]) !! k = Some x →
    slot r' ((act_printed r + 1 + Z.of_nat k) mod max_messages r) = x ∧
    strncpy_bytes (Z.to_nat (max_message_size r)) x = Some x.
Proof.
  intros (Hwf & Hlen & Hw & Hq) Hi Hm r'. pose proof Hwf as (Hn & Hs & Hmem & Hp & Hwr).
  assert (0 ≤ i < max_messages r) as Hib by (subst i; apply Z.mod_pos_bound; lia).
  assert (i = (act_printed r + (Z.of_nat (length q) + 1)) mod max_messages r) as Hi'.
  { rewrite Hi, Hw, Zplus_mod_idemp_l. f_equal. lia. }
  assert ((i + 1) * max_message_size r ≤ Z.of_nat (length (msgs r))) as Hfit by nia.
  split; [done|]. split; [done|]. intros k x Hk.
  pose proof (strncpy_bytes_length _ _ _ Hm) as Hml.
  pose proof (Z.mod_pos_bound (act_printed r + 1 + Z.of_nat k) (max_messages r) ltac:(lia)).
  unfold r'. rewrite slot_write by lia.
  apply lookup_app_Some in Hk as [Hk|[Hge Hk]].
  - pose proof (lookup_lt_Some _ _ _ Hk).
    destruct (Z.eqb_spec i ((act_printed r + 1 + Z.of_nat k) mod max_messages r)) as [He|_]; [|by apply Hq].
    exfalso. rewrite Hi' in He.
    replace (act_printed r + (Z.of_nat (length q) + 1)) with (act_printed r + 1 + Z.of_nat (length q)) in He by lia.
    apply mod_index in He; lia.
  - apply list_lookup_singleton_Some in Hk as [Hk <-]. split; [|done].
    destruct (Z.eqb_spec i ((act_printed r + 1 + Z.of_nat k) mod max_messages r)) as [_|Hne]; [done|].
    destruct Hne. rewrite Hi'. f_equal. lia.
Qed.

(** The ring after [osal_printf] has stored [m]: the oldest message makes room
    when the ring is full. *)
Definition ring_pushed (r : osal_io_shm_t) (m : list Z) : osal_io_shm_t :=
  let i := (act_written r + 1) mod max_messages r in
  let r' := if i =? act_printed r then set_printed r ((act_printed r + 1) mod max_messages r) else r in
  set_written (set_msgs r' (list_inserts (Z.to_nat (i * max_message_size r)) m (msgs r))) i.

Lemma ring_pushed_rep r q m :
  ring_rep r q → strncpy_bytes (Z.to_nat (max_message_size r)) m = Some m →
  ring_rep (ring_pushed r m) (push (Z.to_nat (max_messages r) - 1) q m).
Proof.
  intros Hr Hm. destruct (ring_slots_push r q _ m Hr eq_refl Hm) as (Hi & Hfit & Hslots).
  destruct Hr as (Hwf & Hlen & Hw & Hq). pose proof Hwf as (Hn & Hs & Hmem & Hp & Hwr).
  pose proof (strncpy_bytes_length _ _ _ Hm) as Hml. unfold ring_pushed, push.
  set (i := (act_written r + 1) mod max_messages r) in *.
  assert (0 ≤ i < max_messages r) as Hib by (apply Z.mod_pos_bound; lia).
  destruct (Z.eqb_spec i (act_printed r)) as [He|Hne].
  - (* full *)
    assert (Z.of_nat (length q) + 1 = max_messages r) as Hfull.
    { rewrite Hi in He. destruct (decide (Z.of_nat (length q) + 1 = max_messages r)) as [|Hd]; [done|].
      rewrite <- (Z.mod_small (act_printed r) (max_messages r)) in He at 2 by lia.
      rewrite <- (Z.add_0_r (act_printed r)) in He at 2. apply mod_index in He; lia. }
    replace (length q + 1 - (Z.to_nat (max_messages r) - 1))%nat with 1%nat by lia.
    split; [|split; [|split]]; simpl.
    + split_and!; simpl; try rewrite length_inserts; try lia;
        apply Z.mod_pos_bound; lia.
    + rewrite length_drop, length_app. simpl. lia.
    + rewrite length_drop, length_app, Zplus_mod_idemp_l, Hi. simpl. f_equal. lia.
    + intros k x. rewrite lookup_drop. intros Hk.
      rewrite <- (Z.add_assoc _ 1), Zplus_mod_idemp_l.
      destruct (Hslots _ _ Hk) as [Hsl Hx]. split; [|done].
      rewrite <- Hsl. unfold slot; simpl. do 4 f_equal. f_equal. lia.
  - assert (Z.of_nat (length q) + 1 < max_messages r) as Hroom.
    { destruct (decide (Z.of_nat (length q) + 1 = max_messages r)) as [Hd|]; [|lia].
      destruct Hne. rewrite Hi, Hd.
      replace (act_printed r + max_messages r) with (act_printed r + 1 * max_messages r) by lia.
      rewrite Z.mod_add, Z.mod_small; lia. }
    replace (length q + 1 - (Z.to_nat (max_messages r) - 1))%nat with 0%nat by lia.
    rewrite drop_0. split; [|split; [|split]]; simpl.
    + split_and!; simpl; try rewrite length_inserts; lia.
    + rewrite length_app. simpl. lia.
    + rewrite length_app, Hi. simpl. f_equal. lia.
    + exact Hslots.
Qed.

Section ring.
Context {E : Type} `{!IoEnv E, !IoLaws E}.
Implicit Types w : io E.

Lemma message_bytes n (m : string * list farg) :
  0 ≤ n →
  strncpy_bytes (Z.to_nat n) (printf_buf m.1 m.2) = Some (message n m) ∧
  strncpy_bytes (Z.to_nat n) (message n m) = Some (message n m).
Proof.
  intros Hn. assert (strncpy_bytes (Z.to_nat n) (printf_buf m.1 m.2) = Some (message n m)) as H.
  { apply strncpy_bytes_text. apply Forall_take, vtext_law. }
  split; [done|]. by eapply strncpy_bytes_idem.
Qed.

(** The ring after [osal_printf]. *)
Lemma printf_ring l w r q fmt args :
  osal_io_shm_buffer w = Some l → regions w !! l = Some r → ring_rep r q →
  wp (osal_printf (Some fmt) args)
     (λ ret w', ret = OSAL_OK ∧ osal_io_shm_buffer w' = Some l ∧
                regions w' !! l = Some (ring_pushed r (message (max_message_size r) (fmt, args)))) w.
Proof.
  intros Hb Hr Hrep. pose proof Hrep as (Hwf & Hlen & Hw & _).
  pose proof Hwf as (Hn & Hs & Hmem & Hp & Hwr). unfold LIBOSAL_IO_SHM_MAX_MSG_SIZE in Hs.
  destruct (message_bytes (max_message_size r) (fmt, args)) as [Hbuf Hidem]; [lia|]. simpl in Hbuf.
  destruct (ring_slots_push r q _ _ Hrep eq_refl Hidem) as (_ & Hfit & _).
  unfold osal_printf. apply wp_bind, wp_ret. apply wp_bind. unfold wp at 1, gets at 1. rewrite Hb.
  apply wp_bind. eapply wp_buffer_ring; [done|done|].
  apply wp_bind, wp_next_index; [done|done|].
  set (i := (act_written r + 1) mod max_messages r) in *.
  assert (0 ≤ i < max_messages r) as Hib by (apply Z.mod_pos_bound; lia).
  assert (slot_offset r i = i * max_message_size r) as Hoff by (apply uwrap_id; unfold in_uint; nia).
  rewrite Hoff. apply wp_bind.
  apply wp_mono with (P := λ r' w', w' = w ∧
    r' = if i =? act_printed r then set_printed r ((act_printed r + 1) mod max_messages r) else r).
  { destruct (i =? act_printed r); [|by apply wp_ret].
    apply wp_bind, wp_next_index; [done|done|]. by apply wp_ret. }
  intros r' ? [-> Hr'].
  assert (max_message_size r' = max_message_size r ∧ msgs r' = msgs r) as [Hms Hmsgs].
  { rewrite Hr'. by destruct (i =? act_printed r). }
  apply wp_bind. unfold strncpy_to_ring. rewrite Hms, Hbuf, Hmsgs. apply wp_bind, wp_ret.
  destruct (Z.leb_spec (i * max_message_size r + max_message_size r) (Z.of_nat (length (msgs r)))); [|lia].
  apply wp_ret, wp_bind. unfold wp at 1. simpl.
  apply wp_bind. eapply wp_mono; [apply post_law|]. intros ? w2 [Hb2 Hr2]. simpl in Hb2, Hr2.
  apply wp_ret. split; [done|]. split; [by rewrite Hb2|].
  rewrite Hr2, lookup_insert_eq. unfold ring_pushed. fold i. by rewrite <- Hr'.
Qed.

Lemma printf_step l w n sz q fmt args :
  io_rep l w n sz q →
  wp (osal_printf (Some fmt) args)
     (λ ret w', ret = OSAL_OK ∧ io_rep l w' n sz (push (Z.to_nat n - 1) q (message sz (fmt, args)))) w.
Proof.
  intros (Hb & r & Hr & <- & <- & Hrep). eapply wp_mono; [by eapply printf_ring|]. intros ret w' (-> & Hb' & Hr').
  destruct Hrep as [Hwf Hq]. pose proof Hwf as (_ & Hs & _).
  destruct (message_bytes (max_message_size r) (fmt, args)) as [_ Hidem]; [lia|].
  split; [done|]. split; [done|]. eexists. split; [exact Hr'|]. unfold ring_pushed at 1 2.
  split; [by destruct (_ =? _)|]. split; [by destruct (_ =? _)|]. by apply ring_pushed_rep.
Qed.

(** With a message in the ring, the reader does not wait, and moves its index. *)
Definition ring_taken (r : osal_io_shm_t) : osal_io_shm_t :=
  set_printed r ((act_printed r + 1) mod max_messages r).

Lemma get_ring l w r q m msg to :
  osal_io_shm_buffer w = Some l → regions w !! l = Some r → ring_rep r (m :: q) →
  length msg = Z.to_nat LIBOSAL_IO_SHM_MAX_MSG_SIZE →
  wp (osal_io_shm_get_message msg to)
     (λ x w', x = (OSAL_OK, m ++ drop (Z.to_nat (max_message_size r)) msg) ∧
              osal_io_shm_buffer w' = Some l ∧ regions w' !! l = Some (ring_taken r)) w.
Proof.
  intros Hb Hr (Hwf & Hlen & Hw & Hq) Hmsg.
  pose proof Hwf as (Hn & Hs & Hmem & Hp & Hwr). unfold LIBOSAL_IO_SHM_MAX_MSG_SIZE in *. simpl in Hlen.
  destruct (Hq 0%nat m eq_refl) as [Hsl Hm]. rewrite Z.add_0_r in Hsl.
  pose proof (Z.mod_pos_bound (act_printed r + 1) (max_messages r) ltac:(lia)) as Hib.
  assert (act_printed r ≠ act_written r) as Hne.
  { rewrite Hw. intros He. rewrite <- (Z.mod_small (act_printed r) (max_messages r)) in He at 1 by lia.
    rewrite <- (Z.add_0_r (act_printed r)) in He at 1. apply mod_index in He; simpl length in *; lia. }
  apply Z.eqb_neq in Hne.
  unfold osal_io_shm_get_message. apply wp_bind. eapply wp_buffer_ring; [done|done|].
  rewrite Hne. apply wp_bind, wp_ret, wp_bind. eapply wp_buffer_ring; [done|done|]. rewrite Hne. simpl.
  apply wp_bind, wp_next_index; [done|done|]. apply wp_bind. unfold wp at 1. simpl. apply wp_bind.
  unfold strncpy_from_ring. simpl.
  set (i := (act_printed r + 1) mod max_messages r) in *.
  assert (slot_offset (set_printed r i) i = i * max_message_size r) as Hoff
    by (apply uwrap_id; unfold in_uint; simpl; nia).
  rewrite Hoff, (strncpy_bytes_again _ m (drop (Z.to_nat (i * max_message_size r)) (msgs r))
    (drop (Z.to_nat (max_message_size r)) (drop (Z.to_nat (i * max_message_size r)) (msgs r))) Hm).
  2: { rewrite <- Hsl. unfold slot. by rewrite take_drop. }
  apply wp_bind, wp_ret. destruct (Z.leb_spec (max_message_size r) (Z.of_nat (length msg))); [|lia].
  apply wp_ret, wp_ret. split; [done|]. split; [done|]. apply lookup_insert_eq.
Qed.

Lemma ring_taken_rep r m q : ring_rep r (m :: q) → ring_rep (ring_taken r) q.
Proof.
  intros (Hwf & Hlen & Hw & Hq). pose proof Hwf as (Hn & Hs & Hmem & Hp & Hwr). simpl in Hlen.
  pose proof (Z.mod_pos_bound (act_printed r + 1) (max_messages r) ltac:(lia)) as Hib.
  split; [exact (conj Hn (conj Hs (conj Hmem (conj Hib Hwr))))|]. split; [simpl; lia|]. split.
  - simpl. rewrite Hw, Zplus_mod_idemp_l. f_equal. simpl. lia.
  - simpl. intros k x Hk. destruct (Hq (S k) x Hk) as [Hsk Hx]. split; [|done]. rewrite <- Hsk.
    unfold slot; simpl. rewrite <- (Z.add_assoc _ 1 (Z.of_nat k)), Zplus_mod_idemp_l.
    do 4 f_equal. f_equal. lia.
Qed.

Lemma get_step l w n sz q m msg to :
  io_rep l w n sz (m :: q) → length msg = Z.to_nat LIBOSAL_IO_SHM_MAX_MSG_SIZE →
  wp (osal_io_shm_get_message msg to)
     (λ r w', r = (OSAL_OK, m ++ drop (Z.to_nat sz) msg) ∧ io_rep l w' n sz q) w.
Proof.
  intros (Hb & r & Hr & <- & <- & Hrep) Hmsg. eapply wp_mono; [by eapply get_ring|]. intros x w' (-> & Hb' & Hr').
  split; [done|]. split; [done|]. eexists. split; [exact Hr'|]. split; [done|]. split; [done|]. by eapply ring_taken_rep.
Qed.

(** With no message, it waits and looks once more. *)
Lemma get_step_wait l w n sz msg to (Q : Z * list Z → io E → Prop) :
  io_rep l w n sz [] →
  wp (osal_semaphore_timedwait l to) (λ _ w', wp (osal_io_shm_get_message msg None) Q w') w →
  wp (osal_io_shm_get_message msg (Some to)) Q w.
Proof.
  intros (Hb & r & Hr & _ & _ & (Hwf & _ & Hw & _)) H. destruct Hwf as (Hn & _ & _ & Hp & _).
  simpl in Hw. rewrite Z.add_0_r, Z.mod_small in Hw by lia.
  apply wp_bind. eapply wp_buffer_ring; [done|done|]. rewrite Hw, Z.eqb_refl.
  apply wp_bind, wp_bind. eapply wp_mono; [exact H|]. intros ? w' H'. apply wp_ret.
  unfold osal_io_shm_get_message, wp in H'. unfold wp.
  destruct (buffer_ring w') as [[l' r'] w1| | |] eqn:Hring; [|by unfold mbind, C_bind in H'; rewrite Hring in H'..].
  assert (w1 = w') as -> by by eapply buffer_ring_pure.
  rewrite (bind_run _ _ _ _ _ Hring). rewrite (bind_run _ _ _ _ _ Hring) in H'.
  destruct (act_printed r' =? act_written r') eqn:He;
    (rewrite (bind_run _ _ tt w' w'), (bind_run _ _ _ _ _ Hring), ?He in H' by done; exact H').
Qed.

Lemma get_step_empty l w n sz msg :
  io_rep l w n sz [] →
  osal_io_shm_get_message msg None w = Ret (OSAL_ERR_UNAVAILABLE, msg) w.
Proof.
  intros (Hb & r & Hr & _ & _ & (Hwf & _ & Hw & _)). destruct Hwf as (Hn & _ & _ & Hp & _).
  simpl in Hw. rewrite Z.add_0_r, Z.mod_small in Hw by lia.
  unfold osal_io_shm_get_message, buffer_ring. c_unfold. rewrite Hb, Hr, Hw, Z.eqb_refl.
  by rewrite Hb, Hr, Hw, Z.eqb_refl.
Qed.

Lemma print_all_step l w n sz q ms :
  io_rep l w n sz q →
  wp (print_all ms) (λ _ w', io_rep l w' n sz (foldl (push (Z.to_nat n - 1)) q (message sz <$> ms))) w.
Proof.
  revert w q. induction ms as [|[fmt args] ms IH]; intros w q H; simpl; [by apply wp_ret|].
  apply wp_bind. eapply wp_mono; [by apply printf_step|]. intros r w' [_ H']. by apply IH.
Qed.

Lemma get_all_step l w n sz q k :
  io_rep l w n sz q → (k ≤ length q)%nat →
  wp (get_all k) (λ r w', r = (λ m, (OSAL_OK, m ++ drop (Z.to_nat sz) (replicate 512 0))) <$> take k q ∧
                          io_rep l w' n sz (drop k q)) w.
Proof.
  revert w q. induction k as [|k IH]; intros w q H Hk; [by apply wp_ret|].
  destruct q as [|m q]; simpl in Hk; [lia|]. cbn [get_all]. apply wp_bind.
  eapply wp_mono; [by eapply get_step|]. intros r w' [-> H'].
  apply wp_bind. eapply wp_mono; [apply IH; [done|lia]|]. intros ms w2 [-> H2]. by apply wp_ret.
Qed.
End ring.

(** A sequence of pushes keeps the newest messages. *)
Lemma push_all {A} cap (ms : list A) :
  foldl (push cap) [] ms = drop (length ms - cap) ms.
Proof.
  induction ms as [|m ms IH] using rev_ind; [done|].
  rewrite foldl_snoc, IH. unfold push. rewrite length_drop, length_app. simpl.
  destruct (decide (length ms ≤ cap)%nat) as [Hle|Hgt].
  - replace (length ms - cap)%nat with 0%nat by lia. rewrite drop_0. f_equal. lia.
  - rewrite <- (drop_app_le ms) by lia. rewrite drop_drop. f_equal. lia.
Qed.

Lemma printf_unmapped {E} `{!IoEnv E, !IoLaws E} fmt args (w : io E) :
  osal_io_shm_buffer w = None →
  wp (osal_printf (Some fmt) args)
     (λ r w', r = OSAL_OK ∧ osal_io_shm_buffer w' = None ∧ regions w' = regions w) w.
Proof.
  intros Hb. unfold osal_printf. apply wp_bind, wp_ret, wp_bind. unfold wp at 1, gets at 1. rewrite Hb.
  apply wp_bind. eapply wp_mono; [apply puts_law|]. intros ? w' [Hb' Hr]. apply wp_ret.
  by rewrite Hb', Hr.
Qed.

Section io_session.
Context {E : Type} `{!IoEnv E, !IoLaws E} (l : loc) (r0 : osal_io_shm_t) `{!IoSegment E l r0}.

(** The segment is opened, at the second attempt at the latest. *)
Lemma open_step (w : io E) name attr sz (msg : string) args :
  osal_io_shm_buffer w = None →
  wp (ret ← osal_shm_open name attr sz;
      if negb (ret =? OSAL_OK) then
        _ ← osal_printf (Some msg) args; osal_shm_open name (Z.lor attr OSAL_SHM_ATTR__FLAG__CREAT) sz
      else mret ret)
     (λ ret w', ret = OSAL_OK ∧ osal_io_shm_buffer w' = None) w.
Proof.
  intros Hb. apply wp_bind. eapply wp_mono; [apply open_law|]. intros r w1 [_ Hb1]. rewrite Hb in Hb1.
  destruct (Z.eqb_spec r OSAL_OK) as [->|_]; [by apply wp_ret|]. apply wp_bind.
  eapply wp_mono; [by apply printf_unmapped|]. intros ? w2 (_ & Hb2 & _).
  eapply wp_mono; [apply open_law|]. intros r' w3 [Hr Hb3]. split; [|by rewrite Hb3].
  apply Hr. rewrite Z.lor_spec. apply orb_true_r.
Qed.

(** The part of [osal_io_shm_setup] behind the mapping, on a segment that is one. *)
Lemma initialise_step (w : io E) n sz :
  osal_io_shm_buffer w = Some l → regions w !! l = Some r0 →
  0 < n < 2 ^ 32 → 0 ≤ sz ≤ LIBOSAL_IO_SHM_MAX_MSG_SIZE → n * sz ≤ Z.of_nat (length (msgs r0)) →
  wp (put_ring l (mk_ring (magic r0) n sz (new_msg r0) 0 0 (msgs r0));;
      _ ← osal_mutex_init l (Z.lor OSAL_MUTEX_ATTR__ROBUST OSAL_MUTEX_ATTR__PROCESS_SHARED);
      _ ← osal_semaphore_init l OSAL_SEMAPHORE_ATTR__PROCESS_SHARED 0;
      '(l, r) ← buffer_ring;
      put_ring l (mk_ring LIBOSAL_IO_SHM_MAGIC (max_messages r) (max_message_size r) 0
                    (act_printed r) (act_written r) (msgs r));;
      mret OSAL_OK) (λ ret w', ret = OSAL_OK ∧ io_rep l w' n sz []) w.
Proof.
  intros Hb Hr Hn Hsz Hlen. apply wp_bind. unfold wp at 1. simpl.
  apply wp_bind. eapply wp_mono; [apply mutex_init_law|]. intros ? w4 [Hb4 Hr4]. simpl in Hb4, Hr4.
  apply wp_bind. eapply wp_mono; [apply semaphore_init_law|]. intros ? w5 [Hb5 Hr5].
  rewrite Hb4 in Hb5. rewrite Hr4 in Hr5.
  apply wp_bind. eapply wp_buffer_ring; [by rewrite Hb5|by rewrite Hr5, lookup_insert_eq|].
  apply wp_bind. unfold wp at 1. simpl. apply wp_ret. split; [done|]. split; [by rewrite Hb5|].
  eexists. split; [apply lookup_insert_eq|]. split; [done|]. split; [done|].
  split; [split_and!; (done || simpl; lia)|]. split; [simpl; lia|]. split; [done|].
  intros k m. by rewrite lookup_nil.
Qed.

Lemma wp_rep_ring (w : io E) n sz q (Q : loc * osal_io_shm_t → io E → Prop) :
  io_rep l w n sz q → (∀ r, max_messages r = n → max_message_size r = sz → Q (l, r) w) → wp buffer_ring Q w.
Proof. intros (Hb & r & Hr & Hn & Hsz & _) HQ. eapply wp_buffer_ring; [done|done|]. by apply HQ. Qed.

(** And on one that is set up already. *)
Lemma found_step (w : io E) n sz q :
  io_rep l w n sz q →
  wp (_ ← osal_printf (Some "osal_io_shm: found magic, skipping initialization.\n"%string) [];
      '(_, r) ← buffer_ring;
      _ ← osal_printf (Some "osal_io_shm: maximum number of messages -> %lu\n"%string) [AInt (max_messages r)];
      '(_, r) ← buffer_ring;
      _ ← osal_printf (Some "osal_io_shm: maximum length of messages -> %lu\n"%string) [AInt (max_message_size r)];
      mret OSAL_OK)
     (λ ret w', ret = OSAL_OK ∧
        io_rep l w' n sz (foldl (push (Z.to_nat n - 1)) q (message sz <$> found n sz))) w.
Proof.
  intros H. apply wp_bind. eapply wp_mono; [by apply printf_step|]. intros ? w1 [_ H1].
  apply wp_bind. eapply wp_rep_ring; [exact H1|]. intros r1 -> _.
  apply wp_bind. eapply wp_mono; [by apply printf_step|]. intros ? w2 [_ H2].
  apply wp_bind. eapply wp_rep_ring; [exact H2|]. intros r2 _ ->.
  apply wp_bind. eapply wp_mono; [by apply printf_step|]. intros ? w3 [_ H3]. by apply wp_ret.
Qed.

Lemma setup_step (w : io E) name n sz n' sz' q :
  osal_io_shm_buffer w = None → segment r0 n sz n' sz' q →
  wp (osal_io_shm_setup (Some name) n sz) (λ ret w', ret = OSAL_OK ∧ io_rep l w' n' sz' q) w.
Proof.
  intros Hb Hseg. unfold osal_io_shm_setup. apply wp_bind, wp_ret, wp_assoc.
  apply wp_bind. eapply wp_mono; [by apply open_step|]. intros r w1 [-> Hb1]. rewrite Z.eqb_refl. simpl.
  apply wp_bind. eapply wp_mono; [apply map_law|]. intros r w2 (-> & Hb2 & Hr2). rewrite Hb1 in Hb2.
  rewrite Z.eqb_refl. simpl. apply wp_bind. eapply wp_mono; [by apply printf_unmapped|].
  intros r w3 (_ & _ & Hr3). rewrite <- Hr3 in Hr2. apply wp_bind. unfold wp at 1. simpl.
  apply wp_bind. eapply wp_buffer_ring; [done|done|].
  destruct Hseg as [(Hm & -> & -> & -> & Hn & Hsz & Hlen)|(Hm & Hn & Hsz & q0 & Hq & ->)].
  - apply Z.eqb_neq in Hm as ->. by apply initialise_step.
  - rewrite Hm, Z.eqb_refl. apply found_step. split; [done|]. by exists r0.
Qed.

Lemma get_any (w : io E) n sz q msg to :
  io_rep l w n sz q → length msg = Z.to_nat LIBOSAL_IO_SHM_MAX_MSG_SIZE →
  wp (osal_io_shm_get_message msg to) (λ x w',
    match q with
    | [] => x = (OSAL_ERR_UNAVAILABLE, msg) ∧ io_rep l w' n sz []
    | m :: q => x = (OSAL_OK, m ++ drop (Z.to_nat sz) msg) ∧ io_rep l w' n sz q
    end) w.
Proof.
  intros H Hl. destruct q as [|m q]; [|by apply get_step]. assert (∀ w', io_rep l w' n sz [] →
    wp (osal_io_shm_get_message msg None) (λ x w', x = (OSAL_ERR_UNAVAILABLE, msg) ∧ io_rep l w' n sz []) w') as Hnone.
  { intros w' H'. unfold wp. by rewrite (get_step_empty _ _ _ _ _ H'). }
  destruct to as [to|]; [|by apply Hnone]. eapply get_step_wait; [done|].
  eapply wp_mono; [apply timedwait_law|]. intros ? w1 [Hb1 Hr1]. apply Hnone. unfold io_rep. by rewrite Hb1, Hr1.
Qed.

Lemma io_session_step (w : io E) n sz q ops :
  io_rep l w n sz q → Forall op_wf ops →
  wp (io_session ops) (λ out w', out = (queue_session n sz q ops).1 ∧
                              io_rep l w' n sz (queue_session n sz q ops).2) w.
Proof.
  revert w q. induction ops as [|o ops IH]; intros w q H Hops; [by apply wp_ret|].
  inversion_clear Hops as [|?? Ho Hops']. destruct o as [fmt args|msg to]; cbn [io_session queue_session].
  - apply wp_bind. eapply wp_mono; [by apply printf_step|]. intros ret w1 [-> H1].
    apply wp_bind. eapply wp_mono; [by apply IH|]. intros out w2 [-> H2].
    destruct (queue_session _ _ _ ops). by apply wp_ret.
  - apply wp_bind. eapply wp_mono; [by apply get_any|]. intros x w1 Hx.
    destruct q as [|m q]; destruct Hx as [-> H1];
      (apply wp_bind; eapply wp_mono; [by apply IH|]; intros out w2 [-> H2];
       destruct (queue_session _ _ _ ops); by apply wp_ret).
Qed.
End io_session.

(** ** A concrete environment

    Formats print as themselves; [osal_shm_open] returns a fixed code; mapping
    gives a fresh region of one page. *)
Module Sim.
Definition page : osal_io_shm_t := mk_ring 0 0 0 0 0 0 (replicate 4000 0).

Definition nonzero (z : Z) : Prop := z ≠ 0.
#[global] Instance nonzero_dec z : Decision (nonzero z) := decide (z ≠ 0).

Definition env_with (open_ret : Z) : IoEnv unit := {|
  vtext fmt _ := filter nonzero ((λ a, Z.of_N (Ascii.N_of_ascii a)) <$> String.list_ascii_of_string fmt);
  osal_puts _ := mret OSAL_OK;
  osal_semaphore_init _ _ _ := mret OSAL_OK;
  osal_semaphore_post _ := mret OSAL_OK;
  osal_semaphore_timedwait _ _ := mret OSAL_ERR_TIMEOUT;
  osal_mutex_init _ _ := mret OSAL_OK;
  osal_shm_open _ _ _ := mret open_ret;
  osal_shm_map _ w :=
    Ret (OSAL_OK, Some 1%positive) (mk_io (osal_io_shm_buffer w) (<[1%positive := page]> (regions w)) (env w));
|}.

Lemma laws_with open_ret : @IoLaws unit (env_with open_ret).
Proof.
  split; [|done..]. intros fmt args. unfold vtext, env_with. apply Forall_forall. intros c Hc.
  by apply list_elem_of_filter in Hc as [Hc _].
Qed.

#[global] Instance ext : IoEnv unit := env_with OSAL_OK.
#[global] Instance laws : IoLaws unit := laws_with OSAL_OK.

#[global] Instance new_segment : IoSegment unit 1 page.
Proof. split; try done. intros a w. split; [done|]. split; [done|]. apply lookup_insert_eq. Qed.

(** An empty ring of three slots of four bytes. *)
Definition ring3 : osal_io_shm_t := mk_ring LIBOSAL_IO_SHM_MAGIC 3 4 0 2 2 (replicate 12 7).
Definition world3 : io unit := mk_io (Some 1%positive) {[1%positive := ring3]} tt.
Definition unmapped : io unit := mk_io None ∅ tt.

Lemma world3_rep : io_rep 1 world3 3 4 [].
Proof.
  split; [done|]. exists ring3. split; [done|]. split; [done|]. split; [done|].
  split; [split_and!; (done || simpl; lia)|]. split; [done|]. split; [done|]. intros k m. by rewrite lookup_nil.
Qed.
End Sim.

(** ** Properties *)

(** (C3) [osal_printf] into a mapped ring of [n] slots refines pushing the
    message, truncated to 529 bytes and then to the slot, on a queue that holds
    at most [n - 1] messages and drops the oldest one. It stays in bounds and
    returns [OSAL_OK]. *)
Theorem osal_printf_pushes {E} `{!IoEnv E, !IoLaws E} l (w : io E) n sz q fmt args :
  io_rep l w n sz q →
  wp (osal_printf (Some fmt) args)
     (λ ret w', ret = OSAL_OK ∧ io_rep l w' n sz (push (Z.to_nat n - 1) q (message sz (fmt, args)))) w.
Proof. apply printf_step. Qed.

Lemma osal_printf_pushes_witness :
  wp (osal_printf (Some "hello"%string) [])
     (λ _ w', io_rep 1 w' 3 4 [[104; 101; 108; 108]]) Sim.world3.
Proof.
  eapply wp_mono;
    [refine (osal_printf_pushes 1%positive Sim.world3 3 4 [] "hello"%string [] Sim.world3_rep)|].
  intros r w [_ H]. exact H.
Defined.

(** (C15) Messages are read in the order they were printed: of any sequence of
    messages printed into an empty ring, the reader gets the newest [n - 1], in
    order and unchanged, and then [OSAL_ERR_UNAVAILABLE]. *)
Theorem osal_io_shm_fifo {E} `{!IoEnv E, !IoLaws E} l (w : io E) n sz ms :
  io_rep l w n sz [] →
  let kept := drop (length ms - (Z.to_nat n - 1)) (message sz <$> ms) in
  let unread := replicate 512 0 in
  wp (print_all ms;; got ← get_all (length kept);
      '(ret, _) ← osal_io_shm_get_message unread None; mret (got, ret))
     (λ '(got, ret) _, got = (λ m, (OSAL_OK, m ++ drop (Z.to_nat sz) unread)) <$> kept ∧
                       ret = OSAL_ERR_UNAVAILABLE) w.
Proof.
  intros H kept unread. apply wp_bind. eapply wp_mono; [by apply print_all_step|].
  intros ? w1 H1. rewrite push_all, length_fmap in H1. fold kept in H1.
  apply wp_bind. eapply wp_mono; [by eapply get_all_step|]. intros got w2 [-> H2].
  rewrite drop_all in H2. apply wp_bind. unfold wp at 1.
  rewrite (get_step_empty _ _ _ _ _ H2). apply wp_ret. by rewrite firstn_all.
Qed.

Lemma osal_io_shm_fifo_witness :
  wp (print_all [("a"%string, []); ("bcdef"%string, []); ("gh"%string, [])];; got ← get_all 2;
      '(ret, _) ← osal_io_shm_get_message (replicate 512 0) None; mret (got, ret))
     (λ '(got, ret) _, got = (λ m, (OSAL_OK, m ++ replicate 508 0)) <$> [[98; 99; 100; 101]; [103; 104; 0; 0]] ∧
                       ret = OSAL_ERR_UNAVAILABLE) Sim.world3.
Proof.
  refine (osal_io_shm_fifo 1%positive Sim.world3 3 4
    [("a"%string, []); ("bcdef"%string, []); ("gh"%string, [])] Sim.world3_rep).
Defined.



(** A ring that is there keeps its sizes, whatever the caller asks for; of the
    three messages of the set-up two fit into one of three slots. *)
Example segment_found :
  segment Sim.ring3 10 40 3 4 [[111; 115; 97; 108]; [111; 115; 97; 108]].
Proof.
  right. split; [done|]. split; [done|]. split; [done|]. exists []. split; [|done].
  destruct Sim.world3_rep as (_ & r & [= <-] & _ & _ & H). exact H.
Qed.

(** When the shared memory cannot be opened, [osal_io_shm_setup] returns
    [OSAL_OK] all the same and messages keep going to standard output. *)
Theorem osal_io_shm_setup_hides_errors {E} `{!IoEnv E, !IoLaws E} (w : io E) name n sz :
  (∀ nm a s w, wp (osal_shm_open nm a s) (λ r w', r ≠ OSAL_OK ∧ osal_io_shm_buffer w' = osal_io_shm_buffer w) w) →
  osal_io_shm_buffer w = None →
  wp (osal_io_shm_setup (Some name) n sz) (λ ret w', ret = OSAL_OK ∧ osal_io_shm_buffer w' = None) w.
Proof.
  intros Hopen Hb. unfold osal_io_shm_setup. apply wp_bind, wp_ret, wp_bind.
  eapply wp_mono; [apply Hopen|]. intros r w1 [Hr1 Hb1]. rewrite Hb in Hb1. apply Z.eqb_neq in Hr1 as ->. simpl.
  apply wp_bind, wp_bind. eapply wp_mono; [by apply printf_unmapped|]. intros ? w2 (_ & Hb2 & _).
  eapply wp_mono; [apply Hopen|]. intros r2 w3 [Hr3 Hb3]. rewrite Hb2 in Hb3. apply Z.eqb_neq in Hr3 as ->. simpl.
  apply wp_bind. eapply wp_mono; [by apply printf_unmapped|]. intros ? w4 (_ & Hb4 & _). by apply wp_ret.
Qed.

Lemma osal_io_shm_setup_hides_errors_witness :
  wp (@osal_io_shm_setup unit (Sim.env_with OSAL_ERR_PERMISSION_DENIED) (Some [108; 111; 103]) 10 40)
     (λ ret w', ret = OSAL_OK ∧ osal_io_shm_buffer w' = None) Sim.unmapped.
Proof.
  refine (@osal_io_shm_setup_hides_errors unit (Sim.env_with OSAL_ERR_PERMISSION_DENIED)
    (Sim.laws_with OSAL_ERR_PERMISSION_DENIED) Sim.unmapped [108; 111; 103] 10 40 _ eq_refl).
  intros nm a s w. split; [discriminate|reflexivity].
Defined.

(** The segment [osal_io_shm_setup] asks for counts the size of the handle
    [osal_io_shm] instead of that of the header: in a segment of exactly that
    size, printing into the last slot writes past the end. *)
Theorem osal_io_shm_last_slot_overrun {E} `{!IoEnv E} l r (w : io E) fmt args :
  osal_io_shm_buffer w = Some l → regions w !! l = Some r →
  2 ≤ max_messages r < 2 ^ 32 → 0 < max_message_size r ≤ LIBOSAL_IO_SHM_MAX_MSG_SIZE →
  Z.of_nat (length (msgs r)) =
    sizeof_osal_shm + max_message_size r * max_messages r - sizeof_osal_io_shm_t →
  act_written r = max_messages r - 2 →
  osal_printf (Some fmt) args w = Undef.
Proof.
  intros Hb Hr Hn Hs Hlen Hw. unfold LIBOSAL_IO_SHM_MAX_MSG_SIZE, sizeof_osal_shm, sizeof_osal_io_shm_t in *.
  pose proof (Z.mod_small (max_messages r - 1) (max_messages r) ltac:(lia)) as Hmod.
  unfold osal_printf. erewrite bind_run by done. erewrite bind_run by done. rewrite Hb.
  erewrite bind_run by (unfold buffer_ring; c_unfold; rewrite Hb, Hr; done).
  unfold next_index. destruct (Z.eqb_spec (max_messages r) 0); [lia|].
  rewrite Hw. replace (max_messages r - 2 + 1) with (max_messages r - 1) by lia.
  rewrite (uwrap_id 32 (max_messages r - 1)) by (unfold in_uint; lia).
  rewrite Hmod, (uwrap_id 32 (max_messages r - 1)) by (unfold in_uint; lia). erewrite bind_run by done.
  unfold slot_offset. rewrite (uwrap_id 64) by (unfold in_uint; nia).
  destruct (max_messages r - 1 =? act_printed r);
    (erewrite bind_run by done); apply bind_undef; unfold strncpy_to_ring; simpl;
    destruct (strncpy_bytes _ _); [|done| |done];
    (erewrite bind_run by done); case Z.leb_spec; (done || nia).
Qed.

Lemma osal_io_shm_last_slot_overrun_witness :
  let r := mk_ring LIBOSAL_IO_SHM_MAGIC 4 40 0 1 2 (replicate 64 0) in
  osal_printf (Some "x"%string) [] (mk_io (Some 1%positive) {[1%positive := r]} tt) = Undef.
Proof.
  intros r. refine (osal_io_shm_last_slot_overrun 1%positive r
    (mk_io (Some 1%positive) {[1%positive := r]} tt) "x"%string [] eq_refl _ _ _ _ eq_refl);
    try reflexivity; unfold LIBOSAL_IO_SHM_MAX_MSG_SIZE; simpl; lia.
Defined.
