(* ===== verification/IoShmShared.v ===== *)
(** * The shared ring with two processes: src/io.c

    [osal_printf] and [osal_io_shm_get_message] do not lock the ring. Here they
    are programs over the single accesses they make to it, a byte at a time
    for the messages, and one printing and one reading process take turns at
    every access, in any order. The members that are not written after set-up,
    [max_messages] and [max_message_size], are the variables [n] and [sz].

    Each process is verified against what the other one may do (Programs): it
    may advance its own index, and write the slots that are not in use. *)

From S2P Require Import Prelude Osal Timer BinarySemaphore IoShm Programs.
Open Scope list_scope.

(** ** Programs over the ring *)

(** An access. What [osal_semaphore_post] and [osal_semaphore_timedwait] return
    is not looked at; a wait may end at any time. *)
Inductive event : Type :=
  | ReadPrinted
  | WritePrinted (v : Z)
  | ReadWritten
  | WriteWritten (v : Z)
  | ReadByte (off : Z)
  | WriteByte (off v : Z)
  | SemPost
  | SemTimedwait.

Abbreviation prog := (Programs.prog event).

(** What an access does; [None] when it is outside of the ring. *)
Definition access (e : event) (r : osal_io_shm_t) : option (Z * osal_io_shm_t) :=
  match e with
  | ReadPrinted => Some (act_printed r, r)
  | WritePrinted v => Some (0, set_printed r v)
  | ReadWritten => Some (act_written r, r)
  | WriteWritten v => Some (0, set_written r v)
  | ReadByte off => v ← msgs r !! Z.to_nat off; Some (v, r)
  | WriteByte off v =>
      guard (Z.to_nat off < length (msgs r))%nat;; Some (0, set_msgs r (<[Z.to_nat off := v]> (msgs r)))
  | SemPost | SemTimedwait => Some (0, r)
  end.

Module Shared.
Section programs.
Context (n sz : Z).

Definition next_index (v : Z) : Z := u32 (u32 (v + 1) mod n).

(** The bytes of a [strncpy] to and from the ring, in order. *)
Fixpoint write_bytes (off : Z) (bs : list Z) : prog unit :=
  match bs with
  | [] => mret tt
  | b :: bs => _ ← emit (WriteByte off b); write_bytes (off + 1) bs
  end.

Fixpoint read_bytes (off : Z) (k : nat) : prog (list Z) :=
  match k with
  | O => mret []
  | S k' =>
      b ← emit (ReadByte off);
      if b =? 0 then mret (replicate k 0)
      else bs ← read_bytes (off + 1) k'; mret (b :: bs)
  end.

(** [osal_printf] with a mapped ring, after [vsnprintf] has filled [buf]. *)
Definition osal_printf (buf : list Z) : prog Z :=
  act_written ← emit ReadWritten;
  let next_write := next_index act_written in
  let tmp := u64 (next_write * sz) in
  act_printed ← emit ReadPrinted;
  (if next_write =? act_printed then
     act_printed ← emit ReadPrinted; _ ← emit (WritePrinted (next_index act_printed)); mret tt
   else mret tt);;
  write_bytes tmp (default [] (strncpy_bytes (Z.to_nat sz) buf));;
  _ ← emit (WriteWritten next_write);
  _ ← emit SemPost;
  mret OSAL_OK.

(** With the bytes it copies into [msg]; [to] is whether there is a time-out. *)
Definition osal_io_shm_get_message (to : bool) : prog (Z * list Z) :=
  act_printed ← emit ReadPrinted;
  act_written ← emit ReadWritten;
  (if act_printed =? act_written then
     if to then _ ← emit SemTimedwait; mret tt else mret tt
   else mret tt);;
  act_printed ← emit ReadPrinted;
  act_written ← emit ReadWritten;
  if negb (act_printed =? act_written) then
    act_printed ← emit ReadPrinted;
    _ ← emit (WritePrinted (next_index act_printed));
    act_printed ← emit ReadPrinted;
    let tmp := u64 (act_printed * sz) in
    msg ← read_bytes tmp (Z.to_nat sz);
    mret (OSAL_OK, msg)
  else mret (OSAL_ERR_UNAVAILABLE, []).

(** There is room for another message: the printing process has not outrun the
    reading one. *)
Definition room (r : osal_io_shm_t) : bool := negb (next_index (act_written r) =? act_printed r).

(** The messages the reading process has got. *)
Definition received (g : list (Z * list Z)) : list (list Z) := snd <$> filter (λ x, x.1 = OSAL_OK) g.
End programs.
End Shared.

(** ** What holds at every access

    Of the messages [ms] to be printed, [i] have been taken and [j] printed.
    The slots of the messages in between are in use, and that of the message
    taken last, which may still be being copied. *)
Section invariant.
Context (n sz p0 : Z) (ms : list (list Z)).
Context (Hn : 2 ≤ n < 2 ^ 32) (Hsz : 0 ≤ sz ≤ LIBOSAL_IO_SHM_MAX_MSG_SIZE) (Hp0 : 0 ≤ p0 < n).
Implicit Types r : osal_io_shm_t.
Implicit Types i j k : nat.

Definition index k : Z := (p0 + Z.of_nat k) mod n.

Record ring_inv r i j : Prop := {
  inv_size : max_message_size r = sz;
  inv_printed : act_printed r = index i;
  inv_written : act_written r = index j;
  inv_le : (i ≤ j)%nat;
  inv_room : Z.of_nat j < Z.of_nat i + n;
  inv_sent : (j ≤ length ms)%nat;
  inv_length : n * sz ≤ Z.of_nat (length (msgs r));
  inv_slots k m : (i ≤ S k)%nat → (k < j)%nat → ms !! k = Some m → slot r (index (S k)) = m;
}.

Definition inv r (g : nat * nat) : Prop := ring_inv r g.1 g.2.

(** The printing process relies on the other one to take messages only, the
    reading one on the other one to print only. *)
Definition rely_print (x y : osal_io_shm_t * (nat * nat)) : Prop :=
  (x.2.1 ≤ y.2.1)%nat ∧ y.2.2 = x.2.2 ∧ msgs y.1 = msgs x.1.

Definition rely_read (x y : osal_io_shm_t * (nat * nat)) : Prop := y.2.1 = x.2.1 ∧ (x.2.2 ≤ y.2.2)%nat.

#[global] Instance rely_print_preorder : PreOrder rely_print.
Proof.
  split; [by intros x; split_and!|]. intros x y z (? & ? & ?) (? & ? & ?). split; [lia|]. split; congruence.
Qed.

#[global] Instance rely_read_preorder : PreOrder rely_read.
Proof. split; [by intros x; split|]. intros x y z [??] [??]. split; [congruence|lia]. Qed.

Abbreviation print_ok := (safe access always inv rely_print rely_read).
Abbreviation read_ok := (safe access always inv rely_read rely_print).

(** *** Indices *)

Lemma index_range k : 0 ≤ index k < n.
Proof. apply Z.mod_pos_bound. lia. Qed.

Lemma index_inj i a b :
  (i ≤ a)%nat → (i ≤ b)%nat → Z.of_nat a < Z.of_nat i + n → Z.of_nat b < Z.of_nat i + n →
  index a = index b → a = b.
Proof.
  unfold index. intros Ha Hb Han Hbn H.
  replace (p0 + Z.of_nat a) with ((p0 + Z.of_nat i) + (Z.of_nat a - Z.of_nat i)) in H by lia.
  replace (p0 + Z.of_nat b) with ((p0 + Z.of_nat i) + (Z.of_nat b - Z.of_nat i)) in H by lia.
  apply mod_index in H; lia.
Qed.

Lemma next_index_S k : Shared.next_index n (index k) = index (S k).
Proof.
  unfold Shared.next_index. pose proof (index_range k).
  rewrite (uwrap_id 32 (index k + 1)) by (unfold in_uint; lia).
  assert ((index k + 1) mod n = index (S k)) as ->.
  { unfold index. rewrite Zplus_mod_idemp_l. f_equal. lia. }
  apply uwrap_id. unfold in_uint. pose proof (index_range (S k)). lia.
Qed.

Lemma index_offset k : u64 (index k * sz) = index k * sz.
Proof. pose proof (index_range k). unfold LIBOSAL_IO_SHM_MAX_MSG_SIZE in *. apply uwrap_id. unfold in_uint. nia. Qed.

(** *** Slots *)

Lemma slot_lookup r a k :
  max_message_size r = sz → 0 ≤ a → (k < Z.to_nat sz)%nat →
  slot r a !! k = msgs r !! Z.to_nat (a * sz + Z.of_nat k).
Proof.
  intros Hs Ha Hk. unfold slot. rewrite Hs, lookup_take_lt, lookup_drop by done. f_equal. lia.
Qed.

(** A byte written to one slot is not in another. *)
Lemma slot_byte r a b k v :
  max_message_size r = sz → 0 ≤ a → 0 ≤ b → a ≠ b → (k < Z.to_nat sz)%nat →
  slot (set_msgs r (<[Z.to_nat (a * sz + Z.of_nat k) := v]> (msgs r))) b = slot r b.
Proof.
  intros Hs Ha Hb Hab Hk. apply list_eq. intros x.
  destruct (decide (x < Z.to_nat sz)%nat) as [Hx|Hx].
  - rewrite !slot_lookup by done. simpl. apply list_lookup_insert_ne.
    assert (a * sz + Z.of_nat k ≠ b * sz + Z.of_nat x) by (assert (a < b ∨ b < a) as [|] by lia; nia). lia.
  - rewrite !lookup_ge_None_2; [done|..]; unfold slot; rewrite length_take; simpl; rewrite Hs; lia.
Qed.

Lemma slot_byte_same r a k v :
  max_message_size r = sz → 0 ≤ a → (k < Z.to_nat sz)%nat → a * sz + Z.of_nat k < Z.of_nat (length (msgs r)) →
  slot (set_msgs r (<[Z.to_nat (a * sz + Z.of_nat k) := v]> (msgs r))) a = <[k := v]> (slot r a).
Proof.
  intros Hs Ha Hk Hb. apply list_eq. intros x.
  destruct (decide (x < Z.to_nat sz)%nat) as [Hx|Hx].
  - rewrite slot_lookup by done. simpl. destruct (decide (x = k)) as [->|Hne].
    + rewrite !list_lookup_insert_eq; [done|..]; [|lia].
      apply lookup_lt_is_Some. rewrite slot_lookup by done. apply lookup_lt_is_Some. lia.
    + rewrite !list_lookup_insert_ne by (lia || nia). by rewrite slot_lookup.
  - rewrite !lookup_ge_None_2; [done|..]; rewrite ?length_insert; unfold slot; rewrite length_take; simpl; rewrite Hs; lia.
Qed.

(** *** The printing process *)

(** Copying the rest [bs] of a message behind [pre], into the slot of message
    number [j]. *)
Lemma write_bytes_ok j bs pre (Φ : unit → osal_io_shm_t → nat * nat → Prop) r i :
  ring_inv r i j → Z.of_nat (S j) < Z.of_nat i + n → (length pre + length bs = Z.to_nat sz)%nat →
  take (length pre) (slot r (index (S j))) = pre →
  (∀ r1 i1, ring_inv r1 i1 j → (i ≤ i1)%nat → slot r1 (index (S j)) = pre ++ bs → Φ tt r1 (i1, j)) →
  print_ok Φ (Shared.write_bytes (index (S j) * sz + Z.of_nat (length pre)) bs) r (i, j).
Proof.
  revert pre r i. induction bs as [|b bs IH]; intros pre r i Hinv Hroom Hlen Hpre Hc.
  - apply Hc; [done|done|]. rewrite app_nil_r. etrans; [|exact Hpre]. symmetry. apply take_ge.
    unfold slot. rewrite length_take, (inv_size _ _ _ Hinv). simpl in Hlen. lia.
  - intros r1 [i1 j1] (Hi & Hj & Hm) Hinv1. simpl in Hlen, Hi, Hj, Hm. subst j1.
    unfold inv in Hinv1. simpl in Hinv1. pose proof (index_range (S j)).
    pose proof (inv_size _ _ _ Hinv1) as Hs. pose proof (inv_length _ _ _ Hinv1) as Hl.
    assert (index (S j) * sz + Z.of_nat (length pre) < Z.of_nat (length (msgs r1))) as Hb by nia.
    set (r2 := set_msgs r1 (<[Z.to_nat (index (S j) * sz + Z.of_nat (length pre)) := b]> (msgs r1))).
    assert (slot r1 (index (S j)) = slot r (index (S j))) as Hsl.
    { unfold slot. by rewrite Hm, Hs, (inv_size _ _ _ Hinv). }
    assert (ring_inv r2 i1 j) as Hinv2.
    { destruct Hinv1 as [_ H1 H2 H3 H4 Hms _ H6]. split; try done; [by unfold r2; simpl; rewrite length_insert|].
      intros k m Hk Hkj Hkm. unfold r2. rewrite slot_byte; [by apply H6|done|..]; try (pose proof (index_range (S k)); lia).
      intros He. apply (index_inj i1) in He; lia. }
    exists 0, r2, (i1, j). split; [simpl; by rewrite option_guard_True by lia|]. split; [done|]. split; [by split|].
    replace (index (S j) * sz + Z.of_nat (length pre) + 1) with (index (S j) * sz + Z.of_nat (length (pre ++ [b])))
      by (rewrite length_app; simpl; lia).
    assert (slot r2 (index (S j)) = <[length pre := b]> (slot r1 (index (S j)))) as Hs2
      by (apply slot_byte_same; (done || lia)).
    apply (IH (pre ++ [b])); try done; [lia|rewrite length_app; simpl; lia| |].
    + rewrite length_app, Nat.add_1_r, Hs2, Hsl. assert (length pre < length (slot r (index (S j))))%nat.
      { apply lookup_lt_is_Some. rewrite <- Hsl, slot_lookup by (done || lia). apply lookup_lt_is_Some. lia. }
      erewrite take_S_r by by apply list_lookup_insert_eq. by rewrite take_insert_ge, Hpre.
    + intros r3 i3 Hinv3 Hi3 Hsl3. apply Hc; [done|lia|]. by rewrite <- app_assoc in Hsl3.
Qed.

(** A call of [osal_printf] with room in the ring prints the next message. *)
Lemma osal_printf_safe buf m r i j :
  strncpy_bytes (Z.to_nat sz) buf = Some m → ms !! j = Some m →
  Z.of_nat (S j) < Z.of_nat i + n →
  print_ok (λ _ _ g, g.2 = S j) (Shared.osal_printf n sz buf) r (i, j).
Proof.
  intros Hbuf Hm Hroom. pose proof (strncpy_bytes_length _ _ _ Hbuf) as Hlen.
  intros r1 [i1 j1] (Hi1 & Hj1 & Hm1) Hinv1. simpl in Hi1, Hj1. subst j1. exists (index j), r1, (i1, j).
  split; [simpl; by rewrite (inv_written _ _ _ Hinv1)|]. split; [done|]. split; [by split|].
  intros r2 [i2 j2] (Hi2 & Hj2 & Hm2) Hinv2. simpl in Hi2, Hj2. subst j2. exists (index i2), r2, (i2, j).
  split; [simpl; by rewrite (inv_printed _ _ _ Hinv2)|]. split; [done|]. split; [by split|].
  rewrite next_index_S, index_offset, Hbuf. simpl.
  destruct (Z.eqb_spec (index (S j)) (index i2)) as [He|_].
  { pose proof (inv_le _ _ _ Hinv2). simpl in *. apply (index_inj i2) in He; lia. }
  apply (safe_bind _ _ _ _ _ _ (Shared.write_bytes _ _)).
  rewrite <- (Z.add_0_r (index (S j) * sz)). apply (write_bytes_ok j m []); [done|lia|done|done|].
  intros r3 i3 Hinv3 Hi3 Hsl r4 [i4 j4] (Hi4 & Hj4 & Hm4) Hinv4. simpl in Hi4, Hj4, Hm4. subst j4.
  assert (ring_inv (set_written r4 (index (S j))) i4 (S j)) as Hinv5.
  { destruct Hinv4 as [H1 H2 H3 H4 H5 Hms H6 H7]. simpl in *. pose proof (lookup_lt_Some _ _ _ Hm).
    split; try done; [lia..|]. intros k m' Hk Hkj Hkm.
    destruct (decide (k = j)) as [->|]; [|by apply H7; [|lia|]].
    rewrite Hm in Hkm. injection Hkm as <-. unfold slot in *. simpl. by rewrite Hm4, H1, <- (inv_size _ _ _ Hinv3). }
  exists 0, (set_written r4 (index (S j))), (i4, S j). split; [done|]. split; [done|].
  split; [split; simpl; lia|].
  intros r6 [i6 j6] (Hi6 & Hj6 & _) Hinv6. simpl in Hj6. exists 0, r6, (i6, j6). split; [done|].
  split; [done|]. split; [by split|]. done.
Qed.

(** *** The reading process *)

(** A message that [strncpy] leaves as it is. *)
Definition copied (m : list Z) : Prop := strncpy_bytes (length m) m = Some m.

(** Accesses that only read, or take a message. *)
Lemma read_ok_printed {A} Φ (c : Z → prog A) r i j :
  (∀ r1 j1, (j ≤ j1)%nat → read_ok Φ (c (index i)) r1 (i, j1)) → read_ok Φ (emit ReadPrinted ≫= c) r (i, j).
Proof.
  intros H r1 [i1 j1] [Hi Hj] Hinv. simpl in Hi, Hj. subst i1. exists (index i), r1, (i, j1).
  split; [simpl; by rewrite (inv_printed _ _ _ Hinv)|]. split; [done|]. split; [by split_and!|]. by apply H.
Qed.

Lemma read_ok_written {A} Φ (c : Z → prog A) r i j :
  (∀ r1 j1, (j ≤ j1)%nat → (i ≤ j1)%nat → Z.of_nat j1 < Z.of_nat i + n → (j1 ≤ length ms)%nat →
    read_ok Φ (c (index j1)) r1 (i, j1)) →
  read_ok Φ (emit ReadWritten ≫= c) r (i, j).
Proof.
  intros H r1 [i1 j1] [Hi Hj] Hinv. simpl in Hi, Hj. subst i1. exists (index j1), r1, (i, j1).
  split; [simpl; by rewrite (inv_written _ _ _ Hinv)|]. split; [done|]. split; [by split_and!|].
  apply H; [done|exact (inv_le _ _ _ Hinv)|exact (inv_room _ _ _ Hinv)|exact (inv_sent _ _ _ Hinv)].
Qed.

Lemma read_ok_wait {A} Φ (c : Z → prog A) r i j :
  (∀ r1 j1, (j ≤ j1)%nat → read_ok Φ (c 0) r1 (i, j1)) → read_ok Φ (emit SemTimedwait ≫= c) r (i, j).
Proof.
  intros H r1 [i1 j1] [Hi Hj] Hinv. simpl in Hi, Hj. subst i1. exists 0, r1, (i, j1).
  split; [done|]. split; [done|]. split; [by split_and!|]. by apply H.
Qed.

Lemma read_ok_advance {A} Φ (c : Z → prog A) r i j :
  (i < j)%nat → (∀ r1 j1, (j ≤ j1)%nat → read_ok Φ (c 0) r1 (S i, j1)) →
  read_ok Φ (emit (WritePrinted (index (S i))) ≫= c) r (i, j).
Proof.
  intros Hij H r1 [i1 j1] [Hi Hj] Hinv. simpl in Hi, Hj. subst i1.
  exists 0, (set_printed r1 (index (S i))), (S i, j1).
  split; [done|]. split; [|split; [split_and!; simpl; (done || lia)|by apply H]].
  destruct Hinv as [H1 H2 H3 H4 H5 Hms H6 H7]. simpl in *. split; simpl; try done; [lia|lia|].
  intros k m Hk. apply H7. lia.
Qed.

(** Copying the rest [bs] of message number [t], behind [pre]. *)
Lemma read_bytes_ok t bs pre (Φ : list Z → osal_io_shm_t → nat * nat → Prop) r j :
  ms !! t = Some (pre ++ bs) → (t < j)%nat → (length pre + length bs = Z.to_nat sz)%nat → copied bs →
  (∀ r1 j1, (j ≤ j1)%nat → Φ bs r1 (S t, j1)) →
  read_ok Φ (Shared.read_bytes (index (S t) * sz + Z.of_nat (length pre)) (length bs)) r (S t, j).
Proof.
  revert pre Φ r j. induction bs as [|b bs IH]; intros pre Φ r j Hm Htj Hlen Hcp Hc.
  - by apply Hc.
  - intros r1 [i1 j1] [Hi Hj] Hinv1. simpl in Hi, Hj, Hlen. subst i1. pose proof (index_range (S t)).
    pose proof (inv_slots _ _ _ Hinv1 t _ ltac:(simpl; lia) ltac:(simpl; lia) Hm) as Hsl.
    assert (msgs r1 !! Z.to_nat (index (S t) * sz + Z.of_nat (length pre)) = Some b) as Hb.
    { rewrite <- slot_lookup by (apply Hinv1 || lia). rewrite Hsl. by apply list_lookup_middle. }
    exists b, r1, (S t, j1). split; [simpl; by rewrite Hb|]. split; [done|]. split; [by split_and!|].
    unfold copied in Hcp. simpl in Hcp |- *. destruct (b =? 0).
    + simpl in Hcp. injection Hcp as Hb0 Hbs. subst b. rewrite Hbs. by apply Hc.
    + apply fmap_Some in Hcp as (bs' & Hcp & [= <-]).
      apply safe_bind.
      replace (index (S t) * sz + Z.of_nat (length pre) + 1) with (index (S t) * sz + Z.of_nat (length (pre ++ [b])))
        by (rewrite length_app; simpl; lia).
      apply IH; [by rewrite <- app_assoc|lia|rewrite length_app; simpl; lia|done|].
      intros r2 j2 Hj2. apply Hc. lia.
Qed.

(** A call of [osal_io_shm_get_message] takes the next message or finds none. *)
Definition taken_or_none (t : nat) (x : Z * list Z) : osal_io_shm_t → nat * nat → Prop := λ _ g,
  (x.1 = OSAL_OK ∧ ms !! t = Some x.2 ∧ g.1 = S t) ∨ (x.1 ≠ OSAL_OK ∧ g.1 = t).

Lemma osal_io_shm_get_message_safe to r i j :
  Forall copied ms → Forall (λ m, length m = Z.to_nat sz) ms →
  read_ok (taken_or_none i) (Shared.osal_io_shm_get_message n sz to) r (i, j).
Proof.
  intros Hcp Hlen. unfold Shared.osal_io_shm_get_message.
  apply read_ok_printed. intros r1 j1 Hj1. apply read_ok_written. intros r2 j2 Hj2 _ _ _.
  apply safe_bind. set (Φ := λ _ : unit, _).
  assert (∀ r3 j3, Φ tt r3 (i, j3)) as Htake.
  { intros r3 j3. apply read_ok_printed. intros r4 j4 _. apply read_ok_written. intros r5 j5 _ Hij Hroom Hsent.
    destruct (Z.eqb_spec (index i) (index j5)) as [He|Hne]; cbn [negb]; [by right|].
    assert (i < j5)%nat as Hlt by (destruct (decide (i = j5)) as [->|]; [done|lia]).
    apply read_ok_printed. intros r6 j6 Hj6. rewrite next_index_S. apply read_ok_advance; [lia|].
    intros r7 j7 Hj7. apply read_ok_printed. intros r8 j8 Hj8. rewrite index_offset. apply safe_bind.
    destruct (lookup_lt_is_Some_2 ms i ltac:(lia)) as [m Hm].
    pose proof (proj1 (Forall_lookup _ _) Hlen i m Hm) as Hl. rewrite <- Hl.
    rewrite <- (Z.add_0_r (index (S i) * sz)). apply (read_bytes_ok i m []); [done|lia|done| |].
    - exact (proj1 (Forall_lookup _ _) Hcp i m Hm).
    - intros r9 j9 _. by left. }
  destruct (index i =? index j2); [|apply Htake]. destruct to; [|apply Htake].
  apply read_ok_wait. intros r3 j3 _. apply Htake.
Qed.
End invariant.

(** ** The two processes together *)
Section system.
Context (n sz p0 : Z) (ts : list (list Z)).
Context (Hn : 2 ≤ n < 2 ^ 32) (Hsz : 0 ≤ sz ≤ LIBOSAL_IO_SHM_MAX_MSG_SIZE) (Hp0 : 0 ≤ p0 < n).
Context (Hts : Forall (Forall (λ c, c ≠ 0)) ts).

Abbreviation ms := (slot_text sz <$> ts).
Abbreviation bufs := ((λ t, t ++ [0]) <$> ts).

Lemma bufs_copied j b : bufs !! j = Some b → ∃ m, strncpy_bytes (Z.to_nat sz) b = Some m ∧ ms !! j = Some m.
Proof.
  intros Hb. apply list_lookup_fmap_Some in Hb as (t & -> & Ht). exists (slot_text sz t).
  split; [|by rewrite list_lookup_fmap, Ht]. apply strncpy_bytes_text.
  exact (proj1 (Forall_lookup _ _) Hts j t Ht).
Qed.

Lemma ms_copied : Forall copied ms ∧ Forall (λ m, length m = Z.to_nat sz) ms.
Proof.
  rewrite !Forall_lookup. assert (∀ i m, ms !! i = Some m → ∃ b, strncpy_bytes (Z.to_nat sz) b = Some m) as H.
  { intros i m Hm. apply list_lookup_fmap_Some in Hm as (t & -> & Ht).
    destruct (bufs_copied i (t ++ [0])) as (m & Hm & Hmi); [by rewrite list_lookup_fmap, Ht|].
    rewrite list_lookup_fmap, Ht in Hmi. injection Hmi as <-. by eexists. }
  split; intros i m Hm; destruct (H i m Hm) as [b Hb]; pose proof (strncpy_bytes_length _ _ _ Hb) as Hl; [|done].
  unfold copied. rewrite Hl. by eapply strncpy_bytes_idem.
Qed.

(** Between two calls [j] messages have been printed, and [i] have been got. *)
Definition printing_idle (bs : list (list Z)) (r : osal_io_shm_t) (g : nat * nat) : Prop := bs = drop g.2 bufs.
Definition reading_idle (got : list (Z * list Z)) (r : osal_io_shm_t) (g : nat * nat) : Prop :=
  Shared.received got = take g.1 ms.

Lemma received_snoc g x :
  Shared.received (g ++ [x]) = Shared.received g ++ if decide (x.1 = OSAL_OK) then [x.2] else [].
Proof.
  unfold Shared.received. rewrite filter_app, fmap_app. f_equal. rewrite filter_cons, filter_nil.
  by destruct (decide (x.1 = OSAL_OK)).
Qed.

(** Room in the ring is room for one more index. *)
Lemma room_index r i j : ring_inv n sz p0 ms r i j → Shared.room n r = true → Z.of_nat (S j) < Z.of_nat i + n.
Proof.
  intros [_ H1 H2 H3 H4 _ _ _]. unfold Shared.room. rewrite H1, H2, next_index_S by done.
  destruct (Z.eqb_spec (index n p0 (S j)) (index n p0 i)) as [|Hne]; [done|]. intros _.
  destruct (decide (Z.of_nat (S j) = Z.of_nat i + n)) as [He|]; [|lia].
  destruct Hne. unfold index. rewrite He, Z.add_assoc, <- (Z.mul_1_l n) at 1. by rewrite Z.mod_add by lia.
Qed.

Lemma printing_call b bs r g :
  inv n sz p0 ms r g → printing_idle (b :: bs) r g → Shared.room n r = true →
  safe access always (inv n sz p0 ms) rely_print rely_read (λ _, printing_idle bs) (Shared.osal_printf n sz b) r g.
Proof.
  destruct g as [i j]. unfold printing_idle. intros Hinv Hbs Hroom. simpl in Hbs. assert (bufs !! j = Some b) as Hb.
  { by rewrite <- (Nat.add_0_r j), <- lookup_drop, <- Hbs. }
  destruct (bufs_copied j b Hb) as (m & Hm & Hmj).
  refine (safe_mono _ _ _ _ _ (λ _ _ g, g.2 = S j) _ _ _ _ _ _); [eapply osal_printf_safe; try done; by eapply room_index|].
  intros _ r1 g1 ->. rewrite (drop_S _ _ _ Hb) in Hbs. by injection Hbs as ->.
Qed.

Lemma reading_call to got r g :
  inv n sz p0 ms r g → reading_idle got r g →
  safe access always (inv n sz p0 ms) rely_read rely_print (λ x, reading_idle (got ++ [x]))
    (Shared.osal_io_shm_get_message n sz to) r g.
Proof.
  destruct g as [i j]. unfold reading_idle. intros _ Hgot. simpl in Hgot. destruct ms_copied.
  refine (safe_mono _ _ _ _ _ (taken_or_none ms i) _ _ _ _ _ _); [by apply osal_io_shm_get_message_safe|]. intros x r1 g1. rewrite received_snoc, Hgot.
  intros [(Hok & Hmt & ->)|[Hok ->]].
  - rewrite decide_True by done. by rewrite (take_S_r _ _ _ Hmt).
  - rewrite decide_False by done. by rewrite app_nil_r.
Qed.

(** The two processes, from a state in which both are between two calls. *)
Abbreviation system := (step access (Shared.osal_printf n sz) (Shared.osal_io_shm_get_message n sz) (Shared.room n)).
Definition system_inv : state (A := Z) → Prop :=
  pair_inv access (inv n sz p0 ms) rely_print rely_read printing_idle reading_idle.

Lemma ring_system_reachable s s' : system_inv s → rtc system s s' → system_inv s' ∧ ¬ out_of_bounds access s'.
Proof.
  intros Hs Hsteps. assert (system_inv s') as Hs'; [|split; [done|]].
  - eapply pair_reachable; [apply _..| | | | |exact Hs|exact Hsteps].
    + intros ts' r [i j] r1 [i1 j1] H (_ & Hj & _). unfold printing_idle in *. simpl in *. congruence.
    + intros l r [i j] r1 [i1 j1] H [Hi _]. unfold reading_idle in *. simpl in *. congruence.
    + intros t ts' r g. apply printing_call.
    + intros c l r g. apply reading_call.
  - exact (pair_in_bounds _ _ _ _ _ _ _ Hs').
Qed.
End system.

(** ** One process alone

    Run without interruption, the programs do what the functions of IoShm do. *)
Abbreviation run := (Programs.run access).

Lemma run_write_bytes off bs r :
  0 ≤ off → off + Z.of_nat (length bs) ≤ Z.of_nat (length (msgs r)) →
  run (Shared.write_bytes off bs) r = Some (tt, set_msgs r (list_inserts (Z.to_nat off) bs (msgs r))).
Proof.
  revert off r. induction bs as [|b bs IH]; intros off r Hoff Hlen; [by destruct r|].
  simpl in Hlen. simpl. rewrite option_guard_True by lia. simpl.
  change (run (Shared.write_bytes (off + 1) bs) (set_msgs r (<[Z.to_nat off:=b]> (msgs r))) =
    Some (tt, set_msgs r (<[Z.to_nat off:=b]> (list_inserts (S (Z.to_nat off)) bs (msgs r))))).
  rewrite IH by (simpl; rewrite ?length_insert; lia).
  rewrite list_insert_inserts_lt by lia. simpl. do 3 f_equal. unfold set_msgs. simpl.
  by replace (Z.to_nat (off + 1)) with (S (Z.to_nat off)) by lia.
Qed.

Lemma run_read_bytes off bs r :
  0 ≤ off → copied bs → (∀ k b, bs !! k = Some b → msgs r !! Z.to_nat (off + Z.of_nat k) = Some b) →
  run (Shared.read_bytes off (length bs)) r = Some (bs, r).
Proof.
  revert off. induction bs as [|b bs IH]; intros off Hoff Hcp Hbs; [done|].
  unfold copied in Hcp. simpl in Hcp |- *. pose proof (Hbs 0%nat b eq_refl) as Hb.
  rewrite Z.add_0_r in Hb. rewrite Hb. simpl. destruct (b =? 0).
  - simpl in Hcp |- *. congruence.
  - apply fmap_Some in Hcp as (bs' & Hcp & [= <-]).
    rewrite (run_bind access (Shared.read_bytes (off + 1) (length bs)) (λ bs0, Done (b :: bs0))).
    rewrite IH; [done|lia|done|]. intros k x Hk. rewrite <- (Hbs (S k) x Hk). f_equal. lia.
Qed.

Section alone.
Context (r : osal_io_shm_t) (q : list (list Z)) (Hrep : ring_rep r q).

Lemma shared_next_index v :
  0 ≤ v < max_messages r → Shared.next_index (max_messages r) v = (v + 1) mod max_messages r.
Proof.
  destruct Hrep as [(Hn & _) _]. intros Hv. unfold Shared.next_index.
  pose proof (Z.mod_pos_bound (v + 1) (max_messages r) ltac:(lia)).
  rewrite (uwrap_id 32 (v + 1)) by (unfold in_uint; lia). apply uwrap_id. unfold in_uint. lia.
Qed.

Lemma shared_offset i : 0 ≤ i < max_messages r → u64 (i * max_message_size r) = i * max_message_size r.
Proof.
  destruct Hrep as [(Hn & Hs & _) _]. unfold LIBOSAL_IO_SHM_MAX_MSG_SIZE in Hs. intros Hi.
  apply uwrap_id. unfold in_uint. nia.
Qed.

Lemma run_printf {E} `{!IoEnv E, !IoLaws E} fmt args :
  run (Shared.osal_printf (max_messages r) (max_message_size r) (printf_buf fmt args)) r =
  Some (OSAL_OK, ring_pushed r (message (max_message_size r) (fmt, args))).
Proof.
  pose proof Hrep as ((Hn & Hs & Hmem & Hp & Hwr) & _).
  destruct (message_bytes (max_message_size r) (fmt, args)) as [Hbuf _]; [lia|]. simpl in Hbuf.
  pose proof (strncpy_bytes_length _ _ _ Hbuf) as Hlen.
  pose proof (Z.mod_pos_bound (act_written r + 1) (max_messages r) ltac:(lia)) as Hib.
  unfold Shared.osal_printf. simpl. rewrite shared_next_index by done. rewrite shared_offset, Hbuf by done. simpl.
  unfold ring_pushed. set (i := (act_written r + 1) mod max_messages r) in *.
  set (m := message _ _) in *.
  assert (∀ r', max_message_size r' = max_message_size r → msgs r' = msgs r →
    run (Shared.write_bytes (i * max_message_size r) m ≫=
      λ _, Vis (WriteWritten i) (λ _, Vis SemPost (λ _, Done OSAL_OK))) r' =
    Some (OSAL_OK, set_written (set_msgs r' (list_inserts (Z.to_nat (i * max_message_size r)) m (msgs r))) i)) as Hrest.
  { intros r' Hs' Hm'. rewrite run_bind, run_write_bytes by (rewrite ?Hm'; nia). by rewrite Hm'. }
  destruct (i =? act_printed r).
  - simpl. rewrite shared_next_index by done. by apply Hrest.
  - by apply Hrest.
Qed.

Lemma run_get m q' to :
  q = m :: q' →
  run (Shared.osal_io_shm_get_message (max_messages r) (max_message_size r) to) r = Some ((OSAL_OK, m), ring_taken r).
Proof.
  intros Hqm. pose proof Hrep as ((Hn & Hs & Hmem & Hp & Hwr) & Hlen & Hw & Hq).
  rewrite Hqm in Hlen, Hw, Hq. simpl in Hlen.
  destruct (Hq 0%nat m eq_refl) as [Hsl Hm]. rewrite Z.add_0_r in Hsl.
  pose proof (strncpy_bytes_length _ _ _ Hm) as Hml.
  pose proof (Z.mod_pos_bound (act_printed r + 1) (max_messages r) ltac:(lia)) as Hib.
  assert ((act_printed r =? act_written r) = false) as Hne.
  { apply Z.eqb_neq. rewrite Hw. intros He.
    rewrite <- (Z.mod_small (act_printed r) (max_messages r)) in He at 1 by lia.
    rewrite <- (Z.add_0_r (act_printed r)) in He at 1. apply mod_index in He; simpl length in *; lia. }
  unfold Shared.osal_io_shm_get_message. simpl. rewrite !Hne. simpl. rewrite !Hne. simpl.
  rewrite shared_next_index, shared_offset by done. rewrite <- Hml.
  rewrite (run_bind access (Shared.read_bytes _ _) (λ msg, Done (OSAL_OK, msg))).
  rewrite run_read_bytes; [done|nia|unfold copied; by rewrite Hml|].
  intros k b Hk. pose proof (lookup_lt_Some _ _ _ Hk).
  rewrite <- (slot_lookup (max_message_size r)) by (done || lia). simpl.
  change (slot r ((act_printed r + 1) mod max_messages r) !! k = Some b). by rewrite Hsl.
Qed.
End alone.

(** ** A small ring: two slots of two bytes *)
Module Sim.
Definition ring2 : osal_io_shm_t := mk_ring LIBOSAL_IO_SHM_MAGIC 2 2 0 0 0 [7; 7; 7; 7].

Lemma ring2_rep : ring_rep ring2 [].
Proof.
  split; [split_and!; (done || simpl; lia)|]. split; [done|]. split; [done|]. intros k m. by rewrite lookup_nil.
Qed.

Definition start (ts : list (list Z)) : state (E := event) (A := Z) (B := Z * list Z) :=
  mk_state ring2 ((λ t, t ++ [0]) <$> ts) None None [].

(** One message is printed and read, the accesses taking turns. *)
Definition turns : list move :=
  concat (replicate 8 [First; Second true]) ++ replicate 10 (Second false).

(** The second and the third message are printed while the first one is read,
    between its two bytes. *)
Definition overrun : list move :=
  replicate 8 First ++ replicate 9 (Second false) ++ replicate 18 First ++
  replicate 2 (Second false).
End Sim.

Lemma ring_system_start r ts :
  ring_rep r [] → 2 ≤ max_messages r → Forall (Forall (λ c, c ≠ 0)) ts →
  system_inv (max_messages r) (max_message_size r) (act_printed r) ts
    (mk_state r ((λ t, t ++ [0]) <$> ts) None None []).
Proof.
  intros ((Hn & Hs & Hmem & Hp & Hwr) & _ & Hw & _) H2 Hts. simpl in Hw.
  assert (act_printed r = index (max_messages r) (act_printed r) 0) as Hi.
  { unfold index. simpl. by rewrite Z.add_0_r, Z.mod_small. }
  exists (0%nat, 0%nat). split; [|done]. split; simpl; try done; try lia.
Qed.

(** ** Properties *)

(** (C6) One process prints and another one reads, no lock is taken, and the
    accesses of the two come in any order, the single bytes of a message
    included. As long as no message is printed into a full ring, neither
    process leaves the ring, the reader gets the messages that were printed,
    complete, in order and none twice, and when both are done and the ring is
    empty it has got them all. *)
Theorem shared_ring_fifo r ts s :
  ring_rep r [] → 2 ≤ max_messages r → Forall (Forall (λ c, c ≠ 0)) ts →
  let n := max_messages r in
  let sz := max_message_size r in
  rtc (step access (Shared.osal_printf n sz) (Shared.osal_io_shm_get_message n sz) (Shared.room n))
    (mk_state r ((λ t, t ++ [0]) <$> ts) None None []) s →
  ¬ out_of_bounds access s ∧
  Shared.received (got s) `prefix_of` slot_text sz <$> ts ∧
  (first s = None → todo s = [] → second s = None → act_printed (mem s) = act_written (mem s) →
   Shared.received (got s) = slot_text sz <$> ts).
Proof.
  intros Hrep H2 Hts n sz Hsteps. pose proof (ring_system_start r ts Hrep H2 Hts) as Hstart.
  destruct Hrep as ((Hn & Hs & Hmem & Hp & Hwr) & _).
  destruct (ring_system_reachable n sz (act_printed r) ts ltac:(lia) Hs Hp Hts _ _ Hstart Hsteps) as [Hinv Hb].
  split; [done|]. split.
  - destruct (pair_got _ _ _ _ _ _ _ Hinv) as (r0 & g0 & _ & ->). apply prefix_take.
  - destruct Hinv as ([i j] & Hring & Hpr & Hrd). intros Hnone Htodo Hnoner Heq.
    rewrite Hnone in Hpr. rewrite Hnoner in Hrd. simpl in Hpr, Hrd. unfold printing_idle, reading_idle in *.
    rewrite Hrd. simpl. rewrite Htodo in Hpr. apply (f_equal length) in Hpr.
    rewrite length_drop, length_fmap in Hpr. simpl in Hpr. destruct Hring as [_ H1 H3 H4 H5 _ _ _]. simpl in *.
    rewrite H1, H3 in Heq. apply (index_inj n (act_printed r) ltac:(lia) i) in Heq; [|lia..]. subst j.
    apply take_ge. rewrite length_fmap. lia.
Qed.

Lemma shared_ring_fifo_witness :
  ∃ s, rtc (step access (Shared.osal_printf 2 2) (Shared.osal_io_shm_get_message 2 2) (Shared.room 2))
         (Sim.start [[97; 98]]) s ∧
       Shared.received (got s) = [[97; 98]] ∧ ¬ out_of_bounds access s.
Proof.
  eexists. assert (schedule access (Shared.osal_printf 2 2) (Shared.osal_io_shm_get_message 2 2) (Shared.room 2)
    Sim.turns (Sim.start [[97; 98]]) = Some _) as Hs by (vm_compute; reflexivity).
  apply schedule_reachable in Hs. split; [exact Hs|]. split; [reflexivity|].
  refine (proj1 (shared_ring_fifo Sim.ring2 [[97; 98]] _ Sim.ring2_rep _ _ Hs)); [done|repeat constructor; done].
Defined.

(** Without a lock, that does depend on the room: when the printing process
    runs on into a full ring, it drops the oldest message and writes into the
    slot that the reader is still copying, and the reader returns [OSAL_OK]
    with the first byte of one message and the second byte of another. *)
Theorem shared_ring_torn :
  ∃ s, rtc (step access (Shared.osal_printf 2 2) (Shared.osal_io_shm_get_message 2 2) (λ _, true))
         (Sim.start [[97; 97]; [98; 98]; [99; 99]]) s ∧
       got s = [(OSAL_OK, [97; 99])].
Proof.
  eexists. assert (schedule access (Shared.osal_printf 2 2) (Shared.osal_io_shm_get_message 2 2) (λ _, true)
    Sim.overrun (Sim.start [[97; 97]; [98; 98]; [99; 99]]) = Some _) as Hs by (vm_compute; reflexivity).
  apply schedule_reachable in Hs. split; [exact Hs|]. reflexivity.
Qed.

(** A process that is not interrupted does to the ring, access by access, what
    [osal_printf] and [osal_io_shm_get_message] of IoShm do as a whole. *)
Theorem shared_sequential {E} `{!IoEnv E, !IoLaws E} l (w : io E) r q fmt args :
  osal_io_shm_buffer w = Some l → regions w !! l = Some r → ring_rep r q →
  let n := max_messages r in
  let sz := max_message_size r in
  wp (osal_printf (Some fmt) args) (λ ret w', ∃ r', regions w' !! l = Some r' ∧
    run (Shared.osal_printf n sz (printf_buf fmt args)) r = Some (ret, r')) w ∧
  ∀ m q' to msg, q = m :: q' → length msg = 512%nat →
  wp (osal_io_shm_get_message msg to) (λ x w', ∃ r', regions w' !! l = Some r' ∧
    ∃ got, run (Shared.osal_io_shm_get_message n sz (bool_decide (is_Some to))) r = Some ((x.1, got), r') ∧
           x.2 = got ++ drop (Z.to_nat sz) msg) w.
Proof.
  intros Hb Hr Hrep n sz. split.
  - eapply wp_mono; [by eapply printf_ring|]. intros ret w' (-> & _ & Hr'). eexists. split; [exact Hr'|].
    by eapply run_printf.
  - intros m q' to msg -> Hmsg. eapply wp_mono; [by eapply get_ring|]. intros x w' (-> & _ & Hr').
    eexists. split; [exact Hr'|]. exists m. split; [by eapply run_get|done].
Qed.
