(* ===== verification/IoShmThreads.v ===== *)
(** * The shared ring with any number of processes: src/io.c

    Any number of processes set the ring up, print and read at the same time,
    access by access, with no lock (Threads). [max_messages] and
    [max_message_size] are read from the segment each time, as in the source.

    Whatever happens, no process leaves the ring or divides by zero, as long as
    all of them ask for the same sizes: the magic number is written last. More
    does not hold. Two processes that print at the same time may use the same
    slot, and a process that is late in setting up empties the ring. *)

From S2P Require Import Prelude Osal Timer BinarySemaphore IoShm Programs Threads.
Open Scope list_scope.

(** ** The memory *)

(** [mapped]: the processes whose [osal_io_shm_buffer] is set. *)
Record shared : Type := mk_shared { ring : osal_io_shm_t; mapped : gset nat }.

(** What the semaphore does is not followed; a wait may end at any time. *)
Inductive event : Type :=
  | ReadBuffer
  | SetBuffer
  | Puts (s : list Z)
  | ReadMagic
  | WriteMagic (v : Z)
  | ReadMaxMessages
  | WriteMaxMessages (v : Z)
  | ReadMaxMessageSize
  | WriteMaxMessageSize (v : Z)
  | WriteNewMsg (v : Z)
  | ReadPrinted
  | WritePrinted (v : Z)
  | ReadWritten
  | WriteWritten (v : Z)
  | ReadByte (off : Z)
  | WriteByte (off v : Z)
  | DivideByZero
  | MutexInit
  | SemInit
  | SemPost
  | SemTimedwait.

Abbreviation prog := (Programs.prog event).

Definition set_ring (r : shared) (b : osal_io_shm_t) : shared := mk_shared b (mapped r).

Definition access (t : nat) (e : event) (r : shared) : option (Z * shared) :=
  let b := ring r in
  let '(mk_ring m n sz w p q ms) := b in
  match e with
  | ReadBuffer => Some (if decide (t ∈ mapped r) then 1 else 0, r)
  | SetBuffer => Some (0, mk_shared b ({[t]} ∪ mapped r))
  | ReadMagic => Some (m, r)
  | WriteMagic v => Some (0, set_ring r (mk_ring v n sz w p q ms))
  | ReadMaxMessages => Some (n, r)
  | WriteMaxMessages v => Some (0, set_ring r (mk_ring m v sz w p q ms))
  | ReadMaxMessageSize => Some (sz, r)
  | WriteMaxMessageSize v => Some (0, set_ring r (mk_ring m n v w p q ms))
  | WriteNewMsg v => Some (0, set_ring r (mk_ring m n sz v p q ms))
  | ReadPrinted => Some (p, r)
  | WritePrinted v => Some (0, set_ring r (mk_ring m n sz w v q ms))
  | ReadWritten => Some (q, r)
  | WriteWritten v => Some (0, set_ring r (mk_ring m n sz w p v ms))
  | ReadByte off => v ← ms !! Z.to_nat off; Some (v, r)
  | WriteByte off v =>
      guard (Z.to_nat off < length ms)%nat;; Some (0, set_ring r (mk_ring m n sz w p q (<[Z.to_nat off := v]> ms)))
  | DivideByZero => None
  | Puts _ | MutexInit | SemInit | SemPost | SemTimedwait => Some (0, r)
  end.

Definition enabled (t : nat) (e : event) (r : shared) : bool := true.

(** ** The functions *)
Module Shared.

(** [(v + 1) % max_messages]. *)
Definition next_index (v : Z) : prog Z :=
  n ← emit ReadMaxMessages;
  if n =? 0 then emit DivideByZero else mret (u32 (u32 (v + 1) mod n)).

(** [msgs + i * max_message_size], from [msgs]. *)
Definition slot_offset (i : Z) : prog Z := sz ← emit ReadMaxMessageSize; mret (u64 (i * sz)).

(** The bytes of a [strncpy] to and from the ring, in order. *)
Fixpoint write_bytes (off : Z) (bs : list Z) : prog unit :=
  match bs with
  | [] => mret tt
  | b :: bs => _ ← emit (WriteByte off b); write_bytes (off + 1) bs
  end.

Fixpoint read_bytes (off : Z) (k : nat) : prog (list Z) :=
  match k with
  | O => mret []
  | S k' =>
      b ← emit (ReadByte off);
      if b =? 0 then mret (replicate k 0)
      else bs ← read_bytes (off + 1) k'; mret (b :: bs)
  end.

(** The branch of [osal_printf] with a ring. *)
Definition print_ring (buf : list Z) : prog Z :=
  act_written ← emit ReadWritten;
  next_write ← next_index act_written;
  tmp ← slot_offset next_write;
  act_printed ← emit ReadPrinted;
  (if next_write =? act_printed then
     act_printed ← emit ReadPrinted; next ← next_index act_printed; _ ← emit (WritePrinted next); mret tt
   else mret tt);;
  sz ← emit ReadMaxMessageSize;
  write_bytes tmp (default [] (strncpy_bytes (Z.to_nat sz) buf));;
  _ ← emit (WriteWritten next_write);
  _ ← emit SemPost;
  mret OSAL_OK.

(** [text]: what the format and the arguments give. *)
Definition osal_printf (text : list Z) : prog Z :=
  let buf := take 529 text ++ [0] in
  buffer ← emit ReadBuffer;
  if negb (buffer =? 0) then print_ring buf
  else _ ← emit (Puts buf); mret OSAL_OK.

(** With the bytes it copies into [msg]; [to] is whether there is a time-out. *)
Definition osal_io_shm_get_message (to : bool) : prog (Z * list Z) :=
  act_printed ← emit ReadPrinted;
  act_written ← emit ReadWritten;
  (if act_printed =? act_written then
     if to then _ ← emit SemTimedwait; mret tt else mret tt
   else mret tt);;
  act_printed ← emit ReadPrinted;
  act_written ← emit ReadWritten;
  if negb (act_printed =? act_written) then
    act_printed ← emit ReadPrinted;
    next ← next_index act_printed;
    _ ← emit (WritePrinted next);
    act_printed ← emit ReadPrinted;
    tmp ← slot_offset act_printed;
    sz ← emit ReadMaxMessageSize;
    msg ← read_bytes tmp (Z.to_nat sz);
    mret (OSAL_OK, msg)
  else mret (OSAL_ERR_UNAVAILABLE, []).

Section setup.
Context (opened found : list Z) (text_messages text_size : Z → list Z).

(** From the point where the segment is mapped; the texts of the messages it
    prints are the variables. *)
Definition osal_io_shm_setup (max_msgs max_msg_size : Z) : prog Z :=
  _ ← osal_printf opened;
  _ ← emit SetBuffer;
  magic ← emit ReadMagic;
  if magic =? LIBOSAL_IO_SHM_MAGIC then
    _ ← osal_printf found;
    n ← emit ReadMaxMessages;
    _ ← osal_printf (text_messages n);
    sz ← emit ReadMaxMessageSize;
    _ ← osal_printf (text_size sz);
    mret OSAL_OK
  else
    _ ← emit (WriteMaxMessages max_msgs);
    _ ← emit (WriteMaxMessageSize max_msg_size);
    _ ← emit (WritePrinted 0);
    _ ← emit (WriteWritten 0);
    _ ← emit MutexInit;
    _ ← emit SemInit;
    _ ← emit (WriteMagic LIBOSAL_IO_SHM_MAGIC);
    _ ← emit (WriteNewMsg 0);
    mret OSAL_OK.
End setup.
End Shared.

(** The calls, and what they return: the code, and the bytes of a message. A
    process reads after it has set the ring up. *)
Inductive op : Type := Setup | Print (text : list Z) | Get (to : bool).
Inductive answer : Type := Finished (ret : Z) | Got (ret : Z) (msg : list Z).

Definition ring_start (t : nat) (c : op) (r : shared) : option shared :=
  match c with Get _ => if decide (t ∈ mapped r) then Some r else None | _ => Some r end.

Section calls.
Context (opened found : list Z) (text_messages text_size : Z → list Z) (n sz : Z).

Definition ring_call (t : nat) (c : op) : prog answer :=
  match c with
  | Setup => ret ← Shared.osal_io_shm_setup opened found text_messages text_size n sz; mret (Finished ret)
  | Print text => ret ← Shared.osal_printf text; mret (Finished ret)
  | Get to => '(ret, msg) ← Shared.osal_io_shm_get_message to; mret (Got ret msg)
  end.
End calls.

(** ** The ring stays sound *)
Section proof.
Context (n sz : Z).
Implicit Types (t : nat) (r : shared).

Definition sized r : Prop := max_messages (ring r) = n ∧ max_message_size (ring r) = sz.

(** A ring with the magic number has the sizes; before that it may be a page of
    zeros. *)
Definition ring_ok r : Prop :=
  (magic (ring r) = LIBOSAL_IO_SHM_MAGIC → sized r) ∧
  0 ≤ act_printed (ring r) < n ∧ 0 ≤ act_written (ring r) < n ∧ n * sz ≤ Z.of_nat (length (msgs (ring r))).

(** The other processes may set the sizes, to these values. *)
Definition rely_ring t r r' : Prop :=
  (t ∈ mapped r' ↔ t ∈ mapped r) ∧
  (max_messages (ring r) = n → max_messages (ring r') = n) ∧
  (max_message_size (ring r) = sz → max_message_size (ring r') = sz).

#[global] Instance rely_ring_preorder t : PreOrder (rely_ring t).
Proof. unfold rely_ring. split; [by intros r|]. intros r1 r2 r3 (H1 & H2 & H3) (H4 & H5 & H6). rewrite H4. tauto. Qed.

Context (Hn : 0 < n < 2 ^ 32) (Hsz : 0 ≤ sz ≤ LIBOSAL_IO_SHM_MAX_MSG_SIZE).

Definition ready t r : Prop := t ∈ mapped r → sized r.
Definition uses t r : Prop := t ∈ mapped r ∧ sized r.
Definition stable t (K : shared → Prop) : Prop := ∀ r r', K r → rely_ring t r r' → K r'.

Lemma ready_ring_stable t : stable t (ready t).
Proof. intros r r' Hr (Hm & H1 & H2) Ht. destruct Hr as [H3 H4]; [by apply Hm|]. split; auto. Qed.

Lemma uses_stable t : stable t (uses t).
Proof. intros r r' [Ht [H3 H4]] (Hm & H1 & H2). split; [by apply Hm|]. split; auto. Qed.

Abbreviation keeps t := (keeps access enabled ring_ok rely_ring t).

(** *** Single accesses *)
Lemma read_keeps {A} t K (Q : Z → Prop) e (f : Z → prog A) Φ r :
  stable t K → K r → (∀ r, K r → ring_ok r → ∃ a, access t e r = Some (a, r) ∧ Q a) →
  (∀ a r, Q a → K r → keeps t Φ (f a) r) → keeps t Φ (emit e ≫= f) r.
Proof.
  intros Hst HK He Hf. apply (keeps_access _ _ _ _ _ K (λ a r, Q a ∧ K r)); [done..| |by intros a r1 []; auto].
  intros r1 HK1 Hok. destruct (He r1 HK1 Hok) as (a & Ha & HQ). exists a, r1. by split_and!.
Qed.

Lemma write_keeps {A} t (K K' : shared → Prop) e (f : Z → prog A) Φ r :
  stable t K → K r →
  (∀ r, K r → ring_ok r → ∃ r', access t e r = Some (0, r') ∧ ring_ok r' ∧
     (∀ t', t' ≠ t → rely_ring t' r r') ∧ K' r') →
  (∀ r, K' r → keeps t Φ (f 0) r) → keeps t Φ (emit e ≫= f) r.
Proof.
  intros Hst HK He Hf. apply (keeps_access _ _ _ _ _ K (λ a r, a = 0 ∧ K' r)); [done..| |by intros a r1 [-> ?]; auto].
  intros r1 HK1 Hok. destruct (He r1 HK1 Hok) as (r2 & Ha & Hok2 & Hrl & HK2). exists 0, r2. by split_and!.
Qed.

(** What a process that uses the ring reads. *)
Lemma read_printed_keeps {A} t (f : Z → prog A) Φ r :
  uses t r → (∀ i r, 0 ≤ i < n → uses t r → keeps t Φ (f i) r) → keeps t Φ (emit ReadPrinted ≫= f) r.
Proof.
  intros HK Hf. apply (read_keeps t (uses t) (λ i, 0 ≤ i < n)); [apply uses_stable|done| |auto].
  intros [[m n1 s w p q ms] mp] _ (_ & Hp & _). by exists p.
Qed.

Lemma read_written_keeps {A} t (f : Z → prog A) Φ r :
  uses t r → (∀ i r, 0 ≤ i < n → uses t r → keeps t Φ (f i) r) → keeps t Φ (emit ReadWritten ≫= f) r.
Proof.
  intros HK Hf. apply (read_keeps t (uses t) (λ i, 0 ≤ i < n)); [apply uses_stable|done| |auto].
  intros [[m n1 s w p q ms] mp] _ (_ & _ & Hq & _). by exists q.
Qed.

Lemma read_size_keeps {A} t (f : Z → prog A) Φ r :
  uses t r → (∀ r, uses t r → keeps t Φ (f sz) r) → keeps t Φ (emit ReadMaxMessageSize ≫= f) r.
Proof.
  intros HK Hf. apply (read_keeps t (uses t) (λ i, i = sz)); [apply uses_stable|done| |by intros a r1 ->; auto].
  intros [[m n1 s w p q ms] mp] [_ [_ Hs]] _. by exists s.
Qed.

Lemma read_messages_keeps {A} t (f : Z → prog A) Φ r :
  uses t r → (∀ r, uses t r → keeps t Φ (f n) r) → keeps t Φ (emit ReadMaxMessages ≫= f) r.
Proof.
  intros HK Hf. apply (read_keeps t (uses t) (λ i, i = n)); [apply uses_stable|done| |by intros a r1 ->; auto].
  intros [[m n1 s w p q ms] mp] [_ [Hs _]] _. by exists n1.
Qed.

(** An access that leaves the sizes. *)
Lemma plain_keeps {A} t K e (f : Z → prog A) Φ r :
  stable t K → K r →
  (∀ r, K r → ring_ok r → ∃ r', access t e r = Some (0, r') ∧ ring_ok r' ∧ mapped r' = mapped r ∧
     max_messages (ring r') = max_messages (ring r) ∧ max_message_size (ring r') = max_message_size (ring r)) →
  (∀ r, K r → keeps t Φ (f 0) r) → keeps t Φ (emit e ≫= f) r.
Proof.
  intros Hst HK He Hf. apply (write_keeps t K K); [done..| |done].
  intros r1 HK1 Hok. destruct (He r1 HK1 Hok) as (r2 & Ha & Hok2 & Hm & Hn2 & Hs2).
  assert (∀ t', rely_ring t' r1 r2) as Hrl by (intros t'; unfold rely_ring; by rewrite Hm, Hn2, Hs2).
  exists r2. split; [done|]. split; [done|]. split; [by intros|]. by eapply Hst.
Qed.

Lemma write_index_keeps {A} t e i (f : Z → prog A) Φ r :
  e = WritePrinted i ∨ e = WriteWritten i → 0 ≤ i < n → uses t r → (∀ r, uses t r → keeps t Φ (f 0) r) →
  keeps t Φ (emit e ≫= f) r.
Proof.
  intros He Hi HK Hf. apply (plain_keeps t (uses t)); [apply uses_stable|done| |done].
  intros [[m n1 s w p q ms] mp] _ (Hm & Hp & Hq & Hl).
  by destruct He as [-> | ->]; eexists; (split; [reflexivity|]); split_and!.
Qed.

(** Accesses that are not of the ring. *)
Lemma skip_keeps {A} t K e (f : Z → prog A) Φ r :
  e ∈ [MutexInit; SemInit; SemPost; SemTimedwait; WriteNewMsg 0] → stable t K → K r → (∀ r, K r → keeps t Φ (f 0) r) →
  keeps t Φ (emit e ≫= f) r.
Proof.
  intros He Hst HK Hf. apply (plain_keeps t K); [done..| |done]. intros [[m n1 s w p q ms] mp] _ Hok.
  repeat (apply elem_of_cons in He as [->|He]; [by eexists; (split; [reflexivity|]); split_and!|]). by apply elem_of_nil in He.
Qed.

(** *** The functions *)
Lemma next_index_keeps t v r : uses t r → keeps t (λ i r, 0 ≤ i < n ∧ uses t r) (Shared.next_index v) r.
Proof.
  intros HK. unfold Shared.next_index. apply read_messages_keeps; [done|]. clear dependent r. intros r HK.
  destruct (Z.eqb_spec n 0); [lia|]. split; [|done].
  pose proof (Z.mod_pos_bound (u32 (v + 1)) n ltac:(lia)). by rewrite uwrap_id by (unfold in_uint; lia).
Qed.

Lemma slot_offset_keeps t i r :
  0 ≤ i < n → uses t r → keeps t (λ off r, 0 ≤ off ∧ off + sz ≤ n * sz ∧ uses t r) (Shared.slot_offset i) r.
Proof.
  intros Hi HK. unfold Shared.slot_offset. apply read_size_keeps; [done|]. clear dependent r. intros r HK.
  unfold LIBOSAL_IO_SHM_MAX_MSG_SIZE in *. assert (i * sz < 2 ^ 32 * 512) by nia.
  unfold mret, prog_ret. cbn [Programs.safe keeps]. unfold Threads.keeps. cbn [safe].
  rewrite uwrap_id by (unfold in_uint; nia). split_and!; [nia|nia|by apply HK..].
Qed.

Lemma write_bytes_keeps t off bs r :
  0 ≤ off → off + Z.of_nat (length bs) ≤ n * sz → uses t r → keeps t (λ _ r, uses t r) (Shared.write_bytes off bs) r.
Proof.
  revert off r. induction bs as [|b bs IH]; intros off r Hoff Hl HK; [done|]. simpl in Hl. cbn [Shared.write_bytes].
  apply (plain_keeps t (uses t)); [apply uses_stable|done| |intros r1 HK1; by apply IH; [lia..|]].
  intros [[m n1 s w p q ms] mp] _ (Hm & Hp & Hq & Hlen). simpl in Hm, Hp, Hq, Hlen.
  eexists. split; [unfold access; cbn [ring]; by rewrite option_guard_True by lia|]. split; [|done]. split; [done|]. simpl. by rewrite length_insert.
Qed.

Lemma read_bytes_keeps t off k r :
  0 ≤ off → off + Z.of_nat k ≤ n * sz → uses t r →
  keeps t (λ msg r, length msg = k ∧ uses t r) (Shared.read_bytes off k) r.
Proof.
  revert off r. induction k as [|k IH]; intros off r Hoff Hl HK; [done|]. cbn [Shared.read_bytes].
  apply (read_keeps t (uses t) (λ _, True)); [apply uses_stable|done| |].
  - intros [[m n1 s w p q ms] mp] _ (Hm & Hp & Hq & Hlen). simpl in *.
    destruct (lookup_lt_is_Some_2 ms (Z.to_nat off)) as [v Hv]; [lia|]. exists v. unfold access. cbn [ring]. by rewrite Hv.
  - clear dependent r. intros b r _ HK. destruct (b =? 0); [split; [by rewrite length_replicate|done]|].
    eapply keeps_bind; [apply IH; [lia..|done]|]. intros bs r2 [Hbs HK2]. split; [simpl; by rewrite Hbs|done].
Qed.

Lemma print_ring_keeps t buf r : uses t r → keeps t (λ ret r, ret = OSAL_OK ∧ uses t r) (Shared.print_ring buf) r.
Proof.
  intros HK. unfold Shared.print_ring. apply read_written_keeps; [done|]. clear dependent r. intros w r _ HK.
  eapply keeps_bind; [by apply next_index_keeps|]. clear dependent r. intros next r [Hnext HK].
  eapply keeps_bind; [by apply slot_offset_keeps|]. clear dependent r. intros off r (Hlo & Hhi & HK).
  apply read_printed_keeps; [done|]. clear dependent r. intros p r _ HK.
  eapply keeps_bind with (Ψ := λ _, uses t).
  { destruct (next =? p); [|done]. apply read_printed_keeps; [done|]. clear dependent r. intros p1 r _ HK.
    eapply keeps_bind; [by apply next_index_keeps|]. clear dependent r. intros i r [Hi HK].
    by eapply write_index_keeps; [by left|..]. }
  clear dependent r. intros ? r HK. apply read_size_keeps; [done|]. clear dependent r. intros r HK.
  eapply keeps_bind; [apply write_bytes_keeps; [done| |done]|].
  { destruct (strncpy_bytes _ _) as [bs|] eqn:Hbs; simpl; [|lia]. apply strncpy_bytes_length in Hbs. lia. }
  clear dependent r. intros ? r HK. eapply write_index_keeps; [by right|done|done|]. clear dependent r. intros r HK.
  apply (skip_keeps t (uses t)); [set_solver|apply uses_stable|done|]. by intros r1 HK1.
Qed.

(** With a ring, and perhaps without one. *)
Lemma printf_uses t text r : uses t r → keeps t (λ ret r, ret = OSAL_OK ∧ uses t r) (Shared.osal_printf text) r.
Proof.
  intros HK. unfold Shared.osal_printf.
  apply (read_keeps t (uses t) (λ a, a = 1)); [apply uses_stable|done| |].
  - intros [[m n1 s w p q ms] mp] [Ht _] _. exists 1. split; [|done]. unfold access. cbn [ring mapped]. by rewrite decide_True by done.
  - intros a r1 -> HK1. by apply print_ring_keeps.
Qed.

Lemma printf_keeps t text r : ready t r → keeps t (λ ret r, ret = OSAL_OK ∧ ready t r) (Shared.osal_printf text) r.
Proof.
  intros HK. unfold Shared.osal_printf.
  apply (keeps_access _ _ _ _ _ (ready t) (λ a r, ready t r ∧ (a ≠ 0 → t ∈ mapped r))); [apply ready_ring_stable|done| |].
  - intros [[m n1 s w p q ms] mp] Hr Hok. do 2 eexists. split; [reflexivity|]. split; [done|]. split; [by intros|].
    split; [done|]. simpl. by case_decide.
  - clear dependent r. intros a r [HK Ha]. destruct (Z.eqb_spec a 0) as [->|Hne].
    + apply (plain_keeps t (ready t)); [apply ready_ring_stable|done| |done].
      intros [[m n1 s w p q ms] mp] _ Hok. eexists. split; [reflexivity|]. by split_and!.
    + eapply safe_mono; [apply print_ring_keeps; split; auto|]. intros ret r1 [] [-> [_ H1]]. split; [done|]. by intros _.
Qed.

Definition whole (x : Z * list Z) : Prop := x.1 = OSAL_OK → length x.2 = Z.to_nat sz.

Lemma get_message_keeps t to r : uses t r → keeps t (λ x r, whole x ∧ uses t r) (Shared.osal_io_shm_get_message to) r.
Proof.
  intros HK. unfold Shared.osal_io_shm_get_message. apply read_printed_keeps; [done|]. clear dependent r. intros p r _ HK.
  apply read_written_keeps; [done|]. clear dependent r. intros w r _ HK.
  eapply keeps_bind with (Ψ := λ _, uses t).
  { destruct (p =? w), to; try done.
    apply (skip_keeps t (uses t)); [set_solver|apply uses_stable|done|]. by intros r1 HK1. }
  clear dependent r. intros ? r HK. apply read_printed_keeps; [done|]. clear dependent r. intros p1 r _ HK.
  apply read_written_keeps; [done|]. clear dependent r. intros w1 r _ HK. destruct (negb _); [|done].
  apply read_printed_keeps; [done|]. clear dependent r. intros p2 r _ HK.
  eapply keeps_bind; [by apply next_index_keeps|]. clear dependent r. intros next r [Hnext HK].
  eapply write_index_keeps; [by left|done|done|]. clear dependent r. intros r HK.
  apply read_printed_keeps; [done|]. clear dependent r. intros p3 r Hp3 HK.
  eapply keeps_bind; [by apply slot_offset_keeps|]. clear dependent r. intros off r (Hlo & Hhi & HK).
  apply read_size_keeps; [done|]. clear dependent r. intros r HK.
  eapply keeps_bind; [apply read_bytes_keeps; [done|lia|done]|]. intros msg r2 [Hmsg HK2].
  split; [by intros _|done].
Qed.

(** *** Setting up

    The sizes are set one after the other; the magic number says that they are. *)
Definition with_messages t r : Prop := t ∈ mapped r ∧ max_messages (ring r) = n.

Lemma with_messages_stable t : stable t (with_messages t).
Proof. intros r r' [Ht H] (Hm & H1 & H2). split; [by apply Hm|auto]. Qed.

Lemma mapped_stable t : stable t (λ r, t ∈ mapped r).
Proof. intros r r' Ht (Hm & _). by apply Hm. Qed.

Lemma set_buffer_keeps {A} t (f : Z → prog A) Φ r :
  ready t r → (∀ r, t ∈ mapped r → keeps t Φ (f 0) r) → keeps t Φ (emit SetBuffer ≫= f) r.
Proof.
  intros HK Hf. apply (write_keeps t (ready t) (λ r, t ∈ mapped r)); [apply ready_ring_stable|done| |done].
  intros [[m n1 s w p q ms] mp] _ Hok. eexists. split; [reflexivity|]. split; [done|].
  split; [|simpl; set_solver]. intros t' Hne. unfold rely_ring. simpl. set_solver.
Qed.

Lemma write_messages_keeps {A} t (f : Z → prog A) Φ r :
  t ∈ mapped r → (∀ r, with_messages t r → keeps t Φ (f 0) r) → keeps t Φ (emit (WriteMaxMessages n) ≫= f) r.
Proof.
  intros HK Hf. apply (write_keeps t (λ r, t ∈ mapped r) (with_messages t)); [apply mapped_stable|done| |done].
  intros [[m n1 s w p q ms] mp] Ht (Hm & Hok). eexists. split; [reflexivity|].
  split; [split; [intros Hmag; by destruct (Hm Hmag)|done]|]. by split; [intros t' _; split|].
Qed.

Lemma write_size_keeps {A} t (f : Z → prog A) Φ r :
  with_messages t r → (∀ r, uses t r → keeps t Φ (f 0) r) → keeps t Φ (emit (WriteMaxMessageSize sz) ≫= f) r.
Proof.
  intros HK Hf. apply (write_keeps t (with_messages t) (uses t)); [apply with_messages_stable|done| |done].
  intros [[m n1 s w p q ms] mp] [Ht Hn1] (Hm & Hok). eexists. split; [reflexivity|].
  split; [split; [by intros Hmag; destruct (Hm Hmag)|done]|]. by split; [intros t' _; split|].
Qed.

Lemma write_magic_keeps {A} t (f : Z → prog A) Φ r :
  uses t r → (∀ r, uses t r → keeps t Φ (f 0) r) → keeps t Φ (emit (WriteMagic LIBOSAL_IO_SHM_MAGIC) ≫= f) r.
Proof.
  intros HK Hf. apply (plain_keeps t (uses t)); [apply uses_stable|done| |done].
  intros [[m n1 s w p q ms] mp] [Ht Hs] (Hm & Hok). eexists. split; [reflexivity|]. by split; [split|].
Qed.

Context (opened found : list Z) (text_messages text_size : Z → list Z).

Lemma setup_keeps t r :
  ready t r → keeps t (λ ret r, ret = OSAL_OK ∧ ready t r)
    (Shared.osal_io_shm_setup opened found text_messages text_size n sz) r.
Proof.
  intros HK. unfold Shared.osal_io_shm_setup. eapply keeps_bind; [by apply printf_keeps|].
  clear dependent r. intros ? r [_ HK]. apply set_buffer_keeps; [done|]. clear dependent r. intros r HK.
  apply (keeps_access _ _ _ _ _ (λ r, t ∈ mapped r) (λ a r, t ∈ mapped r ∧ (a = LIBOSAL_IO_SHM_MAGIC → sized r)));
    [apply mapped_stable|done| |].
  { intros [[m n1 s w p q ms] mp] Ht Hok. do 2 eexists. split; [reflexivity|]. split; [done|].
    split; [by intros|]. split; [done|apply Hok]. }
  clear dependent r. intros magic r [Ht Hm]. destruct (Z.eqb_spec magic LIBOSAL_IO_SHM_MAGIC) as [Heq|_].
  - assert (uses t r) as HK by (split; auto). clear Ht Hm. eapply keeps_bind; [by apply printf_uses|].
    clear dependent r. intros ? r [_ HK]. apply read_messages_keeps; [done|]. clear dependent r. intros r HK.
    eapply keeps_bind; [by apply printf_uses|]. clear dependent r. intros ? r [_ HK].
    apply read_size_keeps; [done|]. clear dependent r. intros r HK.
    eapply keeps_bind; [by apply printf_uses|]. intros ? r1 [_ [_ H1]]. split; [done|by intros _].
  - apply write_messages_keeps; [done|]. clear dependent r. intros r HK.
    apply write_size_keeps; [done|]. clear dependent r. intros r HK.
    eapply write_index_keeps; [by left|lia|done|]. clear dependent r. intros r HK.
    eapply write_index_keeps; [by right|lia|done|]. clear dependent r. intros r HK.
    apply (skip_keeps t (uses t)); [set_solver|apply uses_stable|done|]. clear dependent r. intros r HK.
    apply (skip_keeps t (uses t)); [set_solver|apply uses_stable|done|]. clear dependent r. intros r HK.
    apply write_magic_keeps; [done|]. clear dependent r. intros r HK.
    apply (skip_keeps t (uses t)); [set_solver|apply uses_stable|done|]. intros r1 [_ H1].
    split; [done|by intros _].
Qed.

(** Setting up and printing always succeed, and a message that is read fills a
    slot. *)
Definition good_answer (x : answer) : Prop :=
  match x with Finished ret => ret = OSAL_OK | Got ret msg => whole (ret, msg) end.

Lemma ring_call_sound t c r r' :
  ring_ok r → ready t r → ring_start t c r = Some r' →
  ring_ok r' ∧ (∀ t', t' ≠ t → rely_ring t' r r') ∧
  keeps t (λ x r, good_answer x ∧ ready t r) (ring_call opened found text_messages text_size n sz t c) r'.
Proof.
  intros Hok Hr Hst. destruct c as [|text|to]; cbn [ring_start] in Hst.
  - injection Hst as <-. split; [done|]. split; [by intros|]. eapply keeps_bind; [by apply setup_keeps|]. by intros ret r1 [-> ?].
  - injection Hst as <-. split; [done|]. split; [by intros|]. eapply keeps_bind; [by apply printf_keeps|]. by intros ret r1 [-> ?].
  - case_decide as Ht; [|done]. injection Hst as <-. split; [done|]. split; [by intros|].
    eapply keeps_bind; [apply get_message_keeps; split; auto|]. intros [ret msg] r1 [Hw [_ H1]]. split; [done|by intros _].
Qed.
End proof.

(** ** Concrete processes, on a ring of two slots of two bytes *)
Module ThreadsSim.
(** A segment of zeros, nobody has mapped it. *)
Definition page (k : nat) : shared := mk_shared (mk_ring 0 0 0 0 0 0 (replicate k 0)) ∅.

(** An empty ring that three processes have set up. *)
Definition ring2 : shared := mk_shared (mk_ring LIBOSAL_IO_SHM_MAGIC 2 2 0 0 0 [7; 7; 7; 7]) {[0; 1; 2]}%nat.

Definition call : nat → op → prog answer := ring_call [] [] (λ _, []) (λ _, []) 2 2.
Definition turns (l : list nat) : list (nat * option op) := (λ t, (t, None)) <$> l.

Definition run (l : list (nat * option op)) (r : shared) : option (threads (E := event) (R := shared) (B := answer)) :=
  tschedule access enabled call ring_start l (mk_threads r ∅ []).

(** Processes 0 and 1 print at the same time: both read where to print, each
    copies one byte before the other one. Then process 2 reads twice. *)
Definition two_printers : list (nat * option op) :=
  [(0%nat, Some (Print [97; 98])); (1%nat, Some (Print [99; 100]))] ++
  turns (replicate 6 0 ++ replicate 6 1 ++ [0; 1; 1; 0] ++ replicate 3 0 ++ replicate 3 1)%nat ++
  [(2%nat, Some (Get true))] ++ turns (replicate 13 2)%nat ++
  [(2%nat, Some (Get true))] ++ turns (replicate 6 2)%nat.

(** Process 1 sees that the ring is not set up; process 0 sets it up and prints;
    process 1 sets it up. *)
Definition late_setup : list (nat * option op) :=
  [(0%nat, Some Setup); (1%nat, Some Setup)] ++ turns (replicate 4 1 ++ replicate 13 0)%nat ++
  [(0%nat, Some (Print [97; 98]))] ++ turns (replicate 11 0 ++ replicate 9 1)%nat ++
  [(0%nat, Some (Get true))] ++ turns (replicate 6 0)%nat.
End ThreadsSim.

(** ** Properties *)

(** (C7) Any number of processes set up, print and read a ring at the same time,
    beginning with a segment of zeros or a ring that is set up: with the same
    sizes, any number of slots, and room for them, no process divides by zero,
    or reads or writes outside of the ring, whatever the interleaving, and its
    indices stay in range. Setting up and printing return [OSAL_OK], and a
    message that is returned with [OSAL_OK] is as long as a slot. *)
Theorem ring_threads_in_bounds opened found text_messages text_size n sz r s :
  0 < n < 2 ^ 32 → 0 ≤ sz ≤ LIBOSAL_IO_SHM_MAX_MSG_SIZE → ring_ok n sz r → (∀ t, ready n sz t r) →
  rtc (tstep access enabled (ring_call opened found text_messages text_size n sz) ring_start) (mk_threads r ∅ []) s →
  ¬ faulty access enabled s ∧ ring_ok n sz (memory s) ∧
  (∀ t ret, Return t (Finished ret) ∈ history s → ret = OSAL_OK) ∧
  (∀ t msg, Return t (Got OSAL_OK msg) ∈ history s → length msg = Z.to_nat sz).
Proof.
  intros Hn Hsz Hr Hready Hsteps.
  destruct (sound_reachable access enabled (ring_call opened found text_messages text_size n sz) ring_start
    (ring_ok n sz) (rely_ring n sz) (ready n sz) (ready_ring_stable n sz) (good_answer sz))
    with (r := r) (s := s) as (Hs & Hh & Hf); [|done..|].
  - intros t c r1 r2. by apply ring_call_sound.
  - split; [done|]. split; [done|]. split; intros t x Hx; apply Hh in Hx; [done|by apply Hx].
Qed.

(** The processes of [late_setup], from a segment of zeros. *)
Lemma ring_threads_in_bounds_witness :
  ∃ s, rtc (tstep access enabled ThreadsSim.call ring_start) (mk_threads (ThreadsSim.page 4) ∅ []) s ∧
    length (history s) = 8%nat ∧ ¬ faulty access enabled s.
Proof.
  eexists. assert (ThreadsSim.run ThreadsSim.late_setup (ThreadsSim.page 4) = Some _) as Hs by (vm_compute; reflexivity).
  apply tschedule_reachable in Hs. split; [exact Hs|]. split; [reflexivity|].
  refine (proj1 (ring_threads_in_bounds [] [] (λ _, []) (λ _, []) 2 2 (ThreadsSim.page 4) _ _ _ _ _ Hs));
    [done|unfold LIBOSAL_IO_SHM_MAX_MSG_SIZE; lia|by split_and!|].
  intros t Ht. by apply elem_of_empty in Ht.
Defined.

(** Nothing keeps two processes from printing to the same slot: both calls
    succeed, the reading process gets a message that neither has printed, and
    then there is no other one. *)
Theorem ring_two_printers_torn :
  ∃ s, rtc (tstep access enabled ThreadsSim.call ring_start) (mk_threads ThreadsSim.ring2 ∅ []) s ∧
    history s = [Invoke 0 (Print [97; 98]); Invoke 1 (Print [99; 100]);
      Return 0 (Finished OSAL_OK); Return 1 (Finished OSAL_OK);
      Invoke 2 (Get true); Return 2 (Got OSAL_OK [99; 98]);
      Invoke 2 (Get true); Return 2 (Got OSAL_ERR_UNAVAILABLE [])].
Proof.
  eexists. assert (ThreadsSim.run ThreadsSim.two_printers ThreadsSim.ring2 = Some _) as Hs by (vm_compute; reflexivity).
  apply tschedule_reachable in Hs. split; [exact Hs|]. vm_compute. reflexivity.
Qed.

(** Nothing keeps two processes from setting the ring up: the later one empties
    it, and the message that process 0 has printed, with [OSAL_OK], is gone. *)
Theorem ring_late_setup_loses :
  ∃ s, rtc (tstep access enabled ThreadsSim.call ring_start) (mk_threads (ThreadsSim.page 4) ∅ []) s ∧
    history s = [Invoke 0 Setup; Invoke 1 Setup; Return 0 (Finished OSAL_OK); Invoke 0 (Print [97; 98]);
      Return 0 (Finished OSAL_OK); Return 1 (Finished OSAL_OK);
      Invoke 0 (Get true); Return 0 (Got OSAL_ERR_UNAVAILABLE [])].
Proof.
  eexists. assert (ThreadsSim.run ThreadsSim.late_setup (ThreadsSim.page 4) = Some _) as Hs by (vm_compute; reflexivity).
  apply tschedule_reachable in Hs. split; [exact Hs|]. vm_compute. reflexivity.
Qed.
