(* ===== verification/IoShmModels.v ===== *)
(** * One ring, three models: src/io.c

    IoShm has the functions as a whole, IoShmShared has them access by access
    for one printing and one reading process, with the sizes of the ring fixed,
    and IoShmThreads for any number of processes, which read the sizes from the
    ring. Not interrupted, a process does the same in all of them. *)

From S2P Require Import Prelude Osal Timer BinarySemaphore IoShm Programs Threads IoShmThreads IoShmShared.
Open Scope list_scope.

(** The access that is meant in the other model. *)
Definition embed (e : IoShmShared.event) : IoShmThreads.event :=
  match e with
  | ReadPrinted => IoShmThreads.ReadPrinted
  | WritePrinted v => IoShmThreads.WritePrinted v
  | ReadWritten => IoShmThreads.ReadWritten
  | WriteWritten v => IoShmThreads.WriteWritten v
  | ReadByte off => IoShmThreads.ReadByte off
  | WriteByte off v => IoShmThreads.WriteByte off v
  | SemPost => IoShmThreads.SemPost
  | SemTimedwait => IoShmThreads.SemTimedwait
  end.

(** ** Programs that do the same *)
Section same.
Context (t : nat) (mp : gset nat) (n sz : Z).
Implicit Types (b : osal_io_shm_t).

Definition same_size b : Prop := max_messages b = n ∧ max_message_size b = sz.

(** What the program of IoShmShared leaves, in the memory of IoShmThreads. *)
Definition placed {A} (x : A * osal_io_shm_t) : A * shared := (x.1, mk_shared x.2 mp).

Definition same {A} (p : IoShmThreads.prog A) (q : IoShmShared.prog A) : Prop :=
  ∀ b, same_size b → Programs.run (IoShmThreads.access t) p (mk_shared b mp) = placed <$> run q b.

Lemma access_size e b x b' : access e b = Some (x, b') → same_size b → same_size b'.
Proof.
  destruct e; simpl; try by intros [= _ <-].
  - by destruct (msgs b !! _) as [v|]; intros [= _ <-].
  - by case_guard; intros [= _ <-].
Qed.

Lemma run_size {A} (q : IoShmShared.prog A) b x b' : run q b = Some (x, b') → same_size b → same_size b'.
Proof.
  revert b. induction q as [a|e k IH| |]; simpl; intros b Hq Hb; [by injection Hq as _ <-| |done..].
  destruct (access e b) as [[v b1]|] eqn:He; [|done]. simpl in Hq. eapply IH; [exact Hq|by eapply access_size].
Qed.

Lemma same_ret {A} (x : A) : same (mret x) (mret x).
Proof. by intros b _. Qed.

Lemma same_bind {A B} p q (f : A → IoShmThreads.prog B) (g : A → IoShmShared.prog B) :
  same p q → (∀ x, same (f x) (g x)) → same (p ≫= f) (q ≫= g).
Proof.
  intros Hpq Hfg b Hb. rewrite !run_bind, (Hpq b Hb). destruct (run q b) as [[x b']|] eqn:Hq; [|done].
  simpl. apply Hfg. by eapply run_size.
Qed.

Lemma same_emit e : same (emit (embed e)) (emit e).
Proof.
  intros [m n1 s w p q ms] _. destruct e; simpl; try done.
  - unfold IoShmThreads.access. cbn [ring msgs]. by destruct (ms !! Z.to_nat off).
  - unfold IoShmThreads.access. cbn [ring msgs]. by destruct (guard (Z.to_nat off < length ms)%nat).
Qed.

(** An access of both, and a reading of the sizes. *)
Lemma same_access {B} e (f : Z → IoShmThreads.prog B) g :
  (∀ x, same (f x) (g x)) → same (emit (embed e) ≫= f) (emit e ≫= g).
Proof. intros Hfg. apply same_bind; [apply same_emit|done]. Qed.

Lemma same_messages {B} (f : Z → IoShmThreads.prog B) q : same (f n) q → same (emit IoShmThreads.ReadMaxMessages ≫= f) q.
Proof. intros Hf [m n1 s w p k ms] [Hn Hs]. simpl in *. subst. by apply Hf. Qed.

Lemma same_sizes {B} (f : Z → IoShmThreads.prog B) q : same (f sz) q → same (emit IoShmThreads.ReadMaxMessageSize ≫= f) q.
Proof. intros Hf [m n1 s w p k ms] [Hn Hs]. simpl in *. subst. by apply Hf. Qed.

(** *** The parts of the functions *)
Context (Hn : n ≠ 0).

Lemma same_next_index {B} v (f : Z → IoShmThreads.prog B) q :
  same (f (Shared.next_index n v)) q → same (IoShmThreads.Shared.next_index v ≫= f) q.
Proof.
  intros Hf. unfold IoShmThreads.Shared.next_index. apply same_messages. by rewrite (proj2 (Z.eqb_neq _ _) Hn).
Qed.

Lemma same_slot_offset {B} i (f : Z → IoShmThreads.prog B) q :
  same (f (u64 (i * sz))) q → same (IoShmThreads.Shared.slot_offset i ≫= f) q.
Proof. intros Hf. unfold IoShmThreads.Shared.slot_offset. by apply same_sizes. Qed.

Lemma same_write_bytes off bs : same (IoShmThreads.Shared.write_bytes off bs) (Shared.write_bytes off bs).
Proof.
  revert off. induction bs as [|b bs IH]; intros off; [apply same_ret|]. simpl.
  apply (same_access (WriteByte off b)). intros _. apply IH.
Qed.

Lemma same_read_bytes off k : same (IoShmThreads.Shared.read_bytes off k) (Shared.read_bytes off k).
Proof.
  revert off. induction k as [|k IH]; intros off; [apply same_ret|].
  apply (same_access (ReadByte off)). intros b. destruct (b =? 0); [apply same_ret|].
  apply same_bind; [apply IH|]. intros bs. apply same_ret.
Qed.

(** *** The functions *)
Lemma same_print buf : same (IoShmThreads.Shared.print_ring buf) (Shared.osal_printf n sz buf).
Proof.
  apply (same_access ReadWritten). intros w. apply same_next_index, same_slot_offset.
  apply (same_access ReadPrinted). intros p. apply same_bind.
  { destruct (_ =? p); [|apply same_ret]. apply (same_access ReadPrinted). intros p1. apply same_next_index.
    apply (same_access (WritePrinted _)). intros _. apply same_ret. }
  intros _. apply same_sizes, same_bind; [apply same_write_bytes|]. intros _.
  apply (same_access (WriteWritten _)). intros _. apply (same_access SemPost). intros _. apply same_ret.
Qed.

Lemma same_get to : same (IoShmThreads.Shared.osal_io_shm_get_message to) (Shared.osal_io_shm_get_message n sz to).
Proof.
  apply (same_access ReadPrinted). intros p. apply (same_access ReadWritten). intros w. apply same_bind.
  { destruct (p =? w), to; try apply same_ret. apply (same_access SemTimedwait). intros _. apply same_ret. }
  intros _. apply (same_access ReadPrinted). intros p1. apply (same_access ReadWritten). intros w1.
  destruct (negb _); [|apply same_ret]. apply (same_access ReadPrinted). intros p2. apply same_next_index.
  apply (same_access (WritePrinted _)). intros _. apply (same_access ReadPrinted). intros p3.
  apply same_slot_offset, same_sizes, same_bind; [apply same_read_bytes|]. intros msg. apply same_ret.
Qed.

(** A process that has mapped the ring prints into it. *)
Lemma same_printf text :
  t ∈ mp → same (IoShmThreads.Shared.osal_printf text) (Shared.osal_printf n sz (take 529 text ++ [0])).
Proof.
  intros Ht [m n1 s w p q ms] Hb. unfold IoShmThreads.Shared.osal_printf. simpl. rewrite decide_True by done.
  by apply same_print.
Qed.
End same.

(** ** The models agree *)

(** The three models of the ring agree: on a ring that represents a queue, a
    process that is not interrupted does to it, access by access, with the sizes
    fixed (IoShmShared) or read from the ring (IoShmThreads), what [osal_printf]
    and [osal_io_shm_get_message] of IoShm do as a whole, and returns the same. *)
Lemma ring_models_agree {E} `{!IoEnv E, !IoLaws E} l (w : io E) r q fmt args t mp :
  osal_io_shm_buffer w = Some l → regions w !! l = Some r → ring_rep r q → t ∈ mp →
  let n := max_messages r in
  let sz := max_message_size r in
  wp (IoShm.osal_printf (Some fmt) args) (λ ret w', ∃ r', regions w' !! l = Some r' ∧
    run (IoShmShared.Shared.osal_printf n sz (printf_buf fmt args)) r = Some (ret, r') ∧
    Programs.run (IoShmThreads.access t) (IoShmThreads.Shared.osal_printf (vtext fmt args)) (mk_shared r mp) =
      Some (placed mp (ret, r'))) w ∧
  ∀ m q' to msg, q = m :: q' → length msg = 512%nat →
  wp (IoShm.osal_io_shm_get_message msg to) (λ x w', ∃ r' got, regions w' !! l = Some r' ∧
    run (IoShmShared.Shared.osal_io_shm_get_message n sz (bool_decide (is_Some to))) r = Some ((x.1, got), r') ∧
    Programs.run (IoShmThreads.access t) (IoShmThreads.Shared.osal_io_shm_get_message (bool_decide (is_Some to)))
      (mk_shared r mp) = Some (placed mp ((x.1, got), r')) ∧
    x.2 = got ++ drop (Z.to_nat sz) msg) w.
Proof.
  intros Hb Hr Hrep Ht n sz. destruct (shared_sequential l w r q fmt args Hb Hr Hrep) as [Hprint Hget].
  assert (n ≠ 0) as Hn by (destruct Hrep as ((? & _) & _); unfold n; lia). subst n sz. split.
  - eapply wp_mono; [exact Hprint|]. intros ret w' (r' & Hr' & Hrun). exists r'. split; [done|]. split; [done|].
    rewrite (same_printf t mp _ _ Hn (vtext fmt args) Ht r (conj eq_refl eq_refl)).
    change (take 529 (vtext fmt args) ++ [0]) with (printf_buf fmt args). by rewrite Hrun.
  - intros m q' to msg Hq Hmsg. eapply wp_mono; [by apply (Hget m q' to msg)|].
    intros x w' (r' & Hr' & got & Hrun & Hx). exists r', got. split; [done|]. split; [done|]. split; [|done].
    by rewrite (same_get t mp _ _ Hn _ r (conj eq_refl eq_refl)), Hrun.
Qed.
