(* ===== verification/PosixBinarySemaphore.v ===== *)
(** * The POSIX binary semaphore: src/posix/binary_semaphore.c

    A flag guarded by a mutex, with a condition variable for its waiters. The C
    functions are translated once, to trees of the primitive operations they
    perform ([prog]), and the trees are given two semantics: [alone], one thread
    between whose calls nothing happens, which implements the interface the
    tracer uses; and [step], any number of threads interleaved at every
    primitive, with spurious wake-ups and time-outs, for which the semaphore is
    shown to be linearizable and to lose no wake-up. A loop takes fuel; the
    theorems about interleavings hold for every fuel, each call having its own. *)

From S2P Require Import Prelude Osal Timer BinarySemaphore Programs.

(** ** Programs *)

Inductive libcall : Type :=
  | CondattrInit
  | CondattrSetclock (clock : Z)
  | MutexattrInit
  | MutexattrSetprotocol (protocol : Z)
  | MutexInit
  | CondInit
  | MutexDestroy
  | CondDestroy.

(** What the functions do to [*sem] and ask of the threads library. Each event
    answers with an [int]. *)
Inductive event : Type :=
  | MutexLock
  | MutexUnlock
  | CondSignal
  | CondWait
  | CondTimedwait (ts : timespec)
  | ReadValue
  | WriteValue (v : Z)
  | GetClockSource
  | LibCall (c : libcall).

Abbreviation prog := (Programs.prog event).

Definition p_assert_ptr (p : option loc) : prog unit :=
  match p with Some _ => Done tt | None => AssertFailed end.

Definition PTHREAD_PRIO_INHERIT : Z := 1.

(** The functions, under their names. *)
Module Posix.
Definition osal_binary_semaphore_init (sem : option loc) : prog Z :=
  _ ← p_assert_ptr sem;
  _ ← emit (WriteValue 0);
  _ ← emit (LibCall CondattrInit);
  id ← emit GetClockSource;
  _ ← emit (LibCall (CondattrSetclock id));
  _ ← emit (LibCall MutexattrInit);
  _ ← emit (LibCall (MutexattrSetprotocol PTHREAD_PRIO_INHERIT));
  _ ← emit (LibCall MutexInit);
  _ ← emit (LibCall CondInit);
  mret OSAL_OK.

Definition osal_binary_semaphore_post (sem : option loc) : prog Z :=
  _ ← p_assert_ptr sem;
  _ ← emit MutexLock;
  v ← emit ReadValue;
  _ ← (if v =? 0 then _ ← emit (WriteValue 1); _ ← emit CondSignal; mret tt else mret tt);
  _ ← emit MutexUnlock;
  mret OSAL_OK.

Definition osal_binary_semaphore_wait (fuel : nat) (sem : option loc) : prog Z :=
  _ ← p_assert_ptr sem;
  _ ← emit MutexLock;
  _ ← ploop fuel (v ← emit ReadValue;
                  if v =? 0 then _ ← emit CondWait; mret None else mret (Some tt));
  _ ← emit (WriteValue 0);
  _ ← emit MutexUnlock;
  mret OSAL_OK.

Definition osal_binary_semaphore_trywait (sem : option loc) : prog Z :=
  _ ← p_assert_ptr sem;
  _ ← emit MutexLock;
  v ← emit ReadValue;
  ret ← (if v =? 0 then mret OSAL_ERR_BUSY else _ ← emit (WriteValue 0); mret OSAL_OK);
  _ ← emit MutexUnlock;
  mret ret.

Definition osal_binary_semaphore_timedwait (fuel : nat) (sem : option loc) (to : option osal_timer) : prog Z :=
  _ ← p_assert_ptr sem;
  match to with
  | Some to =>
      let ts := mk_timespec (s64 (sec to)) (s64 (nsec to)) in
      _ ← emit MutexLock;
      ret ← ploop fuel (v ← emit ReadValue;
                        if v =? 0 then
                          local_ret ← emit (CondTimedwait ts);
                          mret (if local_ret =? ETIMEDOUT then Some OSAL_ERR_TIMEOUT else None)
                        else mret (Some OSAL_OK));
      _ ← (if ret =? OSAL_OK then _ ← emit (WriteValue 0); mret tt else mret tt);
      _ ← emit MutexUnlock;
      mret ret
  | None =>
      v ← emit ReadValue;
      mret (if v =? 0 then OSAL_ERR_TIMEOUT else OSAL_OK)
  end.

Definition osal_binary_semaphore_destroy (sem : option loc) : prog Z :=
  _ ← p_assert_ptr sem;
  _ ← emit (LibCall MutexDestroy);
  _ ← emit (LibCall CondDestroy);
  mret OSAL_OK.
End Posix.

(** ** One thread alone

    The world is the value of each semaphore and the clock. Waiting for a
    condition nobody signals blocks for ever, or until the time-out; a time-out
    with a nanosecond part out of range is refused, as POSIX says. *)
Record sems : Type := mk_sems { values : gmap loc Z; clock_source : Z }.

Definition answer (l : loc) (e : event) : C sems Z :=
  match e with
  | ReadValue => λ w, match values w !! l with Some v => Ret v w | None => Undef end
  | WriteValue v => λ w, Ret 0 (mk_sems (<[l := v]> (values w)) (clock_source w))
  | GetClockSource => λ w, Ret (clock_source w) w
  | CondWait => no_return
  | CondTimedwait ts =>
      mret (if (tv_nsec ts <? 0) || (NSEC_PER_SEC <=? tv_nsec ts) then EINVAL else ETIMEDOUT)
  | _ => mret 0
  end.

Fixpoint alone {A} (l : loc) (p : prog A) : C sems A :=
  match p with
  | Done a => mret a
  | Vis e k => r ← answer l e; alone l (k r)
  | AssertFailed => aborts
  | OutOfFuel => no_return
  end.

(** A call on the object [sem] points to. *)
Definition on (sem : option loc) (p : option loc → prog Z) : C sems Z :=
  alone (default 1%positive sem) (p sem).

#[export] Instance posix_binary_semaphore : BinarySemaphore sems := {|
  osal_binary_semaphore_init sem := on sem Posix.osal_binary_semaphore_init;
  osal_binary_semaphore_post sem := on sem Posix.osal_binary_semaphore_post;
  osal_binary_semaphore_trywait sem := on sem Posix.osal_binary_semaphore_trywait;
  osal_binary_semaphore_timedwait sem to := on sem (λ s, Posix.osal_binary_semaphore_timedwait 1 s to);
|}.

(** ** Threads *)

Abbreviation tid := positive.

Inductive op : Type :=
  | Post
  | Wait
  | Trywait
  | Timedwait (to : option osal_timer).

(** What a thread runs when it calls [o] on the semaphore at [l]. *)
Definition call (l : loc) (o : op) (fuel : nat) : prog Z :=
  match o with
  | Post => Posix.osal_binary_semaphore_post (Some l)
  | Wait => Posix.osal_binary_semaphore_wait fuel (Some l)
  | Trywait => Posix.osal_binary_semaphore_trywait (Some l)
  | Timedwait to => Posix.osal_binary_semaphore_timedwait fuel (Some l) to
  end.

(** A thread runs, or sleeps on the condition, or has left it with the answer
    [ret] and has to take the mutex again. *)
Inductive thread : Type :=
  | Run (p : prog Z)
  | Asleep (timed : bool) (k : Z → prog Z)
  | Woken (ret : Z) (k : Z → prog Z).

(** [hist] lists the calls that have left their critical section, with their
    results. *)
Record state : Type := mk_state {
  value : Z;
  owner : option tid;
  pool : gmap tid (op * thread);
  hist : list (tid * op * Z);
}.

Definition initial : state := mk_state 0 None ∅ [].

Definition set_thread (t : tid) (o : op) (c : thread) (s : state) : state :=
  mk_state (value s) (owner s) (<[t := (o, c)]> (pool s)) (hist s).

Definition set_owner (ow : option tid) (s : state) : state :=
  mk_state (value s) ow (pool s) (hist s).

Definition set_value (v : Z) (s : state) : state :=
  mk_state v (owner s) (pool s) (hist s).

(** The entry of a call whose remaining program is [p] when it unlocks. *)
Definition entry (t : tid) (o : op) (p : prog Z) : list (tid * op * Z) :=
  match p with Done r => [(t, o, r)] | _ => [] end.

Definition log (e : list (tid * op * Z)) (s : state) : state :=
  mk_state (value s) (owner s) (pool s) (hist s ++ e).

Inductive step (l : loc) : state → state → Prop :=
  | step_call s t o fuel :
      (pool s !! t = None ∨ ∃ o' r, pool s !! t = Some (o', Run (Done r))) →
      step l s (set_thread t o (Run (call l o fuel)) s)
  | step_lock s t o k :
      pool s !! t = Some (o, Run (Vis MutexLock k)) → owner s = None →
      step l s (set_owner (Some t) (set_thread t o (Run (k 0)) s))
  | step_unlock s t o k :
      pool s !! t = Some (o, Run (Vis MutexUnlock k)) → owner s = Some t →
      step l s (log (entry t o (k 0)) (set_owner None (set_thread t o (Run (k 0)) s)))
  | step_read s t o k :
      pool s !! t = Some (o, Run (Vis ReadValue k)) →
      step l s (set_thread t o (Run (k (value s))) s)
  | step_write s t o v k :
      pool s !! t = Some (o, Run (Vis (WriteValue v) k)) →
      step l s (set_value v (set_thread t o (Run (k 0)) s))
  | step_signal_none s t o k :
      pool s !! t = Some (o, Run (Vis CondSignal k)) →
      (∀ t' o' b k', pool s !! t' ≠ Some (o', Asleep b k')) →
      step l s (set_thread t o (Run (k 0)) s)
  | step_signal s t o k t' o' b k' :
      pool s !! t = Some (o, Run (Vis CondSignal k)) →
      pool s !! t' = Some (o', Asleep b k') →
      step l s (set_thread t o (Run (k 0)) (set_thread t' o' (Woken 0 k') s))
  | step_wait s t o k :
      pool s !! t = Some (o, Run (Vis CondWait k)) → owner s = Some t →
      step l s (set_owner None (set_thread t o (Asleep false k) s))
  | step_timedwait s t o ts k :
      pool s !! t = Some (o, Run (Vis (CondTimedwait ts) k)) → owner s = Some t →
      step l s (set_owner None (set_thread t o (Asleep true k) s))
  | step_timedwait_error s t o ts k ret :
      pool s !! t = Some (o, Run (Vis (CondTimedwait ts) k)) → owner s = Some t →
      ret ≠ 0 → ret ≠ ETIMEDOUT →
      step l s (set_thread t o (Run (k ret)) s)
  | step_spurious s t o b k :
      pool s !! t = Some (o, Asleep b k) →
      step l s (set_thread t o (Woken 0 k) s)
  | step_timeout s t o k :
      pool s !! t = Some (o, Asleep true k) →
      step l s (set_thread t o (Woken ETIMEDOUT k) s)
  | step_reacquire s t o ret k :
      pool s !! t = Some (o, Woken ret k) → owner s = None →
      step l s (set_owner (Some t) (set_thread t o (Run (k ret)) s)).

Definition reachable (l : loc) : state → Prop := rtc (step l) initial.

(** *** A scheduler

    [exec m s] makes the move [m] if the thread can make it in [s]. *)
Inductive move : Type :=
  | MCall (o : op) (fuel : nat)
  | MRun
  | MSignal (t' : tid)
  | MError (ret : Z)
  | MSpurious
  | MTimeout
  | MReacquire.

Definition is_asleep (c : op * thread) : bool := match c.2 with Asleep _ _ => true | _ => false end.

Definition exec (l : loc) (tm : tid * move) (s : state) : option state :=
  let t := tm.1 in
  match tm.2, pool s !! t with
  | MCall o fuel, None => Some (set_thread t o (Run (call l o fuel)) s)
  | MCall o fuel, Some (_, Run (Done _)) => Some (set_thread t o (Run (call l o fuel)) s)
  | MRun, Some (o, Run (Vis e k)) =>
      match e with
      | MutexLock =>
          match owner s with
          | None => Some (set_owner (Some t) (set_thread t o (Run (k 0)) s))
          | Some _ => None end
      | MutexUnlock =>
          if decide (owner s = Some t)
          then Some (log (entry t o (k 0)) (set_owner None (set_thread t o (Run (k 0)) s))) else None
      | ReadValue => Some (set_thread t o (Run (k (value s))) s)
      | WriteValue v => Some (set_value v (set_thread t o (Run (k 0)) s))
      | CondSignal =>
          if decide (map_Forall (λ _ c, is_asleep c = false) (pool s))
          then Some (set_thread t o (Run (k 0)) s) else None
      | CondWait =>
          if decide (owner s = Some t) then Some (set_owner None (set_thread t o (Asleep false k) s)) else None
      | CondTimedwait _ =>
          if decide (owner s = Some t) then Some (set_owner None (set_thread t o (Asleep true k) s)) else None
      | GetClockSource | LibCall _ => None
      end
  | MSignal t', Some (o, Run (Vis CondSignal k)) =>
      match pool s !! t' with
      | Some (o', Asleep b k') => Some (set_thread t o (Run (k 0)) (set_thread t' o' (Woken 0 k') s))
      | _ => None end
  | MError ret, Some (o, Run (Vis (CondTimedwait _) k)) =>
      if decide (owner s = Some t ∧ ret ≠ 0 ∧ ret ≠ ETIMEDOUT)
      then Some (set_thread t o (Run (k ret)) s) else None
  | MSpurious, Some (o, Asleep _ k) => Some (set_thread t o (Woken 0 k) s)
  | MTimeout, Some (o, Asleep true k) => Some (set_thread t o (Woken ETIMEDOUT k) s)
  | MReacquire, Some (o, Woken ret k) =>
      match owner s with
      | None => Some (set_owner (Some t) (set_thread t o (Run (k ret)) s))
      | Some _ => None end
  | _, _ => None
  end.

Fixpoint schedule (l : loc) (ms : list (tid * move)) (s : state) : option state :=
  match ms with
  | [] => Some s
  | m :: ms => s' ← exec l m s; schedule l ms s'
  end.

(** ** Specification: an atomic binary semaphore

    [abs_op o v r v']: the operation [o] may take the flag from [v] to [v'] and
    return [r]. *)
Definition abs_op (o : op) (v r v' : Z) : Prop :=
  match o with
  | Post => r = OSAL_OK ∧ v' = 1
  | Wait => v = 1 ∧ r = OSAL_OK ∧ v' = 0
  | Trywait => (v = 1 ∧ r = OSAL_OK ∧ v' = 0) ∨ (v = 0 ∧ r = OSAL_ERR_BUSY ∧ v' = 0)
  | Timedwait _ => (v = 1 ∧ r = OSAL_OK ∧ v' = 0) ∨ (r = OSAL_ERR_TIMEOUT ∧ v' = v)
  end.

(** Performing the calls of a history one after the other. *)
Inductive abs_run (v0 : Z) : list (tid * op * Z) → Z → Prop :=
  | abs_nil : abs_run v0 [] v0
  | abs_snoc h t o r v v' :
      abs_run v0 h v → abs_op o v r v' → abs_run v0 (h ++ [(t, o, r)]) v'.

Definition is_post (e : tid * op * Z) : bool := match e.1.2 with Post => true | _ => false end.
Definition is_taken (e : tid * op * Z) : bool :=
  match e.1.2 with Post => false | _ => e.2 =? OSAL_OK end.

(** ** The invariant

    [crit o a v p]: a thread that performs [o], holds the mutex and has the
    program [p] left, the flag being [v], ends its critical section as the
    abstract operation does from the flag [a]. [signals v p]: when [p] leaves the
    critical section it enters with the flag at [v], the flag is down or a
    waiter has been signalled. *)
Fixpoint signals (v : Z) (p : prog Z) : Prop :=
  match p with
  | Vis ReadValue k => signals v (k v)
  | Vis (WriteValue x) k => signals x (k 0)
  | Vis CondSignal _ => True
  | Vis _ _ => v = 0
  | _ => True
  end.

Definition flag (v : Z) : Prop := v = 0 ∨ v = 1.

Fixpoint crit (o : op) (a v : Z) (p : prog Z) : Prop :=
  match p with
  | Vis ReadValue k => crit o a v (k v)
  | Vis (WriteValue x) k => flag x ∧ crit o a x (k 0) ∧ (v ≠ 1 → x = 1 → signals x (k 0))
  | Vis CondSignal k => crit o a v (k 0)
  | Vis MutexUnlock k => ∃ r, k 0 = Done r ∧ abs_op o a r v
  | Vis CondWait k =>
      v = 0 ∧ a = v ∧ ∀ ret a', flag a' → crit o a' a' (k ret) ∧ (ret = 0 → signals a' (k ret))
  | Vis (CondTimedwait _) k =>
      v = 0 ∧ a = v ∧ ∀ ret a', flag a' → crit o a' a' (k ret) ∧ (ret = 0 → signals a' (k ret))
  | OutOfFuel => True
  | _ => False
  end.

(** A thread that does not hold the mutex. *)
Fixpoint outside (o : op) (p : prog Z) : Prop :=
  match p with
  | Vis MutexLock k => ∀ a, flag a → crit o a a (k 0)
  | Vis ReadValue k => o = Timedwait None ∧ ∀ v, outside o (k v)
  | Done _ => True
  | _ => False
  end.

(** A thread that waits for the condition. *)
Definition waits (o : op) (k : Z → prog Z) : Prop :=
  ∀ ret a, flag a → crit o a a (k ret) ∧ (ret = 0 → signals a (k ret)).

Definition thread_ok (s : state) (t : tid) (o : op) (c : thread) : Prop :=
  match c with
  | Run p =>
      if decide (owner s = Some t) then ∃ a, abs_run 0 (hist s) a ∧ crit o a (value s) p
      else outside o p
  | Asleep _ k | Woken _ k => owner s ≠ Some t ∧ waits o k
  end.

Definition someone_asleep (s : state) : Prop :=
  ∃ t o b k, pool s !! t = Some (o, Asleep b k).
Definition someone_woken (s : state) : Prop :=
  ∃ t o k, pool s !! t = Some (o, Woken 0 k).
Definition owner_signals (s : state) : Prop :=
  ∃ t o p, owner s = Some t ∧ pool s !! t = Some (o, Run p) ∧ signals (value s) p.

Record invariant (s : state) : Prop := {
  inv_flag : flag (value s);
  inv_threads : ∀ t o c, pool s !! t = Some (o, c) → thread_ok s t o c;
  inv_free : owner s = None → abs_run 0 (hist s) (value s);
  inv_owner : ∀ t, owner s = Some t → ∃ o p, pool s !! t = Some (o, Run p);
  inv_wake : value s = 1 → someone_asleep s → someone_woken s ∨ owner_signals s;
}.

(** *** The functions keep to it *)

Lemma crit_wait_loop o a fuel f :
  flag a → (∀ a, flag a → a ≠ 0 → crit o a a (f tt)) →
  (∀ a, flag a → a ≠ 0 → signals a (f tt)) →
  let loop := prog_bind f (ploop fuel (v ← emit ReadValue;
                  if v =? 0 then _ ← emit CondWait; mret None else mret (Some tt))) in
  crit o a a loop ∧ signals a loop.
Proof.
  intros Ha Hf Hs. revert a Ha. induction fuel as [|n IH]; intros a Ha; simpl; [done|].
  destruct (Z.eqb_spec a 0) as [->|Ha0]; simpl; [|by auto].
  split; [|done]. split; [done|]. split; [done|]. intros ret a' Ha'. by split; [apply IH|intros _; apply IH].
Qed.

Lemma crit_timedwait_loop o a ts fuel f :
  flag a → (∀ a, flag a → a ≠ 0 → crit o a a (f OSAL_OK)) →
  (∀ a, flag a → a ≠ 0 → signals a (f OSAL_OK)) →
  (∀ a, flag a → crit o a a (f OSAL_ERR_TIMEOUT)) →
  let loop := prog_bind f (ploop fuel (v ← emit ReadValue;
                        if v =? 0 then
                          local_ret ← emit (CondTimedwait ts);
                          mret (if local_ret =? ETIMEDOUT then Some OSAL_ERR_TIMEOUT else None)
                        else mret (Some OSAL_OK))) in
  crit o a a loop ∧ signals a loop.
Proof.
  intros Ha Hf Hs Ht. revert a Ha. induction fuel as [|n IH]; intros a Ha; simpl; [done|].
  destruct (Z.eqb_spec a 0) as [->|Ha0]; simpl; [|by auto].
  split; [|done]. split; [done|]. split; [done|]. intros ret a' Ha'.
  destruct (Z.eqb_spec ret ETIMEDOUT) as [->|]; simpl; [by split; [apply Ht|]|].
  by split; [apply IH|intros _; apply IH].
Qed.

Lemma call_outside l o fuel : outside o (call l o fuel).
Proof.
  destruct o as [| | |[to|]]; simpl.
  - intros a [-> | ->]; simpl; unfold flag; naive_solver.
  - intros a Ha. apply crit_wait_loop; [done| |].
    + intros a' [-> | ->]; simpl; unfold flag; naive_solver lia.
    + intros a' _ _. done.
  - intros a [-> | ->]; simpl; unfold flag; naive_solver.
  - intros a Ha. apply crit_timedwait_loop; [done| | |].
    + intros a' [-> | ->]; simpl; unfold flag; naive_solver lia.
    + intros a' _ _. done.
    + intros a' _. simpl. eexists. split; [done|]. by right.
  - done.
Qed.

(** *** Preservation *)

(** A thread is not concerned by what others do while they own the mutex. *)
Lemma thread_ok_other s s' t o c :
  (owner s = Some t ↔ owner s' = Some t) →
  (owner s = Some t → value s' = value s ∧ hist s' = hist s) →
  thread_ok s t o c → thread_ok s' t o c.
Proof.
  intros Hown Hsame. destruct c as [p|b k|ret k]; simpl; [|naive_solver..].
  destruct (decide (owner s = Some t)) as [Ho|Ho], (decide (owner s' = Some t)); [|naive_solver..].
  destruct (Hsame Ho) as [-> ->]. done.
Qed.

(** The invariant after thread [t] has moved to [c]. *)
Lemma invariant_update s s' t o c :
  invariant s → pool s' = <[t := (o, c)]> (pool s) → flag (value s') →
  (∀ t', t' ≠ t → owner s = Some t' ↔ owner s' = Some t') →
  (∀ t', t' ≠ t → owner s = Some t' → value s' = value s ∧ hist s' = hist s) →
  thread_ok s' t o c →
  (owner s' = None → abs_run 0 (hist s') (value s')) →
  (owner s' = Some t → ∃ p, c = Run p) →
  (value s' = 1 → someone_asleep s' → someone_woken s' ∨ owner_signals s') →
  invariant s'.
Proof.
  intros [_ Hthreads _ Howner _] Hpool Hflag Hown Hsame Hok Hfree Hrun Hwake. split; try done.
  - intros t' o' c'. rewrite Hpool. intros [[<- [= <- <-]]|[Hne H]]%lookup_insert_Some; [done|].
    eapply thread_ok_other; [apply Hown|apply Hsame|by apply Hthreads]; done.
  - intros t' Ht'. rewrite Hpool. destruct (decide (t' = t)) as [->|Hne].
    + destruct (Hrun Ht') as [p ->]. exists o, p. apply lookup_insert_eq.
    + apply Hown in Ht'; [|done]. destruct (Howner _ Ht') as (o' & p & H). exists o', p.
      by rewrite lookup_insert_ne.
Qed.

Lemma asleep_update s s' t o c :
  pool s' = <[t := (o, c)]> (pool s) → (∀ b k, c ≠ Asleep b k) → someone_asleep s' → someone_asleep s.
Proof.
  intros Hpool Hc (t' & o' & b & k & H). rewrite Hpool in H.
  apply lookup_insert_Some in H as [[_ [= _ ->]]|[_ H]]; [by destruct (Hc b k)|]. by exists t', o', b, k.
Qed.

Lemma woken_update s s' t o c :
  pool s' = <[t := (o, c)]> (pool s) → (∀ o' k, pool s !! t ≠ Some (o', Woken 0 k)) →
  someone_woken s → someone_woken s'.
Proof.
  intros Hpool Ht (t' & o' & k & H). exists t', o', k. rewrite Hpool.
  destruct (decide (t' = t)) as [->|Hne]; [by destruct (Ht o' k)|]. by rewrite lookup_insert_ne.
Qed.

Lemma owner_update s s' t o c :
  pool s' = <[t := (o, c)]> (pool s) → owner s ≠ Some t → owner s' = owner s → value s' = value s →
  owner_signals s → owner_signals s'.
Proof.
  intros Hpool Ht Hown Hv (t' & o' & p & Ho & Hp & Hs). exists t', o', p.
  rewrite Hown, Hv, Hpool. split; [done|]. split; [|done].
  destruct (decide (t' = t)) as [->|Hne]; [done|]. by rewrite lookup_insert_ne.
Qed.

Lemma owned_run s t o p :
  invariant s → owner s = Some t → pool s !! t = Some (o, Run p) →
  ∃ a, abs_run 0 (hist s) a ∧ crit o a (value s) p.
Proof.
  intros Hinv Ho Hp. pose proof (inv_threads s Hinv _ _ _ Hp) as H. simpl in H.
  by rewrite decide_True in H.
Qed.

Lemma unowned_run s t o p :
  invariant s → owner s ≠ Some t → pool s !! t = Some (o, Run p) → outside o p.
Proof.
  intros Hinv Ho Hp. pose proof (inv_threads s Hinv _ _ _ Hp) as H. simpl in H.
  by rewrite decide_False in H.
Qed.

(** The owner's promise in [inv_wake], read at thread [t]. *)
Lemma owner_signals_run s t o p :
  owner s = Some t → pool s !! t = Some (o, Run p) → owner_signals s → signals (value s) p.
Proof. intros Ho Hp (t' & o' & p' & Ho' & Hp' & H). naive_solver. Qed.

Lemma initial_invariant : invariant initial.
Proof.
  split; simpl.
  - by left.
  - intros t o c. by rewrite lookup_empty.
  - intros _. constructor.
  - done.
  - done.
Qed.

Lemma call_step_invariant l s t o fuel :
  invariant s → (pool s !! t = None ∨ ∃ o' r, pool s !! t = Some (o', Run (Done r))) →
  invariant (set_thread t o (Run (call l o fuel)) s).
Proof.
  intros Hinv Ht.
  assert (owner s ≠ Some t) as Ho.
  { intros Ho. destruct (inv_owner s Hinv t Ho) as (o1 & p & Hp).
    destruct Ht as [Ht|(o' & r & Ht)]; rewrite Hp in Ht; [done|]. injection Ht as -> ->.
    destruct (owned_run s t o' (Done r) Hinv Ho Hp) as (a & _ & []). }
  eapply (invariant_update s _ t); [done..|apply Hinv| | | | | |]; simpl; try done.
  - rewrite decide_False by done. apply call_outside.
  - apply Hinv.
  - intros Hv Has. destruct (inv_wake s Hinv Hv) as [Hw|Hw].
    + by eapply asleep_update; [| |exact Has].
    + left. eapply woken_update; [done| |done]. intros o' k Hk. naive_solver.
    + right. by eapply owner_update.
Qed.

Lemma lock_step_invariant s t o k :
  invariant s → pool s !! t = Some (o, Run (Vis MutexLock k)) → owner s = None →
  invariant (set_owner (Some t) (set_thread t o (Run (k 0)) s)).
Proof.
  intros Hinv Hp Ho.
  pose proof (unowned_run s t o _ Hinv ltac:(by rewrite Ho) Hp) as Hout. simpl in Hout.
  eapply (invariant_update s _ t); [done..|apply Hinv| | | | | |]; simpl; try done.
  - intros t' Hne. rewrite Ho. naive_solver.
  - rewrite decide_True by done. exists (value s). split; [by apply Hinv|]. apply Hout, Hinv.
  - eauto.
  - intros Hv Has. left. destruct (inv_wake s Hinv Hv) as [Hw|(t' & ? & ? & Ht' & _)].
    + by eapply asleep_update; [| |exact Has].
    + eapply woken_update; [done| |done]. intros o' k' Hk. naive_solver.
    + by rewrite Ho in Ht'.
Qed.

Lemma unlock_step_invariant s t o k :
  invariant s → pool s !! t = Some (o, Run (Vis MutexUnlock k)) → owner s = Some t →
  invariant (log (entry t o (k 0)) (set_owner None (set_thread t o (Run (k 0)) s))).
Proof.
  intros Hinv Hp Ho. destruct (owned_run s t o _ Hinv Ho Hp) as (a & Ha & r & Hk & Habs).
  rewrite Hk. eapply (invariant_update s _ t); [done..|apply Hinv| | | | | |]; simpl; try done.
  - intros t' Hne. rewrite Ho. naive_solver.
  - naive_solver.
  - intros _. by econstructor.
  - intros Hv Has. left. destruct (inv_wake s Hinv Hv) as [Hw|Hw].
    + by eapply asleep_update; [| |exact Has].
    + eapply woken_update; [done| |done]. intros o' k' Hk'. naive_solver.
    + apply (owner_signals_run _ _ _ _ Ho Hp) in Hw. simpl in Hw. lia.
Qed.

Lemma read_step_invariant s t o k :
  invariant s → pool s !! t = Some (o, Run (Vis ReadValue k)) →
  invariant (set_thread t o (Run (k (value s))) s).
Proof.
  intros Hinv Hp. eapply (invariant_update s _ t); [done..|apply Hinv| | | | | |]; simpl; try done.
  - pose proof (inv_threads s Hinv _ _ _ Hp) as H. simpl in H. destruct (decide _); [done|]. apply H.
  - apply Hinv.
  - eauto.
  - intros Hv Has. destruct (inv_wake s Hinv Hv) as [Hw|Hw].
    + by eapply asleep_update; [| |exact Has].
    + left. eapply woken_update; [done| |done]. intros o' k' Hk'. naive_solver.
    + right. destruct (decide (owner s = Some t)) as [Ho|Ho]; [|by eapply owner_update].
      apply (owner_signals_run _ _ _ _ Ho Hp) in Hw. exists t, o, (k (value s)). simpl.
      by rewrite lookup_insert_eq.
Qed.

Lemma write_step_invariant s t o v k :
  invariant s → pool s !! t = Some (o, Run (Vis (WriteValue v) k)) →
  invariant (set_value v (set_thread t o (Run (k 0)) s)).
Proof.
  intros Hinv Hp. assert (owner s = Some t) as Ho.
  { destruct (decide (owner s = Some t)) as [|Ho]; [done|]. destruct (unowned_run s t o _ Hinv Ho Hp). }
  destruct (owned_run s t o _ Hinv Ho Hp) as (a & Ha & Hv & Hcrit & Hsig).
  eapply (invariant_update s _ t); [done..| | | | | | |]; simpl; try done.
  - naive_solver.
  - rewrite decide_True by done. eauto.
  - naive_solver.
  - eauto.
  - intros -> Has. assert (someone_woken s ∨ signals 1 (k 0)) as [Hw|Hw].
    { destruct (decide (value s = 1)) as [Hv1|Hv1]; [|by right; apply Hsig].
      destruct (inv_wake s Hinv Hv1) as [Hw|Hw].
      - by eapply asleep_update; [| |exact Has].
      - by left.
      - right. apply (owner_signals_run _ _ _ _ Ho Hp) in Hw. done. }
    + left. eapply woken_update; [done| |done]. intros o' k' Hk'. naive_solver.
    + right. exists t, o, (k 0). simpl. by rewrite lookup_insert_eq.
Qed.

(** Running over a signal. *)
Lemma signal_run_ok s t o k :
  invariant s → pool s !! t = Some (o, Run (Vis CondSignal k)) →
  owner s = Some t ∧ ∃ a, abs_run 0 (hist s) a ∧ crit o a (value s) (k 0).
Proof.
  intros Hinv Hp. destruct (decide (owner s = Some t)) as [Ho|Ho].
  - split; [done|]. by apply (owned_run s t o _ Hinv Ho Hp).
  - destruct (unowned_run s t o _ Hinv Ho Hp).
Qed.

Lemma signal_none_step_invariant s t o k :
  invariant s → pool s !! t = Some (o, Run (Vis CondSignal k)) →
  (∀ t' o' b k', pool s !! t' ≠ Some (o', Asleep b k')) →
  invariant (set_thread t o (Run (k 0)) s).
Proof.
  intros Hinv Hp Hnone. destruct (signal_run_ok s t o k Hinv Hp) as [Ho Hcrit].
  eapply (invariant_update s _ t); [done..|apply Hinv| | | | | |]; simpl; try done.
  - by rewrite decide_True.
  - by rewrite Ho.
  - eauto.
  - intros _ Has. exfalso. eapply asleep_update in Has; [|done|done].
    destruct Has as (t' & o' & b & k' & H). by eapply Hnone.
Qed.

(** A sleeper that leaves the condition. *)
Lemma wake_thread_invariant s t o b k ret :
  invariant s → pool s !! t = Some (o, Asleep b k) →
  (value s = 1 → ret = 0 ∨ someone_woken s ∨ owner_signals s) →
  invariant (set_thread t o (Woken ret k) s).
Proof.
  intros Hinv Hp Hw. destruct (inv_threads s Hinv _ _ _ Hp) as [Ho Hwaits].
  eapply (invariant_update s _ t); [done..|apply Hinv| | | | | |]; simpl; try done.
  - apply Hinv.
  - intros Hv _. destruct (Hw Hv) as [->|[H|H]].
    + left. exists t, o, k. apply lookup_insert_eq.
    + left. eapply woken_update; [done| |done]. intros o' k' Hk'. naive_solver.
    + right. by eapply owner_update.
Qed.

Lemma signal_step_invariant s t o k t' o' b k' :
  invariant s → pool s !! t = Some (o, Run (Vis CondSignal k)) →
  pool s !! t' = Some (o', Asleep b k') →
  invariant (set_thread t o (Run (k 0)) (set_thread t' o' (Woken 0 k') s)).
Proof.
  intros Hinv Hp Hp'. destruct (signal_run_ok s t o k Hinv Hp) as [Ho Hcrit].
  assert (t ≠ t') as Hne by naive_solver.
  assert (invariant (set_thread t' o' (Woken 0 k') s)) as Hinv'.
  { eapply wake_thread_invariant; [done|done|]. by left. }
  eapply (invariant_update _ _ t); [exact Hinv'|done| | | | | | |]; simpl; try done.
  - apply Hinv.
  - by rewrite decide_True.
  - by rewrite Ho.
  - eauto.
  - intros _ _. left. exists t', o', k'. simpl. by rewrite lookup_insert_ne, lookup_insert_eq.
Qed.

(** Giving the mutex up for the condition. *)
Lemma sleep_step_invariant s t o b k :
  invariant s → owner s = Some t → (∃ p, pool s !! t = Some (o, Run p)) →
  value s = 0 → abs_run 0 (hist s) (value s) → waits o k →
  invariant (set_owner None (set_thread t o (Asleep b k) s)).
Proof.
  intros Hinv Ho [p Hp] Hv Hrun Hwaits.
  eapply (invariant_update s _ t); [done..|apply Hinv| | | | | |]; simpl; try done.
  - intros t' Hne. rewrite Ho. naive_solver.
  - rewrite Hv. lia.
Qed.

Lemma reacquire_step_invariant s t o ret k :
  invariant s → pool s !! t = Some (o, Woken ret k) → owner s = None →
  invariant (set_owner (Some t) (set_thread t o (Run (k ret)) s)).
Proof.
  intros Hinv Hp Ho. destruct (inv_threads s Hinv _ _ _ Hp) as [_ Hwaits].
  destruct (Hwaits ret (value s) ltac:(apply Hinv)) as [Hcrit Hsig].
  eapply (invariant_update s _ t); [done..|apply Hinv| | | | | |]; simpl; try done.
  - intros t' Hne. rewrite Ho. naive_solver.
  - rewrite decide_True by done. exists (value s). split; [by apply Hinv|done].
  - eauto.
  - intros Hv Has. destruct (decide (ret = 0)) as [Hret|Hret].
    + right. exists t, o, (k ret). simpl. rewrite lookup_insert_eq. by auto.
    + left. destruct (inv_wake s Hinv Hv) as [Hw|(t' & ? & ? & Ht' & _)].
      * by eapply asleep_update; [| |exact Has].
      * eapply woken_update; [done| |done]. intros o' k' Hk'. naive_solver.
      * by rewrite Ho in Ht'.
Qed.

Lemma step_invariant l s s' : invariant s → step l s s' → invariant s'.
Proof.
  intros Hinv Hstep. destruct Hstep as [s t o fuel Ht|s t o k Hp Ho|s t o k Hp Ho|s t o k Hp|s t o v k Hp
    |s t o k Hp Hn|s t o k t' o' b k' Hp Hp'|s t o k Hp Ho|s t o ts k Hp Ho|s t o ts k ret Hp Ho H0 HT
    |s t o b k Hp|s t o k Hp|s t o ret k Hp Ho].
  - by apply call_step_invariant.
  - by apply lock_step_invariant.
  - by apply unlock_step_invariant.
  - by apply read_step_invariant.
  - by apply write_step_invariant.
  - by apply signal_none_step_invariant.
  - by eapply signal_step_invariant.
  - destruct (owned_run s t o _ Hinv Ho Hp) as (a & Ha & Hv & -> & Hw).
    by eapply sleep_step_invariant; eauto.
  - destruct (owned_run s t o _ Hinv Ho Hp) as (a & Ha & Hv & -> & Hw).
    by eapply sleep_step_invariant; eauto.
  - destruct (owned_run s t o _ Hinv Ho Hp) as (a & Ha & Hv & -> & Hw).
    eapply (invariant_update s _ t); [done..|apply Hinv| | | | | |]; simpl; try done.
    + rewrite decide_True by done. exists (value s). split; [done|]. apply Hw, Hinv.
    + eauto.
    + intros Hv1. lia.
  - eapply wake_thread_invariant; [done|done|by left].
  - pose proof (inv_wake s Hinv) as Hw. eapply wake_thread_invariant; [done..|].
    intros Hv. right. apply Hw; [done|]. by exists t, o, true, k.
  - by apply reacquire_step_invariant.
Qed.

Lemma reachable_invariant l s : reachable l s → invariant s.
Proof.
  intros H. unfold reachable in H. pose proof initial_invariant as H0. revert H0.
  induction H as [s|s1 s2 s3 Hs _ IH]; [done|]. intros H0. apply IH. by eapply step_invariant.
Qed.

(** Along an atomic history the flag never counts more takers than posts. *)
Lemma abs_run_count h v :
  abs_run 0 h v → flag v ∧
  (length (List.filter is_taken h) + Z.to_nat v ≤ length (List.filter is_post h))%nat.
Proof.
  induction 1 as [|h t o r v v' H [Hf IH] Hop]; [by split; [left|]|].
  rewrite !List.filter_app, !length_app. unfold is_taken, is_post in *. simpl.
  assert (OSAL_OK = 0) as HOK by done.
  assert (OSAL_ERR_BUSY = -11) as HB by done. assert (OSAL_ERR_TIMEOUT = -5) as HT by done.
  destruct o; simpl in Hop; unfold flag in *;
    repeat match goal with H : _ ∧ _ |- _ => destruct H | H : _ ∨ _ |- _ => destruct H end;
    subst; simpl; rewrite ?HB, ?HT; simpl; lia.
Qed.

(** The scheduler makes steps. *)
Lemma bs_exec_step l tm s s' : exec l tm s = Some s' → step l s s'.
Proof.
  destruct tm as [t m]. unfold exec. simpl. destruct (pool s !! t) as [[o c]|] eqn:Hp.
  - destruct m as [o' fuel| |t'|ret| | |].
    + destruct c as [[r|e k| |]| |]; try done. intros [= <-]. apply step_call. eauto.
    + destruct c as [[r|e k| |]| |]; try done. destruct e; try done.
      * destruct (owner s) eqn:Ho; [done|]. intros [= <-]. by apply step_lock.
      * destruct (decide _); [|done]. intros [= <-]. by apply step_unlock.
      * destruct (decide _) as [Hall|]; [|done]. intros [= <-]. apply step_signal_none; [done|].
        intros t' o' b k' H. by apply Hall in H.
      * destruct (decide _); [|done]. intros [= <-]. by apply step_wait.
      * destruct (decide _); [|done]. intros [= <-]. by eapply step_timedwait.
      * intros [= <-]. by apply step_read.
      * intros [= <-]. by apply step_write.
    + destruct c as [[r|e k| |]| |]; try done. destruct e; try done.
      destruct (pool s !! t') as [[o' [|b k'|]]|] eqn:Hp'; try done. intros [= <-]. by eapply step_signal.
    + destruct c as [[r|e k| |]| |]; try done. destruct e; try done.
      destruct (decide _) as [(? & ? & ?)|]; [|done]. intros [= <-]. by eapply step_timedwait_error.
    + destruct c; try done. intros [= <-]. by eapply step_spurious.
    + destruct c as [|[] k|]; try done. intros [= <-]. by apply step_timeout.
    + destruct c; try done. destruct (owner s) eqn:Ho; [done|]. intros [= <-]. by apply step_reacquire.
  - destruct m; try done. intros [= <-]. apply step_call. by left.
Qed.

Lemma bs_schedule_reachable l ms s s' : reachable l s → schedule l ms s = Some s' → reachable l s'.
Proof.
  revert s. induction ms as [|m ms IH]; simpl; intros s H; [by intros [= <-]|].
  destruct (exec l m s) as [s1|] eqn:He; [|done]. simpl. apply IH.
  eapply rtc_r; [exact H|]. by eapply bs_exec_step.
Qed.

(** *** One thread alone *)

#[export] Instance posix_binary_semaphore_spec : BinarySemaphoreSpec sems.
Proof.
  refine {| bs_ready := λ l w, values w !! l = Some 0 ∨ values w !! l = Some 1;
            bs_posted := λ l w, bool_decide (values w !! l = Some 1) |}; intros l w.
  - unfold wp; simpl; unfold on; simpl; c_unfold; simpl. rewrite lookup_insert_eq. auto.
  - intros [H|H]; unfold wp; simpl; unfold on; simpl; c_unfold; simpl; rewrite H; simpl;
      rewrite ?lookup_insert_eq, ?H; auto.
  - intros [H|H]; unfold wp; simpl; unfold on; simpl; c_unfold; simpl; rewrite H; simpl;
      rewrite ?lookup_insert_eq, ?H; auto.
Defined.

(** ** Properties *)

(** (C1) Linearizability: in every state that interleaved calls can reach, the
    calls that have left their critical section, in that order and with those
    results, are a run of the atomic binary semaphore; while the mutex is free
    its flag is [value]. *)
Theorem bs_linearizable l s :
  reachable l s → ∃ a, abs_run 0 (hist s) a ∧ (owner s = None → a = value s).
Proof.
  intros H. apply reachable_invariant in H. destruct (owner s) as [t|] eqn:Ho.
  - destruct (inv_owner s H t Ho) as (o & p & Hp).
    destruct (owned_run s t o p H Ho Hp) as (a & Ha & _). by exists a.
  - exists (value s). split; [|done]. by apply H.
Qed.

(** (C16) No wake-up is lost: when the flag is up and the mutex is free while
    some thread sleeps in a wait, another waiter has been woken and is about to
    take the mutex. *)
Theorem bs_no_lost_wakeup l s :
  reachable l s → value s = 1 → owner s = None → someone_asleep s → someone_woken s.
Proof.
  intros H Hv Ho Has. apply reachable_invariant in H. destruct (inv_wake s H Hv Has) as [|Hw]; [done|].
  destruct Hw as (t & ? & ? & Ht & _). by rewrite Ho in Ht.
Qed.

(** At every moment at most as many waits have returned [OSAL_OK] as posts
    have been made, counting those that left their critical section. *)
Theorem bs_takes_le_posts l s :
  reachable l s → (length (List.filter is_taken (hist s)) ≤ length (List.filter is_post (hist s)))%nat.
Proof.
  intros H. apply reachable_invariant in H.
  assert (∃ a, abs_run 0 (hist s) a) as [a Ha].
  { destruct (owner s) as [t|] eqn:Ho; [|exists (value s); by apply H].
    destruct (inv_owner s H t Ho) as (o & p & Hp).
    destruct (owned_run s t o p H Ho Hp) as (a & Ha & _). by exists a. }
  apply abs_run_count in Ha as [_ Ha]. lia.
Qed.

(** The flag is written only under the mutex, and read only under it except
    by a timed wait without a time-out, which reads it without locking. *)
Theorem bs_flag_guarded l s t o e k :
  reachable l s → pool s !! t = Some (o, Run (Vis e k)) →
  (∃ v, e = WriteValue v) ∨ (e = ReadValue ∧ o ≠ Timedwait None) → owner s = Some t.
Proof.
  intros H Hp He. apply reachable_invariant in H.
  destruct (decide (owner s = Some t)) as [|Ho]; [done|].
  pose proof (unowned_run s t o _ H Ho Hp) as Hout.
  destruct He as [[v ->]|[-> Hne]]; [done|]. by destruct Hout.
Qed.

(** The moves of threads that are in a call, spurious wake-ups apart. *)
Definition internal (m : move) : bool := match m with MCall _ _ | MSpurious => false | _ => true end.
Definition can_move (l : loc) (s : state) : Prop := ∃ t m, internal m = true ∧ is_Some (exec l (t, m) s).

(** Who holds the mutex can go on, and so can who waits for it when it is free. *)
Lemma owner_moves l s t o p :
  owner s = Some t → pool s !! t = Some (o, Run p) → thread_ok s t o (Run p) → p = OutOfFuel ∨ can_move l s.
Proof.
  intros Ho Hp Hok. simpl in Hok. rewrite decide_True in Hok by done. destruct Hok as (a & _ & Hc).
  destruct p as [r|e k| |]; [done| |done|by left]. right. destruct e; try done;
    try (exists t, MRun; unfold exec; simpl; rewrite Hp, ?decide_True by done; by eauto).
  destruct (decide (map_Forall (λ _ c, is_asleep c = false) (pool s))) as [Hn|Hn].
  - exists t, MRun. unfold exec. simpl. rewrite Hp, decide_True by done. by eauto.
  - apply map_not_Forall in Hn as (t' & [o' c'] & Hp' & Ha); [|apply _].
    destruct c' as [|b k'|]; [done| |done]. exists t, (MSignal t'). unfold exec. simpl. rewrite Hp, Hp'. by eauto.
Qed.

Lemma free_moves l s t o c :
  owner s = None → pool s !! t = Some (o, c) → thread_ok s t o c →
  (∃ r, c = Run (Done r)) ∨ (∃ k, c = Asleep false k) ∨ can_move l s.
Proof.
  intros Ho Hp Hok. destruct c as [p|[|] k|ret k].
  - simpl in Hok. rewrite decide_False in Hok by congruence. destruct p as [r|e k| |]; [by eauto| |done..].
    right. right. exists t, MRun. unfold exec. simpl. rewrite Hp, Ho. destruct e; by eauto.
  - right. right. exists t, MTimeout. unfold exec. simpl. rewrite Hp. by eauto.
  - by eauto.
  - right. right. exists t, MReacquire. unfold exec. simpl. rewrite Hp, Ho. by eauto.
Qed.

(** (C17) There is no deadlock: when no thread that is in a call can go on, without a
    new call, a spurious wake-up or more fuel, the mutex is free and each of
    these threads sleeps in a wait without a time-out, the flag being down. *)
Theorem bs_deadlock_free l s :
  reachable l s → (∀ t o, pool s !! t ≠ Some (o, Run OutOfFuel)) → ¬ can_move l s →
  owner s = None ∧ ∀ t o c, pool s !! t = Some (o, c) →
    (∃ r, c = Run (Done r)) ∨ (value s = 0 ∧ ∃ k, c = Asleep false k).
Proof.
  intros H Hfuel Hstuck. apply reachable_invariant in H.
  assert (owner s = None) as Ho.
  { destruct (owner s) as [t|] eqn:Ho; [|done]. destruct (inv_owner s H t Ho) as (o & p & Hp).
    destruct (owner_moves l s t o p Ho Hp (inv_threads s H _ _ _ Hp)) as [->|]; [by apply Hfuel in Hp|done]. }
  split; [done|]. intros t o c Hp.
  destruct (free_moves l s t o c Ho Hp (inv_threads s H _ _ _ Hp)) as [|[[k ->]|]]; [by left| |done].
  right. split; [|by eauto]. destruct (inv_flag s H) as [|Hv]; [done|]. exfalso.
  destruct (inv_wake s H Hv) as [(t' & o' & k' & Hw)|(t' & ? & ? & Ht & _)]; [by exists t, o, false, k| |congruence].
  destruct (free_moves l s t' o' _ Ho Hw (inv_threads s H _ _ _ Hw)) as [[]|[[]|]]; done.
Qed.

(** A schedule of three threads: 1 and 3 sleep in a wait, 2 posts. *)
Definition posted_schedule : list (tid * move) :=
  [(1, MCall Wait 5); (1, MRun); (1, MRun); (1, MRun);
   (3, MCall Wait 5); (3, MRun); (3, MRun); (3, MRun);
   (2, MCall Post 0); (2, MRun); (2, MRun); (2, MRun); (2, MSignal 1); (2, MRun)]%positive.

(** The same with 1 taking the flag afterwards. *)
Definition taken_schedule : list (tid * move) :=
  posted_schedule ++ [(1, MReacquire); (1, MRun); (1, MRun); (1, MRun)]%positive.

Definition run_schedule (ms : list (tid * move)) : state := default initial (schedule 1 ms initial).

Lemma run_schedule_reachable ms :
  schedule 1 ms initial ≠ None → reachable 1 (run_schedule ms).
Proof.
  unfold run_schedule. destruct (schedule 1 ms initial) as [s|] eqn:H; [intros _|done].
  by eapply bs_schedule_reachable; [constructor|].
Qed.

Lemma bs_linearizable_witness :
  ∃ a, abs_run 0 [(2%positive, Post, OSAL_OK); (1%positive, Wait, OSAL_OK)] a ∧ (None = None :> option tid → a = 0).
Proof.
  refine (bs_linearizable 1 (run_schedule taken_schedule) _). apply run_schedule_reachable. by vm_compute.
Defined.

Lemma bs_no_lost_wakeup_witness : someone_woken (run_schedule posted_schedule).
Proof.
  refine (bs_no_lost_wakeup 1 (run_schedule posted_schedule) _ eq_refl eq_refl _).
  - apply run_schedule_reachable. by vm_compute.
  - exists 3%positive, Wait, false. eexists. reflexivity.
Defined.

(** Thread 1 has called wait and sleeps; nobody can go on. *)
Lemma bs_deadlock_free_witness :
  let s := run_schedule [(1, MCall Wait 5); (1, MRun); (1, MRun); (1, MRun)]%positive in
  owner s = None ∧ (∃ o k, pool s !! 1%positive = Some (o, Asleep false k)) ∧ value s = 0.
Proof.
  set (s := run_schedule [(1, MCall Wait 5); (1, MRun); (1, MRun); (1, MRun)]%positive).
  assert (∃ k, pool s = {[1%positive := (Wait, Asleep false k)]}) as [k Hk] by (eexists; vm_compute; reflexivity).
  destruct (bs_deadlock_free 1 s) as [Ho Hall].
  - apply run_schedule_reachable. by vm_compute.
  - intros t o. rewrite Hk. intros H%lookup_singleton_Some. by destruct H.
  - intros (t & m & Hm & s' & He). unfold exec in He. simpl in He. rewrite Hk in He.
    destruct (decide (1%positive = t)) as [<-|Hne]; [rewrite lookup_singleton_eq in He|rewrite lookup_singleton_ne in He by done];
      by destruct m.
  - split; [done|]. destruct (Hall 1%positive Wait (Asleep false k)) as [[r [=]]|[Hv _]]; [by rewrite Hk, lookup_singleton_eq|].
    split; [|done]. exists Wait, k. by rewrite Hk, lookup_singleton_eq.
Defined.

Lemma bs_takes_le_posts_witness : (1 ≤ 1)%nat.
Proof.
  refine (bs_takes_le_posts 1 (run_schedule taken_schedule) _). apply run_schedule_reachable. by vm_compute.
Defined.

Lemma bs_flag_guarded_witness :
  owner (run_schedule [(1, MCall Trywait 0); (1, MRun)]%positive) = Some 1%positive.
Proof.
  eapply (bs_flag_guarded 1 (run_schedule [(1, MCall Trywait 0); (1, MRun)]%positive) 1 Trywait ReadValue);
    [apply run_schedule_reachable; by vm_compute|reflexivity|by right].
Defined.

(** A time-out whose nanosecond part is out of range is refused with
    [EINVAL] by every [pthread_cond_timedwait], and the loop, which looks for
    [ETIMEDOUT] only, runs for ever while it holds the mutex. *)
Theorem osal_binary_semaphore_timedwait_einval l (w : sems) to fuel :
  values w !! l = Some 0 → NSEC_PER_SEC ≤ nsec to < 2 ^ 64 →
  on (Some l) (λ s, Posix.osal_binary_semaphore_timedwait fuel s (Some to)) w = NoReturn.
Proof.
  intros Hv Hto.
  assert ((s64 (nsec to) <? 0) || (NSEC_PER_SEC <=? s64 (nsec to)) = true) as Hbad.
  { unfold NSEC_PER_SEC in *. destruct (Z.lt_ge_cases (nsec to) (2 ^ 63)).
    - rewrite swrap_id by (unfold in_sint; lia). destruct (Z.leb_spec 1000000000 (nsec to)); [apply orb_true_r|lia].
    - rewrite swrap_high by lia. destruct (Z.ltb_spec (nsec to - 2 ^ 64) 0); [done|lia]. }
  unfold on. simpl. unfold mbind at 1, C_bind. simpl.
  induction fuel as [|n IH]; [done|]. simpl. erewrite bind_run by (by rewrite Hv). simpl.
  rewrite Hbad in *. erewrite bind_run by done. exact IH.
Qed.

Lemma osal_binary_semaphore_timedwait_einval_witness :
  on (Some 1%positive) (λ s, Posix.osal_binary_semaphore_timedwait 100 s (Some (mk_timer 5 1000000000)))
     (mk_sems {[1%positive := 0]} 1) = NoReturn.
Proof.
  refine (osal_binary_semaphore_timedwait_einval 1%positive (mk_sems {[1%positive := 0]} 1)
    (mk_timer 5 1000000000) 100 _ _); [reflexivity|].
  simpl. unfold NSEC_PER_SEC. lia.
Defined.

(** (C29) One thread alone, on every branch. [init] lowers the flag whatever is in
    memory, [destroy] leaves it; [post] raises it; [trywait] takes it or answers
    [OSAL_ERR_BUSY]; [wait] takes it or blocks for ever; [timedwait] takes it or
    times out, and with a nanosecond part out of range, when the flag is down, it
    never returns; with a null time-out it answers whether the flag is up and
    leaves it up. A null semaphore fails an assertion in each function. *)
Theorem osal_binary_semaphore_alone l (w : sems) v fuel to :
  values w !! l = Some v → (v = 0 ∨ v = 1) → in_uint 64 (nsec to) →
  let up := v =? 1 in
  let at_ x := mk_sems (<[l := x]> (values w)) (clock_source w) in
  (∀ w', on (Some l) Posix.osal_binary_semaphore_init w' =
     Ret OSAL_OK (mk_sems (<[l := 0]> (values w')) (clock_source w'))) ∧
  on (Some l) Posix.osal_binary_semaphore_destroy w = Ret OSAL_OK w ∧
  on (Some l) Posix.osal_binary_semaphore_post w = Ret OSAL_OK (if up then w else at_ 1) ∧
  on (Some l) Posix.osal_binary_semaphore_trywait w =
    (if up then Ret OSAL_OK (at_ 0) else Ret OSAL_ERR_BUSY w) ∧
  on (Some l) (Posix.osal_binary_semaphore_wait (S fuel)) w =
    (if up then Ret OSAL_OK (at_ 0) else NoReturn) ∧
  on (Some l) (λ s, Posix.osal_binary_semaphore_timedwait (S fuel) s (Some to)) w =
    (if up then Ret OSAL_OK (at_ 0) else if nsec to <? NSEC_PER_SEC then Ret OSAL_ERR_TIMEOUT w else NoReturn) ∧
  on (Some l) (λ s, Posix.osal_binary_semaphore_timedwait (S fuel) s None) w =
    Ret (if up then OSAL_OK else OSAL_ERR_TIMEOUT) w ∧
  (∀ p, p ∈ [Posix.osal_binary_semaphore_init; Posix.osal_binary_semaphore_post; Posix.osal_binary_semaphore_wait fuel;
             Posix.osal_binary_semaphore_trywait; (λ s, Posix.osal_binary_semaphore_timedwait fuel s (Some to));
             (λ s, Posix.osal_binary_semaphore_timedwait fuel s None); Posix.osal_binary_semaphore_destroy] →
   on None p w = Aborted).
Proof.
  intros Hv H01 Hto up at_.
  assert (∀ w', on (Some l) Posix.osal_binary_semaphore_init w' =
    Ret OSAL_OK (mk_sems (<[l := 0]> (values w')) (clock_source w'))) as Hinit by done.
  assert (∀ p, p ∈ [Posix.osal_binary_semaphore_init; Posix.osal_binary_semaphore_post; Posix.osal_binary_semaphore_wait fuel;
    Posix.osal_binary_semaphore_trywait; (λ s, Posix.osal_binary_semaphore_timedwait fuel s (Some to));
    (λ s, Posix.osal_binary_semaphore_timedwait fuel s None); Posix.osal_binary_semaphore_destroy] →
    on None p w = Aborted) as Hnull by by apply Forall_forall; repeat constructor.
  destruct (Z.ltb_spec (nsec to) NSEC_PER_SEC) as [Hlt|Hge].
  - assert (s64 (nsec to) = nsec to) as Hns by (apply swrap_id; unfold in_sint, in_uint, NSEC_PER_SEC in *; lia).
    assert ((nsec to <? 0) || (NSEC_PER_SEC <=? nsec to) = false) as Hok.
    { unfold in_uint, NSEC_PER_SEC in *.
      destruct (Z.ltb_spec (nsec to) 0), (Z.leb_spec 1000000000 (nsec to)); lia || done. }
    unfold up. destruct H01 as [-> | ->]; split_and!; try done; unfold on; simpl; c_unfold; simpl; rewrite Hv; simpl;
      rewrite ?Hns, ?Hok; done.
  - unfold up. destruct H01 as [-> | ->]; cbn [Z.eqb Pos.eqb];
      (split; [done|split; [done|split; [|split; [|split; [|split; [|split; [|done]]]]]]]);
      try (apply osal_binary_semaphore_timedwait_einval; [done|unfold in_uint in *; lia]);
      unfold on; simpl; c_unfold; simpl; rewrite Hv; done.
Qed.

Lemma osal_binary_semaphore_alone_witness :
  let w := mk_sems {[1%positive := 1]} 1 in
  on (Some 1%positive) (λ s, Posix.osal_binary_semaphore_timedwait 5 s None) w = Ret OSAL_OK w.
Proof.
  intros w.
  apply (osal_binary_semaphore_alone 1%positive w 1 4 (mk_timer 5 0) eq_refl (or_intror eq_refl)).
  unfold in_uint. simpl. lia.
Defined.
