(* ===== verification/PosixMutex.v ===== *)
(** * POSIX mutexes: src/posix/mutex.c

    The functions translate attributes and results between the library and
    pthreads. A [pthread_mutexattr_t] is the sequence of settings made on it
    since [pthread_mutexattr_init]; the results of those calls are not looked at
    by the source. pthreads is the class [PthreadMutex], what POSIX promises of
    it [PthreadMutexLaws]. *)

From S2P Require Import Prelude Osal BinarySemaphore.

(** ** include/libosal/mutex.h *)

Definition OSAL_MUTEX_ATTR__TYPE__MASK : Z := 0x00000003.
Definition OSAL_MUTEX_ATTR__TYPE__NORMAL : Z := 0x00000000.
Definition OSAL_MUTEX_ATTR__TYPE__ERRORCHECK : Z := 0x00000001.
Definition OSAL_MUTEX_ATTR__TYPE__RECURSIVE : Z := 0x00000002.
Definition OSAL_MUTEX_ATTR__ROBUST : Z := 0x00000010.
Definition OSAL_MUTEX_ATTR__PROCESS_SHARED : Z := 0x00000020.
Definition OSAL_MUTEX_ATTR__PROTOCOL__MASK : Z := 0x00000300.
Definition OSAL_MUTEX_ATTR__PROTOCOL__NONE : Z := 0x00000000.
Definition OSAL_MUTEX_ATTR__PROTOCOL__INHERIT : Z := 0x00000100.
Definition OSAL_MUTEX_ATTR__PROTOCOL__PROTECT : Z := 0x00000200.
Definition OSAL_MUTEX_ATTR__PRIOCEILING__MASK : Z := 0xFFFF0000.
Definition OSAL_MUTEX_ATTR__PRIOCEILING__SHIFT : Z := 16.

(** ** pthreads *)

Inductive mutex_type : Type := PTHREAD_MUTEX_NORMAL | PTHREAD_MUTEX_ERRORCHECK | PTHREAD_MUTEX_RECURSIVE.
Inductive protocol : Type := PTHREAD_PRIO_NONE | PTHREAD_PRIO_INHERIT | PTHREAD_PRIO_PROTECT.

(** The [pthread_mutexattr_set...] calls of the source. *)
Inductive setting : Type :=
  | settype (t : mutex_type)
  | setrobust
  | setpshared
  | setprotocol (p : protocol)
  | setprioceiling (c : Z).

Class PthreadMutex (W : Type) := {
  pthread_mutex_init : loc → option (list setting) → C W Z;
  pthread_mutex_lock : loc → C W Z;
  pthread_mutex_trylock : loc → C W Z;
  pthread_mutex_unlock : loc → C W Z;
  pthread_mutex_destroy : loc → C W Z;
}.

Section mutex.
Context `{!Config} {W : Type} `{!PthreadMutex W}.

(** [(attr & mask) == value]. *)
Definition is_set (attr mask value : Z) : bool := Z.land attr mask =? value.

Definition mutex_settings (attr : Z) : list setting :=
  (if is_set attr OSAL_MUTEX_ATTR__TYPE__MASK OSAL_MUTEX_ATTR__TYPE__NORMAL
   then [settype PTHREAD_MUTEX_NORMAL]
   else if is_set attr OSAL_MUTEX_ATTR__TYPE__MASK OSAL_MUTEX_ATTR__TYPE__ERRORCHECK
   then [settype PTHREAD_MUTEX_ERRORCHECK]
   else if is_set attr OSAL_MUTEX_ATTR__TYPE__MASK OSAL_MUTEX_ATTR__TYPE__RECURSIVE
   then [settype PTHREAD_MUTEX_RECURSIVE]
   else []) ++
  (if LIBOSAL_HAVE_PTHREAD_MUTEXATTR_SETROBUST &&
      is_set attr OSAL_MUTEX_ATTR__ROBUST OSAL_MUTEX_ATTR__ROBUST
   then [setrobust] else []) ++
  (if is_set attr OSAL_MUTEX_ATTR__PROCESS_SHARED OSAL_MUTEX_ATTR__PROCESS_SHARED
   then [setpshared] else []) ++
  (if is_set attr OSAL_MUTEX_ATTR__PROTOCOL__MASK OSAL_MUTEX_ATTR__PROTOCOL__NONE
   then [setprotocol PTHREAD_PRIO_NONE]
   else if is_set attr OSAL_MUTEX_ATTR__PROTOCOL__MASK OSAL_MUTEX_ATTR__PROTOCOL__INHERIT
   then [setprotocol PTHREAD_PRIO_INHERIT]
   else if is_set attr OSAL_MUTEX_ATTR__PROTOCOL__MASK OSAL_MUTEX_ATTR__PROTOCOL__PROTECT
   then [setprotocol PTHREAD_PRIO_PROTECT]
   else []) ++
  (if has attr OSAL_MUTEX_ATTR__PRIOCEILING__MASK
   then [setprioceiling (Z.shiftr (Z.land attr OSAL_MUTEX_ATTR__PRIOCEILING__MASK)
                                  OSAL_MUTEX_ATTR__PRIOCEILING__SHIFT)]
   else []).

Definition osal_mutex_init (mtx : option loc) (attr : option Z) : C W Z :=
  l ← assert_ptr mtx;
  posix_ret ← pthread_mutex_init l (mutex_settings <$> attr);
  mret (if posix_ret =? 0 then OSAL_OK
        else switch posix_ret
          [(EAGAIN, OSAL_ERR_SYSTEM_LIMIT_REACHED); (ENOMEM, OSAL_ERR_OUT_OF_MEMORY);
           (EPERM, OSAL_ERR_PERMISSION_DENIED); (EINVAL, OSAL_ERR_INVALID_PARAM)]
          OSAL_ERR_UNAVAILABLE).

Definition osal_mutex_lock (mtx : option loc) : C W Z :=
  l ← assert_ptr mtx;
  posix_ret ← pthread_mutex_lock l;
  mret (if posix_ret =? 0 then OSAL_OK
        else switch posix_ret
          ([(EAGAIN, OSAL_ERR_SYSTEM_LIMIT_REACHED); (EINVAL, OSAL_ERR_INVALID_PARAM)] ++
           (if LIBOSAL_HAVE_ENOTRECOVERABLE then [(ENOTRECOVERABLE, OSAL_ERR_NOT_RECOVERABLE)] else []) ++
           [(EOWNERDEAD, OSAL_ERR_OWNER_DEAD); (EDEADLK, OSAL_ERR_DEAD_LOCK)])
          OSAL_ERR_UNAVAILABLE).

Definition osal_mutex_trylock (mtx : option loc) : C W Z :=
  l ← assert_ptr mtx;
  posix_ret ← pthread_mutex_trylock l;
  mret (if posix_ret =? 0 then OSAL_OK
        else switch posix_ret
          ([(EAGAIN, OSAL_ERR_SYSTEM_LIMIT_REACHED); (EINVAL, OSAL_ERR_INVALID_PARAM)] ++
           (if LIBOSAL_HAVE_ENOTRECOVERABLE then [(ENOTRECOVERABLE, OSAL_ERR_NOT_RECOVERABLE)] else []) ++
           [(EOWNERDEAD, OSAL_ERR_OWNER_DEAD); (EBUSY, OSAL_ERR_BUSY)])
          OSAL_ERR_UNAVAILABLE).

Definition osal_mutex_unlock (mtx : option loc) : C W Z :=
  l ← assert_ptr mtx;
  posix_ret ← pthread_mutex_unlock l;
  mret (if posix_ret =? 0 then OSAL_OK
        else switch posix_ret [(EPERM, OSAL_ERR_PERMISSION_DENIED)] OSAL_ERR_UNAVAILABLE).

Definition osal_mutex_destroy (mtx : option loc) : C W Z :=
  l ← assert_ptr mtx;
  posix_ret ← pthread_mutex_destroy l;
  mret (if posix_ret =? 0 then OSAL_OK else OSAL_ERR_OPERATION_FAILED).
End mutex.

(** ** What POSIX promises

    Seen by the calling thread: [holds l w] says how many times it holds the
    mutex at [l], more than once only if that is recursive; [checked l w] that
    the mutex checks its owner: it is of type ERRORCHECK or RECURSIVE, or robust.
    Locking succeeds, or takes over from a dead owner, or fails and changes
    nothing; it may block for ever. The owner can unlock; another thread is told
    that it may not, if the mutex checks that. *)
Class PthreadMutexLaws (W : Type) `{!PthreadMutex W} := {
  holds : loc → W → nat;
  checked : loc → W → bool;
  lock_law l w :
    wlp (pthread_mutex_lock l) (λ r w',
      holds l w' = if (r =? 0) || (r =? EOWNERDEAD) then S (holds l w) else holds l w) w;
  trylock_law l w :
    wp (pthread_mutex_trylock l) (λ r w',
      holds l w' = if (r =? 0) || (r =? EOWNERDEAD) then S (holds l w) else holds l w) w;
  unlock_law l n w :
    holds l w = S n → wp (pthread_mutex_unlock l) (λ r w', r = 0 ∧ holds l w' = n) w;
  unlock_checked_law l w :
    holds l w = 0%nat → checked l w = true →
    wp (pthread_mutex_unlock l) (λ r w', r = EPERM ∧ holds l w' = 0%nat) w;
}.

(** A mutex configuration a client asks for, and the attribute word it writes. *)
Record mutex_config : Type := mk_config {
  cfg_type : mutex_type;
  cfg_robust : bool;
  cfg_shared : bool;
  cfg_protocol : protocol;
  cfg_ceiling : Z;
}.

Definition attr_of (c : mutex_config) : Z :=
  Z.lor (Z.lor (Z.lor (match cfg_type c with
                       | PTHREAD_MUTEX_NORMAL => OSAL_MUTEX_ATTR__TYPE__NORMAL
                       | PTHREAD_MUTEX_ERRORCHECK => OSAL_MUTEX_ATTR__TYPE__ERRORCHECK
                       | PTHREAD_MUTEX_RECURSIVE => OSAL_MUTEX_ATTR__TYPE__RECURSIVE end)
                      (if cfg_robust c then OSAL_MUTEX_ATTR__ROBUST else 0))
               (Z.lor (if cfg_shared c then OSAL_MUTEX_ATTR__PROCESS_SHARED else 0)
                      (match cfg_protocol c with
                       | PTHREAD_PRIO_NONE => OSAL_MUTEX_ATTR__PROTOCOL__NONE
                       | PTHREAD_PRIO_INHERIT => OSAL_MUTEX_ATTR__PROTOCOL__INHERIT
                       | PTHREAD_PRIO_PROTECT => OSAL_MUTEX_ATTR__PROTOCOL__PROTECT end)))
        (Z.shiftl (cfg_ceiling c) OSAL_MUTEX_ATTR__PRIOCEILING__SHIFT).

(** ** Lemmas *)

(** The low half of an attribute word with a ceiling, and its high half. *)
Lemma land_lor_ceiling x c mask :
  0 ≤ x < 2 ^ 16 → 0 ≤ mask < 2 ^ 16 → Z.land (Z.lor x (Z.shiftl c 16)) mask = Z.land x mask.
Proof.
  intros Hx Hm. apply Z.bits_inj'. intros n Hn. rewrite !Z.land_spec, Z.lor_spec, Z.shiftl_spec by done.
  destruct (Z.lt_ge_cases n 16) as [Hlt|Hge].
  - rewrite (Z.testbit_neg_r c) by lia. by rewrite orb_false_r.
  - rewrite <- (Z.mod_small mask (2 ^ 16)) by done. rewrite Z.mod_pow2_bits_high by lia. by rewrite !andb_false_r.
Qed.

Lemma ceiling_of_attr x c :
  0 ≤ x < 2 ^ 16 → 0 ≤ c < 2 ^ 16 →
  Z.land (Z.lor x (Z.shiftl c 16)) OSAL_MUTEX_ATTR__PRIOCEILING__MASK = Z.shiftl c 16.
Proof.
  intros Hx Hc. apply Z.bits_inj'. intros n Hn.
  change OSAL_MUTEX_ATTR__PRIOCEILING__MASK with (Z.shiftl (Z.ones 16) 16).
  rewrite !Z.land_spec, Z.lor_spec, !Z.shiftl_spec by done.
  destruct (Z.lt_ge_cases n 16) as [Hlt|Hge].
  - rewrite !(Z.testbit_neg_r _ (n - 16)) by lia. by rewrite andb_false_r.
  - rewrite <- (Z.mod_small x (2 ^ 16)) by done. rewrite (Z.mod_pow2_bits_high x) by lia. simpl.
    destruct (Z.lt_ge_cases (n - 16) 16).
    + by rewrite Z.ones_spec_low, andb_true_r by lia.
    + rewrite <- (Z.mod_small c (2 ^ 16)) by done. by rewrite (Z.mod_pow2_bits_high c) by lia.
Qed.

Definition attr_low (c : mutex_config) : Z :=
  attr_of (mk_config (cfg_type c) (cfg_robust c) (cfg_shared c) (cfg_protocol c) 0).

Lemma attr_of_split c :
  attr_of c = Z.lor (attr_low c) (Z.shiftl (cfg_ceiling c) 16) ∧ 0 ≤ attr_low c < 2 ^ 16.
Proof. destruct c as [[] [] [] [] c]; unfold attr_low, attr_of; simpl; split; try done; lia. Qed.

Section codes.
Context `{!Config}.

Lemma mutex_settings_of c :
  0 ≤ cfg_ceiling c < 2 ^ 16 →
  mutex_settings (attr_of c) =
    [settype (cfg_type c)] ++
    (if LIBOSAL_HAVE_PTHREAD_MUTEXATTR_SETROBUST && cfg_robust c then [setrobust] else []) ++
    (if cfg_shared c then [setpshared] else []) ++
    [setprotocol (cfg_protocol c)] ++
    (if cfg_ceiling c =? 0 then [] else [setprioceiling (cfg_ceiling c)]).
Proof.
  intros Hc. destruct (attr_of_split c) as [Hsplit Hlow]. unfold mutex_settings, is_set, has.
  rewrite Hsplit, ceiling_of_attr by done.
  rewrite (land_lor_ceiling _ _ OSAL_MUTEX_ATTR__TYPE__MASK), (land_lor_ceiling _ _ OSAL_MUTEX_ATTR__ROBUST),
    (land_lor_ceiling _ _ OSAL_MUTEX_ATTR__PROCESS_SHARED),
    (land_lor_ceiling _ _ OSAL_MUTEX_ATTR__PROTOCOL__MASK) by done.
  assert (Z.shiftl (cfg_ceiling c) 16 =? 0 = (cfg_ceiling c =? 0)) as Hzero.
  { rewrite Z.shiftl_mul_pow2 by lia.
    destruct (Z.eqb_spec (cfg_ceiling c * 2 ^ 16) 0), (Z.eqb_spec (cfg_ceiling c) 0); (done || lia). }
  rewrite Hzero, Z.shiftr_shiftl_l, Z.shiftl_0_r by lia.
  destruct c as [[] [] [] [] ceil]; destruct LIBOSAL_HAVE_PTHREAD_MUTEXATTR_SETROBUST; simpl;
    by destruct (ceil =? 0).
Qed.

(** The results of locking, locked or not. *)
Lemma lock_codes r last :
  last = (EDEADLK, OSAL_ERR_DEAD_LOCK) ∨ last = (EBUSY, OSAL_ERR_BUSY) →
  let ret := if r =? 0 then OSAL_OK
        else switch r
          ([(EAGAIN, OSAL_ERR_SYSTEM_LIMIT_REACHED); (EINVAL, OSAL_ERR_INVALID_PARAM)] ++
           (if LIBOSAL_HAVE_ENOTRECOVERABLE then [(ENOTRECOVERABLE, OSAL_ERR_NOT_RECOVERABLE)] else []) ++
           [(EOWNERDEAD, OSAL_ERR_OWNER_DEAD); last])
          OSAL_ERR_UNAVAILABLE in
  (ret =? OSAL_OK) || (ret =? OSAL_ERR_OWNER_DEAD) = (r =? 0) || (r =? EOWNERDEAD).
Proof. intros [-> | ->] ret; unfold ret; clear ret; switch_cases. Qed.
End codes.

(** ** A concrete mutex

    Its type, and whether it is free, held [S n] times by the calling thread, or
    held by another one, which does not give it up. *)
Module Sim.
Inductive owner : Type := Free | Ours (n : nat) | Theirs.

Abbreviation world := (gmap loc (mutex_type * owner)).

Definition type_of (attr : option (list setting)) : mutex_type :=
  match attr with Some (settype t :: _) => t | _ => PTHREAD_MUTEX_NORMAL end.

(** [busy]: what a lock does when the caller has the mutex already and it is
    not recursive. *)
Definition lock (busy : mutex_type → outcome world Z) (theirs : outcome world Z) (l : loc) : C world Z := λ w,
  match w !! l with
  | None => Ret EINVAL w
  | Some (t, Free) => Ret 0 (<[l := (t, Ours 0)]> w)
  | Some (PTHREAD_MUTEX_RECURSIVE, Ours n) => Ret 0 (<[l := (PTHREAD_MUTEX_RECURSIVE, Ours (S n))]> w)
  | Some (t, Ours _) => busy t
  | Some (_, Theirs) => theirs
  end.

#[global] Instance pthread : PthreadMutex world := {|
  pthread_mutex_init l attr w := Ret 0 (<[l := (type_of attr, Free)]> w);
  pthread_mutex_lock l w :=
    lock (λ t, match t with PTHREAD_MUTEX_NORMAL => NoReturn | _ => Ret EDEADLK w end) NoReturn l w;
  pthread_mutex_trylock l w := lock (λ _, Ret EBUSY w) (Ret EBUSY w) l w;
  pthread_mutex_unlock l w :=
    match w !! l with
    | Some (t, Ours n) => Ret 0 (<[l := (t, match n with O => Free | S n => Ours n end)]> w)
    | Some (PTHREAD_MUTEX_NORMAL, _) => Undef
    | _ => Ret EPERM w
    end;
  pthread_mutex_destroy l w := Ret 0 (delete l w);
|}.

#[global] Instance laws : PthreadMutexLaws world.
Proof.
  refine {| holds := λ l w, match w !! l with Some (_, Ours n) => S n | _ => O end;
            checked := λ l w, match w !! l with Some (PTHREAD_MUTEX_NORMAL, _) => false | _ => true end |};
    intros l; [intros w|intros w|intros n w|intros w]; unfold wp, wlp; simpl; unfold lock;
    destruct (w !! l) as [[[] [|k|]]|] eqn:H; simpl; rewrite ?lookup_insert_eq, ?H; try done.
  all: intros [= <-]; split; [done|]; by destruct k.
Defined.

Definition world1 : world := {[1%positive := (PTHREAD_MUTEX_RECURSIVE, Free); 2%positive := (PTHREAD_MUTEX_NORMAL, Theirs)]}.
End Sim.

(** ** Properties *)

(** (C27) Attributes round trip: [osal_mutex_init] makes on the pthread attribute
    object exactly the settings the attribute word was composed of (robustness
    only where the platform has it, a ceiling only when it is not zero), and
    without attributes passes none. *)
Theorem osal_mutex_init_settings `{!Config} {W} `{!PthreadMutex W} l c (w : W) :
  0 ≤ cfg_ceiling c < 2 ^ 16 →
  osal_mutex_init (Some l) (Some (attr_of c)) w =
    (posix_ret ← pthread_mutex_init l (Some (
       [settype (cfg_type c)] ++
       (if LIBOSAL_HAVE_PTHREAD_MUTEXATTR_SETROBUST && cfg_robust c then [setrobust] else []) ++
       (if cfg_shared c then [setpshared] else []) ++
       [setprotocol (cfg_protocol c)] ++
       (if cfg_ceiling c =? 0 then [] else [setprioceiling (cfg_ceiling c)])));
     mret (if posix_ret =? 0 then OSAL_OK
        else switch posix_ret
          [(EAGAIN, OSAL_ERR_SYSTEM_LIMIT_REACHED); (ENOMEM, OSAL_ERR_OUT_OF_MEMORY);
           (EPERM, OSAL_ERR_PERMISSION_DENIED); (EINVAL, OSAL_ERR_INVALID_PARAM)]
          OSAL_ERR_UNAVAILABLE)) w.
Proof. intros Hc. rewrite <- mutex_settings_of by done. done. Qed.

Lemma osal_mutex_init_settings_witness :
  let c := mk_config PTHREAD_MUTEX_RECURSIVE true true PTHREAD_PRIO_PROTECT 80 in
  attr_of c = 0x500232 ∧
  @osal_mutex_init linux_config _ Sim.pthread (Some 1%positive) (Some (attr_of c)) Sim.world1 =
    Ret OSAL_OK (<[1%positive := (PTHREAD_MUTEX_RECURSIVE, Sim.Free)]> Sim.world1).
Proof.
  intros c. split; [reflexivity|].
  refine (eq_trans (@osal_mutex_init_settings linux_config _ Sim.pthread 1%positive c Sim.world1 _) _);
    [simpl; lia|reflexivity].
Defined.

(** (C25) A lock counts: [osal_mutex_lock] and [osal_mutex_trylock] leave the
    calling thread with the mutex once more exactly when they return [OSAL_OK] or
    [OSAL_ERR_OWNER_DEAD], and otherwise as it was. [osal_mutex_unlock] by a
    thread that has it returns [OSAL_OK] and gives it back once: a recursive
    mutex is still held if it was locked more than once. If the mutex checks its
    owner, a thread that has it not is answered with
    [OSAL_ERR_PERMISSION_DENIED]. [osal_mutex_lock] may block. *)
Theorem osal_mutex_holds `{!Config} {W} `{!PthreadMutex W, !PthreadMutexLaws W} l (w : W) :
  let locked r w' :=
    holds l w' = if (r =? OSAL_OK) || (r =? OSAL_ERR_OWNER_DEAD) then S (holds l w) else holds l w in
  wlp (osal_mutex_lock (Some l)) locked w ∧
  wp (osal_mutex_trylock (Some l)) locked w ∧
  (∀ n, holds l w = S n → wp (osal_mutex_unlock (Some l)) (λ r w', r = OSAL_OK ∧ holds l w' = n) w) ∧
  (holds l w = 0%nat → checked l w = true →
   wp (osal_mutex_unlock (Some l)) (λ r w', r = OSAL_ERR_PERMISSION_DENIED ∧ holds l w' = 0%nat) w).
Proof.
  intros locked. split; [|split; [|split]].
  - unfold osal_mutex_lock. apply wlp_bind, wlp_ret, wlp_bind.
    eapply wlp_mono; [apply lock_law|]. intros r w' Hr. apply wlp_ret. unfold locked.
    rewrite (lock_codes r (EDEADLK, OSAL_ERR_DEAD_LOCK)) by auto. exact Hr.
  - unfold osal_mutex_trylock. apply wp_bind, wp_ret, wp_bind.
    eapply wp_mono; [apply trylock_law|]. intros r w' Hr. apply wp_ret. unfold locked.
    rewrite (lock_codes r (EBUSY, OSAL_ERR_BUSY)) by auto. exact Hr.
  - intros n Hn. unfold osal_mutex_unlock. apply wp_bind, wp_ret, wp_bind.
    eapply wp_mono; [by apply unlock_law|]. intros r w' [-> Hr]. by apply wp_ret.
  - intros H0 Hc. unfold osal_mutex_unlock. apply wp_bind, wp_ret, wp_bind.
    eapply wp_mono; [by apply unlock_checked_law|]. intros r w' [-> Hr]. by apply wp_ret.
Qed.

(** Locked twice and unlocked once, a recursive mutex is held. *)
Lemma osal_mutex_holds_witness :
  @osal_mutex_trylock linux_config _ Sim.pthread (Some 2%positive) Sim.world1 = Ret OSAL_ERR_BUSY Sim.world1 ∧
  wp (@osal_mutex_trylock linux_config _ Sim.pthread (Some 1%positive)) (λ r w',
    holds 1 w' = if (r =? OSAL_OK) || (r =? OSAL_ERR_OWNER_DEAD) then 1%nat else 0%nat) Sim.world1 ∧
  let twice : Sim.world := {[1%positive := (PTHREAD_MUTEX_RECURSIVE, Sim.Ours 1)]} in
  wp (@osal_mutex_unlock _ Sim.pthread (Some 1%positive)) (λ r w', r = OSAL_OK ∧ holds 1 w' = 1%nat) twice.
Proof.
  split; [reflexivity|]. split.
  - exact (proj1 (proj2 (@osal_mutex_holds linux_config _ Sim.pthread Sim.laws 1%positive Sim.world1))).
  - intros twice.
    exact (proj1 (proj2 (proj2 (@osal_mutex_holds linux_config _ Sim.pthread Sim.laws 1%positive twice))) 1%nat eq_refl).
Defined.
