(* ===== verification/PosixSpinlock.v ===== *)
(** * POSIX spin locks: src/posix/spinlock.c

    Thin functions over [pthread_spin_...], the class [PthreadSpin]; the
    attributes are ignored and the lock is always private to the process. *)

From S2P Require Import Prelude Osal BinarySemaphore.

Class PthreadSpin (W : Type) := {
  pthread_spin_init : loc → Z → C W Z;
  pthread_spin_lock : loc → C W Z;
  pthread_spin_unlock : loc → C W Z;
  pthread_spin_destroy : loc → C W Z;
}.

Section spinlock.
Context `{!Config} {W : Type} `{!PthreadSpin W}.

Definition osal_spinlock_init (mtx : option loc) (attr : option Z) : C W Z :=
  l ← assert_ptr mtx;
  posix_ret ← pthread_spin_init l 0;
  mret (if posix_ret =? 0 then OSAL_OK
        else switch posix_ret
          [(EAGAIN, OSAL_ERR_SYSTEM_LIMIT_REACHED); (ENOMEM, OSAL_ERR_OUT_OF_MEMORY);
           (EPERM, OSAL_ERR_PERMISSION_DENIED); (EINVAL, OSAL_ERR_INVALID_PARAM)]
          OSAL_ERR_UNAVAILABLE).

Definition osal_spinlock_lock (mtx : option loc) : C W Z :=
  l ← assert_ptr mtx;
  posix_ret ← pthread_spin_lock l;
  mret (if posix_ret =? 0 then OSAL_OK
        else switch posix_ret
          ([(EAGAIN, OSAL_ERR_SYSTEM_LIMIT_REACHED); (EINVAL, OSAL_ERR_INVALID_PARAM)] ++
           (if LIBOSAL_HAVE_ENOTRECOVERABLE then [(ENOTRECOVERABLE, OSAL_ERR_NOT_RECOVERABLE)] else []) ++
           [(EOWNERDEAD, OSAL_ERR_OWNER_DEAD); (EDEADLK, OSAL_ERR_DEAD_LOCK)])
          OSAL_ERR_UNAVAILABLE).

Definition osal_spinlock_unlock (mtx : option loc) : C W Z :=
  l ← assert_ptr mtx;
  posix_ret ← pthread_spin_unlock l;
  mret (if posix_ret =? 0 then OSAL_OK
        else switch posix_ret [(EPERM, OSAL_ERR_PERMISSION_DENIED)] OSAL_ERR_UNAVAILABLE).

Definition osal_spinlock_destroy (mtx : option loc) : C W Z :=
  l ← assert_ptr mtx;
  posix_ret ← pthread_spin_destroy l;
  mret (if posix_ret =? 0 then OSAL_OK else OSAL_ERR_OPERATION_FAILED).
End spinlock.

(** The lock works like a flag: while one thread holds it another spins for
    ever, and it is told a dead lock if it holds it itself. *)
Class PthreadSpinLaws (W : Type) `{!PthreadSpin W} := {
  spin_holds : loc → W → bool;
  spin_lock_law l w :
    wlp (pthread_spin_lock l) (λ r w',
      (r = 0 ∧ spin_holds l w = false ∧ spin_holds l w' = true) ∨
      (r = EDEADLK ∧ spin_holds l w = true ∧ w' = w)) w;
  spin_unlock_law l w : spin_holds l w = true →
    wp (pthread_spin_unlock l) (λ r w', r = 0 ∧ spin_holds l w' = false) w;
}.

(** *** A concrete lock: free, or held by the calling thread *)
Module Sim.
#[global] Instance pthread : PthreadSpin (gmap loc bool) := {|
  pthread_spin_init l _ w := Ret 0 (<[l := false]> w);
  pthread_spin_lock l w :=
    if default false (w !! l) then Ret EDEADLK w else Ret 0 (<[l := true]> w);
  pthread_spin_unlock l w := Ret 0 (<[l := false]> w);
  pthread_spin_destroy l w := Ret 0 (delete l w);
|}.

#[global] Instance laws : PthreadSpinLaws (gmap loc bool).
Proof.
  refine {| spin_holds := λ l w, default false (w !! l) |}; intros l w; unfold wp, wlp; simpl.
  - destruct (default false (w !! l)); [by right|]. left. by rewrite lookup_insert_eq.
  - intros _. by rewrite lookup_insert_eq.
Defined.
End Sim.

(** ** Properties *)

(** Locking a spin lock the thread does not hold, if it returns, acquires
    it with [OSAL_OK]; locking it again is answered with [OSAL_ERR_DEAD_LOCK];
    unlocking it then succeeds and the lock is no longer held. *)
Theorem osal_spinlock_cycle `{!Config} {W} `{!PthreadSpin W, !PthreadSpinLaws W} l (w : W) :
  spin_holds l w = false →
  wlp (r1 ← osal_spinlock_lock (Some l); r2 ← osal_spinlock_lock (Some l);
       r3 ← osal_spinlock_unlock (Some l); mret (r1, r2, r3))
      (λ r w', r = (OSAL_OK, OSAL_ERR_DEAD_LOCK, OSAL_OK) ∧ spin_holds l w' = false) w.
Proof.
  intros Hw.
  assert (∀ w, wlp (osal_spinlock_lock (Some l)) (λ r w',
      (r = OSAL_OK ∧ spin_holds l w = false ∧ spin_holds l w' = true) ∨
      (r = OSAL_ERR_DEAD_LOCK ∧ spin_holds l w = true ∧ w' = w)) w) as Hlock.
  { intros w0. unfold osal_spinlock_lock. apply wlp_bind, wlp_ret, wlp_bind.
    eapply wlp_mono; [apply spin_lock_law|]. intros r w' Hr. apply wlp_ret.
    destruct Hr as [(-> & ? & ?)|(-> & ? & ->)]; [by left|right]. split; [|done].
    by destruct LIBOSAL_HAVE_ENOTRECOVERABLE. }
  apply wlp_bind. eapply wlp_mono; [apply Hlock|]. intros r1 w1 [(-> & _ & H1)|(_ & H1 & _)]; [|congruence].
  apply wlp_bind. eapply wlp_mono; [apply Hlock|]. intros r2 w2 [(_ & H2 & _)|(-> & _ & ->)]; [congruence|].
  apply wlp_bind, wp_wlp. unfold osal_spinlock_unlock. apply wp_bind, wp_ret, wp_bind.
  eapply wp_mono; [by apply spin_unlock_law|]. intros r3 w3 [-> H3]. by apply wp_ret.
Qed.

Lemma osal_spinlock_cycle_witness :
  wlp (r1 ← @osal_spinlock_lock linux_config _ Sim.pthread (Some 1%positive);
       r2 ← @osal_spinlock_lock linux_config _ Sim.pthread (Some 1%positive);
       r3 ← osal_spinlock_unlock (Some 1%positive); mret (r1, r2, r3))
      (λ r w', r = (OSAL_OK, OSAL_ERR_DEAD_LOCK, OSAL_OK) ∧ spin_holds 1 w' = false) {[1%positive := false]}.
Proof.
  refine (@osal_spinlock_cycle linux_config _ Sim.pthread Sim.laws 1%positive _ _). reflexivity.
Defined.
