(* ===== verification/PosixSemaphore.v ===== *)
(** * POSIX counting semaphores: src/posix/semaphore.c

    The functions over [sem_...] of <semaphore.h>, the class [PosixSem]: a call
    returns its result with the value of [errno] after it. [sem_timedwait] takes
    an absolute CLOCK_REALTIME time, the library an absolute time of the
    configured clock: [osal_semaphore_timedwait] converts, by way of the
    functions of PosixTimer. *)

From S2P Require Import Prelude Osal Timer PosixTimer BinarySemaphore.

Definition OSAL_SEMAPHORE_ATTR__PROCESS_SHARED : Z := 0x00000020.

Class PosixSem (W : Type) := {
  sem_init : loc → Z → Z → C W (Z * Z);
  sem_post : loc → C W (Z * Z);
  sem_wait : loc → C W (Z * Z);
  sem_trywait : loc → C W (Z * Z);
  sem_timedwait : loc → timespec → C W (Z * Z);
  sem_destroy : loc → C W (Z * Z);
}.

Section semaphore.
Context {W : Type} `{!PosixTimeOS W, !PosixSem W}.

Definition osal_semaphore_init (sem : option loc) (attr : option Z) (initval : Z) : C W Z :=
  l ← assert_ptr sem;
  let pshared :=
    match attr with
    | Some attr =>
        if Z.land attr OSAL_SEMAPHORE_ATTR__PROCESS_SHARED =? OSAL_SEMAPHORE_ATTR__PROCESS_SHARED
        then 1 else 0
    | None => 0
    end in
  '(local_ret, _) ← sem_init l pshared initval;
  mret (if negb (local_ret =? 0) then
          if local_ret =? ENOSYS then OSAL_ERR_NOT_IMPLEMENTED else OSAL_ERR_INVALID_PARAM
        else OSAL_OK).

Definition osal_semaphore_post (sem : option loc) : C W Z :=
  l ← assert_ptr sem;
  '(local_ret, errno) ← sem_post l;
  mret (if negb (local_ret =? 0) then
          if errno =? EINVAL then OSAL_ERR_INVALID_PARAM else OSAL_ERR_OPERATION_FAILED
        else OSAL_OK).

Definition osal_semaphore_wait (sem : option loc) : C W Z :=
  l ← assert_ptr sem;
  '(local_ret, errno) ← sem_wait l;
  mret (if negb (local_ret =? 0) then
          if errno =? EINTR then OSAL_ERR_INTERRUPTED else OSAL_ERR_INVALID_PARAM
        else OSAL_OK).

Definition osal_semaphore_trywait (sem : option loc) : C W Z :=
  l ← assert_ptr sem;
  '(local_ret, errno) ← sem_trywait l;
  mret (if negb (local_ret =? 0) then
          if errno =? EAGAIN then OSAL_ERR_BUSY else OSAL_ERR_OPERATION_FAILED
        else OSAL_OK).

(** The part of [osal_semaphore_timedwait] before its loop: [ret] and [ts],
    which is not written when the time is already over. *)
Definition timedwait_deadline (to : osal_timer) : C W (Z * option timespec) :=
  id ← gets global_clock_id;
  if id =? CLOCK_REALTIME then
    mret (OSAL_OK, Some (mk_timespec (s64 (sec to)) (s64 (nsec to))))
  else
    let to_nsec := osal_timer_to_nsec to in
    act_nsec ← osal_timer_gettime_nsec;
    if to_nsec <? act_nsec then mret (OSAL_ERR_TIMEOUT, None)
    else
      '(_, ts) ← clock_gettime CLOCK_REALTIME;
      ts ← deref ts;
      let ts := mk_timespec (s64 (tv_sec ts + u64 (to_nsec - act_nsec) / NSEC_PER_SEC))
                            (s64 (tv_nsec ts + u64 (to_nsec - act_nsec) mod NSEC_PER_SEC)) in
      mret (OSAL_OK, Some (if NSEC_PER_SEC <? tv_nsec ts
                           then mk_timespec (tv_sec ts + 1) (tv_nsec ts - NSEC_PER_SEC)
                           else ts)).

(** One round of its [while (ret == OSAL_OK)]. *)
Definition timedwait_round (l : loc) (ts : timespec) (_ : unit) : C W (unit + Z) :=
  '(local_ret, local_errno) ← sem_timedwait l ts;
  mret (if local_ret =? 0 then inr OSAL_OK
        else if local_errno =? EINTR then inl tt
        else inr (if local_errno =? EINVAL then OSAL_ERR_INVALID_PARAM
                  else if local_errno =? ETIMEDOUT then OSAL_ERR_TIMEOUT
                  else OSAL_ERR_OPERATION_FAILED)).

Definition osal_semaphore_timedwait (fuel : nat) (sem : option loc) (to : option osal_timer) : C W Z :=
  l ← assert_ptr sem;
  to ← assert_ptr to;
  '(ret, ts) ← timedwait_deadline to;
  if ret =? OSAL_OK then ts ← deref ts; cloop fuel (timedwait_round l ts) tt
  else mret ret.

Definition osal_semaphore_destroy (sem : option loc) : C W Z :=
  l ← assert_ptr sem;
  '(local_ret, _) ← sem_destroy l;
  mret (if negb (local_ret =? 0) then OSAL_ERR_INVALID_PARAM else OSAL_OK).
End semaphore.

(** ** What POSIX promises

    [taken l w]: the units the calling thread has taken from the semaphore less
    those it has posted, which no other thread changes. A call that returns 0
    moves it by one, a call that fails does not. A timed wait ends or is
    interrupted by one of the signals to come; a nanosecond part out of range is
    refused when it has to wait ([up] says that it need not). *)
Class PosixSemLaws (W : Type) `{!PosixTimeOS W, !PosixSem W, !PosixTimeLaws W} := {
  taken : loc → W → Z;
  up : loc → W → bool;
  sem_post_law l w :
    wp (sem_post l) (λ r w', taken l w' = taken l w - (if r.1 =? 0 then 1 else 0)) w;
  sem_wait_law l w :
    wlp (sem_wait l) (λ r w', taken l w' = taken l w + (if r.1 =? 0 then 1 else 0)) w;
  sem_trywait_law l w :
    wp (sem_trywait l) (λ r w', taken l w' = taken l w + (if r.1 =? 0 then 1 else 0) ∧
                                (r.1 ≠ 0 → up l w = false → r.2 = EAGAIN)) w;
  sem_timedwait_law l ts w :
    wp (sem_timedwait l ts) (λ r w',
      taken l w' = taken l w + (if r.1 =? 0 then 1 else 0) ∧
      (r.1 ≠ 0 → r.2 = EINTR → (signals w' < signals w)%nat)) w;
  sem_timedwait_einval l ts w :
    tv_nsec ts < 0 ∨ NSEC_PER_SEC ≤ tv_nsec ts → up l w = false →
    wp (sem_timedwait l ts) (λ r _, r = (-1, EINVAL)) w;
}.

(** ** Lemmas *)

Section lemmas.
Context {W : Type} `{!PosixTimeOS W, !PosixSem W, !PosixTimeLaws W, !PosixSemLaws W}.
Implicit Types w : W.

Lemma timedwait_loop_spec l ts fuel w :
  (signals w < fuel)%nat →
  wp (cloop fuel (timedwait_round l ts) tt)
     (λ r w', taken l w' = taken l w + (if r =? OSAL_OK then 1 else 0)) w.
Proof.
  intros Hf. eapply wp_cloop with (m := λ _ w', signals w') (I := λ _ w', taken l w' = taken l w);
    [|done|exact Hf].
  intros [] w1 H1. unfold timedwait_round. apply wp_bind. eapply wp_mono; [apply sem_timedwait_law|].
  intros [r e] w2 [Ht Hs]. simpl in *. apply wp_ret.
  destruct (Z.eqb_spec r 0) as [->|Hr]; [by rewrite Ht, H1|].
  destruct (Z.eqb_spec e EINTR) as [->|He]; [split; [lia|auto]|].
  destruct (e =? EINVAL); [simpl; lia|]. destruct (e =? ETIMEDOUT); simpl; lia.
Qed.

(** Reading the configured clock, as nanoseconds. *)
Lemma gettime_nsec_spec w :
  supported (global_clock_id w) →
  wp osal_timer_gettime_nsec (λ n w',
    global_clock_id w' = global_clock_id w ∧ clock_time w ≤ clock_time w' ∧ in_uint 64 n ∧
    (0 ≤ clock_time w' < 2 ^ 64 → n = clock_time w')) w.
Proof.
  intros Hs. unfold osal_timer_gettime_nsec. apply wp_bind. eapply wp_mono; [by apply gettime_spec|].
  intros [r tmr] w' (Hid & Hle & Hr & Hval). simpl in *. rewrite Hr. apply wp_ret.
  split; [done|]. split; [done|]. simpl. split; [by apply uwrap_range|]. intros Hb.
  assert (clock_time w' < 2 ^ 64 * NSEC_PER_SEC) as Hb' by (unfold NSEC_PER_SEC; lia).
  destruct (Hval Hb') as [[Hs1 Hn] Ht]. unfold timer_total in Ht.
  rewrite uwrap_add_l, uwrap_id; [done|]. unfold in_uint. lia.
Qed.
End lemmas.

(** ** A concrete semaphore

    The clocks of PosixTimer's simulation, with counters next to them: what is
    in the semaphore, and what the thread has taken. *)
Module Sim.
Record world : Type := mk_world { timer : PosixTimer.Sim.world; avail : nat; mine : Z }.

Definition lift {A} (m : C PosixTimer.Sim.world A) : C world A := λ w,
  match m (timer w) with
  | Ret a t => Ret a (mk_world t (avail w) (mine w))
  | Aborted => Aborted
  | Undef => Undef
  | NoReturn => NoReturn
  end.

#[global] Instance os : PosixTimeOS world := {|
  global_clock_id w := global_clock_id (timer w);
  set_global_clock_id id w := mk_world (set_global_clock_id id (timer w)) (avail w) (mine w);
  clock_gettime id := lift (clock_gettime id);
  clock_nanosleep id flags ts := lift (clock_nanosleep id flags ts);
  perror s := lift (perror s);
|}.

Lemma lift_ret {A} (m : C PosixTimer.Sim.world A) a t w :
  m (timer w) = Ret a t → lift m w = Ret a (mk_world t (avail w) (mine w)).
Proof. intros H. unfold lift. by rewrite H. Qed.

#[global] Instance os_laws : PosixTimeLaws world.
Proof.
  refine {| supported := λ id, @supported _ _ PosixTimer.Sim.laws id;
            time_of := λ id w, @time_of _ _ PosixTimer.Sim.laws id (timer w);
            signals := λ w, @signals _ _ PosixTimer.Sim.laws (timer w) |}.
  - intros id w Hs. destruct (clock_gettime_law id (timer w) Hs) as (ts & t & H & ?).
    exists ts, (mk_world t (avail w) (mine w)). split; [|done]. by apply lift_ret.
  - intros id ts w Hs Hts. destruct (nanosleep_rel_law id ts (timer w) Hs Hts) as (r & rest & t & H & ?).
    exists r, rest, (mk_world t (avail w) (mine w)). split; [|done]. by apply lift_ret.
  - intros id ts w Hs Hts. destruct (nanosleep_abs_law id ts (timer w) Hs Hts) as (r & rest & t & H & ?).
    exists r, rest, (mk_world t (avail w) (mine w)). split; [|done]. by apply lift_ret.
  - intros id flags ts w Hbad. destruct (nanosleep_einval_law id flags ts (timer w) Hbad) as (rest & t & H).
    exists rest, (mk_world t (avail w) (mine w)). by apply lift_ret.
Defined.

Definition take_one (w : world) : world := mk_world (timer w) (pred (avail w)) (mine w + 1).

#[global] Instance sem : PosixSem world := {|
  sem_init _ _ v w := Ret (0, 0) (mk_world (timer w) (Z.to_nat v) (mine w));
  sem_post _ w := Ret (0, 0) (mk_world (timer w) (S (avail w)) (mine w - 1));
  sem_wait _ w := if Nat.eqb (avail w) 0 then NoReturn else Ret (0, 0) (take_one w);
  sem_trywait _ w := if Nat.eqb (avail w) 0 then Ret (-1, EAGAIN) w else Ret (0, 0) (take_one w);
  sem_timedwait _ ts w :=
    if Nat.eqb (avail w) 0 then
      if (tv_nsec ts <? 0) || (NSEC_PER_SEC <=? tv_nsec ts) then Ret (-1, EINVAL) w
      else Ret (-1, ETIMEDOUT) w
    else Ret (0, 0) (take_one w);
  sem_destroy _ w := Ret (0, 0) w;
|}.

#[global] Instance laws : PosixSemLaws world.
Proof.
  refine {| taken := λ _, mine; up := λ _ w, negb (Nat.eqb (avail w) 0) |}; intros l.
  - intros w. unfold wp. simpl. lia.
  - intros w. unfold wlp. simpl. destruct (Nat.eqb (avail w) 0); simpl; (done || lia).
  - intros w. unfold wp. simpl. destruct (Nat.eqb (avail w) 0); simpl; split; (done || lia).
  - intros ts w. unfold wp. simpl. destruct (Nat.eqb (avail w) 0); simpl; [|split; [lia|done]].
    destruct ((tv_nsec ts <? 0) || (NSEC_PER_SEC <=? tv_nsec ts)); simpl; split; (done || lia).
  - intros ts w Hbad. unfold wp. simpl. destruct (Nat.eqb (avail w) 0); simpl; [|done].
    destruct (Z.ltb_spec (tv_nsec ts) 0), (Z.leb_spec NSEC_PER_SEC (tv_nsec ts)); simpl; done || lia.
Defined.
End Sim.

(** ** Properties *)

(** (C30) Counting: post, wait, trywait and timedwait return [OSAL_OK] exactly
    when the calling thread has given, or taken, one unit; with every other
    result it has not. [osal_semaphore_timedwait] returns, given more rounds
    than there are signals to interrupt it. *)
Theorem osal_semaphore_counts {W} `{!PosixTimeOS W, !PosixSem W, !PosixTimeLaws W, !PosixSemLaws W}
    l (w : W) :
  let moved (n : Z) r w' := taken l w' = taken l w + (if r =? OSAL_OK then n else 0) in
  wp (osal_semaphore_post (Some l)) (moved (-1)) w ∧
  wlp (osal_semaphore_wait (Some l)) (moved 1) w ∧
  wp (osal_semaphore_trywait (Some l))
     (λ r w', moved 1 r w' ∧ (up l w = false → r = OSAL_OK ∨ r = OSAL_ERR_BUSY)) w ∧
  ∀ ts fuel, (signals w < fuel)%nat → wp (cloop fuel (timedwait_round l ts) tt) (moved 1) w.
Proof.
  intros moved. split; [|split; [|split]].
  - unfold osal_semaphore_post. apply wp_bind, wp_ret, wp_bind. eapply wp_mono; [apply sem_post_law|].
    intros [r e] w' Hr. simpl in Hr. apply wp_ret. unfold moved. rewrite Hr.
    destruct (r =? 0); simpl; [lia|]. destruct (e =? EINVAL); simpl; lia.
  - unfold osal_semaphore_wait. apply wlp_bind, wlp_ret, wlp_bind. eapply wlp_mono; [apply sem_wait_law|].
    intros [r e] w' Hr. simpl in Hr. apply wlp_ret. unfold moved. rewrite Hr.
    destruct (r =? 0); simpl; [lia|]. destruct (e =? EINTR); simpl; lia.
  - unfold osal_semaphore_trywait. apply wp_bind, wp_ret, wp_bind. eapply wp_mono; [apply sem_trywait_law|].
    intros [r e] w' [Hr Hup]. simpl in Hr, Hup. apply wp_ret. unfold moved. rewrite Hr.
    destruct (Z.eqb_spec r 0) as [->|Hr0]; simpl; [split; [lia|by left]|].
    destruct (Z.eqb_spec e EAGAIN) as [->|He]; simpl; (split; [lia|auto]). intros Hu.
    destruct He. by apply Hup.
  - intros ts fuel Hf. by apply timedwait_loop_spec.
Qed.

Lemma osal_semaphore_counts_witness :
  wp (cloop 1 (timedwait_round 1 (mk_timespec 5 0)) tt)
     (λ r w', Sim.mine w' = 0 + (if r =? OSAL_OK then 1 else 0))
     (Sim.mk_world (PosixTimer.Sim.mk_world CLOCK_MONOTONIC 7 0) 1 0).
Proof.
  refine (proj2 (proj2 (proj2 (osal_semaphore_counts 1%positive
    (Sim.mk_world (PosixTimer.Sim.mk_world CLOCK_MONOTONIC 7 0) 1 0)))) (mk_timespec 5 0) 1%nat _).
  simpl. lia.
Defined.



(** (C31) When the nanosecond parts add up to exactly one second the carry is
    skipped (the test is [>], not [>=]), [sem_timedwait] refuses the time, and
    the caller, who passed a well-formed time-out in the future, gets
    [OSAL_ERR_INVALID_PARAM] instead of a wait. *)
Theorem osal_semaphore_timedwait_full_second
    {W} `{!PosixTimeOS W, !PosixSem W, !PosixTimeLaws W, !PosixSemLaws W} l (w w1 w2 : W) to act ts fuel :
  global_clock_id w ≠ CLOCK_REALTIME →
  osal_timer_gettime_nsec w = Ret act w1 → clock_gettime CLOCK_REALTIME w1 = Ret (0, Some ts) w2 →
  act ≤ osal_timer_to_nsec to →
  tv_nsec ts + u64 (osal_timer_to_nsec to - act) mod NSEC_PER_SEC = NSEC_PER_SEC →
  up l w2 = false →
  wp (osal_semaphore_timedwait (S fuel) (Some l) (Some to)) (λ r _, r = OSAL_ERR_INVALID_PARAM) w.
Proof.
  intros Hid Hact Hrt Hle Hsum Hup. unfold osal_semaphore_timedwait. apply wp_bind, wp_ret, wp_bind, wp_ret, wp_bind.
  unfold timedwait_deadline. apply wp_bind. unfold wp at 1, gets at 1. apply Z.eqb_neq in Hid as ->.
  apply wp_bind. unfold wp at 1. rewrite Hact. destruct (Z.ltb_spec (osal_timer_to_nsec to) act); [lia|].
  apply wp_bind. unfold wp at 1. rewrite Hrt. apply wp_bind, wp_ret, wp_ret. rewrite Hsum.
  apply wp_bind, wp_ret. apply wp_bind. unfold timedwait_round. apply wp_bind.
  eapply wp_mono; [apply sem_timedwait_einval; [right|exact Hup]|]; [done|].
  intros [r e] w' [= -> ->]. apply wp_ret, wp_ret. done.
Qed.

Lemma osal_semaphore_timedwait_full_second_witness :
  wp (osal_semaphore_timedwait 1 (Some 1%positive) (Some (mk_timer 1 0))) (λ r _, r = OSAL_ERR_INVALID_PARAM)
     (Sim.mk_world (PosixTimer.Sim.mk_world CLOCK_MONOTONIC 700000000 0) 0 0).
Proof.
  refine (osal_semaphore_timedwait_full_second 1%positive
    (Sim.mk_world (PosixTimer.Sim.mk_world CLOCK_MONOTONIC 700000000 0) 0 0)
    (Sim.mk_world (PosixTimer.Sim.mk_world CLOCK_MONOTONIC 700000000 0) 0 0)
    (Sim.mk_world (PosixTimer.Sim.mk_world CLOCK_MONOTONIC 700000000 0) 0 0)
    (mk_timer 1 0) 700000000 (mk_timespec 0 700000000) 0 _ _ _ _ _ _); discriminate || reflexivity.
Defined.

(** [sem_init] reports every failure with -1, which is not [ENOSYS]: a
    platform without the call is answered with [OSAL_ERR_INVALID_PARAM], and
    [OSAL_ERR_NOT_IMPLEMENTED] is never returned. *)
Theorem osal_semaphore_init_never_not_implemented {W} `{!PosixSem W} sem attr v (w : W) :
  (∀ l p v w, wp (sem_init l p v) (λ r _, r.1 = 0 ∨ r.1 = -1) w) →
  wp (osal_semaphore_init (Some sem) attr v) (λ r _, r = OSAL_OK ∨ r = OSAL_ERR_INVALID_PARAM) w.
Proof.
  intros Hinit. unfold osal_semaphore_init. apply wp_bind, wp_ret, wp_bind.
  eapply wp_mono; [apply Hinit|]. intros [r e] w' [Hr|Hr]; simpl in Hr; subst r; apply wp_ret; auto.
Qed.

Lemma osal_semaphore_init_never_not_implemented_witness :
  wp (osal_semaphore_init (Some 1%positive) (Some 0x20) 3) (λ r _, r = OSAL_OK ∨ r = OSAL_ERR_INVALID_PARAM)
     (Sim.mk_world (PosixTimer.Sim.mk_world CLOCK_MONOTONIC 0 0) 0 0).
Proof.
  refine (osal_semaphore_init_never_not_implemented 1%positive (Some 0x20) 3 _ _).
  intros l p v w. by left.
Defined.
