(* ===== verification/PosixCondvar.v ===== *)
(** * POSIX condition variables: src/posix/condvar.c

    The functions over [pthread_cond_...], the class [PthreadCond]. The local
    [pthread_condattr_t] is the clock it selects. The laws count the times a
    wait was woken, spurious wake-ups included ([woken]): that is what tells
    OSAL_OK from a time-out. *)

From S2P Require Import Prelude Osal Timer PosixTimer BinarySemaphore.

Class PthreadCond (W : Type) := {
  pthread_condattr_init : C W Z;
  pthread_condattr_setclock : Z → C W Z;
  pthread_condattr_destroy : C W Z;
  pthread_cond_init : loc → Z → C W Z;
  pthread_cond_signal : loc → C W Z;
  pthread_cond_broadcast : loc → C W Z;
  pthread_cond_wait : loc → loc → C W Z;
  pthread_cond_timedwait : loc → loc → timespec → C W Z;
  pthread_cond_destroy : loc → C W Z;
}.

Section condvar.
Context {W : Type} `{!PosixTimeOS W, !PthreadCond W}.

Definition osal_condvar_init (cv : option loc) (attr : option Z) : C W Z :=
  l ← assert_ptr cv;
  local_ret ← pthread_condattr_init;
  if negb (local_ret =? 0) then mret OSAL_ERR_OUT_OF_MEMORY
  else
    clk ← osal_timer_get_clock_source;
    local_ret ← pthread_condattr_setclock clk;
    ret ←
      (if negb (local_ret =? 0) then mret OSAL_ERR_INVALID_PARAM
       else
         local_ret ← pthread_cond_init l clk;
         mret (if negb (local_ret =? 0) then
                 switch local_ret
                   [(EAGAIN, OSAL_ERR_UNAVAILABLE); (ENOMEM, OSAL_ERR_OUT_OF_MEMORY);
                    (EBUSY, OSAL_ERR_BUSY); (EINVAL, OSAL_ERR_INVALID_PARAM)]
                   OSAL_ERR_OPERATION_FAILED
               else OSAL_OK));
    _ ← pthread_condattr_destroy;
    mret ret.

Definition osal_condvar_signal (cv : option loc) : C W Z :=
  l ← assert_ptr cv;
  local_ret ← pthread_cond_signal l;
  mret (if negb (local_ret =? 0) then OSAL_ERR_INVALID_PARAM else OSAL_OK).

Definition osal_condvar_broadcast (cv : option loc) : C W Z :=
  l ← assert_ptr cv;
  local_ret ← pthread_cond_broadcast l;
  mret (if negb (local_ret =? 0) then OSAL_ERR_INVALID_PARAM else OSAL_OK).

(** The mutex pointer is not checked; a null one is handed to pthreads. *)
Definition osal_condvar_wait (cv mtx : option loc) : C W Z :=
  l ← assert_ptr cv;
  m ← deref mtx;
  _ ← pthread_cond_wait l m;
  mret OSAL_OK.

(** One round of the [do ... while (local_ret != 0)], on the local [ret]. *)
Definition condvar_timedwait_round (l m : loc) (ts : timespec) (ret : Z) : C W (Z + Z) :=
  local_ret ← pthread_cond_timedwait l m ts;
  mret (if local_ret =? ETIMEDOUT then inr OSAL_ERR_TIMEOUT
        else
          let ret := if local_ret =? EINVAL then OSAL_ERR_INVALID_PARAM
                     else if local_ret =? EPERM then OSAL_ERR_PERMISSION_DENIED
                     else ret in
          if negb (local_ret =? 0) then inl ret else inr ret).

Definition osal_condvar_timedwait (fuel : nat) (cv mtx : option loc) (to : option osal_timer) : C W Z :=
  l ← assert_ptr cv;
  m ← assert_ptr mtx;
  to ← assert_ptr to;
  let ts := mk_timespec (s64 (sec to)) (s64 (nsec to)) in
  cloop fuel (condvar_timedwait_round l m ts) OSAL_OK.

Definition osal_condvar_destroy (cv : option loc) : C W Z :=
  l ← assert_ptr cv;
  local_ret ← pthread_cond_destroy l;
  mret (if negb (local_ret =? 0) then OSAL_ERR_BUSY else OSAL_OK).
End condvar.

(** ** What POSIX promises

    Of a condition variable in use, with a valid time and the mutex held, which
    is not robust: it keeps the clock it was initialised with; a timed wait
    returns 0 when the thread has been woken, and [ETIMEDOUT] when that clock
    has reached the time first. Every wait returns with the mutex held again.
    [woken l w]: how often the thread has been woken, signalled or not, from
    waiting for [l]. *)
Class PthreadCondLaws (W : Type) `{!PosixTimeOS W, !PthreadCond W, !PosixTimeLaws W} := {
  cond_clock : loc → W → option Z;
  holding : loc → W → bool;
  robust : loc → W → bool;
  woken : loc → W → nat;
  condattr_init_law w : wlp pthread_condattr_init (λ _ w', global_clock_id w' = global_clock_id w) w;
  condattr_setclock_law c w : wlp (pthread_condattr_setclock c) (λ _ w', global_clock_id w' = global_clock_id w) w;
  condattr_destroy_law w l : wlp pthread_condattr_destroy (λ _ w',
    global_clock_id w' = global_clock_id w ∧ cond_clock l w' = cond_clock l w) w;
  cond_init_law l c w : wlp (pthread_cond_init l c) (λ r w',
    global_clock_id w' = global_clock_id w ∧ (r = 0 → cond_clock l w' = Some c)) w;
  cond_timedwait_law l m ts c w :
    cond_clock l w = Some c → holding m w = true → robust m w = false → timespec_wf ts →
    wp (pthread_cond_timedwait l m ts) (λ r w', holding m w' = true ∧ cond_clock l w' = Some c ∧
      ((r = 0 ∧ woken l w' = S (woken l w)) ∨
       (r = ETIMEDOUT ∧ woken l w' = woken l w ∧ timespec_total ts ≤ time_of c w'))) w;
  cond_timedwait_eperm l m ts w :
    holding m w = false → wp (pthread_cond_timedwait l m ts) (λ r w', r = EPERM ∧ holding m w' = false) w;
}.

(** ** A concrete condition variable

    Over the clocks of PosixTimer's simulation: somebody signals at the times in
    [signalled], and a timed wait sleeps until then or until its time; a calling
    thread holds the mutexes in [held]. *)
Module Sim.
Record world : Type := mk_world {
  timer : PosixTimer.Sim.world;
  clocks : gmap loc Z;
  held : gset loc;
  signalled : list Z;
  wakes : nat;
}.

Definition set_timer (w : world) (t : PosixTimer.Sim.world) : world :=
  mk_world t (clocks w) (held w) (signalled w) (wakes w).
Definition set_clocks (w : world) (c : gmap loc Z) : world :=
  mk_world (timer w) c (held w) (signalled w) (wakes w).

(** Sleeping until [t]. *)
Definition asleep (w : world) (t : Z) : PosixTimer.Sim.world :=
  PosixTimer.Sim.mk_world (PosixTimer.Sim.clk (timer w)) (N.max (PosixTimer.Sim.now (timer w)) (Z.to_N t))
    (PosixTimer.Sim.sigs (timer w)).

Definition lift {A} (m : C PosixTimer.Sim.world A) : C world A := λ w,
  match m (timer w) with
  | Ret a t => Ret a (set_timer w t)
  | Aborted => Aborted
  | Undef => Undef
  | NoReturn => NoReturn
  end.

#[global] Instance os : PosixTimeOS world := {|
  global_clock_id w := global_clock_id (timer w);
  set_global_clock_id id w := set_timer w (set_global_clock_id id (timer w));
  clock_gettime id := lift (clock_gettime id);
  clock_nanosleep id flags ts := lift (clock_nanosleep id flags ts);
  perror s := lift (perror s);
|}.

Lemma cv_lift_ret {A} (m : C PosixTimer.Sim.world A) a t w :
  m (timer w) = Ret a t → lift m w = Ret a (set_timer w t).
Proof. intros H. unfold lift. by rewrite H. Qed.

#[global] Instance os_laws : PosixTimeLaws world.
Proof.
  refine {| supported := λ id, @supported _ _ PosixTimer.Sim.laws id;
            time_of := λ id w, @time_of _ _ PosixTimer.Sim.laws id (timer w);
            signals := λ w, @signals _ _ PosixTimer.Sim.laws (timer w) |}.
  - intros id w Hs. destruct (clock_gettime_law id (timer w) Hs) as (ts & t & H & ?).
    exists ts, (set_timer w t). split; [|done]. by apply cv_lift_ret.
  - intros id ts w Hs Hts. destruct (nanosleep_rel_law id ts (timer w) Hs Hts) as (r & rest & t & H & ?).
    exists r, rest, (set_timer w t). split; [|done]. by apply cv_lift_ret.
  - intros id ts w Hs Hts. destruct (nanosleep_abs_law id ts (timer w) Hs Hts) as (r & rest & t & H & ?).
    exists r, rest, (set_timer w t). split; [|done]. by apply cv_lift_ret.
  - intros id flags ts w Hbad. destruct (nanosleep_einval_law id flags ts (timer w) Hbad) as (rest & t & H).
    exists rest, (set_timer w t). by apply cv_lift_ret.
Defined.

#[global] Instance cond : PthreadCond world := {|
  pthread_condattr_init := mret 0;
  pthread_condattr_setclock _ := mret 0;
  pthread_condattr_destroy := mret 0;
  pthread_cond_init l c w := Ret 0 (set_clocks w (<[l := c]> (clocks w)));
  pthread_cond_signal _ := mret 0;
  pthread_cond_broadcast _ := mret 0;
  pthread_cond_wait _ _ := no_return;
  pthread_cond_timedwait l m ts w :=
    if bool_decide (m ∈ held w) then
      match signalled w with
      | t :: ts' =>
          if t <? timespec_total ts
          then Ret 0 (mk_world (asleep w t) (clocks w) (held w) ts' (S (wakes w)))
          else Ret ETIMEDOUT (set_timer w (asleep w (timespec_total ts)))
      | [] => Ret ETIMEDOUT (set_timer w (asleep w (timespec_total ts)))
      end
    else Ret EPERM w;
  pthread_cond_destroy l w := Ret 0 (set_clocks w (delete l (clocks w)));
|}.

Lemma asleep_time c w ts : timespec_wf ts → timespec_total ts ≤ time_of c (set_timer w (asleep w (timespec_total ts))).
Proof.
  intros [Hs Hn]. unfold time_of. simpl. unfold timespec_total, NSEC_PER_SEC in *.
  rewrite N2Z.inj_max, Z2N.id by lia. lia.
Qed.

#[global] Instance laws : PthreadCondLaws world.
Proof.
  refine {| cond_clock := λ l w, clocks w !! l; holding := λ m w, bool_decide (m ∈ held w);
            robust := λ _ _, false; woken := λ _ w, wakes w |}; try done.
  - intros l c w. unfold wlp. simpl. split; [done|]. intros _. apply lookup_insert_eq.
  - intros l m ts c w Hc Hm _ Hts. unfold wp. simpl. rewrite Hm.
    destruct (signalled w) as [|t ts']; [|destruct (t <? timespec_total ts)]; (split; [done|]; split; [done|]);
      [right|by left|right]; (split; [done|]; split; [done|]; by apply (asleep_time c)).
  - intros l m ts w Hm. unfold wp. simpl. by rewrite Hm.
Defined.

Definition world1 : world := mk_world (PosixTimer.Sim.mk_world CLOCK_MONOTONIC 7 0) ∅ {[2%positive]} [2000000000] 0.
End Sim.

(** ** Properties *)

Section properties.
Context {W : Type} `{!PosixTimeOS W, !PthreadCond W, !PosixTimeLaws W, !PthreadCondLaws W}.

(** When [osal_condvar_init] returns [OSAL_OK] the condition variable runs
    on the clock configured in the library, the one its time-outs are given in. *)
Theorem osal_condvar_init_clock l attr (w : W) :
  wlp (osal_condvar_init (Some l) attr) (λ r w',
    global_clock_id w' = global_clock_id w ∧
    (r = OSAL_OK → cond_clock l w' = Some (global_clock_id w))) w.
Proof.
  unfold osal_condvar_init. apply wlp_bind, wlp_ret, wlp_bind.
  eapply wlp_mono; [apply condattr_init_law|]. intros r w1 H1.
  destruct (r =? 0); simpl; [|by apply wlp_ret].
  apply wlp_bind. unfold wlp at 1. simpl. apply wlp_bind.
  eapply wlp_mono; [apply condattr_setclock_law|]. intros r2 w2 H2. apply wlp_bind.
  eapply wlp_mono with (P := λ r w', global_clock_id w' = global_clock_id w ∧
    (r = OSAL_OK → cond_clock l w' = Some (global_clock_id w))).
  { destruct (r2 =? 0); simpl; [|apply wlp_ret; split; [congruence|done]].
    apply wlp_bind. eapply wlp_mono; [apply cond_init_law|]. intros r3 w3 [H3 Hc].
    apply wlp_ret. split; [congruence|]. rewrite H1 in Hc. intros Hr.
    apply Hc. revert Hr. switch_cases. }
  intros r3 w3 [H3 Hc]. apply wlp_bind. eapply wlp_mono; [apply (condattr_destroy_law w3 l)|].
  intros ? w4 [H4 Hl]. apply wlp_ret. rewrite H4, Hl. done.
Qed.

(** (C34) A timed wait with a mutex that is held and not robust and a well-formed
    time returns with the mutex held: with [OSAL_OK] if the thread has been
    woken, once, and with [OSAL_ERR_TIMEOUT] if it has not, and then not before
    the time on the condition's clock. One round is enough. *)
Theorem osal_condvar_timedwait_waits l m to c (w : W) fuel :
  cond_clock l w = Some c → holding m w = true → robust m w = false → timer_wf to → sec to < 2 ^ 63 →
  wp (osal_condvar_timedwait (S fuel) (Some l) (Some m) (Some to)) (λ r w', holding m w' = true ∧
    ((r = OSAL_OK ∧ woken l w' = S (woken l w)) ∨
     (r = OSAL_ERR_TIMEOUT ∧ woken l w' = woken l w ∧ timer_total to ≤ time_of c w'))) w.
Proof.
  intros Hc Hm Hrob [Hs Hn] H63. unfold osal_condvar_timedwait. apply wp_bind, wp_ret, wp_bind, wp_ret, wp_bind, wp_ret.
  unfold in_uint, NSEC_PER_SEC in *. rewrite !swrap_id by (unfold in_sint; lia).
  simpl. apply wp_bind. unfold condvar_timedwait_round at 1. apply wp_bind.
  eapply wp_mono; [apply cond_timedwait_law; [done..|]|].
  { unfold timespec_wf, NSEC_PER_SEC. simpl. lia. }
  intros r w' (Hm' & _ & [[-> Hw]|(-> & Hw & Ht)]); apply wp_ret, wp_ret; auto.
Qed.

(** Called without the mutex, [pthread_cond_timedwait] answers [EPERM]
    every time, and [osal_condvar_timedwait], which repeats the call on every
    error, never returns. *)
Theorem osal_condvar_timedwait_eperm l m to (w : W) fuel :
  holding m w = false → osal_condvar_timedwait fuel (Some l) (Some m) (Some to) w = NoReturn.
Proof.
  intros Hm. unfold osal_condvar_timedwait. do 3 erewrite bind_run by done.
  apply (cloop_diverges (λ _ w, holding m w = false)); [|done]. intros ret w1 H1.
  destruct (wp_ret_inv _ _ _ (cond_timedwait_eperm l m (mk_timespec (s64 (sec to)) (s64 (nsec to))) w1 H1))
    as (r & w2 & Hr & -> & H2).
  exists OSAL_ERR_PERMISSION_DENIED, w2. split; [|done].
  unfold condvar_timedwait_round. erewrite bind_run by exact Hr. done.
Qed.
End properties.

Lemma osal_condvar_init_clock_witness :
  wlp (osal_condvar_init (Some 1%positive) None) (λ r w',
    global_clock_id w' = CLOCK_MONOTONIC ∧ (r = OSAL_OK → cond_clock 1 w' = Some CLOCK_MONOTONIC)) Sim.world1.
Proof. exact (osal_condvar_init_clock 1%positive None Sim.world1). Defined.

(** Nobody signals before 2 s: a wait until 1 s times out, one until 3 s is
    woken. *)
Lemma osal_condvar_timedwait_waits_witness :
  let w := Sim.set_clocks Sim.world1 {[1%positive := CLOCK_MONOTONIC]} in
  let result to r w' := holding 2 w' = true ∧
    ((r = OSAL_OK ∧ woken 1 w' = 1%nat) ∨
     (r = OSAL_ERR_TIMEOUT ∧ woken 1 w' = 0%nat ∧ to ≤ time_of CLOCK_MONOTONIC w')) in
  wp (osal_condvar_timedwait 1 (Some 1%positive) (Some 2%positive) (Some (mk_timer 1 5))) (result 1000000005) w ∧
  wp (osal_condvar_timedwait 1 (Some 1%positive) (Some 2%positive) (Some (mk_timer 3 0))) (λ r _, r = OSAL_OK) w.
Proof.
  intros w result. split.
  - refine (osal_condvar_timedwait_waits 1%positive 2%positive (mk_timer 1 5) CLOCK_MONOTONIC w 0 _ _ _ _ _);
      try reflexivity.
    unfold timer_wf, in_uint, NSEC_PER_SEC; simpl; lia.
  - reflexivity.
Defined.

Lemma osal_condvar_timedwait_eperm_witness :
  osal_condvar_timedwait 1000 (Some 1%positive) (Some 3%positive) (Some (mk_timer 1 5)) Sim.world1 = NoReturn.
Proof. refine (osal_condvar_timedwait_eperm 1%positive 3%positive (mk_timer 1 5) Sim.world1 1000 _). reflexivity. Defined.
