(* ===== verification/PosixShm.v ===== *)
(** * POSIX shared memory: src/posix/shm.c

    The functions over shm_open, fstat, ftruncate, mmap and close, the class
    [PosixShmOS]; a call returns its result with the value of [errno] after it.
    The handle [osal_shm_t] is passed and returned. *)

From S2P Require Import Prelude Osal BinarySemaphore.

(** ** include/libosal/shm.h and posix/shm.h *)

Definition OSAL_SHM_ATTR__FLAG__MASK : Z := 0x0000003F.
Definition OSAL_SHM_ATTR__FLAG__RDONLY : Z := 0x00000001.
Definition OSAL_SHM_ATTR__FLAG__RDWR : Z := 0x00000002.
Definition OSAL_SHM_ATTR__FLAG__CREAT : Z := 0x00000004.
Definition OSAL_SHM_ATTR__FLAG__EXCL : Z := 0x00000008.
Definition OSAL_SHM_ATTR__FLAG__TRUNC : Z := 0x00000010.
Definition OSAL_SHM_ATTR__MODE__MASK : Z := 0xFFFF0000.
Definition OSAL_SHM_ATTR__MODE__SHIFT : Z := 16.
Definition OSAL_SHM_MAP_ATTR__PROT_EXEC : Z := 0x00000001.
Definition OSAL_SHM_MAP_ATTR__PROT_READ : Z := 0x00000002.
Definition OSAL_SHM_MAP_ATTR__PROT_WRITE : Z := 0x00000004.
Definition OSAL_SHM_MAP_ATTR__PROT_NONE : Z := 0x00000008.
Definition OSAL_SHM_MAP_ATTR__SHARED : Z := 0x00000100.
Definition OSAL_SHM_MAP_ATTR__PRIVATE : Z := 0x00000200.

Record osal_shm_t : Type := mk_shm { fd : Z; size : Z }.

(** <fcntl.h> and <sys/mman.h> on Linux. *)
Definition O_RDONLY : Z := 0.
Definition O_RDWR : Z := 2.
Definition O_CREAT : Z := 0x40.
Definition O_EXCL : Z := 0x80.
Definition O_TRUNC : Z := 0x200.
Definition PROT_NONE : Z := 0.
Definition PROT_READ : Z := 1.
Definition PROT_WRITE : Z := 2.
Definition PROT_EXEC : Z := 4.
Definition MAP_SHARED : Z := 1.
Definition MAP_PRIVATE : Z := 2.

(** [fstat] gives the size, or [None] when it fails and writes nothing; [mmap]
    gives the address, or [None] for MAP_FAILED. *)
Class PosixShmOS (W : Type) := {
  shm_open : list Z → Z → Z → C W (Z * Z);
  fstat_size : Z → C W (option Z);
  ftruncate : Z → Z → C W Z;
  mmap : Z → Z → Z → Z → C W (option loc * Z);
  close : Z → C W Z;
}.

Section shm.
Context {W : Type} `{!PosixShmOS W}.

Definition shm_oflag (attr : Z) : Z :=
  let attr_flags := Z.land attr OSAL_SHM_ATTR__FLAG__MASK in
  or_if (has attr_flags OSAL_SHM_ATTR__FLAG__TRUNC) O_TRUNC
  (or_if (has attr_flags OSAL_SHM_ATTR__FLAG__EXCL) O_EXCL
  (or_if (has attr_flags OSAL_SHM_ATTR__FLAG__CREAT) O_CREAT
  (or_if (has attr_flags OSAL_SHM_ATTR__FLAG__RDWR) O_RDWR
  (or_if (has attr_flags OSAL_SHM_ATTR__FLAG__RDONLY) O_RDONLY 0)))).

Definition shm_mode (attr : Z) : Z :=
  Z.shiftr (Z.land attr OSAL_SHM_ATTR__MODE__MASK) OSAL_SHM_ATTR__MODE__SHIFT.

(** The [switch] on [errno] has no default; [ret] is still [OSAL_OK]. *)
Definition osal_shm_open (shm : option osal_shm_t) (name : option (list Z)) (attr : option Z) (sz : Z) :
    C W (Z * osal_shm_t) :=
  shm ← assert_ptr shm;
  name ← assert_ptr name;
  let mode := match attr with Some attr => shm_mode attr | None => 0 end in
  let oflag := match attr with Some attr => shm_oflag attr | None => 0 end in
  '(local_retval, errno) ← shm_open name oflag mode;
  if 0 <? local_retval then
    st_size ← fstat_size local_retval;
    st_size ← deref st_size;
    if 0 <? st_size then mret (OSAL_OK, mk_shm local_retval st_size)
    else
      r ← ftruncate local_retval (s64 sz);
      mret (if negb (r =? 0) then OSAL_ERR_OPERATION_FAILED else OSAL_OK, mk_shm local_retval sz)
  else
    mret (switch errno
            [(EACCES, OSAL_ERR_PERMISSION_DENIED); (EEXIST, OSAL_ERR_OPERATION_FAILED);
             (EINVAL, OSAL_ERR_INVALID_PARAM); (EMFILE, OSAL_ERR_SYSTEM_LIMIT_REACHED);
             (ENAMETOOLONG, OSAL_ERR_INVALID_PARAM); (ENOENT, OSAL_ERR_NOT_FOUND)]
            OSAL_OK, shm).

Definition map_prot (attr : Z) : Z :=
  or_if (has attr OSAL_SHM_MAP_ATTR__PROT_NONE) PROT_NONE
  (or_if (has attr OSAL_SHM_MAP_ATTR__PROT_WRITE) PROT_WRITE
  (or_if (has attr OSAL_SHM_MAP_ATTR__PROT_READ) PROT_READ
  (or_if (has attr OSAL_SHM_MAP_ATTR__PROT_EXEC) PROT_EXEC 0))).

Definition map_flags (attr : Z) : Z :=
  or_if (has attr OSAL_SHM_MAP_ATTR__PRIVATE) MAP_PRIVATE
  (or_if (has attr OSAL_SHM_MAP_ATTR__SHARED) MAP_SHARED 0).

(** [ptr] is the address of the pointer to set. *)
Definition osal_shm_map (shm : option osal_shm_t) (attr : option Z) (ptr : option unit) :
    C W (Z * option loc) :=
  shm ← assert_ptr shm;
  _ ← assert_ptr ptr;
  let prot := match attr with Some attr => map_prot attr | None => 0 end in
  let flags := match attr with Some attr => map_flags attr | None => 0 end in
  '(p, errno) ← mmap (size shm) prot flags (fd shm);
  mret (match p with
        | Some _ => OSAL_OK
        | None => switch errno
            [(EACCES, OSAL_ERR_PERMISSION_DENIED); (EAGAIN, OSAL_ERR_OPERATION_FAILED);
             (EBADF, OSAL_ERR_INVALID_PARAM); (EEXIST, OSAL_ERR_INVALID_PARAM);
             (EINVAL, OSAL_ERR_INVALID_PARAM); (ENFILE, OSAL_ERR_SYSTEM_LIMIT_REACHED);
             (ENODEV, OSAL_ERR_NOT_IMPLEMENTED); (ENOMEM, OSAL_ERR_OUT_OF_MEMORY);
             (EOVERFLOW, OSAL_ERR_OPERATION_FAILED); (EPERM, OSAL_ERR_PERMISSION_DENIED);
             (ETXTBSY, OSAL_ERR_PERMISSION_DENIED)]
            OSAL_ERR_OPERATION_FAILED
        end, p).

Definition osal_shm_close (shm : option osal_shm_t) : C W Z :=
  shm ← assert_ptr shm;
  _ ← close (fd shm);
  mret OSAL_OK.
End shm.

(** ** What POSIX promises

    [seg_size f w]: the size of the object behind the open descriptor [f]. *)
Class PosixShmLaws (W : Type) `{!PosixShmOS W} := {
  seg_size : Z → W → option Z;
  shm_open_law name oflag mode w :
    wp (shm_open name oflag mode) (λ r w',
      if 0 <=? r.1 then is_Some (seg_size r.1 w') else r.1 = -1 ∧ r.2 ≠ 0) w;
  fstat_law f n w : seg_size f w = Some n → fstat_size f w = Ret (Some n) w;
  ftruncate_law f n m w : seg_size f w = Some m →
    wp (ftruncate f n) (λ r w', r = 0 → seg_size f w' = Some n) w;
  mmap_law n prot flags f w :
    wp (mmap n prot flags f) (λ r w', match r.1 with
      | Some _ => ∃ m, seg_size f w = Some m
      | None => r.2 ≠ 0 end) w;
}.

(** ** A concrete store of segments

    [shm_open] of a name starting with 0 fails with the error number that
    follows; other names open a segment of the size that is the first number. *)
Module Sim.
#[global] Instance os : PosixShmOS (gmap Z Z) := {|
  shm_open name oflag mode w :=
    match name with
    | 0 :: e :: _ => Ret (-1, Z.max 1 e) w
    | n :: _ => Ret (3, 0) (<[3 := n]> w)
    | [] => Ret (-1, EINVAL) w
    end;
  fstat_size f w := Ret (w !! f) w;
  ftruncate f n w := Ret 0 (<[f := n]> w);
  mmap n prot flags f w := Ret (if w !! f then (Some 1%positive, 0) else (None, EBADF)) w;
  close f w := Ret 0 (delete f w);
|}.

#[global] Instance laws : PosixShmLaws (gmap Z Z).
Proof.
  refine {| seg_size := λ f w, w !! f |}.
  - intros [|[|p|p] [|e name]] oflag mode w; unfold wp; simpl; rewrite ?lookup_insert_eq; eauto; split; (done || lia).
  - intros f n w H. simpl. by rewrite H.
  - intros f n m w _. unfold wp. simpl. by rewrite lookup_insert_eq.
  - intros n prot flags f w. unfold wp. simpl. destruct (w !! f) eqn:H; simpl; [eauto|done].
Defined.
End Sim.

(** ** Properties *)

(** [osal_shm_open] that gets a positive descriptor and returns [OSAL_OK]
    leaves in the handle the descriptor and the true size of the segment: the
    size it had, or, when it was empty, the requested one it was grown to. *)
Theorem osal_shm_open_size {W} `{!PosixShmOS W, !PosixShmLaws W} shm name attr sz (w : W) :
  0 ≤ sz < 2 ^ 63 →
  wp (osal_shm_open (Some shm) (Some name) attr sz) (λ '(r, shm') w',
    (r = OSAL_OK ∧ shm' ≠ shm → seg_size (fd shm') w' = Some (size shm'))) w.
Proof.
  intros Hsz. unfold osal_shm_open. apply wp_bind, wp_ret, wp_bind, wp_ret, wp_bind.
  eapply wp_mono; [apply shm_open_law|]. intros [f e] w1 Hf. simpl in Hf.
  destruct (Z.ltb_spec 0 f) as [Hpos|Hneg]; [|apply wp_ret; naive_solver].
  destruct (Z.leb_spec 0 f) as [_|]; [|lia]. destruct Hf as [n Hn].
  apply wp_bind. unfold wp at 1. rewrite (fstat_law _ _ _ Hn). apply wp_bind, wp_ret.
  destruct (0 <? n); [apply wp_ret; intros _; done|].
  apply wp_bind. rewrite swrap_id by (unfold in_sint; lia).
  eapply wp_mono; [by eapply ftruncate_law|]. intros r w2 Hr. apply wp_ret.
  destruct (Z.eqb_spec r 0); simpl; [auto|]. intros [H _]. discriminate.
Qed.

Lemma osal_shm_open_size_witness :
  wp (osal_shm_open (Some (mk_shm 0 0)) (Some [4096]) (Some 0x22) 100) (λ '(r, shm') w',
    r = OSAL_OK ∧ shm' ≠ mk_shm 0 0 → seg_size (fd shm') w' = Some (size shm')) (∅ : gmap Z Z).
Proof. refine (osal_shm_open_size (mk_shm 0 0) [4096] (Some 0x22) 100 ∅ _). lia. Defined.

(** When [shm_open] fails with an error number the [switch] does not list,
    [osal_shm_open] returns [OSAL_OK] and leaves the handle as it was. *)
Theorem osal_shm_open_hides_error {W} `{!PosixShmOS W} shm name attr sz e (w w' : W) :
  shm_open name (match attr with Some a => shm_oflag a | None => 0 end)
                (match attr with Some a => shm_mode a | None => 0 end) w = Ret (-1, e) w' →
  e ∉ [EACCES; EEXIST; EINVAL; EMFILE; ENAMETOOLONG; ENOENT] →
  osal_shm_open (Some shm) (Some name) attr sz w = Ret (OSAL_OK, shm) w'.
Proof.
  intros Hopen He. unfold osal_shm_open. do 2 erewrite bind_run by done. erewrite bind_run by exact Hopen.
  cbn [fst snd]. rewrite switch_default by done. done.
Qed.

Lemma osal_shm_open_hides_error_witness :
  osal_shm_open (Some (mk_shm 7 8)) (Some [0; ENFILE]) (Some 0x22) 100 (∅ : gmap Z Z) =
    Ret (OSAL_OK, mk_shm 7 8) ∅.
Proof.
  refine (osal_shm_open_hides_error (mk_shm 7 8) [0; ENFILE] (Some 0x22) 100 ENFILE ∅ ∅ _ _); [reflexivity|].
  intros H. repeat (apply elem_of_cons in H as [H|H]; [discriminate|]). by apply elem_of_nil in H.
Defined.

(** [osal_shm_map] reports [OSAL_OK] exactly when it stored the address of
    a mapping. *)
Theorem osal_shm_map_ok_iff {W} `{!PosixShmOS W} shm attr (w : W) r p w' :
  osal_shm_map (Some shm) attr (Some tt) w = Ret (r, p) w' → (r = OSAL_OK ↔ is_Some p).
Proof.
  unfold osal_shm_map. c_unfold. destruct (mmap _ _ _ _ w) as [[[l|] e] w1| | |]; [| |done..].
  - intros [= <- <- <-]. split; eauto.
  - intros [= <- <- <-]. split; [|by intros [? ?]]. intros H. exfalso. revert H. switch_cases.
Qed.

Lemma osal_shm_map_ok_iff_witness : OSAL_OK = OSAL_OK ↔ is_Some (Some 1%positive).
Proof.
  refine (osal_shm_map_ok_iff (mk_shm 3 4096) (Some 0x106) ({[3 := 4096]} : gmap Z Z) OSAL_OK (Some 1%positive)
    {[3 := 4096]} _). reflexivity.
Defined.
