(* ===== verification/PosixMq.v ===== *)
(** * POSIX message queues: src/posix/mq.c

    The functions over mq_open, mq_send and so on, the class [PosixMqOS]; a call
    returns its result with the value of [errno] after it. A queue handle is its
    descriptor. The attributes handed to mq_open are [None] when the source
    leaves them uninitialised. *)

From S2P Require Import Prelude Osal Timer PosixTimer BinarySemaphore.

(** ** include/libosal/mq.h *)

Definition OSAL_MQ_ATTR__OFLAG__RDONLY : Z := 0x00000001.
Definition OSAL_MQ_ATTR__OFLAG__WRONLY : Z := 0x00000002.
Definition OSAL_MQ_ATTR__OFLAG__RDWR : Z := 0x00000004.
Definition OSAL_MQ_ATTR__OFLAG__CREAT : Z := 0x00000008.
Definition OSAL_MQ_ATTR__OFLAG__CLOEXEC : Z := 0x00000010.
Definition OSAL_MQ_ATTR__OFLAG__EXCL : Z := 0x00000020.

Record osal_mq_attr : Type := mk_mq_attr {
  oflags : Z;
  mode : Z;
  max_messages : Z;
  max_message_size : Z;
}.

(** <fcntl.h> on Linux. *)
Definition O_RDONLY : Z := 0.
Definition O_WRONLY : Z := 1.
Definition O_RDWR : Z := 2.
Definition O_CREAT : Z := 0x40.
Definition O_EXCL : Z := 0x80.

(** A received message is its bytes with its priority. *)
Class PosixMqOS (W : Type) := {
  mq_open : list Z → Z → Z → option (Z * Z) → C W (Z * Z);
  mq_send : Z → list Z → Z → Z → C W (Z * Z);
  mq_timedsend : Z → list Z → Z → Z → timespec → C W (Z * Z);
  mq_receive : Z → Z → C W (Z * Z * (list Z * Z));
  mq_timedreceive : Z → Z → timespec → C W (Z * Z * (list Z * Z));
  mq_close : Z → C W (Z * Z);
}.

Section mq.
Context {W : Type} `{!PosixMqOS W}.

Definition mq_oflags (fl : Z) : Z :=
  or_if (has fl OSAL_MQ_ATTR__OFLAG__EXCL) O_EXCL
  (or_if (has fl OSAL_MQ_ATTR__OFLAG__CREAT) O_CREAT
  (or_if (has fl OSAL_MQ_ATTR__OFLAG__RDWR) O_RDWR
  (or_if (has fl OSAL_MQ_ATTR__OFLAG__WRONLY) O_WRONLY
  (or_if (has fl OSAL_MQ_ATTR__OFLAG__RDONLY) O_RDONLY 0)))).

Definition osal_mq_open (mq : option Z) (name : option (list Z)) (attr : option osal_mq_attr) :
    C W (Z * Z) :=
  _ ← assert_ptr mq;
  name ← assert_ptr name;
  let fl := match attr with Some a => mq_oflags (oflags a) | None => 0 end in
  let md := match attr with Some a => s32 (mode a) | None => 0 end in
  let local_attr := (λ a, (s64 (max_messages a), s64 (max_message_size a))) <$> attr in
  '(mq_desc, errno) ← mq_open name fl md local_attr;
  mret (if mq_desc =? -1 then
          switch errno
            [(EACCES, OSAL_ERR_PERMISSION_DENIED); (EEXIST, OSAL_ERR_PERMISSION_DENIED);
             (EINVAL, OSAL_ERR_INVALID_PARAM); (EMFILE, OSAL_ERR_SYSTEM_LIMIT_REACHED);
             (ENAMETOOLONG, OSAL_ERR_INVALID_PARAM); (ENFILE, OSAL_ERR_SYSTEM_LIMIT_REACHED);
             (ENOENT, OSAL_ERR_NOT_FOUND); (ENOMEM, OSAL_ERR_OUT_OF_MEMORY);
             (ENOSPC, OSAL_ERR_OUT_OF_MEMORY)]
            OSAL_ERR_OPERATION_FAILED
        else OSAL_OK, mq_desc).

(** The [switch] on [errno] of sending and receiving, and of their timed
    variants, which list one number more. *)
Definition mq_errno (timed : bool) (errno : Z) : Z :=
  switch errno
    ([(EAGAIN, OSAL_ERR_BUSY); (EBADF, OSAL_ERR_INVALID_PARAM); (EINTR, OSAL_ERR_INTERRUPTED);
      (EINVAL, OSAL_ERR_INVALID_PARAM); (EMSGSIZE, OSAL_ERR_INVALID_PARAM)] ++
     (if timed then [(ETIMEDOUT, OSAL_ERR_TIMEOUT)] else []))
    OSAL_ERR_OPERATION_FAILED.

Definition osal_mq_send (mq : option Z) (msg : option (list Z)) (msg_len prio : Z) : C W Z :=
  d ← assert_ptr mq;
  msg ← assert_ptr msg;
  '(local_ret, errno) ← mq_send d msg msg_len prio;
  mret (if local_ret =? -1 then mq_errno false errno else OSAL_OK).

(** One round of the [while (ret == OSAL_ERR_INTERRUPTED)]. *)
Definition timedsend_round (d : Z) (msg : list Z) (msg_len prio : Z) (ts : timespec) (_ : unit) :
    C W (unit + Z) :=
  '(local_ret, errno) ← mq_timedsend d msg msg_len prio ts;
  mret (if local_ret =? -1 then
          let ret := mq_errno true errno in
          if ret =? OSAL_ERR_INTERRUPTED then inl tt else inr ret
        else inr OSAL_OK).

Definition osal_mq_timedsend (fuel : nat) (mq : option Z) (msg : option (list Z)) (msg_len prio : Z)
    (to : option osal_timer) : C W Z :=
  d ← assert_ptr mq;
  msg ← assert_ptr msg;
  to ← assert_ptr to;
  let ts := mk_timespec (s64 (sec to)) (s64 (nsec to)) in
  cloop fuel (timedsend_round d msg msg_len prio ts) tt.

(** What is received comes with the result; [msg] and [prio] point to where it
    is stored, and [prio] may be NULL. *)
Definition osal_mq_receive (mq : option Z) (msg : option unit) (msg_len : Z) : C W (Z * (list Z * Z)) :=
  d ← assert_ptr mq;
  _ ← assert_ptr msg;
  '(local_ret, errno, got) ← mq_receive d msg_len;
  mret (if local_ret =? -1 then mq_errno false errno else OSAL_OK, got).

Definition timedreceive_round (d msg_len : Z) (ts : timespec) (_ : unit) :
    C W (unit + Z * (list Z * Z)) :=
  '(local_ret, errno, got) ← mq_timedreceive d msg_len ts;
  mret (if local_ret =? -1 then
          let ret := mq_errno true errno in
          if ret =? OSAL_ERR_INTERRUPTED then inl tt else inr (ret, got)
        else inr (OSAL_OK, got)).

Definition osal_mq_timedreceive (fuel : nat) (mq : option Z) (msg : option unit) (msg_len : Z)
    (to : option osal_timer) : C W (Z * (list Z * Z)) :=
  d ← assert_ptr mq;
  _ ← assert_ptr msg;
  to ← assert_ptr to;
  let ts := mk_timespec (s64 (sec to)) (s64 (nsec to)) in
  cloop fuel (timedreceive_round d msg_len ts) tt.

Definition osal_mq_close (mq : option Z) : C W Z :=
  d ← assert_ptr mq;
  '(local_ret, _) ← mq_close d;
  mret (if local_ret =? -1 then OSAL_ERR_INVALID_PARAM else OSAL_OK).
End mq.

(** ** What POSIX promises

    [sent d w] and [received d w] are the messages the calling thread has put
    into, and taken out of, the queue so far; a call adds one exactly when it
    does not return -1. A timed call ends, or is interrupted by one of the
    signals still to come. *)
Class PosixMqLaws (W : Type) `{!PosixMqOS W} := {
  sent : Z → W → list (list Z * Z);
  received : Z → W → list (list Z * Z);
  mq_signals : W → nat;
  timedsend_law d m n p ts w :
    wp (mq_timedsend d m n p ts) (λ r w',
      sent d w' = (if r.1 =? -1 then sent d w else sent d w ++ [(take (Z.to_nat n) m, p)]) ∧
      (r.1 = -1 → r.2 = EINTR → (mq_signals w' < mq_signals w)%nat)) w;
  timedreceive_law d n ts w :
    wp (mq_timedreceive d n ts) (λ r w',
      received d w' = (if r.1.1 =? -1 then received d w else received d w ++ [r.2]) ∧
      (r.1.1 = -1 → r.1.2 = EINTR → (mq_signals w' < mq_signals w)%nat)) w;
}.

(** ** A concrete queue, in order of arrival, with signals to come *)
Module Sim.
Record world : Type := mk_world { queue : list (list Z * Z); out : list (list Z * Z); into : list (list Z * Z); sigs : nat }.

Definition interrupted {A} (a : A) (m : C world (Z * Z * A)) : C world (Z * Z * A) := λ w,
  match sigs w with
  | S k => Ret (-1, EINTR, a) (mk_world (queue w) (out w) (into w) k)
  | O => m w
  end.

Definition put (m : list Z) (p : Z) : C world (Z * Z * unit) := λ w,
  Ret (0, 0, tt) (mk_world (queue w ++ [(m, p)]) (out w) (into w ++ [(m, p)]) (sigs w)).

Definition get : C world (Z * Z * (list Z * Z)) := λ w,
  match queue w with
  | [] => Ret (-1, ETIMEDOUT, ([], 0)) w
  | m :: q => Ret (Z.of_nat (length m.1), 0, m) (mk_world q (out w ++ [m]) (into w) (sigs w))
  end.

#[global] Instance os : PosixMqOS world := {|
  mq_open _ _ _ _ := mret (3, 0);
  mq_send _ m n p := r ← interrupted tt (put (take (Z.to_nat n) m) p); mret r.1;
  mq_timedsend _ m n p _ := r ← interrupted tt (put (take (Z.to_nat n) m) p); mret r.1;
  mq_receive _ _ := interrupted ([], 0) get;
  mq_timedreceive _ _ _ := interrupted ([], 0) get;
  mq_close _ := mret (0, 0);
|}.

#[global] Instance laws : PosixMqLaws world.
Proof.
  refine {| sent := λ _, into; received := λ _, out; mq_signals := sigs |}.
  - intros d m n p ts w. unfold wp. simpl. unfold interrupted, put. c_unfold.
    destruct (sigs w) eqn:H; simpl; (split; [done|]); (done || lia).
  - intros d n ts w. unfold wp. simpl. unfold interrupted, get.
    destruct (sigs w) eqn:H; [destruct (queue w) as [|m q]|]; simpl; try (split; [done|]; done || lia).
    destruct (Z.eqb_spec (Z.of_nat (length m.1)) (-1)); [lia|]. split; [done|lia].
Defined.
End Sim.

(** ** Properties *)

(** (C23) A timed send returns, given more rounds than there are signals to
    interrupt it, never with [OSAL_ERR_INTERRUPTED], and has put the message
    into the queue exactly once if it returns [OSAL_OK] and not at all
    otherwise, however often it was interrupted. *)
Theorem osal_mq_timedsend_once {W} `{!PosixMqOS W, !PosixMqLaws W} d msg prio to fuel (w : W) :
  (mq_signals w < fuel)%nat →
  wp (osal_mq_timedsend fuel (Some d) (Some msg) (Z.of_nat (length msg)) prio (Some to)) (λ r w',
    r ≠ OSAL_ERR_INTERRUPTED ∧
    sent d w' = (if r =? OSAL_OK then sent d w ++ [(msg, prio)] else sent d w)) w.
Proof.
  intros Hf. unfold osal_mq_timedsend. apply wp_bind, wp_ret, wp_bind, wp_ret, wp_bind, wp_ret.
  eapply wp_cloop with (m := λ _ w', mq_signals w') (I := λ _ w', sent d w' = sent d w); [|done|exact Hf].
  intros [] w1 H1. unfold timedsend_round. apply wp_bind. eapply wp_mono; [apply timedsend_law|].
  intros [r e] w2 [Hs Hi]. simpl in Hs, Hi. apply wp_ret. rewrite Nat2Z.id, firstn_all in Hs.
  destruct (Z.eqb_spec r (-1)) as [->|Hr]; [|split; [discriminate|]; simpl; by rewrite Hs, H1].
  rewrite H1 in Hs. revert Hi. unfold mq_errno. switch_cases; intros Hi; try (split; [congruence|by apply Hi]);
    (split; [discriminate|exact Hs]).
Qed.

Lemma osal_mq_timedsend_once_witness :
  wp (osal_mq_timedsend 4 (Some 3) (Some [1; 2]) 2 7 (Some (mk_timer 1 0))) (λ r w',
    r ≠ OSAL_ERR_INTERRUPTED ∧ Sim.into w' = (if r =? OSAL_OK then [] ++ [([1; 2], 7)] else []))
    (Sim.mk_world [] [] [] 3).
Proof. refine (osal_mq_timedsend_once 3 [1; 2] 7 (mk_timer 1 0) 4 (Sim.mk_world [] [] [] 3) _). simpl. lia. Defined.

(** A timed receive likewise returns, never with [OSAL_ERR_INTERRUPTED], and
    has taken one message, the one it hands over, exactly if it returns
    [OSAL_OK]. *)
Theorem osal_mq_timedreceive_once {W} `{!PosixMqOS W, !PosixMqLaws W} d n to fuel (w : W) :
  (mq_signals w < fuel)%nat →
  wp (osal_mq_timedreceive fuel (Some d) (Some tt) n (Some to)) (λ '(r, got) w',
    r ≠ OSAL_ERR_INTERRUPTED ∧
    received d w' = (if r =? OSAL_OK then received d w ++ [got] else received d w)) w.
Proof.
  intros Hf. unfold osal_mq_timedreceive. apply wp_bind, wp_ret, wp_bind, wp_ret, wp_bind, wp_ret.
  eapply wp_cloop with (m := λ _ w', mq_signals w') (I := λ _ w', received d w' = received d w); [|done|exact Hf].
  intros [] w1 H1. unfold timedreceive_round. apply wp_bind. eapply wp_mono; [apply timedreceive_law|].
  intros [[r e] got] w2 [Hs Hi]. simpl in Hs, Hi. apply wp_ret.
  destruct (Z.eqb_spec r (-1)) as [->|Hr]; [|split; [discriminate|]; simpl; by rewrite Hs, H1].
  rewrite H1 in Hs. revert Hi. unfold mq_errno. switch_cases; intros Hi; try (split; [congruence|by apply Hi]);
    (split; [discriminate|exact Hs]).
Qed.

Lemma osal_mq_timedreceive_once_witness :
  wp (osal_mq_timedreceive 2 (Some 3) (Some tt) 100 (Some (mk_timer 1 0))) (λ '(r, got) w',
    r ≠ OSAL_ERR_INTERRUPTED ∧ Sim.out w' = (if r =? OSAL_OK then [] ++ [got] else []))
    (Sim.mk_world [([5], 1)] [] [] 1).
Proof. refine (osal_mq_timedreceive_once 3 100 (mk_timer 1 0) 2 (Sim.mk_world [([5], 1)] [] [] 1) _). simpl. lia. Defined.
