(* ===== verification/PosixTask.v ===== *)
(** * POSIX tasks: src/posix/task.c

    Creating threads and setting their scheduling, over pthreads, sched.h and
    prctl, the class [PthreadTask]. A task handle is the [pthread_t] it holds,
    a null handle [None]; a [cpu_set_t] is the number whose bits are the
    processors. *)

From S2P Require Import Prelude Osal Timer PosixTimer.

(** ** include/libosal/task.h *)

Definition OSAL_SCHED_POLICY_FIFO : Z := 1.
Definition OSAL_SCHED_POLICY_ROUND_ROBIN : Z := 2.
Definition OSAL_SCHED_POLICY_OTHER : Z := 3.

Record osal_task_attr : Type := mk_task_attr {
  task_name : list Z;
  policy : Z;
  priority : Z;
  affinity : Z;
}.

(** <sched.h> and <signal.h> on Linux. *)
Definition SCHED_OTHER : Z := 0.
Definition SCHED_FIFO : Z := 1.
Definition SCHED_RR : Z := 2.
Definition CPU_SETSIZE : Z := 1024.
Definition SIGCONT : Z := 18.
Definition SIGSTOP : Z := 19.

(** [start_args] on the stack of [osal_task_create]: the attributes are a
    pointer, the member [running] is shared with the new thread. *)
Record start_args {F : Type} : Type := mk_start_args {
  user_handler : F;
  user_arg : Z;
  user_attr : option osal_task_attr;
}.
Arguments start_args : clear implicits.
Arguments mk_start_args {F} _ _ _.

(** [F] is the type of task handlers. [start_running] reads
    [start_args.running], [set_running] stores to it. *)
Class PthreadTask (W F : Type) := {
  pthread_self : C W Z;
  pthread_getschedparam : Z → C W (Z * (Z * Z));
  pthread_setschedparam : Z → Z → Z → C W Z;
  pthread_setaffinity_np : Z → Z → C W Z;
  pthread_getaffinity_np : Z → C W (Z * Z);
  sched_get_priority_min : Z → Z;
  sched_get_priority_max : Z → Z;
  prctl_set_name : list Z → C W unit;
  prctl_get_name : C W (list Z);
  pthread_create : start_args F → C W (Z * Z);
  start_running : C W Z;
  set_running : Z → C W unit;
  run_handler : F → Z → C W Z;
  pthread_join : Z → C W (Z * Z);
  pthread_cancel : Z → C W Z;
  pthread_kill : Z → Z → C W Z;
  pthread_exit : C W unit;
  fprintf_stderr : string → Z → Z → C W unit;
}.

Section task.
Context `{!Config} {W F : Type} `{!PosixTimeOS W, !PthreadTask W F}.

(** The results of the scheduling calls. *)
Definition sched_ret (local_ret : Z) : Z :=
  if local_ret =? 0 then OSAL_OK
  else if (local_ret =? ESRCH) || (local_ret =? EINVAL) then OSAL_ERR_INVALID_PARAM
  else if local_ret =? EPERM then OSAL_ERR_PERMISSION_DENIED
  else OSAL_ERR_OPERATION_FAILED.

(** [hdl != NULL ? hdl->tid : pthread_self()]. *)
Definition tid_of (hdl : option Z) : C W Z :=
  match hdl with Some tid => mret tid | None => pthread_self end.

(** Raising to the minimum or lowering to the maximum of the policy. *)
Definition clamp_priority (pol prio : Z) : Z :=
  if prio <? sched_get_priority_min pol then sched_get_priority_min pol
  else if sched_get_priority_max pol <? prio then sched_get_priority_max pol
  else prio.

(** The loop over the 32 bits of an affinity with [CPU_SET]. *)
Definition cpuset_of (affinity : Z) : Z :=
  foldl (λ cpuset i, if negb (Z.land affinity (u32 (Z.shiftl 1 i)) =? 0)
                     then Z.lor cpuset (Z.shiftl 1 i) else cpuset) 0 (seqZ 0 32).

(** The loop over all processors with [CPU_ISSET]: [1u << j] is undefined from
    [j = 32] on. *)
Definition affinity_of (cpuset : Z) : C W Z :=
  cfor (Z.to_nat CPU_SETSIZE) 0 (λ j affinity,
    if Z.testbit cpuset j
    then if j <? 32 then mret (Z.lor affinity (Z.shiftl 1 j)) else undef
    else mret affinity) 0.

Definition osal_task_set_policy (hdl : option Z) (policy : Z) : C W Z :=
  tid ← tid_of hdl;
  '(local_ret, (_, prio)) ← pthread_getschedparam tid;
  let ret := sched_ret local_ret in
  if ret =? OSAL_OK then
    let tmp_policy :=
      if policy =? OSAL_SCHED_POLICY_FIFO then SCHED_FIFO
      else if policy =? OSAL_SCHED_POLICY_ROUND_ROBIN then SCHED_RR
      else SCHED_OTHER in
    self ← pthread_self;
    local_ret ← pthread_setschedparam self tmp_policy (clamp_priority tmp_policy prio);
    mret (sched_ret local_ret)
  else mret ret.

(** [policy] points to where the policy is stored. *)
Definition osal_task_get_policy (hdl : option Z) (policy : option Z) : C W (Z * Z) :=
  hdl' ← assert_ptr hdl;
  policy ← assert_ptr policy;
  tid ← tid_of (Some hdl');
  '(local_ret, (tmp_policy, _)) ← pthread_getschedparam tid;
  let ret := sched_ret local_ret in
  mret (ret, if ret =? OSAL_OK then
               if tmp_policy =? SCHED_FIFO then OSAL_SCHED_POLICY_FIFO
               else if tmp_policy =? SCHED_RR then OSAL_SCHED_POLICY_ROUND_ROBIN
               else OSAL_SCHED_POLICY_OTHER
             else policy).

Definition osal_task_set_priority (hdl : option Z) (prio : Z) : C W Z :=
  tid ← tid_of hdl;
  '(local_ret, (pol, _)) ← pthread_getschedparam tid;
  let ret := sched_ret local_ret in
  if ret =? OSAL_OK then
    local_ret ← pthread_setschedparam tid pol (clamp_priority pol (s32 prio));
    mret (sched_ret local_ret)
  else mret ret.

Definition osal_task_get_priority (hdl : option Z) (prio : option Z) : C W (Z * Z) :=
  tid ← tid_of hdl;
  '(local_ret, (_, p)) ← pthread_getschedparam tid;
  prio ← deref prio;
  let ret := sched_ret local_ret in
  mret (ret, if local_ret =? 0 then u32 p else prio).

Definition osal_task_set_affinity (hdl : option Z) (affinity : Z) : C W Z :=
  if (0 <? affinity) && LIBOSAL_HAVE_PTHREAD_SETAFFINITY_NP then
    tid ← tid_of hdl;
    local_ret ← pthread_setaffinity_np tid (cpuset_of affinity);
    mret (if negb (local_ret =? 0) then OSAL_ERR_INVALID_PARAM else OSAL_OK)
  else mret OSAL_OK.

Definition osal_task_get_affinity (hdl : option Z) (affinity : option Z) : C W (Z * Z) :=
  if LIBOSAL_HAVE_PTHREAD_SETAFFINITY_NP then
    tid ← tid_of hdl;
    _ ← deref affinity;
    '(local_ret, cpuset) ← pthread_getaffinity_np tid;
    if negb (local_ret =? 0) then mret (OSAL_ERR_INVALID_PARAM, 0)
    else a ← affinity_of cpuset; mret (OSAL_OK, a)
  else mret (OSAL_OK, default 0 affinity).

(** [if (strlen(name) > 0) prctl(PR_SET_NAME, name, 0, 0, 0);] *)
Definition set_name (name : list Z) : C W unit :=
  if LIBOSAL_HAVE_SYS_PRCTL_H && negb (default 0 (head name) =? 0) then prctl_set_name name else mret tt.

Definition osal_task_set_task_attr (hdl : option Z) (attr : option osal_task_attr) : C W Z :=
  tid ← assert_ptr hdl;
  attr ← deref attr;
  local_ret ← pthread_setschedparam tid (s32 (policy attr)) (s32 (priority attr));
  let ret := sched_ret local_ret in
  ret ← (if (ret =? OSAL_OK) && LIBOSAL_HAVE_PTHREAD_SETAFFINITY_NP then
           local_ret ← pthread_setaffinity_np tid (cpuset_of (affinity attr));
           mret (if negb (local_ret =? 0) then OSAL_ERR_INVALID_PARAM else ret)
         else mret ret);
  (if ret =? OSAL_OK then set_name (task_name attr) else mret tt);;
  mret ret.

Definition osal_task_get_task_attr (hdl : option Z) (attr : option osal_task_attr) :
    C W (Z * osal_task_attr) :=
  tid ← deref hdl;
  '(local_ret, (pol, prio)) ← pthread_getschedparam tid;
  attr ← deref attr;
  let ret := sched_ret local_ret in
  let attr := if local_ret =? 0 then mk_task_attr (task_name attr) (u32 pol) (u32 prio) (affinity attr)
              else attr in
  '(ret, attr) ←
    (if (ret =? OSAL_OK) && LIBOSAL_HAVE_PTHREAD_SETAFFINITY_NP then
       '(local_ret, cpuset) ← pthread_getaffinity_np tid;
       a ← (if negb (local_ret =? 0) then mret 0 else affinity_of cpuset);
       mret (if negb (local_ret =? 0) then OSAL_ERR_INVALID_PARAM else ret,
             mk_task_attr (task_name attr) (policy attr) (priority attr) a)
     else mret (ret, attr));
  if (ret =? OSAL_OK) && LIBOSAL_HAVE_SYS_PRCTL_H then
    name ← prctl_get_name;
    mret (ret, mk_task_attr name (policy attr) (priority attr) (affinity attr))
  else mret (ret, attr).

(** A failed setting of the new thread is reported on [stderr] only. *)
Definition report (what : string) (value local_ret : Z) : C W unit :=
  if negb (local_ret =? OSAL_OK) then fprintf_stderr what value local_ret else mret tt.

Definition posix_task_wrapper (args : start_args F) : C W Z :=
  match user_attr args with
  | Some attr =>
      (if negb (policy attr =? 0) then
         r ← osal_task_set_policy None (policy attr); report "policy" (policy attr) r
       else mret tt);;
      (if negb (priority attr =? 0) then
         r ← osal_task_set_priority None (priority attr); report "priority" (priority attr) r
       else mret tt);;
      (if 0 <? affinity attr then
         r ← osal_task_set_affinity None (affinity attr); report "affinity" (affinity attr) r
       else mret tt);;
      set_name (task_name attr)
  | None => mret tt
  end;;
  set_running 1;;
  run_handler (user_handler args) (user_arg args).

(** [fuel] is for the loop that waits for the new thread, and for the sleeps
    in it. *)
Definition osal_task_create (fuel : nat) (hdl : option Z) (attr : option osal_task_attr)
    (handler : F) (arg : Z) : C W (Z * Z) :=
  _ ← assert_ptr hdl;
  set_running 0;;
  '(local_ret, tid) ← pthread_create (mk_start_args handler arg attr);
  let ret :=
    if local_ret =? 0 then OSAL_OK
    else if local_ret =? EAGAIN then OSAL_ERR_SYSTEM_LIMIT_REACHED
    else if local_ret =? EPERM then OSAL_ERR_PERMISSION_DENIED
    else if local_ret =? EINVAL then OSAL_ERR_INVALID_PARAM
    else OSAL_ERR_OPERATION_FAILED in
  (if ret =? OSAL_OK then
     cloop fuel (λ _ : unit,
       running ← start_running;
       if running =? 0 then osal_sleep fuel 1000000;; mret (inl tt) else mret (inr tt)) tt
   else mret tt);;
  mret (ret, tid).

Definition osal_task_join (hdl : option Z) : C W (Z * Z) :=
  tid ← deref hdl;
  '(local_ret, retval) ← pthread_join tid;
  mret (if local_ret =? 0 then OSAL_OK
        else switch local_ret
          [(EDEADLK, OSAL_ERR_DEAD_LOCK); (EINVAL, OSAL_ERR_INVALID_PARAM); (ESRCH, OSAL_ERR_NOT_FOUND)]
          OSAL_ERR_OPERATION_FAILED, retval).

Definition osal_task_destroy (hdl : option Z) : C W Z :=
  tid ← assert_ptr hdl;
  local_ret ← pthread_cancel tid;
  mret (if negb (local_ret =? 0) then OSAL_ERR_NOT_FOUND else OSAL_OK).

Definition osal_task_get_hdl (hdl : option Z) : C W Z :=
  _ ← assert_ptr hdl; mret OSAL_ERR_NOT_IMPLEMENTED.

Definition osal_task_suspend (hdl : option Z) : C W Z :=
  if LIBOSAL_HAVE_SIGSTOP then
    tid ← deref hdl;
    local_ret ← pthread_kill tid SIGSTOP;
    mret (if negb (local_ret =? 0) then OSAL_ERR_INVALID_PARAM else OSAL_OK)
  else mret OSAL_ERR_NOT_IMPLEMENTED.

Definition osal_task_resume (hdl : option Z) : C W Z :=
  if LIBOSAL_HAVE_SIGCONT then
    tid ← deref hdl;
    local_ret ← pthread_kill tid SIGCONT;
    mret (if negb (local_ret =? 0) then OSAL_ERR_INVALID_PARAM else OSAL_OK)
  else mret OSAL_ERR_NOT_IMPLEMENTED.

Definition osal_task_delete : C W Z := pthread_exit;; mret OSAL_OK.

Definition osal_task_get_state (hdl : option Z) : C W Z :=
  _ ← assert_ptr hdl; mret OSAL_ERR_NOT_IMPLEMENTED.
End task.

(** ** What the system promises

    [sched t w] is the policy and priority of thread [t], [cpus t w] its
    processors, [running w] the member of [start_args]. [allowed t w]: the
    processors that are there and that [t] is permitted to use, now. [reachable t
    w]: thread [t] exists, the caller may set its affinity, and the processors of
    the machine fit a [cpu_set_t]. Setting an affinity sets it to what is allowed
    of it, and fails if that is nothing. A call that fails changes nothing. *)
Class PthreadTaskLaws (W F : Type) `{!PthreadTask W F} := {
  self : W → Z;
  sched : Z → W → Z * Z;
  cpus : Z → W → Z;
  allowed : Z → W → Z;
  reachable : Z → W → bool;
  running : W → Z;
  self_law w : pthread_self w = Ret (self w) w;
  getsched_law t w : wp (pthread_getschedparam t) (λ r w', w' = w ∧ (r.1 = 0 → r.2 = sched t w)) w;
  setsched_law t pol prio w : wp (pthread_setschedparam t pol prio) (λ r w',
    self w' = self w ∧ ∀ t', sched t' w' = if (r =? 0) && (t' =? t) then (pol, prio) else sched t' w) w;
  setaffinity_law t set w : wp (pthread_setaffinity_np t set) (λ r w',
    self w' = self w ∧ reachable t w' = reachable t w ∧
    if reachable t w && negb (Z.land set (allowed t w) =? 0)
    then r = 0 ∧ cpus t w' = Z.land set (allowed t w)
    else r ≠ 0 ∧ cpus t w' = cpus t w) w;
  getaffinity_law t w : wp (pthread_getaffinity_np t) (λ r w',
    w' = w ∧ (reachable t w = true → r.1 = 0) ∧ (r.1 = 0 → r.2 = cpus t w)) w;
  priorities_law pol : 0 ≤ sched_get_priority_min pol ≤ sched_get_priority_max pol;
  set_name_law n w : wp (prctl_set_name n) (λ _ _, True) w;
  fprintf_law s v r w : wp (fprintf_stderr s v r) (λ _ _, True) w;
  set_running_law v w : wp (set_running v) (λ _ w', running w' = v) w;
  start_running_law w : wp start_running (λ r w', r = running w') w;
  create_law a w : wlp (pthread_create a) (λ _ _, True) w;
}.

(** ** Lemmas *)

Lemma land_ones_step c k :
  0 ≤ k →
  Z.land c (Z.ones (k + 1)) =
    if Z.testbit c k then Z.lor (Z.land c (Z.ones k)) (Z.shiftl 1 k) else Z.land c (Z.ones k).
Proof.
  intros Hk. apply Z.bits_inj'. intros n Hn.
  assert (∀ m, 0 ≤ m → Z.testbit (Z.ones m) n = (n <? m)) as Hones.
  { intros m Hm. destruct (Z.ltb_spec n m); [by apply Z.ones_spec_low|by apply Z.ones_spec_high]. }
  rewrite Z.land_spec, Hones by lia.
  destruct (Z.testbit c k) eqn:Hc.
  - rewrite Z.lor_spec, Z.land_spec, Z.shiftl_spec, Hones by lia.
    destruct (Z.ltb_spec n (k + 1)), (Z.ltb_spec n k); try lia.
    + rewrite !andb_true_r, (Z.testbit_neg_r 1) by lia. by rewrite orb_false_r.
    + replace n with k by lia. by rewrite Z.sub_diag, Hc.
    + rewrite !andb_false_r. simpl. change 1 with (2 ^ 0). rewrite Z.pow2_bits_false by lia. done.
  - rewrite Z.land_spec, Hones by lia. destruct (Z.ltb_spec n (k + 1)), (Z.ltb_spec n k); try lia; try done.
    replace n with k by lia. by rewrite Hc.
Qed.

Lemma land_ones_id c n : 0 ≤ n → 0 ≤ c < 2 ^ n → Z.land c (Z.ones n) = c.
Proof. intros Hn Hc. rewrite Z.land_ones by done. by apply Z.mod_small. Qed.

Lemma land_below a b n : 0 ≤ n → 0 ≤ a < 2 ^ n → 0 ≤ Z.land a b < 2 ^ n.
Proof.
  intros Hn Ha. split; [apply Z.land_nonneg; lia|].
  assert (Z.land a b = Z.land a b mod 2 ^ n) as ->; [|by apply Z.mod_pos_bound, Z.pow_pos_nonneg].
  rewrite <- Z.land_ones by done. rewrite <- (land_ones_id a n) at 1 by done.
  by rewrite <- !Z.land_assoc, (Z.land_comm b).
Qed.

Lemma land_bit c i : 0 ≤ i < 32 → negb (Z.land c (u32 (Z.shiftl 1 i)) =? 0) = Z.testbit c i.
Proof.
  intros Hi. rewrite Z.shiftl_1_l, uwrap_id by (split; [lia|apply Z.pow_lt_mono_r; lia]).
  assert (Z.land c (2 ^ i) = if Z.testbit c i then 2 ^ i else 0) as ->.
  { apply Z.bits_inj'. intros n Hn. rewrite Z.land_spec.
    destruct (decide (n = i)) as [->|Hne].
    - rewrite Z.pow2_bits_true by lia. destruct (Z.testbit c i); simpl; [by rewrite Z.pow2_bits_true by lia|].
      by rewrite Z.bits_0.
    - rewrite Z.pow2_bits_false by lia. rewrite andb_false_r.
      destruct (Z.testbit c i); [by rewrite Z.pow2_bits_false by lia|by rewrite Z.bits_0]. }
  destruct (Z.testbit c i); [|done]. destruct (Z.eqb_spec (2 ^ i) 0); [|done]. lia.
Qed.

(** The set built from an affinity has the bits of the affinity. *)
Lemma cpuset_of_id a : 0 ≤ a < 2 ^ 32 → cpuset_of a = a.
Proof.
  intros Ha. rewrite <- (land_ones_id a 32) at 2 by lia. unfold cpuset_of.
  assert (∀ n : nat, (n ≤ 32)%nat →
    foldl (λ cpuset i, if negb (Z.land a (u32 (Z.shiftl 1 i)) =? 0)
                       then Z.lor cpuset (Z.shiftl 1 i) else cpuset) 0 (seqZ 0 (Z.of_nat n)) =
    Z.land a (Z.ones (Z.of_nat n))) as H; [|by apply (H 32%nat)].
  induction n as [|n IH]; intros Hn; [by rewrite Z.land_0_r|].
  replace (Z.of_nat (S n)) with (Z.of_nat n + 1) by lia.
  rewrite seqZ_app, foldl_app, IH by lia. simpl.
  rewrite land_bit, land_ones_step by lia. by rewrite Z.add_0_l.
Qed.

Section lemmas.
Context {W : Type}.

Lemma affinity_of_id c (w : W) : 0 ≤ c < 2 ^ 32 → wp (affinity_of c) (λ a w', a = c ∧ w' = w) w.
Proof.
  intros Hc. eapply wp_mono; [apply wp_cfor with (I := λ k s w', s = Z.land c (Z.ones (Z.of_nat k)) ∧ w' = w)|].
  - by rewrite Z.land_0_r.
  - intros k s w1 Hk [-> ->]. replace (Z.of_nat (S k)) with (Z.of_nat k + 1) by lia.
    rewrite land_ones_step, Z.add_0_l by lia. cbv beta. destruct (Z.testbit c (Z.of_nat k)) eqn:Hb; [|by split].
    destruct (Z.ltb_spec (Z.of_nat k) 32) as [|Hge]; [by split|].
    exfalso. rewrite <- (Z.mod_small c (2 ^ 32)), Z.mod_pow2_bits_high in Hb by lia. done.
  - intros a w' [-> ->]. split; [|done]. apply land_ones_id; [done|].
    split; [lia|]. eapply Z.lt_le_trans; [apply Hc|]. by apply Z.pow_le_mono_r.
Qed.

(** A processor from number 32 on in the set makes the loop shift too far. *)
Lemma affinity_of_undef c j (w : W) :
  32 ≤ j < CPU_SETSIZE → Z.testbit c j = true → affinity_of c w = Undef.
Proof.
  intros Hj Hb. unfold affinity_of.
  assert (∀ n i s, i ≤ j < i + Z.of_nat n →
    cfor n i (λ j affinity, if Z.testbit c j
      then if j <? 32 then mret (Z.lor affinity (Z.shiftl 1 j)) else undef
      else mret affinity) s w = Undef) as H.
  { induction n as [|n IH]; intros i s Hi; [lia|]. simpl.
    destruct (decide (i = j)) as [->|Hne].
    - rewrite Hb. destruct (Z.ltb_spec j 32); [lia|]. done.
    - destruct (Z.testbit c i); [destruct (i <? 32); [|done]|];
        (erewrite bind_run by done); apply IH; lia. }
  apply H. unfold CPU_SETSIZE in *. lia.
Qed.
End lemmas.

Section task_lemmas.
Context `{!Config} {W F : Type} `{!PthreadTask W F, !PthreadTaskLaws W F}.

Lemma tid_of_spec hdl (Q : Z → W → Prop) w : Q (default (self w) hdl) w → wp (tid_of hdl) Q w.
Proof. intros HQ. destruct hdl; [done|]. unfold wp, tid_of. by rewrite self_law. Qed.

Lemma sched_ret_ok r : sched_ret r = OSAL_OK → r = 0.
Proof. unfold sched_ret. destruct (Z.eqb_spec r 0); [done|]. by repeat case_match. Qed.

Lemma clamp_range pol prio :
  sched_get_priority_min pol ≤ clamp_priority pol prio ≤ sched_get_priority_max pol.
Proof.
  pose proof (priorities_law pol). unfold clamp_priority.
  destruct (Z.ltb_spec prio (sched_get_priority_min pol)); [lia|].
  destruct (Z.ltb_spec (sched_get_priority_max pol) prio); lia.
Qed.
End task_lemmas.

(** ** A concrete system

    Two threads, 1 (the caller) and 2; priorities range from 0 to 0 for
    SCHED_OTHER and from 1 to 99 otherwise; a handler is a number, which it
    returns. There are four processors, 0 to 3. *)
Module Sim.
Record world : Type := mk_world { params : gmap Z (Z * Z); sets : gmap Z Z; run : Z }.

#[global] Instance os : PthreadTask world Z := {|
  pthread_self := mret 1;
  pthread_getschedparam t w :=
    match params w !! t with Some p => Ret (0, p) w | None => Ret (ESRCH, (0, 0)) w end;
  pthread_setschedparam t pol prio w := Ret 0 (mk_world (<[t := (pol, prio)]> (params w)) (sets w) (run w));
  pthread_setaffinity_np t set w :=
    let set := Z.land set 0xF in
    if set =? 0 then Ret EINVAL w else Ret 0 (mk_world (params w) (<[t := set]> (sets w)) (run w));
  pthread_getaffinity_np t w := Ret (0, default 0 (sets w !! t)) w;
  sched_get_priority_min pol := if pol =? SCHED_OTHER then 0 else 1;
  sched_get_priority_max pol := if pol =? SCHED_OTHER then 0 else 99;
  prctl_set_name _ := mret tt;
  prctl_get_name := mret [];
  pthread_create _ w := Ret (0, 2) (mk_world (params w) (sets w) 1);
  start_running w := Ret (run w) w;
  set_running v w := Ret tt (mk_world (params w) (sets w) v);
  run_handler f _ := mret f;
  pthread_join _ := mret (0, 0);
  pthread_cancel _ := mret 0;
  pthread_kill _ _ := mret 0;
  pthread_exit := no_return;
  fprintf_stderr _ _ _ := mret tt;
|}.

#[global] Instance laws : PthreadTaskLaws world Z.
Proof.
  refine {| self := λ _, 1; sched := λ t w, default (0, 0) (params w !! t);
            cpus := λ t w, default 0 (sets w !! t); allowed := λ _ _, 0xF; reachable := λ _ _, true; running := run |}; try done.
  - intros t w. unfold wp. simpl. destruct (params w !! t) eqn:H; simpl; rewrite ?H; done.
  - intros t pol prio w. unfold wp. simpl. split; [done|]. intros t'.
    destruct (Z.eqb_spec t' t) as [->|]; [by rewrite lookup_insert_eq|by rewrite lookup_insert_ne].
  - intros t set w. unfold wp. simpl. destruct (Z.land set 15 =? 0); simpl; [done|by rewrite lookup_insert_eq].
  - intros pol. simpl. destruct (pol =? SCHED_OTHER); lia.
Defined.

Definition world1 : world := mk_world {[1 := (SCHED_OTHER, 0); 2 := (SCHED_FIFO, 40)]} ∅ 0.
End Sim.

(** ** Properties *)

(** When [osal_task_set_policy] returns [OSAL_OK] it has given the policy to
    the calling thread, with the priority of the thread [hdl] refers to brought
    into the policy's range; if [hdl] is another thread, that thread's policy is
    what it was. *)
Theorem osal_task_set_policy_acts_on_caller {W F} `{!PthreadTask W F, !PthreadTaskLaws W F} hdl p (w : W) :
  let pol := if p =? OSAL_SCHED_POLICY_FIFO then SCHED_FIFO
             else if p =? OSAL_SCHED_POLICY_ROUND_ROBIN then SCHED_RR else SCHED_OTHER in
  wp (osal_task_set_policy hdl p) (λ r w', r = OSAL_OK →
    sched (self w) w' = (pol, clamp_priority pol (sched (default (self w) hdl) w).2) ∧
    ∀ t, t ≠ self w → sched t w' = sched t w) w.
Proof.
  intros pol. unfold osal_task_set_policy. apply wp_bind, tid_of_spec, wp_bind.
  eapply wp_mono; [apply getsched_law|]. intros [r [pol0 prio]] w1 [-> Hr]. simpl in Hr.
  destruct (Z.eqb_spec (sched_ret r) OSAL_OK) as [Hok|Hok]; [|by apply wp_ret].
  apply sched_ret_ok in Hok as ->. specialize (Hr eq_refl). rewrite <- Hr. fold pol.
  apply wp_bind. unfold wp at 1. rewrite self_law. apply wp_bind.
  eapply wp_mono; [apply setsched_law|]. intros r w2 [_ Hs]. apply wp_ret.
  intros ->%sched_ret_ok. split; [by rewrite Hs, !Z.eqb_refl|].
  intros t Ht. rewrite Hs. apply Z.eqb_neq in Ht. by rewrite Ht, andb_false_r.
Qed.

Lemma osal_task_set_policy_acts_on_caller_witness :
  wp (osal_task_set_policy (F := Z) (Some 2) OSAL_SCHED_POLICY_ROUND_ROBIN) (λ r w', r = OSAL_OK →
    sched 1 w' = (SCHED_RR, 40) ∧ ∀ t, t ≠ 1 → sched t w' = sched t Sim.world1) Sim.world1.
Proof.
  exact (osal_task_set_policy_acts_on_caller (Some 2) OSAL_SCHED_POLICY_ROUND_ROBIN Sim.world1).
Defined.

(** A priority that has been set is read back, brought into the range of
    the thread's policy. *)
Theorem osal_task_priority_roundtrip {W F} `{!PthreadTask W F, !PthreadTaskLaws W F} t prio o (w : W) :
  0 ≤ prio < 2 ^ 31 → sched_get_priority_max (sched t w).1 < 2 ^ 31 →
  wp (r1 ← osal_task_set_priority (Some t) prio; r2 ← osal_task_get_priority (Some t) (Some o); mret (r1, r2))
     (λ '(r1, (r2, p)) _, r1 = OSAL_OK → r2 = OSAL_OK →
        p = clamp_priority (sched t w).1 prio ∧
        sched_get_priority_min (sched t w).1 ≤ p ≤ sched_get_priority_max (sched t w).1) w.
Proof.
  intros Hp Hmax. pose proof (clamp_range (sched t w).1 prio) as Hc. pose proof (priorities_law (sched t w).1).
  apply wp_bind. eapply wp_mono with (P := λ r w', r = OSAL_OK →
    sched t w' = ((sched t w).1, clamp_priority (sched t w).1 prio)).
  { unfold osal_task_set_priority. apply wp_bind, tid_of_spec, wp_bind.
    eapply wp_mono; [apply getsched_law|]. intros [r [pol0 prio0]] w1 [-> Hr]. simpl in Hr.
    destruct (Z.eqb_spec (sched_ret r) OSAL_OK) as [Hok|Hok]; [|by apply wp_ret].
    apply sched_ret_ok in Hok as ->. specialize (Hr eq_refl). rewrite <- Hr. simpl.
    apply wp_bind. rewrite swrap_id by (unfold in_sint; lia).
    eapply wp_mono; [apply setsched_law|]. intros r w2 [_ Hs]. apply wp_ret.
    intros ->%sched_ret_ok. by rewrite Hs, !Z.eqb_refl. }
  intros r1 w1 H1. apply wp_bind. unfold osal_task_get_priority. apply wp_bind, tid_of_spec, wp_bind.
  eapply wp_mono; [apply getsched_law|]. intros [r [pol0 prio0]] w2 [-> Hr]. simpl in Hr.
  apply wp_bind, wp_ret, wp_ret, wp_ret. intros Hr1 ->%sched_ret_ok. specialize (Hr eq_refl).
  simpl in Hr. rewrite H1 in Hr by done. injection Hr as -> ->. simpl.
  by rewrite uwrap_id by (unfold in_uint; lia).
Qed.

Lemma osal_task_priority_roundtrip_witness :
  wp (r1 ← osal_task_set_priority (F := Z) (Some 2) 200;
      r2 ← osal_task_get_priority (F := Z) (Some 2) (Some 0); mret (r1, r2))
     (λ '(r1, (r2, p)) _, r1 = OSAL_OK → r2 = OSAL_OK → p = 99 ∧ 1 ≤ p ≤ 99) Sim.world1.
Proof.
  refine (osal_task_priority_roundtrip 2 200 0 Sim.world1 _ _); [lia|reflexivity].
Defined.

(** (C22) Setting an affinity and reading it back. The set 0 asks for nothing and
    changes nothing. Another set among the processors 0 to 31 is answered with
    [OSAL_OK] if the thread may be set and something of the set is allowed: the
    thread then has, and an affinity read back is, what is allowed of the set,
    which is the set itself if all of it is. Otherwise the answer is
    [OSAL_ERR_INVALID_PARAM], and the thread keeps the processors it had. *)
Theorem osal_task_affinity_roundtrip {W F} `{!PthreadTask W F, !PthreadTaskLaws W F} hdl a o (w : W) :
  0 ≤ a < 2 ^ 32 →
  let t := default (self w) hdl in
  let granted := Z.land a (allowed t w) in
  wp (osal_task_set_affinity (H := linux_config) hdl a) (λ r1 w1,
    if a =? 0 then r1 = OSAL_OK ∧ w1 = w
    else if reachable t w && negb (granted =? 0) then
      r1 = OSAL_OK ∧ cpus t w1 = granted ∧
      wp (osal_task_get_affinity (H := linux_config) hdl (Some o)) (λ r2 w2, w2 = w1 ∧ r2 = (OSAL_OK, granted)) w1
    else r1 = OSAL_ERR_INVALID_PARAM ∧ cpus t w1 = cpus t w) w.
Proof.
  intros Ha t granted. unfold osal_task_set_affinity. destruct (Z.eqb_spec a 0) as [->|Hne]; [done|].
  destruct (Z.ltb_spec 0 a); [|lia]. simpl.
  apply wp_bind, tid_of_spec, wp_bind. rewrite cpuset_of_id by lia.
  eapply wp_mono; [apply setaffinity_law|]. intros r w1 (Hself & Hreach & Hr). apply wp_ret. fold t granted in Hr, Hreach.
  destruct (reachable t w) eqn:Ht, (granted =? 0); simpl in *; destruct Hr as [Hr Hc];
    try (apply Z.eqb_neq in Hr as ->; by split).
  subst r. split; [done|]. split; [done|].
  unfold osal_task_get_affinity. simpl. apply wp_bind, tid_of_spec.
  apply wp_bind, wp_ret, wp_bind. rewrite Hself. fold t.
  eapply wp_mono; [apply getaffinity_law|]. intros [r2 set] w2 (-> & H2 & Hs). simpl in *.
  rewrite H2 in * by done. rewrite Hs, Hc by done. apply wp_bind.
  eapply wp_mono; [apply affinity_of_id, land_below; lia|]. intros a' w3 [-> ->]. by apply wp_ret.
Qed.

(** Of the processors 0, 2 and 31, 0 and 2 are there. *)
Lemma osal_task_affinity_roundtrip_witness :
  wp (osal_task_set_affinity (H := linux_config) (F := Z) (Some 2) 0x80000005) (λ r1 w1, r1 = OSAL_OK ∧
    wp (osal_task_get_affinity (H := linux_config) (F := Z) (Some 2) (Some 0)) (λ r2 w2, w2 = w1 ∧ r2 = (OSAL_OK, 5)) w1)
    Sim.world1.
Proof.
  eapply wp_mono; [apply (osal_task_affinity_roundtrip (Some 2) 0x80000005 0 Sim.world1); lia|].
  intros r1 w1 (H1 & _ & H2). split; [exact H1|exact H2].
Defined.

(** Reading the affinity of a thread that may run on a processor from
    number 32 on shifts a 32-bit one too far, which is undefined. *)
Theorem osal_task_get_affinity_undef {W F} `{!PthreadTask W F} t o set j (w w' : W) :
  pthread_getaffinity_np t w = Ret (0, set) w' → 32 ≤ j < CPU_SETSIZE → Z.testbit set j = true →
  osal_task_get_affinity (H := linux_config) (Some t) (Some o) w = Undef.
Proof.
  intros Hget Hj Hb. unfold osal_task_get_affinity. simpl. do 2 erewrite bind_run by done.
  erewrite bind_run by exact Hget. simpl. apply bind_undef. by eapply affinity_of_undef.
Qed.

Lemma osal_task_get_affinity_undef_witness :
  osal_task_get_affinity (H := linux_config) (F := Z) (Some 2) (Some 0)
    (Sim.mk_world ∅ {[2 := 2 ^ 40]} 0) = Undef.
Proof.
  refine (osal_task_get_affinity_undef 2 0 (2 ^ 40) 40 (Sim.mk_world ∅ {[2 := 2 ^ 40]} 0)
    (Sim.mk_world ∅ {[2 := 2 ^ 40]} 0) _ _ _); [reflexivity|unfold CPU_SETSIZE; lia|reflexivity].
Defined.

(** A new thread always gets to its handler: whatever the settings of its
    attributes answer, the wrapper ends by storing [running] and running the
    handler on its argument. *)
Theorem posix_task_wrapper_runs `{!Config} {W F} `{!PthreadTask W F, !PthreadTaskLaws W F}
    (args : start_args F) (w : W) :
  ∃ w', running w' = 1 ∧ posix_task_wrapper args w = run_handler (user_handler args) (user_arg args) w'.
Proof.
  assert (∀ (m : C W unit), wp m (λ _ _, True) w →
    ∃ w', running w' = 1 ∧
      (m;; set_running 1;; run_handler (user_handler args) (user_arg args)) w =
      run_handler (user_handler args) (user_arg args) w') as Hrun.
  { intros m Hm. destruct (wp_ret_inv _ _ _ Hm) as ([] & w1 & H1 & _).
    destruct (wp_ret_inv _ _ _ (set_running_law 1 w1)) as ([] & w2 & H2 & H3).
    exists w2. split; [done|]. erewrite bind_run by exact H1. by erewrite bind_run by exact H2. }
  unfold posix_task_wrapper. apply Hrun.
  assert (∀ s v r w, wp (report s v r) (λ _ _, True) w) as Hrep.
  { intros s v r w0. unfold report. destruct (r =? OSAL_OK); [done|]. apply fprintf_law. }
  destruct (user_attr args) as [attr|]; [|done].
  apply wp_bind. apply wp_mono with (P := λ _ _, True).
  { destruct (policy attr =? 0); [done|]. apply wp_bind. unfold osal_task_set_policy.
    apply wp_bind, tid_of_spec, wp_bind. eapply wp_mono; [apply getsched_law|]. intros [r [p q]] w1 _.
    destruct (sched_ret r =? OSAL_OK); [|apply wp_ret, Hrep].
    apply wp_bind. unfold wp at 1. rewrite self_law. apply wp_bind.
    eapply wp_mono; [apply setsched_law|]. intros r2 w2 _. apply wp_ret, Hrep. }
  intros _ w1 _. apply wp_bind. apply wp_mono with (P := λ _ _, True).
  { destruct (priority attr =? 0); [done|]. apply wp_bind. unfold osal_task_set_priority.
    apply wp_bind, tid_of_spec, wp_bind. eapply wp_mono; [apply getsched_law|]. intros [r [p q]] w2 _.
    destruct (sched_ret r =? OSAL_OK); [|apply wp_ret, Hrep].
    apply wp_bind. eapply wp_mono; [apply setsched_law|]. intros r2 w3 _. apply wp_ret, Hrep. }
  intros _ w2 _. apply wp_bind. apply wp_mono with (P := λ _ _, True).
  { destruct (0 <? affinity attr) eqn:Ha; [|done]. apply wp_bind. unfold osal_task_set_affinity. rewrite Ha.
    destruct LIBOSAL_HAVE_PTHREAD_SETAFFINITY_NP; [|apply wp_ret, Hrep]. cbn [andb].
    apply wp_bind, tid_of_spec, wp_bind. eapply wp_mono; [apply setaffinity_law|].
    intros r w3 _. apply wp_ret, Hrep. }
  intros _ w3 _. unfold set_name.
  destruct (LIBOSAL_HAVE_SYS_PRCTL_H && _); [apply set_name_law|done].
Qed.

(** If [osal_task_create] returns [OSAL_OK] the new thread has announced
    that it runs: the arguments on the creator's stack, which it reads, are out
    of use. *)
Theorem osal_task_create_waits {W F}
    `{!PosixTimeOS W, !PthreadTask W F, !PthreadTaskLaws W F} fuel h attr (f : F) arg (w : W) :
  (∀ w, wlp (osal_sleep fuel 1000000) (λ _ _, True) w) →
  wlp (osal_task_create fuel (Some h) attr f arg) (λ '(r, _) w', r = OSAL_OK → running w' ≠ 0) w.
Proof.
  intros Hsleep. unfold osal_task_create. apply wlp_bind, wlp_ret, wlp_bind.
  eapply wlp_mono; [apply wp_wlp, set_running_law|]. intros _ w1 _. apply wlp_bind.
  eapply wlp_mono; [apply create_law|]. intros [r t] w2 _. apply wlp_bind.
  set (ret := if r =? 0 then OSAL_OK else _).
  destruct (Z.eqb_spec ret OSAL_OK) as [Hr|Hr]; [|by apply wlp_ret, wlp_ret].
  eapply wlp_mono; [apply wlp_cloop with (I := λ _ _, True) (Q := λ _ w', running w' ≠ 0); [|done]|].
  - intros [] w3 _. apply wlp_bind. eapply wlp_mono; [apply wp_wlp, start_running_law|].
    intros x w4 ->. destruct (Z.eqb_spec (running w4) 0); [|by apply wlp_ret].
    apply wlp_bind. eapply wlp_mono; [apply Hsleep|]. intros [] w5 _. by apply wlp_ret.
  - intros [] w3 Hw. by apply wlp_ret.
Qed.

Lemma osal_task_create_waits_witness :
  let os : PosixTimeOS Sim.world := {| global_clock_id _ := CLOCK_MONOTONIC; set_global_clock_id _ w := w;
    clock_gettime _ := mret (0, Some (mk_timespec 0 0)); clock_nanosleep _ _ _ := mret (0, None);
    perror _ := mret tt |} in
  wlp (@osal_task_create _ _ os Sim.os 3 (Some 0) None 42 5)
      (λ '(r, _) w', r = OSAL_OK → Sim.run w' ≠ 0) Sim.world1.
Proof.
  intros os. refine (@osal_task_create_waits _ _ os Sim.os Sim.laws 3 0 None 42 5 Sim.world1 _).
  intros w. exact I.
Defined.
