(* ===== verification/Stm32.v ===== *)
(** * The bare-metal back end: src/stm32/semaphore.c, binary_semaphore.c, timer.c, mutex.c

    There is one thread and interrupt handlers. The world is the memory cells of
    the semaphores, the PRIMASK register (set: interrupts are off) and the rest
    of the microcontroller [E]. Before every access of a cell the interrupt
    handlers may run, any code of the application, unless PRIMASK is set: that is
    [irq]. The timers TIM2 and TIM4 are read through [Stm32]. *)

From S2P Require Import Prelude Osal Timer BinarySemaphore.

Record mcu {E : Type} : Type := mk_mcu { cells : gmap loc Z; primask : bool; hw : E }.
Arguments mcu : clear implicits.
Arguments mk_mcu {E} _ _ _.

Class Stm32 (E : Type) := {
  interrupts : C (mcu E) unit;
  TIM2_CNT : C (mcu E) Z;
  TIM4_CNT : C (mcu E) Z;
}.

Section stm32.
Context {E : Type} `{!Stm32 E}.

Definition irq : C (mcu E) unit :=
  off ← gets primask; if (off : bool) then mret tt else interrupts.

(** The atomic builtins on the cell at [l]; [read] is a plain access to it. *)
Definition read (l : loc) : C (mcu E) Z := λ w,
  match cells w !! l with Some v => Ret v w | None => Undef end.

Definition write (l : loc) (v : Z) : C (mcu E) unit :=
  modify (λ w, mk_mcu (<[l := v]> (cells w)) (primask w) (hw w)).

Definition atomic_load (l : loc) : C (mcu E) Z := irq;; read l.
Definition atomic_store (l : loc) (v : Z) : C (mcu E) unit := irq;; write l v.
Definition atomic_add (l : loc) (n : Z) : C (mcu E) unit :=
  irq;; v ← read l; write l (s32 (v + n)).
Definition atomic_exchange (l : loc) (n : Z) : C (mcu E) Z := irq;; v ← read l; write l n;; mret v.

(** [__atomic_clear] and [__atomic_test_and_set] work on one byte, of an [int]
    the least significant one. *)
Definition atomic_clear (l : loc) : C (mcu E) unit :=
  irq;; v ← read l; write l (Z.ldiff v 0xFF).
Definition atomic_test_and_set (l : loc) : C (mcu E) unit :=
  irq;; v ← read l; write l (Z.lor (Z.ldiff v 0xFF) 1).

(** ENTER_CRITICAL_SECTION and LEAVE_CRITICAL_SECTION. *)
Definition enter_critical : C (mcu E) bool :=
  irq;; off ← gets primask; modify (λ w, mk_mcu (cells w) true (hw w));; mret off.
Definition leave_critical (off : bool) : C (mcu E) unit :=
  if off then mret tt else modify (λ w, mk_mcu (cells w) false (hw w)).

(** ** timer.c *)

Definition osal_timer_gettime (timer : option osal_timer) : C (mcu E) (Z * osal_timer) :=
  _ ← assert_ptr timer;
  off ← enter_critical;
  s ← TIM4_CNT;
  n ← TIM2_CNT;
  leave_critical off;;
  mret (OSAL_OK, mk_timer s (u32 (n * 5))).

Definition osal_timer_gettime_nsec : C (mcu E) Z :=
  '(local_ret, tmr) ← osal_timer_gettime (Some (mk_timer 0 0));
  mret (if local_ret =? OSAL_OK then u64 (u64 (sec tmr * NSEC_PER_SEC) + nsec tmr) else 0).

Definition osal_timer_init (timer : option osal_timer) (timeout : Z) : C (mcu E) osal_timer :=
  _ ← assert_ptr timer;
  '(_, a) ← osal_timer_gettime (Some (mk_timer 0 0));
  mret (osal_timer_add a (mk_timer (timeout / NSEC_PER_SEC) (timeout mod NSEC_PER_SEC))).

Definition osal_timer_expired (timer : option osal_timer) : C (mcu E) Z :=
  timer ← assert_ptr timer;
  '(ret, act) ← osal_timer_gettime (Some (mk_timer 0 0));
  mret (if ret =? OSAL_OK then
          if osal_timer_cmp act timer Z.ltb then ret else OSAL_ERR_TIMEOUT
        else ret).

Definition osal_sleep_until (fuel : nat) (timer : option osal_timer) : C (mcu E) Z :=
  _ ← assert_ptr timer;
  cloop fuel (λ _ : unit,
    r ← osal_timer_expired timer;
    mret (if negb (r =? OSAL_ERR_TIMEOUT) then inl tt else inr OSAL_OK)) tt.

Definition osal_sleep (fuel : nat) (nsec : Z) : C (mcu E) unit :=
  timeout ← osal_timer_init (Some (mk_timer 0 0)) nsec;
  _ ← osal_sleep_until fuel (Some timeout);
  mret tt.

Definition osal_sleep_until_nsec (fuel : nat) (nsec : Z) : C (mcu E) Z :=
  osal_sleep_until fuel (Some (mk_timer (nsec / NSEC_PER_SEC) (nsec mod NSEC_PER_SEC))).

(** ** semaphore.c: [cnt] is the cell *)

Definition osal_semaphore_init (sem : option loc) (initval : Z) : C (mcu E) Z :=
  l ← assert_ptr sem; atomic_store l initval;; mret OSAL_OK.

Definition osal_semaphore_post (sem : option loc) : C (mcu E) Z :=
  l ← assert_ptr sem; atomic_add l 1;; mret OSAL_OK.

Definition osal_semaphore_wait (fuel : nat) (sem : option loc) : C (mcu E) Z :=
  l ← assert_ptr sem;
  cloop fuel (λ _ : unit, v ← atomic_load l; mret (if v =? 0 then inl tt else inr tt)) tt;;
  atomic_add l (-1);;
  mret OSAL_OK.

Definition osal_semaphore_trywait (sem : option loc) : C (mcu E) Z :=
  l ← assert_ptr sem;
  v ← atomic_load l;
  if 0 <? v then atomic_add l (-1);; mret OSAL_OK
  else mret OSAL_ERR_UNAVAILABLE.

Definition osal_semaphore_timedwait (fuel : nat) (sem : option loc) (to : option osal_timer) : C (mcu E) Z :=
  l ← assert_ptr sem;
  to ← assert_ptr to;
  ret ← cloop fuel (λ _ : unit,
    v ← atomic_load l;
    if v =? 0 then
      r ← osal_timer_expired (Some to);
      mret (if r =? OSAL_ERR_TIMEOUT then inr OSAL_ERR_TIMEOUT else inl tt)
    else mret (inr OSAL_OK)) tt;
  (if ret =? OSAL_OK then atomic_add l (-1) else mret tt);;
  mret ret.

Definition osal_semaphore_destroy (sem : option loc) : C (mcu E) Z :=
  _ ← assert_ptr sem; mret OSAL_OK.

(** ** binary_semaphore.c: [value] is the cell *)

Definition osal_binary_semaphore_init (sem : option loc) : C (mcu E) Z :=
  l ← assert_ptr sem; atomic_clear l;; mret OSAL_OK.

Definition osal_binary_semaphore_post (sem : option loc) : C (mcu E) Z :=
  l ← assert_ptr sem;
  off ← enter_critical;
  atomic_test_and_set l;;
  leave_critical off;;
  mret OSAL_OK.

Definition osal_binary_semaphore_wait (fuel : nat) (sem : option loc) : C (mcu E) Z :=
  l ← assert_ptr sem;
  off ← enter_critical;
  cloop fuel (λ _ : unit, v ← atomic_exchange l 0; mret (if v =? 0 then inl tt else inr tt)) tt;;
  leave_critical off;;
  mret OSAL_OK.

Definition osal_binary_semaphore_trywait (sem : option loc) : C (mcu E) Z :=
  l ← assert_ptr sem;
  off ← enter_critical;
  old_value ← atomic_exchange l 0;
  leave_critical off;;
  mret (if old_value =? 0 then OSAL_ERR_BUSY else OSAL_OK).

Definition osal_binary_semaphore_timedwait (fuel : nat) (sem : option loc) (to : option osal_timer) : C (mcu E) Z :=
  l ← assert_ptr sem;
  cloop fuel (λ _ : unit,
    r ← osal_timer_expired to;
    if r =? OSAL_ERR_TIMEOUT then mret (inr OSAL_ERR_TIMEOUT)
    else
      off ← enter_critical;
      old_value ← atomic_exchange l 0;
      leave_critical off;;
      mret (if old_value =? 0 then inl tt else inr OSAL_OK)) tt.

Definition osal_binary_semaphore_destroy (sem : option loc) : C (mcu E) Z :=
  _ ← assert_ptr sem; mret OSAL_OK.

(** ** mutex.c *)

Definition osal_mutex_init (mtx : option loc) (attr : option Z) : C (mcu E) Z := _ ← assert_ptr mtx; mret OSAL_OK.
Definition osal_mutex_lock (mtx : option loc) : C (mcu E) Z := _ ← assert_ptr mtx; mret OSAL_OK.
Definition osal_mutex_trylock (mtx : option loc) : C (mcu E) Z := _ ← assert_ptr mtx; mret OSAL_OK.
Definition osal_mutex_unlock (mtx : option loc) : C (mcu E) Z := _ ← assert_ptr mtx; mret OSAL_OK.
Definition osal_mutex_destroy (mtx : option loc) : C (mcu E) Z := _ ← assert_ptr mtx; mret OSAL_OK.
End stm32.

(** ** What the hardware and the application promise

    [now w] is the time in nanoseconds: TIM4 counts its seconds, TIM2 its steps
    of 5 ns in the second, and it passes while they are read. The interrupt
    handlers, when they run, keep the cell at [l] a flag ([flag_kept]). *)
Class Stm32Clock (E : Type) `{!Stm32 E} := {
  now : mcu E → Z;
  tim4_law w : ∃ w', TIM4_CNT w = Ret (now w' / NSEC_PER_SEC) w' ∧ now w ≤ now w' ∧
    cells w' = cells w ∧ primask w' = primask w;
  tim2_law w : ∃ w', TIM2_CNT w = Ret (now w' mod NSEC_PER_SEC / 5) w' ∧ now w ≤ now w' ∧
    cells w' = cells w ∧ primask w' = primask w;
}.

Definition flag_at {E} (l : loc) (w : mcu E) : Prop :=
  cells w !! l = Some 0 ∨ cells w !! l = Some 1.

Definition flag_kept {E} `{!Stm32 E} (l : loc) : Prop :=
  ∀ w, flag_at l w → wp interrupts (λ _ w', flag_at l w' ∧ primask w' = primask w) w.

(** ** Lemmas *)

Section lemmas.
Context {E : Type} `{!Stm32 E}.
Implicit Types w : mcu E.

Lemma irq_off w : primask w = true → irq w = Ret tt w.
Proof. intros H. unfold irq, gets. unfold mbind, C_bind. by rewrite H. Qed.

Lemma irq_flag l w :
  flag_kept l → flag_at l w → wp irq (λ _ w', flag_at l w' ∧ primask w' = primask w) w.
Proof.
  intros Hk Hf. unfold irq. apply wp_bind. unfold wp at 1, gets at 1.
  destruct (primask w) eqn:H; [by apply wp_ret|]. eapply wp_mono; [by apply Hk|]. by rewrite H.
Qed.

Lemma enter_flag l w :
  flag_kept l → flag_at l w →
  wp enter_critical (λ off w', off = primask w ∧ flag_at l w' ∧ primask w' = true) w.
Proof.
  intros Hk Hf. unfold enter_critical. apply wp_bind. eapply wp_mono; [by apply irq_flag|].
  intros _ w1 [H1 H2]. unfold wp. c_unfold. simpl. by rewrite H2.
Qed.

(** With interrupts off an exchange is one step. *)
Lemma exchange_off l n v w :
  primask w = true → cells w !! l = Some v →
  atomic_exchange l n w = Ret v (mk_mcu (<[l := n]> (cells w)) (primask w) (hw w)).
Proof.
  intros Hp Hv. unfold atomic_exchange. erewrite bind_run by by apply irq_off.
  erewrite bind_run by (unfold read; by rewrite Hv). done.
Qed.

Lemma leave_spec off w : leave_critical off w = Ret tt (mk_mcu (cells w) (if off then primask w else false) (hw w)).
Proof. destruct off, w; done. Qed.
Lemma load_run l v w w1 : irq w = Ret tt w1 → cells w1 !! l = Some v → atomic_load l w = Ret v w1.
Proof. intros Hi Hv. unfold atomic_load. erewrite bind_run by exact Hi. unfold read. by rewrite Hv. Qed.

Lemma add_run l n v w w1 :
  irq w = Ret tt w1 → cells w1 !! l = Some v →
  atomic_add l n w = Ret tt (mk_mcu (<[l := s32 (v + n)]> (cells w1)) (primask w1) (hw w1)).
Proof.
  intros Hi Hv. unfold atomic_add. erewrite bind_run by exact Hi.
  erewrite bind_run by (unfold read; by rewrite Hv). done.
Qed.

Lemma enter_off w : primask w = true → enter_critical w = Ret true (mk_mcu (cells w) true (hw w)).
Proof.
  intros Hp. unfold enter_critical. erewrite bind_run by by apply irq_off.
  unfold gets, modify. c_unfold. by rewrite Hp.
Qed.
End lemmas.

(** ** A concrete microcontroller

    The rest of it is the time, a step of 5 ns for every read of a timer, and how
    many more interrupts will take a unit from the semaphore at 1. *)
Module Sim.
#[global] Instance chip : Stm32 (Z * nat) := {|
  interrupts w :=
    match hw w with
    | (t, S k) =>
        let v := default 0 (cells w !! 1%positive) in
        if 0 <? v then Ret tt (mk_mcu (<[1%positive := v - 1]> (cells w)) (primask w) (t, k))
        else Ret tt w
    | _ => Ret tt w
    end;
  TIM2_CNT w := let t := (hw w).1 + 5 in
    Ret (t mod NSEC_PER_SEC / 5) (mk_mcu (cells w) (primask w) (t, (hw w).2));
  TIM4_CNT w := let t := (hw w).1 + 5 in
    Ret (t / NSEC_PER_SEC) (mk_mcu (cells w) (primask w) (t, (hw w).2));
|}.

#[global] Instance clock : Stm32Clock (Z * nat).
Proof.
  refine {| now := λ w, (hw w).1 |}; intros w;
    exists (mk_mcu (cells w) (primask w) ((hw w).1 + 5, (hw w).2)); (split; [reflexivity|]); simpl;
    (split; [lia|done]).
Defined.

Lemma flag_kept_2 : flag_kept 2.
Proof.
  intros w H. unfold wp. simpl. destruct (hw w) as [t [|k]]; [done|].
  destruct (0 <? default 0 (cells w !! 1%positive)); [|done]. split; [|done].
  unfold flag_at. simpl. by rewrite lookup_insert_ne.
Qed.
End Sim.

(** ** Properties *)

(** Posting raises the flag, trying takes it, under any interrupt handlers
    that keep the cell a flag; PRIMASK is left as it was, and with interrupts off
    [trywait] answers whether the flag was up. *)
Theorem stm32_binary_semaphore_flag {E} `{!Stm32 E} l (w : mcu E) :
  flag_kept l → flag_at l w →
  wp (osal_binary_semaphore_post (Some l)) (λ r w',
    r = OSAL_OK ∧ cells w' !! l = Some 1 ∧ primask w' = primask w) w ∧
  wp (osal_binary_semaphore_trywait (Some l)) (λ r w',
    (r = OSAL_OK ∨ r = OSAL_ERR_BUSY) ∧ cells w' !! l = Some 0 ∧ primask w' = primask w ∧
    (primask w = true → r = if bool_decide (cells w !! l = Some 1) then OSAL_OK else OSAL_ERR_BUSY)) w.
Proof.
  intros Hk Hf. split.
  - unfold osal_binary_semaphore_post. apply wp_bind, wp_ret, wp_bind.
    eapply wp_mono; [by apply enter_flag|]. intros off w1 (-> & H1 & Hp).
    apply wp_bind. unfold wp at 1, atomic_test_and_set.
    erewrite bind_run by by apply irq_off. unfold read.
    destruct H1 as [H1|H1]; (erewrite bind_run by by rewrite H1); cbn;
      apply wp_bind; unfold wp at 1; rewrite leave_spec; apply wp_ret; cbn; rewrite lookup_insert_eq;
      rewrite Hp; by destruct (primask w).
  - unfold osal_binary_semaphore_trywait. apply wp_bind, wp_ret.
    destruct (primask w) eqn:Hw.
    + apply wp_bind. unfold wp at 1. rewrite enter_off by done. apply wp_bind. unfold wp at 1.
      destruct Hf as [Hf|Hf]; rewrite (exchange_off l 0 _ (mk_mcu (cells w) true (hw w)) eq_refl Hf); apply wp_bind; unfold wp at 1;
        rewrite leave_spec; apply wp_ret; cbn; rewrite lookup_insert_eq, Hf; repeat (split; [by auto|]); done.
    + apply wp_bind. eapply wp_mono; [by apply enter_flag|]. intros off w1 (-> & H1 & Hp).
      apply wp_bind. unfold wp at 1. rewrite Hw.
      destruct H1 as [H1|H1]; rewrite (exchange_off _ _ _ _ Hp H1); apply wp_bind; unfold wp at 1;
        rewrite leave_spec; apply wp_ret; cbn; rewrite lookup_insert_eq; repeat (split; [by auto|]); done.
Qed.

Lemma stm32_binary_semaphore_flag_witness :
  let w := mk_mcu {[2%positive := 1]} true (0, 3%nat) in
  wp (osal_binary_semaphore_trywait (Some 2%positive)) (λ r w', r = OSAL_OK ∧ cells w' !! 2%positive = Some 0) w.
Proof.
  intros w. eapply wp_mono; [exact (proj2 (stm32_binary_semaphore_flag 2%positive w Sim.flag_kept_2 (or_intror eq_refl)))|].
  intros r w' (_ & H & _ & Hr). split; [exact (Hr eq_refl)|exact H].
Defined.

(** [osal_binary_semaphore_wait] spins with interrupts off: if the flag is
    down when it has switched them off, nothing can raise it and the wait never
    returns, whatever the interrupt handlers would do. *)
Theorem stm32_binary_wait_hangs {E} `{!Stm32 E} l fuel (w w1 : mcu E) :
  irq w = Ret tt w1 → cells w1 !! l = Some 0 →
  osal_binary_semaphore_wait fuel (Some l) w = NoReturn.
Proof.
  intros Hirq Hl. unfold osal_binary_semaphore_wait. erewrite bind_run by done.
  unfold enter_critical. erewrite (bind_run (irq ≫= _)); [|by erewrite bind_run by exact Hirq].
  cbn [hw cells primask]. unfold mbind at 1, C_bind at 1.
  rewrite (cloop_diverges (λ _ w, primask w = true ∧ cells w !! l = Some 0)); [done| |done].
  intros [] w2 [Hp H2]. eexists tt, _. split; [by erewrite bind_run by by apply exchange_off|].
  split; [done|]. apply lookup_insert_eq.
Qed.

Lemma stm32_binary_wait_hangs_witness :
  osal_binary_semaphore_wait 1000 (Some 2%positive) (mk_mcu {[2%positive := 0]} false (0, 0%nat)) = NoReturn.
Proof.
  refine (stm32_binary_wait_hangs 2%positive 1000 (mk_mcu {[2%positive := 0]} false (0, 0%nat))
    (mk_mcu {[2%positive := 0]} false (0, 0%nat)) eq_refl _). reflexivity.
Defined.

(** [osal_binary_semaphore_init] clears one byte of the [int]: in memory
    whose other bytes are not zero, the first wait on the new semaphore succeeds
    though nobody has posted. *)
Theorem stm32_binary_init_partial {E} `{!Stm32 E} l v (w : mcu E) :
  primask w = true → cells w !! l = Some v → Z.ldiff v 0xFF ≠ 0 →
  wp (_ ← osal_binary_semaphore_init (Some l); osal_binary_semaphore_trywait (Some l))
     (λ r _, r = OSAL_OK) w.
Proof.
  intros Hp Hl Hv. apply wp_bind. unfold osal_binary_semaphore_init. apply wp_bind, wp_ret.
  apply wp_bind. unfold wp at 1, atomic_clear. erewrite bind_run by by apply irq_off.
  unfold read. erewrite bind_run by by rewrite Hl. cbn.
  set (w1 := mk_mcu _ _ _). assert (cells w1 !! l = Some (Z.ldiff v 0xFF)) as H1 by apply lookup_insert_eq.
  assert (primask w1 = true) as Hp1 by done. clearbody w1.
  fold (wp (osal_binary_semaphore_trywait (Some l)) (λ r _, r = OSAL_OK) w1).
  unfold osal_binary_semaphore_trywait. apply wp_bind, wp_ret, wp_bind. unfold wp at 1.
  rewrite enter_off by done. apply wp_bind. unfold wp at 1. erewrite exchange_off by done. cbn.
  apply Z.eqb_neq in Hv. by rewrite Hv.
Qed.

Lemma stm32_binary_init_partial_witness :
  wp (_ ← osal_binary_semaphore_init (Some 2%positive); osal_binary_semaphore_trywait (Some 2%positive))
     (λ r _, r = OSAL_OK) (mk_mcu {[2%positive := 0x20000010]} true (0, 0%nat)).
Proof.
  refine (stm32_binary_init_partial 2%positive 0x20000010 (mk_mcu {[2%positive := 0x20000010]} true (0, 0%nat)) eq_refl _ _);
    [reflexivity|discriminate].
Defined.

(** [osal_semaphore_trywait] tests and takes in two steps: an interrupt
    handler that takes the last unit in between leaves the counter at -1, both
    having been told [OSAL_OK], and from then on [osal_semaphore_wait] no longer
    blocks. *)
Theorem stm32_semaphore_overdrawn {E} `{!Stm32 E} l (w w1 w2 : mcu E) :
  irq w = Ret tt w1 → cells w1 !! l = Some 1 → irq w1 = Ret tt w2 → cells w2 !! l = Some 0 →
  let w3 := mk_mcu (<[l := -1]> (cells w2)) (primask w2) (hw w2) in
  osal_semaphore_trywait (Some l) w = Ret OSAL_OK w3 ∧
  ∀ w4 w5, irq w3 = Ret tt w4 → cells w4 !! l = Some (-1) → irq w4 = Ret tt w5 → cells w5 !! l = Some (-1) →
    wp (osal_semaphore_wait 1 (Some l)) (λ r _, r = OSAL_OK) w3.
Proof.
  intros Hi1 H1 Hi2 H2 w3. split.
  - unfold osal_semaphore_trywait. erewrite bind_run by done.
    erewrite bind_run by by eapply load_run. cbn [Z.ltb Z.compare].
    erewrite bind_run by by eapply add_run. done.
  - intros w4 w5 Hi3 H3 Hi4 H4. unfold osal_semaphore_wait. apply wp_bind, wp_ret, wp_bind.
    cbn [cloop]. apply wp_bind, wp_bind. unfold wp at 1. rewrite (load_run _ _ _ _ Hi3 H3).
    apply wp_ret, wp_ret, wp_bind. unfold wp at 1. by rewrite (add_run _ _ _ _ _ Hi4 H4).
Qed.

Lemma stm32_semaphore_overdrawn_witness :
  osal_semaphore_trywait (Some 2%positive) (mk_mcu {[2%positive := 1]} true (0, 0%nat)) ≠ NoReturn ∧
  let chip : Stm32 nat := {| interrupts w :=
      match hw w with
      | 1%nat => Ret tt (mk_mcu {[1%positive := 0]} false 0%nat)
      | n => Ret tt (mk_mcu (cells w) false (pred n)) end;
    TIM2_CNT := mret 0; TIM4_CNT := mret 0 |} in
  @osal_semaphore_trywait nat chip (Some 1%positive) (mk_mcu {[1%positive := 1]} false 2%nat) =
    Ret OSAL_OK (mk_mcu (<[1%positive := -1]> {[1%positive := 0]}) false 0%nat).
Proof.
  split; [discriminate|]. intros chip.
  refine (proj1 (@stm32_semaphore_overdrawn nat chip 1%positive (mk_mcu {[1%positive := 1]} false 2%nat)
    (mk_mcu {[1%positive := 1]} false 1%nat) (mk_mcu {[1%positive := 0]} false 0%nat) _ _ _ _)); reflexivity.
Defined.

(** The time read from the two timers is the present one, to 5 ns, less one
    second for every time the second has rolled over between reading TIM4 and
    reading TIM2: switching interrupts off does not stop the timers. *)
Theorem stm32_gettime_torn {E} `{!Stm32 E, !Stm32Clock E} tmr (w : mcu E) :
  primask w = true →
  wp (osal_timer_gettime (Some tmr)) (λ '(r, t) w', r = OSAL_OK ∧ ∃ t4,
    now w ≤ t4 ≤ now w' ∧
    timer_total t = now w' - now w' mod 5 - NSEC_PER_SEC * (now w' / NSEC_PER_SEC - t4 / NSEC_PER_SEC)) w.
Proof.
  intros Hp. unfold osal_timer_gettime. apply wp_bind, wp_ret, wp_bind. unfold wp at 1.
  rewrite enter_off by done.
  set (w0 := mk_mcu (cells w) true (hw w)). assert (w0 = w) as -> by (unfold w0; rewrite <- Hp; by destruct w).
  destruct (tim4_law w) as (w1 & H4 & Hle1 & _). destruct (tim2_law w1) as (w2 & H2 & Hle2 & _).
  unfold wp. erewrite bind_run by exact H4. erewrite bind_run by exact H2. erewrite bind_run by done.
  cbn. split; [done|]. exists (now w1). split; [lia|]. unfold timer_total; cbn [sec nsec].
  set (t := now w2) in *. unfold NSEC_PER_SEC in *.
  pose proof (Z.div_mod t 1000000000 ltac:(lia)). pose proof (Z.mod_pos_bound t 1000000000 ltac:(lia)).
  set (n := t mod 1000000000) in *.
  pose proof (Z.div_mod n 5 ltac:(lia)). pose proof (Z.mod_pos_bound n 5 ltac:(lia)).
  assert (t mod 5 = n mod 5) as ->.
  { replace t with (n + (200000000 * (t / 1000000000)) * 5) by lia. apply Z.mod_add. lia. }
  rewrite uwrap_id by (unfold in_uint; lia). lia.
Qed.

Lemma stm32_gettime_torn_witness :
  let w := mk_mcu ∅ true (999999990, 0%nat) in
  osal_timer_gettime (Some (mk_timer 0 0)) w = Ret (OSAL_OK, mk_timer 0 0) (mk_mcu ∅ true (1000000000, 0%nat)) ∧
  wp (osal_timer_gettime (Some (mk_timer 0 0))) (λ '(r, t) w', r = OSAL_OK ∧ ∃ t4,
    999999990 ≤ t4 ≤ now w' ∧
    timer_total t = now w' - now w' mod 5 - NSEC_PER_SEC * (now w' / NSEC_PER_SEC - t4 / NSEC_PER_SEC)) w.
Proof.
  intros w. split; [reflexivity|]. refine (stm32_gettime_torn (mk_timer 0 0) w eq_refl).
Defined.
