(* ===== verification/Stm32Shared.v ===== *)
(** * Semaphores between a program and interrupt handlers: src/stm32/

    The functions of src/stm32/binary_semaphore.c and semaphore.c, and
    osal_timer_expired of timer.c, as programs over the single accesses to the
    counter, to the timers and to PRIMASK. The main program and the interrupt
    handlers are threads (Threads); they run in any interleaving, which is more
    than handlers that nest can do, but while PRIMASK is set only the thread
    that has set it runs. A thread may have disabled the interrupts by itself
    before it calls a function. The timers show whatever they show: [tim4] and
    [tim2] give the value of each reading.

    The binary semaphore is linearizable for any number of threads. So is the
    counting semaphore if only one thread takes from it; if two threads take,
    both can be given the last unit. *)

From S2P Require Import Prelude Osal Timer BinarySemaphore Stm32 Programs Threads.
Open Scope list_scope.

(** ** The memory *)

(** [masked]: the thread that has disabled the interrupts. Two more are no
    variables of the program. [kept]: the thread that has disabled the
    interrupts itself, outside the functions. [posting]: the threads that have
    called a post and not added yet. *)
Record shared : Type := mk_shared {
  cell : Z;
  masked : option nat;
  kept : option nat;
  reads : nat;
  posting : gset nat;
}.

Inductive event : Type :=
  | GetPrimask
  | DisableIrq
  | EnableIrq
  | Load
  | Add (n : Z)
  | Exchange (n : Z)
  | TestAndSet
  | ReadTIM4
  | ReadTIM2.

Abbreviation prog := (Programs.prog event).

Definition set_cell (r : shared) (v : Z) : shared := mk_shared v (masked r) (kept r) (reads r) (posting r).
Definition set_masked (r : shared) (m : option nat) : shared := mk_shared (cell r) m (kept r) (reads r) (posting r).
Definition add_read (r : shared) : shared := mk_shared (cell r) (masked r) (kept r) (S (reads r)) (posting r).

Definition enabled (t : nat) (e : event) (r : shared) : bool :=
  match masked r with None => true | Some t' => Nat.eqb t' t end.

Section accesses.
Context (tim4 tim2 : nat → Z).

Definition access (t : nat) (e : event) (r : shared) : option (Z * shared) := Some
  match e with
  | GetPrimask => (if masked r is Some _ then 1 else 0, r)
  | DisableIrq => (0, set_masked r (Some t))
  | EnableIrq => (0, set_masked r None)
  | Load => (cell r, r)
  | Add n => (0, mk_shared (s32 (cell r + n)) (masked r) (kept r) (reads r) (posting r ∖ {[t]}))
  | Exchange n => (cell r, set_cell r n)
  | TestAndSet => (0, set_cell r (Z.lor (Z.ldiff (cell r) 0xFF) 1))
  | ReadTIM4 => (tim4 (reads r), add_read r)
  | ReadTIM2 => (tim2 (reads r), add_read r)
  end.
End accesses.

(** ** The functions *)

(** ENTER_CRITICAL_SECTION and LEAVE_CRITICAL_SECTION around [p]. *)
Definition critical {A} (p : prog A) : prog A :=
  primask ← emit GetPrimask;
  _ ← emit DisableIrq;
  a ← p;
  if primask =? 0 then _ ← emit EnableIrq; mret a else mret a.

Module Shared.
Definition osal_timer_gettime : prog osal_timer :=
  critical (s ← emit ReadTIM4; n ← emit ReadTIM2; mret (mk_timer s (u32 (n * 5)))).

Definition osal_timer_expired (timer : osal_timer) : prog Z :=
  act ← osal_timer_gettime;
  mret (if osal_timer_cmp act timer Z.ltb then OSAL_OK else OSAL_ERR_TIMEOUT).

Definition osal_binary_semaphore_post : prog Z := _ ← critical (emit TestAndSet); mret OSAL_OK.

Definition osal_binary_semaphore_wait (fuel : nat) : prog Z :=
  _ ← critical (ploop fuel (v ← emit (Exchange 0); mret (if v =? 0 then None else Some tt)));
  mret OSAL_OK.

Definition osal_binary_semaphore_trywait : prog Z :=
  old_value ← critical (emit (Exchange 0));
  mret (if old_value =? 0 then OSAL_ERR_BUSY else OSAL_OK).

Definition osal_binary_semaphore_timedwait (fuel : nat) (to : osal_timer) : prog Z :=
  ploop fuel (
    r ← osal_timer_expired to;
    if r =? OSAL_ERR_TIMEOUT then mret (Some OSAL_ERR_TIMEOUT)
    else
      old_value ← critical (emit (Exchange 0));
      mret (if old_value =? 0 then None else Some OSAL_OK)).

Definition osal_semaphore_post : prog Z := _ ← emit (Add 1); mret OSAL_OK.

Definition osal_semaphore_wait (fuel : nat) : prog Z :=
  _ ← ploop fuel (v ← emit Load; mret (if v =? 0 then None else Some tt));
  _ ← emit (Add (-1));
  mret OSAL_OK.

Definition osal_semaphore_trywait : prog Z :=
  v ← emit Load;
  if 0 <? v then _ ← emit (Add (-1)); mret OSAL_OK else mret OSAL_ERR_UNAVAILABLE.

Definition osal_semaphore_timedwait (fuel : nat) (to : osal_timer) : prog Z :=
  ret ← ploop fuel (
    v ← emit Load;
    if v =? 0 then
      r ← osal_timer_expired to;
      mret (if r =? OSAL_ERR_TIMEOUT then Some OSAL_ERR_TIMEOUT else None)
    else mret (Some OSAL_OK));
  if ret =? OSAL_OK then _ ← emit (Add (-1)); mret ret else mret ret.
End Shared.

(** ** The calls and what they promise

    Before a call the caller may have disabled the interrupts, or enabled them:
    the first component. *)
Inductive op : Type := Post | Wait (fuel : nat) | Trywait | Timedwait (fuel : nat) (to : osal_timer).

Abbreviation call := (bool * op)%type.

Definition binary_call (t : nat) (c : call) : prog Z :=
  match c.2 with
  | Post => Shared.osal_binary_semaphore_post
  | Wait fuel => Shared.osal_binary_semaphore_wait fuel
  | Trywait => Shared.osal_binary_semaphore_trywait
  | Timedwait fuel to => Shared.osal_binary_semaphore_timedwait fuel to
  end.

Definition semaphore_call (t : nat) (c : call) : prog Z :=
  match c.2 with
  | Post => Shared.osal_semaphore_post
  | Wait fuel => Shared.osal_semaphore_wait fuel
  | Trywait => Shared.osal_semaphore_trywait
  | Timedwait fuel to => Shared.osal_semaphore_timedwait fuel to
  end.

(** A flag: posting raises it; taking lowers it, or fails as each function
    does. *)
Definition flag_spec (t : nat) (c : call) (v : bool) (b : Z) (v' : bool) : Prop :=
  match c.2 with
  | Post => b = OSAL_OK ∧ v' = true
  | Wait _ => v = true ∧ b = OSAL_OK ∧ v' = false
  | Trywait => b = (if v then OSAL_OK else OSAL_ERR_BUSY) ∧ v' = false
  | Timedwait _ _ => (v = true ∧ b = OSAL_OK ∧ v' = false) ∨ (b = OSAL_ERR_TIMEOUT ∧ v' = v)
  end.

(** A counter that is never negative. *)
Definition counter_spec (t : nat) (c : call) (v : Z) (b : Z) (v' : Z) : Prop :=
  match c.2 with
  | Post => b = OSAL_OK ∧ v' = v + 1
  | Wait _ => 0 < v ∧ b = OSAL_OK ∧ v' = v - 1
  | Trywait => if 0 <? v then b = OSAL_OK ∧ v' = v - 1 else b = OSAL_ERR_UNAVAILABLE ∧ v' = v
  | Timedwait _ _ => (0 < v ∧ b = OSAL_OK ∧ v' = v - 1) ∨ (b = OSAL_ERR_TIMEOUT ∧ v' = v)
  end.

(** The caller disables or enables the interrupts. While another thread has
    them disabled it is not running: it can do neither, and if it is to call
    with them enabled its call makes no access yet. *)
Definition set_kept (t : nat) (off : bool) (r : shared) : option shared :=
  if match masked r with None => true | Some t' => Nat.eqb t' t end
  then let m := if off then Some t else None in Some (mk_shared (cell r) m m (reads r) (posting r))
  else if off then None else Some r.

Definition any_start (t : nat) (c : call) (r : shared) : option shared := set_kept t c.1 r.

(** Only thread 0 takes, and no more posts are begun than an [int] counts. *)
Definition one_taker (t : nat) (c : call) (r : shared) : option shared :=
  match c.2 with
  | Post =>
      if cell r + Z.of_nat (size (posting r)) <? 2 ^ 31 - 1
      then set_kept t c.1 (mk_shared (cell r) (masked r) (kept r) (reads r) ({[t]} ∪ posting r)) else None
  | _ => if Nat.eqb t 0 then set_kept t c.1 r else None
  end.

Definition fresh (v : Z) : shared := mk_shared v None None 0 ∅.

(** Who has disabled the interrupts itself still has them disabled. *)
Definition kept_masked (r : shared) : Prop := ∀ t, kept r = Some t → masked r = Some t.

(** What a thread relies on: the others neither disable nor enable the
    interrupts for it. *)
Definition rely_irq (t : nat) (r r' : shared) : Prop :=
  (masked r = Some t ↔ masked r' = Some t) ∧ (kept r = Some t ↔ kept r' = Some t).

#[export] Instance rely_irq_preorder t : PreOrder (rely_irq t).
Proof.
  unfold rely_irq. split; [done|]. intros r1 r2 r3 [H1 H2] [H3 H4]. split; [by rewrite H1|by rewrite H2].
Qed.

(** In no critical section: the interrupts are as the caller wants them. In
    one, [off] tells whether the caller had disabled them. *)
Definition ready (t : nat) (r : shared) : Prop := masked r = Some t ↔ kept r = Some t.
Definition inside (t : nat) (off : bool) (r : shared) : Prop := masked r = Some t ∧ (kept r = Some t ↔ off = true).

(** While [t] runs, no other thread has interrupts disabled. *)
Lemma enabled_not_masked t t' e r : enabled t e r = true → t' ≠ t → masked r ≠ Some t'.
Proof.
  unfold enabled. destruct (masked r) as [t1|]; [|done]. intros H%Nat.eqb_eq Hne [= ->]. done.
Qed.

Lemma others_irq t e r m t' :
  enabled t e r = true → m = None ∨ m = Some t → t' ≠ t → rely_irq t' r (set_masked r m).
Proof.
  intros He Hm Hne. pose proof (enabled_not_masked _ _ _ _ He Hne) as Hr. split; [|done]. simpl.
  by destruct Hm as [-> | ->]; split; intros H; try congruence.
Qed.

Lemma set_kept_irq t off r r' :
  set_kept t off r = Some r' → kept_masked r →
  kept_masked r' ∧ (ready t r → ready t r') ∧ (∀ t', t' ≠ t → rely_irq t' r r') ∧
  cell r' = cell r ∧ posting r' = posting r.
Proof.
  unfold set_kept, ready, rely_irq. intros Hs Hk. destruct (match masked r with None => _ | _ => _ end) eqn:Hm.
  - injection Hs as <-. simpl. split_and!; [by intros ?|done| |done..].
    intros t' Hne. assert (masked r ≠ Some t') as Hn.
    { destruct (masked r) as [t1|]; [|done]. apply Nat.eqb_eq in Hm. congruence. }
    pose proof (λ H, Hn (Hk t' H)). by destruct off; split; split; intros ?; try congruence.
  - destruct off; [done|]. injection Hs as <-. by split_and!.
Qed.

(** ** Critical sections and the clock, for either object *)
Section sections.
Context (tim4 tim2 : nat → Z) {V : Type} (spec : nat → call → V → Z → V → Prop) (v0 : V).
Context (rep : shared → V → Prop) (rely : nat → shared → shared → Prop) `{!∀ t, PreOrder (rely t)}.

Context (rely_rely_irq : ∀ t r r', rely t r r' → rely_irq t r r').
Context (rep_kept : ∀ r v, rep r v → kept_masked r).
Context (rep_masked : ∀ r v m, rep r v → kept_masked (set_masked r m) → rep (set_masked r m) v).
Context (rep_read : ∀ r v, rep r v → rep (add_read r) v).
Context (others_masked : ∀ t e r m t', enabled t e r = true → m = None ∨ m = Some t → t' ≠ t → rely t' r (set_masked r m)).
Context (others_read : ∀ r t', rely t' r (add_read r)).

Abbreviation serves t :=
  (safe (access tim4 tim2 t) (enabled t) (obj_inv spec v0 rep) (obj_rely rely t) (guar past (obj_rely rely) t)).

Implicit Types (t : nat) (r : shared) (o : object (S := V) (C := call) (B := Z)).

Lemma ready_rely t r r' : ready t r → rely t r r' → ready t r'.
Proof. unfold ready. intros Hr [Hm Hk]%rely_rely_irq. by rewrite <- Hm, <- Hk. Qed.

Lemma inside_rely t off r r' : inside t off r → rely t r r' → inside t off r'.
Proof. intros [Hr Ho] [Hm Hk]%rely_rely_irq. split; [by apply Hm|by rewrite <- Hk]. Qed.

(** Disabling the interrupts, and enabling them if the caller had not disabled
    them. *)
Lemma rep_disable t e r v : enabled t e r = true → rep r v → rep (set_masked r (Some t)) v.
Proof.
  intros He Hrep. apply rep_masked; [done|]. intros t' Hk. simpl in *. pose proof (rep_kept _ _ Hrep t' Hk) as Hm.
  unfold enabled in He. rewrite Hm in He. apply Nat.eqb_eq in He. by subst.
Qed.

Lemma rep_enable t r v : inside t false r → rep r v → rep (set_masked r None) v.
Proof.
  intros [Hm Hk] Hrep. apply rep_masked; [done|]. intros t' Hk'. simpl in *.
  pose proof (rep_kept _ _ Hrep t' Hk') as Hm'. rewrite Hm in Hm'. injection Hm' as ->. by apply Hk in Hk'.
Qed.

(** [p], run with interrupts off, leaves the call at a status [Ψ] tells. *)
Lemma serve_critical {A} (p : prog A) (Ψ : A → status → Prop) t st r o :
  ready t r → pending o !! t = Some st →
  (∀ off r o, inside t off r → pending o !! t = Some st →
     serves t (λ a r o, inside t off r ∧ ∃ st', pending o !! t = Some st' ∧ Ψ a st') p r o) →
  serves t (λ a r o, ready t r ∧ ∃ st', pending o !! t = Some st' ∧ Ψ a st') (critical p) r o.
Proof.
  intros Hr Hst Hp. unfold critical.
  eapply (serve_access spec _ _ v0 rep rely (ready t)
    (λ a st' r, ready t r ∧ (∃ off : bool, a = (if off then 1 else 0) ∧ (kept r = Some t ↔ off = true)) ∧ st' = st)); [apply ready_rely|done..| |].
  { intros r1 v Hr1 Hrep Hen. exists (if masked r1 is Some _ then 1 else 0), r1, st, v.
    split_and!; [done..|reflexivity|by left|done| |done].
    unfold enabled, ready in *. destruct (masked r1) as [t'|] eqn:Hm; [exists true|exists false]; (split; [done|]).
    - apply Nat.eqb_eq in Hen as ->. by split; [|intros; apply Hr1].
    - by split; [intros Hk%Hr1|]. }
  intros primask st1 r1 o1 (Hr1 & (off & -> & Hoff) & ->) Hst1.
  eapply (serve_access spec _ _ v0 rep rely (λ r, kept r = Some t ↔ off = true) (λ _ st' r, inside t off r ∧ st' = st)); [|done..| |].
  { intros r2 r3 H2 [_ Hk]%rely_rely_irq. by rewrite <- Hk. }
  { intros r2 v Hr2 Hrep Hen. exists 0, (set_masked r2 (Some t)), st, v.
    split_and!; [done|by eapply rep_disable| |by left|done..]. intros t' Hne. eapply others_masked; [done|by right|done]. }
  intros u2 st2 r2 o2 (Hr2 & ->) Hst2. apply safe_bind. eapply safe_mono; [by apply (Hp off)|].
  intros a r3 o3 (Hr3 & st' & Hst3 & HΨ). destruct off; cbn [Z.eqb].
  { split; [|by exists st']. destruct Hr3 as [Hm Hk]. split; [by intros; apply Hk|done]. }
  eapply (serve_access spec _ _ v0 rep rely (inside t false) (λ _ st1 r, ready t r ∧ st1 = st')); [apply inside_rely|done..| |].
  { intros r4 v Hr4 Hrep Hen. exists 0, (set_masked r4 None), st', v.
    split_and!; [done|by eapply rep_enable| |by left| |done].
    - intros t' Hne. eapply others_masked; [done|by left|done].
    - destruct Hr4 as [_ Hk]. split; [done|]. intros Hx. by apply Hk in Hx. }
  intros u4 st4 r4 o4 (Hr4 & ->) Hst4. split; [done|]. by exists st'.
Qed.

(** A reading of the clock that has passed [timer] may serve the call, with
    [tout]. *)
Lemma serve_expired t st tout timer r o :
  ready t r → pending o !! t = Some st → (∀ v, moves spec t st v tout v) →
  serves t (λ x r o, ready t r ∧ pending o !! t = Some (if x =? OSAL_ERR_TIMEOUT then tout else st))
    (Shared.osal_timer_expired timer) r o.
Proof.
  intros Hr Hst Htout. unfold Shared.osal_timer_expired, Shared.osal_timer_gettime. apply safe_bind.
  set (late := λ act : osal_timer, negb (osal_timer_cmp act timer Z.ltb)).
  eapply safe_mono; [apply (serve_critical _ (λ act st', st' = if late act then tout else st) t st); [done..|]|].
  - clear dependent r o. intros off r o Hr Hst.
    eapply (serve_access spec _ _ v0 rep rely (inside t off) (λ _ st1 r, inside t off r ∧ st1 = st)); [apply inside_rely|done..| |].
    { intros r1 v Hr1 Hrep Hen. exists (tim4 (reads r1)), (add_read r1), st, v.
      split_and!; [done|by apply rep_read|by intros; apply others_read|by left|done..]. }
    intros s st1 r1 o1 (Hr1 & ->) Hst1.
    eapply (serve_access spec _ _ v0 rep rely (inside t off)
      (λ n st1 r, inside t off r ∧ st1 = if late (mk_timer s (u32 (n * 5))) then tout else st)); [apply inside_rely|done..| |].
    { intros r2 v Hr2 Hrep Hen. exists (tim2 (reads r2)), (add_read r2), (if late (mk_timer s (u32 (tim2 (reads r2) * 5))) then tout else st), v.
      split_and!; [done|by apply rep_read|by intros; apply others_read| |done..]. destruct (late _); [done|by left]. }
    intros n st2 r2 o2 (Hr2 & ->) Hst2. split; [done|]. by eexists.
  - intros act r1 o1 (Hr1 & st' & Hst1 & ->). split; [done|]. rewrite Hst1. unfold late. by destruct (osal_timer_cmp _ _ _).
Qed.
End sections.

(** ** The binary semaphore *)
Definition rep_flag (r : shared) (v : bool) : Prop := cell r = (if v then 1 else 0) ∧ kept_masked r.

Section binary.
Context (tim4 tim2 : nat → Z) (v0 : bool).
Abbreviation serves t := (safe (access tim4 tim2 t) (enabled t) (obj_inv flag_spec v0 rep_flag)
  (obj_rely rely_irq t) (guar past (obj_rely rely_irq) t)).
Implicit Types (t : nat) (r : shared) (o : object (S := bool) (C := call) (B := Z)).

(** Taking the flag: [old_value] tells whether it was up, and serves the call
    if it was or if [st0] is the answer to a failure. *)
Lemma serve_exchange t off c st0 r o :
  moves flag_spec t (Waiting c) false st0 false → flag_spec t c true OSAL_OK false →
  inside t off r → pending o !! t = Some (Waiting c) →
  serves t (λ old_value r o, inside t off r ∧ pending o !! t = Some (if old_value =? 0 then st0 else Answered OSAL_OK))
    (emit (Exchange 0)) r o.
Proof.
  intros H0 H1 Hr Hst. change (emit (Exchange 0)) with (emit (Exchange 0) ≫= mret (M := prog)).
  eapply (serve_access flag_spec _ _ v0 rep_flag rely_irq (inside t off)
    (λ old st' r, inside t off r ∧ st' = if old =? 0 then st0 else Answered OSAL_OK)); [|done..| |].
  - apply inside_rely. by intros.
  - intros r1 v Hr1 [Hrep Hk] Hen. exists (cell r1), (set_cell r1 0).
    exists (if v then Answered OSAL_OK else st0), false.
    split; [done|]. split; [by split|]. split; [by intros|]. rewrite Hrep. split; [|by destruct v].
    destruct v; [|done]. right. by exists c, OSAL_OK.
  - intros old st' r1 o1 (Hr1 & ->) Hst1. done.
Qed.

Lemma flag_critical {A} (p : prog A) (Ψ : A → status → Prop) t st r o :
  ready t r → pending o !! t = Some st →
  (∀ off r o, inside t off r → pending o !! t = Some st →
     serves t (λ a r o, inside t off r ∧ ∃ st', pending o !! t = Some st' ∧ Ψ a st') p r o) →
  serves t (λ a r o, ready t r ∧ ∃ st', pending o !! t = Some st' ∧ Ψ a st') (critical p) r o.
Proof. apply serve_critical; [apply _|done|by intros ? ? []|by intros ? ? ? [Hc _] Hk; split|exact others_irq]. Qed.

Lemma flag_expired t st tout timer r o :
  ready t r → pending o !! t = Some st → (∀ v, moves flag_spec t st v tout v) →
  serves t (λ x r o, ready t r ∧ pending o !! t = Some (if x =? OSAL_ERR_TIMEOUT then tout else st))
    (Shared.osal_timer_expired timer) r o.
Proof. apply serve_expired; [apply _|done|by intros ? ? []|by intros ? ? ? [Hc _] Hk; split|done|exact others_irq|done]. Qed.

(** A critical section with an exchange in it. *)
Lemma serve_take t c st0 r o :
  moves flag_spec t (Waiting c) false st0 false → flag_spec t c true OSAL_OK false →
  ready t r → pending o !! t = Some (Waiting c) →
  serves t (λ old_value r o, ready t r ∧ pending o !! t = Some (if old_value =? 0 then st0 else Answered OSAL_OK))
    (critical (emit (Exchange 0))) r o.
Proof.
  intros H0 H1 Hr Hst. eapply safe_mono.
  { apply (flag_critical _ (λ old st', st' = if old =? 0 then st0 else Answered OSAL_OK) t (Waiting c)); [done..|].
    intros off r1 o1 Hr1 Hst1. eapply safe_mono; [by apply (serve_exchange t off c st0)|].
    intros old r2 o2 [Hr2 Hst2]. split; [done|]. by eexists. }
  intros old r1 o1 (Hr1 & st' & Hst1 & ->). done.
Qed.

Lemma binary_call_serves t c r o :
  ready t r → pending o !! t = Some (Waiting c) → serves t (obj_finished ready t) (binary_call t c) r o.
Proof.
  intros Hr Hst. destruct c as [irq [|fuel| |fuel to]]; unfold binary_call, Shared.osal_binary_semaphore_post,
    Shared.osal_binary_semaphore_wait, Shared.osal_binary_semaphore_trywait, Shared.osal_binary_semaphore_timedwait; cbn [snd].
  - apply safe_bind. eapply safe_mono; [apply (flag_critical _ (λ _ st', st' = Answered OSAL_OK) t (Waiting (irq, Post))); [done..|]|].
    + intros off r1 o1 Hr1 Hst1. change (emit TestAndSet) with (emit TestAndSet ≫= mret (M := prog)).
      eapply (serve_access flag_spec _ _ v0 rep_flag rely_irq (inside t off)
        (λ _ st' r, inside t off r ∧ st' = Answered OSAL_OK)); [|done..| |].
      * apply inside_rely. by intros.
      * intros r2 v Hr2 [Hrep Hk] Hen. exists 0, (set_cell r2 1), (Answered OSAL_OK), true.
        split; [unfold access; rewrite Hrep; by destruct v|]. split; [by split|]. split; [by intros|]. split; [|done].
        right. by exists (irq, Post), OSAL_OK.
      * intros u st' r2 o2 (Hr2 & ->) Hst2. split; [done|]. by eexists.
    + intros u r1 o1 (Hr1 & st' & Hst1 & ->). done.
  - apply safe_bind. eapply safe_mono; [apply (flag_critical _ (λ _ st', st' = Answered OSAL_OK) t (Waiting (irq, Wait fuel))); [done..|]|].
    + intros off r1 o1 Hr1 Hst1. apply (safe_ploop _ _ _ _ _ (λ r o, inside t off r ∧ pending o !! t = Some (Waiting (irq, Wait fuel)))); [done|].
      intros r2 o2 [Hr2 Hst2]. apply safe_bind. eapply safe_mono; [apply (serve_exchange t off (irq, Wait fuel) (Waiting (irq, Wait fuel))); [by left|done..]|].
      intros old r3 o3 [Hr3 Hst3]. destruct (old =? 0); [done|]. split; [done|]. by eexists.
    + intros u r1 o1 (Hr1 & st' & Hst1 & ->). done.
  - apply safe_bind. eapply safe_mono; [apply (serve_take t (irq, Trywait) (Answered OSAL_ERR_BUSY)); [|done..]|].
    + right. by exists (irq, Trywait), OSAL_ERR_BUSY.
    + intros old r1 o1 [Hr1 Hst1]. split; [|done]. by destruct (old =? 0).
  - apply (safe_ploop _ _ _ _ _ (λ r o, ready t r ∧ pending o !! t = Some (Waiting (irq, Timedwait fuel to)))); [done|].
    clear dependent r o. intros r o [Hr Hst]. apply safe_bind. eapply safe_mono.
    { apply (flag_expired t (Waiting (irq, Timedwait fuel to)) (Answered OSAL_ERR_TIMEOUT)); [done..|].
      intros v. right. exists (irq, Timedwait fuel to), OSAL_ERR_TIMEOUT. by split_and!; [..|right]. }
    intros x r1 o1 [Hr1 Hst1]. destruct (x =? OSAL_ERR_TIMEOUT); [done|]. apply safe_bind.
    eapply safe_mono; [apply (serve_take t (irq, Timedwait fuel to) (Waiting (irq, Timedwait fuel to))); [by left|by left|done..]|].
    intros old r2 o2 [Hr2 Hst2]. by destruct (old =? 0).
Qed.
End binary.

(** ** The counting semaphore with one taking thread *)
Definition rep_count (r : shared) (v : Z) : Prop :=
  cell r = v ∧ 0 ≤ v ∧ v + Z.of_nat (size (posting r)) < 2 ^ 31 ∧ kept_masked r.

(** What is counted does not become less, for the taking thread. *)
Definition rely_count (t : nat) (r r' : shared) : Prop :=
  rely_irq t r r' ∧ (t = 0%nat → cell r ≤ cell r') ∧ (t ∈ posting r → t ∈ posting r').

#[export] Instance rely_count_preorder t : PreOrder (rely_count t).
Proof.
  unfold rely_count. split; [by intros r|]. intros r1 r2 r3 (H1 & H2 & H3) (H4 & H5 & H6).
  split; [by etrans|]. split; [|auto]. intros Ht. specialize (H2 Ht). specialize (H5 Ht). lia.
Qed.

Lemma others_count t e r m t' :
  enabled t e r = true → m = None ∨ m = Some t → t' ≠ t → rely_count t' r (set_masked r m).
Proof. intros He Hm Hne. split; [by eapply others_irq|done]. Qed.

(** Starting a call. *)
Lemma one_taker_rep t c r r' v :
  rep_count r v → one_taker t c r = Some r' →
  rep_count r' v ∧ (ready t r → ready t r') ∧ ∀ t', t' ≠ t → rely_count t' r r'.
Proof.
  intros (Hc & Hv & Hb & Hk) Hs. destruct c as [irq c].
  assert (∃ r1, set_kept t irq r1 = Some r' ∧ cell r1 = cell r ∧ masked r1 = masked r ∧ kept r1 = kept r ∧
    v + Z.of_nat (size (posting r1)) < 2 ^ 31 ∧ posting r ⊆ posting r1) as (r1 & Hs1 & Hc1 & Hm1 & Hk1 & Hb1 & Hp1).
  { unfold one_taker in Hs. destruct c; simpl in Hs; [|destruct (Nat.eqb t 0); [by exists r|done]..].
    destruct (Z.ltb_spec (cell r + Z.of_nat (size (posting r))) (2 ^ 31 - 1)) as [Hlt|]; [|done].
    eexists. split; [exact Hs|]. split_and!; [done..| |simpl; set_solver]. simpl.
    pose proof (size_union_alt {[t]} (posting r)) as Hsz. rewrite size_singleton in Hsz.
    pose proof (subseteq_size (posting r ∖ {[t]}) (posting r) ltac:(set_solver)). lia. }
  destruct (set_kept_irq _ _ _ _ Hs1) as (Hk' & Hr' & Hrl & Hc' & Hp'); [unfold kept_masked; by rewrite Hk1, Hm1|].
  unfold rep_count, rely_count, ready, rely_irq in *. rewrite Hk1, Hm1 in *. rewrite Hc', Hp', Hc1.
  split_and!; [done..|]. intros t' Hne. split; [by apply Hrl|]. split; [done|set_solver].
Qed.

Section counting.
Context (tim4 tim2 : nat → Z) (v0 : Z).
Abbreviation serves t := (safe (access tim4 tim2 t) (enabled t) (obj_inv counter_spec v0 rep_count)
  (obj_rely rely_count t) (guar past (obj_rely rely_count) t)).
Implicit Types (t : nat) (r : shared) (o : object (S := Z) (C := call) (B := Z)).

Lemma count_expired t st tout timer r o :
  ready t r → pending o !! t = Some st → (∀ v, moves counter_spec t st v tout v) →
  serves t (λ x r o, ready t r ∧ pending o !! t = Some (if x =? OSAL_ERR_TIMEOUT then tout else st))
    (Shared.osal_timer_expired timer) r o.
Proof.
  apply serve_expired; [apply _|by intros ? ? ? []|by intros ? ? (_ & _ & _ & ?)| |done|exact others_count|].
  { intros r1 v m (Hc & Hv & Hb & _) Hk. by split_and!. }
  intros r1 t'. by split_and!.
Qed.

Lemma ready_count t r r' : ready t r → rely_count t r r' → ready t r'.
Proof. apply (ready_rely rely_count). by intros ? ? ? []. Qed.

(** What has been read stays true until the taking thread takes. *)
Lemma some_left_stable r r1 : ready 0 r ∧ 0 < cell r → rely_count 0 r r1 → ready 0 r1 ∧ 0 < cell r1.
Proof.
  intros [Hr H] Hrl. split; [by eapply ready_count|]. destruct Hrl as (_ & Hle & _). specialize (Hle eq_refl). lia.
Qed.

Lemma serve_post t irq r o :
  ready t r → t ∈ posting r → pending o !! t = Some (Waiting (irq, Post)) →
  serves t (obj_finished ready t) (Shared.osal_semaphore_post) r o.
Proof.
  intros Hr Ht Hst. unfold Shared.osal_semaphore_post.
  apply (serve_access counter_spec _ _ v0 rep_count rely_count (λ r, ready t r ∧ t ∈ posting r)
    (λ _ st' r, ready t r ∧ st' = Answered OSAL_OK) _ t (Waiting (irq, Post))); [|done..| |].
  - intros r1 r2 [Hr1 Ht1] Hrl. split; [by eapply ready_count|by apply Hrl].
  - intros r1 v [Hr1 Ht1] (Hc & Hv & Hb & Hk) Hen.
    pose proof (size_difference (posting r1) {[t]} ltac:(set_solver)) as Hsz.
    pose proof (subseteq_size {[t]} (posting r1) ltac:(set_solver)) as Hpos. rewrite size_singleton in Hsz, Hpos. eexists _, _, (Answered OSAL_OK), (v + 1).
    split; [reflexivity|]. rewrite Hc, swrap_id by (unfold in_sint; lia). split; [|split; [|split; [|done]]].
    + split; [done|]. split; [lia|]. split; [cbn [posting]; lia|done].
    + intros t' Hne. split; [done|]. simpl. split; [lia|]. set_solver.
    + right. by exists (irq, Post), OSAL_OK.
  - intros u st' r1 o1 (Hr1 & ->) Hst1. done.
Qed.

Lemma serve_take_one c r o :
  (∀ v, 0 < v → counter_spec 0 c v OSAL_OK (v - 1)) →
  ready 0 r ∧ 0 < cell r → pending o !! 0%nat = Some (Waiting c) →
  serves 0 (λ _ r o, ready 0 r ∧ pending o !! 0%nat = Some (Answered OSAL_OK)) (emit (Add (-1))) r o.
Proof.
  intros Hspec HK Hst. change (emit (Add (-1))) with (emit (Add (-1)) ≫= mret (M := prog)).
  apply (serve_access counter_spec _ _ v0 rep_count rely_count (λ r, ready 0 r ∧ 0 < cell r)
    (λ _ st' r, ready 0 r ∧ st' = Answered OSAL_OK) _ 0 (Waiting c)); [apply some_left_stable|done..| |].
  - intros r1 v [Hr1 H1] (Hc & Hv & Hb & Hk) Hen. eexists _, _, (Answered OSAL_OK), (v - 1).
    split; [reflexivity|]. rewrite Hc, swrap_id by (unfold in_sint; lia). split; [|split; [|split; [|done]]].
    + split; [simpl; lia|]. split; [lia|]. split; [|done]. cbn [posting].
      pose proof (subseteq_size (posting r1 ∖ {[0%nat]}) (posting r1) ltac:(set_solver)). lia.
    + intros t' Hne. split; [done|]. simpl. split; [done|]. set_solver.
    + right. exists c, OSAL_OK. split_and!; [done..|]. apply Hspec. lia.
  - intros u st' r1 o1 (Hr1 & ->) Hst1. done.
Qed.

(** Reading the counter: [st0] is where the call stands if nothing is left. *)
Lemma serve_load {A} (Φ : A → shared → object → Prop) c st0 (f : Z → prog A) r o :
  moves counter_spec 0 (Waiting c) 0 st0 0 →
  ready 0 r → pending o !! 0%nat = Some (Waiting c) →
  (∀ r o, ready 0 r → pending o !! 0%nat = Some st0 → serves 0 Φ (f 0) r o) →
  (∀ v r o, 0 < v → ready 0 r ∧ 0 < cell r → pending o !! 0%nat = Some (Waiting c) → serves 0 Φ (f v) r o) →
  serves 0 Φ (emit Load ≫= f) r o.
Proof.
  intros H0 Hr Hst Hnone Hsome.
  apply (serve_access counter_spec _ _ v0 rep_count rely_count (ready 0)
    (λ a st' r, ready 0 r ∧ 0 ≤ a ∧ (a = 0 → st' = st0) ∧ (0 < a → st' = Waiting c ∧ 0 < cell r)) _ 0 (Waiting c));
    [apply ready_count|done..| |].
  - intros r1 v Hr1 (Hc & Hv & Hb & Hk) Hen. exists (cell r1), r1, (if v =? 0 then st0 else Waiting c), v.
    split; [done|]. split; [done|]. split; [by intros|]. rewrite Hc.
    destruct (Z.eqb_spec v 0) as [->|Hne]; split_and!; try done. by left.
  - intros a st' r1 o1 (Hr1 & Ha & Hz & Hp) Hst1. destruct (Z.eq_dec a 0) as [->|Hne].
    + rewrite (Hz eq_refl) in Hst1. by apply Hnone.
    + destruct (Hp ltac:(lia)) as [-> Hc1]. apply Hsome; [lia|done..].
Qed.

Lemma semaphore_call_serves t c r r' o :
  rep_count r (value o) → one_taker t c r = Some r' → pending o !! t = Some (Waiting c) → ready t r →
  serves t (obj_finished ready t) (semaphore_call t c) r' o.
Proof.
  intros Hrep Hs Hst Hr. destruct (one_taker_rep _ _ _ _ _ Hrep Hs) as (Hrep' & Hready & _). specialize (Hready Hr).
  destruct c as [irq [|fuel| |fuel to]]; unfold one_taker in Hs; cbn [fst snd] in Hs.
  { destruct (_ <? _); [|done]. apply (serve_post t irq); [done| |done].
    destruct Hrep as (_ & _ & _ & Hk). apply set_kept_irq in Hs as (_ & _ & _ & _ & ->); [|done]. simpl. set_solver. }
  all: clear Hrep Hrep' Hr; destruct (Nat.eqb_spec t 0) as [->|]; [|done]; clear Hs r; rename r' into r, Hready into Hr;
    unfold semaphore_call, Shared.osal_semaphore_wait, Shared.osal_semaphore_trywait, Shared.osal_semaphore_timedwait; cbn [snd].
  - apply safe_bind. eapply safe_mono.
    { apply (safe_ploop _ _ _ _ _ (λ r o, ready 0 r ∧ pending o !! 0%nat = Some (Waiting (irq, Wait fuel)))
        (λ _ r o, (ready 0 r ∧ 0 < cell r) ∧ pending o !! 0%nat = Some (Waiting (irq, Wait fuel)))); [done|].
      clear dependent r o. intros r o [Hr Hst]. apply (serve_load _ (irq, Wait fuel) (Waiting (irq, Wait fuel))); [by left|done..| |].
      - by intros r1 o1 Hr1 Hst1.
      - intros v r1 o1 Hv Hr1 Hst1. by destruct (Z.eqb_spec v 0); [lia|]. }
    intros u r1 o1 [HK Hst1]. apply safe_bind. eapply safe_mono; [by apply (serve_take_one (irq, Wait fuel))|].
    by intros u' r2 o2 [Hr2 Hst2].
  - apply (serve_load _ (irq, Trywait) (Answered OSAL_ERR_UNAVAILABLE)); [|done..| |].
    + right. by exists (irq, Trywait), OSAL_ERR_UNAVAILABLE.
    + by intros r1 o1 Hr1 Hst1.
    + intros v r1 o1 Hv HK Hst1. destruct (Z.ltb_spec 0 v); [|lia]. apply safe_bind.
      eapply safe_mono; [apply (serve_take_one (irq, Trywait)); [|done..]|by intros u' r2 o2 [Hr2 Hst2]].
      intros v1 Hv1. unfold counter_spec. cbn [snd]. by destruct (Z.ltb_spec 0 v1); [|lia].
  - apply safe_bind. eapply safe_mono.
    { apply (safe_ploop _ _ _ _ _ (λ r o, ready 0 r ∧ pending o !! 0%nat = Some (Waiting (irq, Timedwait fuel to)))
        (λ ret r o, (ret = OSAL_OK ∧ (ready 0 r ∧ 0 < cell r) ∧ pending o !! 0%nat = Some (Waiting (irq, Timedwait fuel to))) ∨
          (ret = OSAL_ERR_TIMEOUT ∧ ready 0 r ∧ pending o !! 0%nat = Some (Answered OSAL_ERR_TIMEOUT)))); [done|].
      clear dependent r o. intros r o [Hr Hst].
      apply (serve_load _ (irq, Timedwait fuel to) (Waiting (irq, Timedwait fuel to))); [by left|done..| |].
      - intros r1 o1 Hr1 Hst1. cbn [Z.eqb]. apply safe_bind. eapply safe_mono.
        { apply (count_expired 0 (Waiting (irq, Timedwait fuel to)) (Answered OSAL_ERR_TIMEOUT)); [done..|].
          intros v. right. exists (irq, Timedwait fuel to), OSAL_ERR_TIMEOUT. by split_and!; [..|right]. }
        intros x r2 o2 [Hr2 Hst2]. destruct (x =? OSAL_ERR_TIMEOUT); [by right|done].
      - intros v r1 o1 Hv HK Hst1. destruct (Z.eqb_spec v 0); [lia|]. by left. }
    intros ret r1 o1 [(-> & HK & Hst1)|(-> & Hr1 & Hst1)]; [|done]. cbn [Z.eqb]. apply safe_bind.
    eapply safe_mono; [apply (serve_take_one (irq, Timedwait fuel to)); [by left|done..]|by intros u' r2 o2 [Hr2 Hst2]].
Qed.
End counting.

(** ** Properties *)

(** In every reachable state, in a call or in none, who has disabled the
    interrupts itself has them disabled, and nobody else has outside a call. *)
Lemma irq_kept (running : gmap nat (prog Z)) r :
  kept_masked r → (∀ t, running !! t = None → ready t r) →
  (∀ t, kept r = Some t → masked r = Some t) ∧ (∀ t, masked r = Some t → kept r = Some t ∨ running !! t ≠ None).
Proof.
  intros Hk Hr. split; [exact Hk|]. intros t Hm. destruct (running !! t) eqn:Hrun; [by right|]. left. by apply Hr.
Qed.

(** (C5) The binary semaphore is linearizable: whatever the main program and
    interrupt handlers call, in any interleaving of their accesses, with the
    interrupts enabled or disabled by the caller, and whatever the timers show,
    the calls and their results are a history of a flag that serves each call at
    once, and the flag is in the counter. The calls leave the interrupts as they
    were: a thread that has disabled them itself has them disabled, before,
    during and after its calls, and a thread that has not has them disabled only
    inside a call. *)
Theorem stm32_binary_semaphore_linearizable tim4 tim2 (v : bool) s :
  rtc (tstep (access tim4 tim2) enabled binary_call any_start)
    (mk_threads (fresh (if v then 1 else 0)) ∅ []) s →
  (∃ o, rtc (ostep flag_spec) (mk_object v ∅ []) o ∧ past o = history s ∧
     cell (memory s) = if value o then 1 else 0) ∧
  (∀ t, kept (memory s) = Some t → masked (memory s) = Some t) ∧
  (∀ t, masked (memory s) = Some t → kept (memory s) = Some t ∨ running s !! t ≠ None) ∧
  ¬ faulty (access tim4 tim2) enabled s.
Proof.
  intros Hsteps.
  destruct (linearizable flag_spec (access tim4 tim2) enabled binary_call any_start v rep_flag rely_irq ready)
    with (r := fresh (if v then 1 else 0)) (s := s) as (Hlin & Hready & Hf); [| | | |done|exact Hsteps|].
  - apply (ready_rely rely_irq). by intros.
  - intros t c r r' v1 [Hrep Hk] Hs. destruct (set_kept_irq _ _ _ _ Hs Hk) as (Hk' & _ & Hrl & Hc & _).
    split; [|done]. by split; [rewrite Hc|].
  - intros t c r r' o [_ Hk] Hs Hst Hr. destruct (set_kept_irq _ _ _ _ Hs Hk) as (_ & Hr' & _). by apply binary_call_serves; [apply Hr'|].
  - by split.
  - destruct Hlin as (o & Ho & Hp & Hc & Hk). destruct (irq_kept (running s) _ Hk Hready) as [H1 H2].
    split; [|by split_and!]. by exists o.
Qed.

(** (C12) The counting semaphore is linearizable, a counter that is never negative,
    as long as one thread only takes and the posts fit an [int]; and the calls
    leave the interrupts as they were. *)
Theorem stm32_semaphore_linearizable tim4 tim2 v s :
  0 ≤ v < 2 ^ 31 →
  rtc (tstep (access tim4 tim2) enabled semaphore_call one_taker) (mk_threads (fresh v) ∅ []) s →
  (∃ o, rtc (ostep counter_spec) (mk_object v ∅ []) o ∧ past o = history s ∧
     cell (memory s) = value o ∧ 0 ≤ value o) ∧
  (∀ t, kept (memory s) = Some t → masked (memory s) = Some t) ∧
  (∀ t, masked (memory s) = Some t → kept (memory s) = Some t ∨ running s !! t ≠ None) ∧
  ¬ faulty (access tim4 tim2) enabled s.
Proof.
  intros Hv Hsteps.
  destruct (linearizable counter_spec (access tim4 tim2) enabled semaphore_call one_taker v rep_count rely_count ready)
    with (r := fresh v) (s := s) as (Hlin & Hready & Hf); [| | | |done|exact Hsteps|].
  - apply ready_count.
  - intros t c r r' v1 Hrep Hs. by destruct (one_taker_rep _ _ _ _ _ Hrep Hs) as (Hrep' & _ & Hrl).
  - intros t c r r' o. apply semaphore_call_serves.
  - split; [done|]. split; [lia|]. split; [|done]. change (v + 0 < 2 ^ 31). lia.
  - destruct Hlin as (o & Ho & Hp & Hc & Hpos & _ & Hk). destruct (irq_kept (running s) _ Hk Hready) as [H1 H2].
    split; [|by split_and!]. by exists o.
Qed.

(** Two posts and two tries, the second post between the two accesses of a
    try. *)
Definition on (c : op) : call := (false, c).
Definition off (c : op) : call := (true, c).

Definition two_posts : list (nat * option call) :=
  [(1%nat, Some (on Post)); (1%nat, None); (1%nat, None); (0%nat, Some (on Trywait)); (0%nat, None); (2%nat, Some (on Post));
   (2%nat, None); (0%nat, None); (0%nat, None); (2%nat, None); (0%nat, Some (on Trywait)); (0%nat, None); (0%nat, None);
   (0%nat, None)].

Lemma stm32_semaphore_linearizable_witness :
  ∃ s, rtc (tstep (access (λ _, 0) (λ _, 0)) enabled semaphore_call one_taker) (mk_threads (fresh 0) ∅ []) s ∧
    history s = [Invoke 1 (on Post); Return 1 OSAL_OK; Invoke 0 (on Trywait); Invoke 2 (on Post); Return 0 OSAL_OK;
                 Return 2 OSAL_OK; Invoke 0 (on Trywait); Return 0 OSAL_OK]%nat ∧
    ∃ o, rtc (ostep counter_spec) (mk_object 0 ∅ []) o ∧ past o = history s ∧ cell (memory s) = value o ∧ 0 ≤ value o.
Proof.
  eexists. assert (tschedule (access (λ _, 0) (λ _, 0)) enabled semaphore_call one_taker two_posts
    (mk_threads (fresh 0) ∅ []) = Some _) as Hs by (vm_compute; reflexivity).
  apply tschedule_reachable in Hs. split; [exact Hs|]. split; [reflexivity|].
  refine (proj1 (stm32_semaphore_linearizable (λ _, 0) (λ _, 0) 0 _ _ Hs)). done.
Defined.

(** One try with the interrupts enabled and one after which they are still
    disabled, by the caller. *)
Lemma stm32_binary_semaphore_linearizable_witness :
  ∃ s, rtc (tstep (access (λ _, 0) (λ _, 0)) enabled binary_call any_start) (mk_threads (fresh 1) ∅ []) s ∧
    history s = [Invoke 0 (on Trywait); Invoke 1 (on Trywait); Return 0 OSAL_OK; Return 1 OSAL_ERR_BUSY;
                 Invoke 1 (off Trywait); Return 1 OSAL_ERR_BUSY]%nat ∧
    running s = ∅ ∧ masked (memory s) = Some 1%nat ∧ (∀ t, kept (memory s) = Some t → masked (memory s) = Some t).
Proof.
  eexists. assert (tschedule (access (λ _, 0) (λ _, 0)) enabled binary_call any_start
    ([(0%nat, Some (on Trywait)); (0%nat, None); (1%nat, Some (on Trywait))] ++ replicate 4 (0%nat, None) ++
     replicate 5 (1%nat, None) ++ [(1%nat, Some (off Trywait))] ++ replicate 4 (1%nat, None))
    (mk_threads (fresh 1) ∅ []) = Some _) as Hs by (vm_compute; reflexivity).
  apply tschedule_reachable in Hs. split; [exact Hs|]. do 3 (split; [reflexivity|]).
  exact (proj1 (proj2 (stm32_binary_semaphore_linearizable (λ _, 0) (λ _, 0) true _ Hs))).
Defined.

(** Two threads that take can both be given the last unit: the counter is -1
    then. *)
Theorem stm32_semaphore_two_takers :
  ∃ s, rtc (tstep (access (λ _, 0) (λ _, 0)) enabled semaphore_call any_start) (mk_threads (fresh 1) ∅ []) s ∧
    history s = [Invoke 0 (on Trywait); Invoke 1 (on Trywait); Return 1 OSAL_OK; Return 0 OSAL_OK]%nat ∧
    running s = ∅ ∧ cell (memory s) = -1.
Proof.
  eexists. assert (tschedule (access (λ _, 0) (λ _, 0)) enabled semaphore_call any_start
    [(0%nat, Some (on Trywait)); (0%nat, None); (1%nat, Some (on Trywait)); (1%nat, None); (1%nat, None); (1%nat, None);
     (0%nat, None); (0%nat, None)] (mk_threads (fresh 1) ∅ []) = Some _) as Hs by (vm_compute; reflexivity).
  apply tschedule_reachable in Hs. split; [exact Hs|]. by split_and!.
Qed.

(** With interrupts disabled by the caller, a call does to the counter, access
    by access, what the function of Stm32 does as a whole. *)
Definition outcome_of {E} (l : loc) (w : mcu E) (x : option (Z * shared)) : outcome (mcu E) Z :=
  match x with Some (a, r) => Ret a (mk_mcu (<[l := cell r]> (cells w)) (primask w) (hw w)) | None => NoReturn end.

Theorem stm32_shared_sequential {E} `{!Stm32 E} tim4 tim2 t l v k n P (w : mcu E) :
  primask w = true → cells w !! l = Some v →
  let by_accesses p := outcome_of l w (run (access tim4 tim2 t) p (mk_shared v (Some t) k n P)) in
  osal_binary_semaphore_post (Some l) w = by_accesses Shared.osal_binary_semaphore_post ∧
  osal_binary_semaphore_trywait (Some l) w = by_accesses Shared.osal_binary_semaphore_trywait ∧
  osal_binary_semaphore_wait 1 (Some l) w = by_accesses (Shared.osal_binary_semaphore_wait 1) ∧
  osal_semaphore_post (Some l) w = by_accesses Shared.osal_semaphore_post ∧
  osal_semaphore_trywait (Some l) w = by_accesses Shared.osal_semaphore_trywait ∧
  osal_semaphore_wait 1 (Some l) w = by_accesses (Shared.osal_semaphore_wait 1).
Proof.
  intros Hp Hv. destruct w as [cs pm hw0]. simpl in Hp, Hv. subst pm.
  unfold osal_binary_semaphore_post, osal_binary_semaphore_trywait, osal_binary_semaphore_wait, osal_semaphore_post,
    osal_semaphore_trywait, osal_semaphore_wait, enter_critical, leave_critical, atomic_test_and_set, atomic_exchange,
    atomic_add, atomic_load, irq, read, write, outcome_of. c_unfold. simpl. rewrite Hv. simpl.
  destruct (v =? 0) eqn:Hz, (0 <? v) eqn:Hpos; split_and!; try done; unfold mbind, C_bind; simpl;
    repeat (first [rewrite Hv | rewrite Hz | rewrite Hpos | progress simpl]);
    by rewrite ?insert_id by done.
Qed.
