(* ===== verification/PikeosTimer.v ===== *)
(** * PikeOS clocks and sleeping: src/pikeos/timer.c

    The PikeOS back end calls the P4 kernel, which is not part of the
    repository: its error codes are the class [P4Codes] (the sources only
    compare them), its timing calls the class [P4Time]. The absolute times of
    the back end are computed in [double] ([timer_double]); how far they are
    from the time asked for is proved here and used by PikeosSync. *)

From S2P Require Import Prelude Osal Timer.

(** The [P4_e_t] codes the sources name, of unknown values. *)
Class P4Codes := {
  P4_E_OK : Z;
  P4_E_ABORT : Z;
  P4_E_BADTIMEOUT : Z;
  P4_E_BADUID : Z;
  P4_E_CANCEL : Z;
  P4_E_EXIST : Z;
  P4_E_INVAL : Z;
  P4_E_IO : Z;
  P4_E_LIMIT : Z;
  P4_E_MISMATCH : Z;
  P4_E_NAME : Z;
  P4_E_NOABILITY : Z;
  P4_E_NOCONTAINER : Z;
  P4_E_NOENT : Z;
  P4_E_NOKMEM : Z;
  P4_E_NOTIMPL : Z;
  P4_E_OOFILE : Z;
  P4_E_OVERFLOW : Z;
  P4_E_PAGEFAULT : Z;
  P4_E_PERM : Z;
  P4_E_RESTRICTED : Z;
  P4_E_SIZE : Z;
  P4_E_STATE : Z;
  P4_E_TIMEOUT : Z;
  P4_ULOCK_LIMIT : Z;
}.

(** [p4_timeout] is [P4_timeout_t], [P4_time_bound] one more than the largest
    [P4_time_t]. *)
Class P4Time (W : Type) := {
  p4_timeout : Type;
  P4_NSEC : Z → p4_timeout;
  P4_TIMEOUT_ABS : Z → p4_timeout;
  P4_TIMEOUT_INFINITE : p4_timeout;
  P4_time_bound : Z;
  p4_sleep : p4_timeout → C W Z;
  p4_get_time : C W Z;
}.

(** [timer->sec * 1E9 + timer->nsec], before it is converted to an integer. *)
Definition timer_double (timer : osal_timer) : Z :=
  dbl (dbl (dbl (sec timer) * 1000000000) + dbl (nsec timer)).

(** Converting a non-negative [double] to an integer type of [bound] values. *)
Definition from_double {W} (bound d : Z) : C W Z := if d <? bound then mret d else undef.

Section timer.
Context {W : Type} `{!P4Codes, !P4Time W}.

(** The result of [p4_sleep] is not looked at. *)
Definition osal_sleep (nsec : Z) : C W unit := _ ← p4_sleep (P4_NSEC nsec); mret tt.

Definition osal_timer_gettime (timer : option unit) : C W (Z * osal_timer) :=
  _ ← assert_ptr timer;
  local_time ← p4_get_time;
  mret (OSAL_OK, mk_timer (local_time / NSEC_PER_SEC) (local_time mod NSEC_PER_SEC)).

Definition osal_timer_set_clock_source (clock_id : Z) : C W unit := mret tt.

Definition osal_timer_get_clock_source : C W Z := mret (-1).

Definition osal_timer_gettime_nsec : C W Z := p4_get_time.

Definition osal_timer_init (timer : option unit) (timeout : Z) : C W osal_timer :=
  _ ← assert_ptr timer;
  local_time ← p4_get_time;
  let a := mk_timer (local_time / NSEC_PER_SEC) (local_time mod NSEC_PER_SEC) in
  let b := mk_timer (timeout / NSEC_PER_SEC) (timeout mod NSEC_PER_SEC) in
  mret (osal_timer_add a b).

Definition osal_timer_expired (timer : option osal_timer) : C W Z :=
  timer ← assert_ptr timer;
  '(ret, act) ← osal_timer_gettime (Some tt);
  mret (if ret =? OSAL_OK then if negb (osal_timer_cmp act timer Z.ltb) then OSAL_ERR_TIMEOUT else ret
        else ret).

(** One round of the [while (1)] of [osal_sleep_until_nsec]. *)
Definition sleep_until_round (to : p4_timeout) (_ : unit) : C W (unit + Z) :=
  local_ret ← p4_sleep to;
  mret (if local_ret =? P4_E_OK then inr OSAL_OK
        else if local_ret =? P4_E_BADTIMEOUT then inr OSAL_ERR_OPERATION_FAILED
        else inl tt).

Definition osal_sleep_until_nsec (fuel : nat) (nsec : Z) : C W Z :=
  cloop fuel (sleep_until_round (P4_TIMEOUT_ABS nsec)) tt.

Definition osal_sleep_until (fuel : nat) (timer : option osal_timer) : C W Z :=
  timer ← deref timer;
  abs_time ← from_double (2 ^ 64) (timer_double timer);
  osal_sleep_until_nsec fuel abs_time.
End timer.

(** ** What the kernel promises

    [now w] is the system time in nanoseconds, [cancels w] how often another
    thread will still cancel a call of this one. The comments of the sources
    say that a time-out in the past is answered with [P4_E_BADTIMEOUT]. *)
Class P4TimeLaws (W : Type) `{!P4Codes, !P4Time W} := {
  now : W → Z;
  cancels : W → nat;
  get_time_law w : wp p4_get_time (λ t w', t = now w' ∧ now w ≤ now w' ∧ 0 ≤ t < 2 ^ 64) w;
  sleep_abs_law t w :
    wp (p4_sleep (P4_TIMEOUT_ABS t)) (λ r w',
      now w ≤ now w' ∧ (r = P4_E_OK → t ≤ now w') ∧
      (r ≠ P4_E_OK → r ≠ P4_E_BADTIMEOUT → (cancels w' < cancels w)%nat)) w;
  sleep_past_law t w :
    t < now w → wp (p4_sleep (P4_TIMEOUT_ABS t)) (λ r _, r = P4_E_BADTIMEOUT) w;
  bad_timeout_law : P4_E_BADTIMEOUT ≠ P4_E_OK;
}.

(** ** Lemmas *)

(** Below [2^63] rounding to [double] moves a number by at most 512. *)
Lemma dbl_near z : 0 ≤ z < 2 ^ 63 → Z.abs (dbl z - z) ≤ 512.
Proof.
  intros [H0 H]. destruct (Z.lt_ge_cases z (2 ^ 53)) as [Hs|Hs]; [rewrite dbl_small; lia|].
  pose proof (dbl_error z Hs) as He.
  assert (Z.log2 z < 63) as Hl by (apply Z.log2_lt_pow2; lia).
  assert (2 ^ (Z.log2 z - 52) ≤ 2 ^ 10) by (apply Z.pow_le_mono_r; lia). lia.
Qed.

Lemma dbl_nonneg z : 0 ≤ z → 0 ≤ dbl z.
Proof.
  intros H. destruct (Z.lt_ge_cases z (2 ^ 53)) as [Hs|Hs]; [by rewrite dbl_small|].
  pose proof (dbl_large z Hs). lia.
Qed.

(** The deadline computed in [double]: exact below [2^53] nanoseconds, within
    about a microsecond later on. *)
Lemma timer_double_near t :
  timer_wf t → timer_total t < 2 ^ 62 →
  Z.abs (timer_double t - timer_total t) ≤ 1024 ∧
  (timer_total t < 2 ^ 53 → timer_double t = timer_total t).
Proof.
  unfold timer_wf, in_uint, timer_total, timer_double, NSEC_PER_SEC. intros [[Hs _] Hn] Ht.
  rewrite (dbl_small (sec t)), (dbl_small (nsec t)) by lia.
  pose proof (dbl_near (sec t * 1000000000) ltac:(lia)).
  pose proof (dbl_nonneg (sec t * 1000000000) ltac:(lia)).
  pose proof (dbl_near (dbl (sec t * 1000000000) + nsec t) ltac:(lia)).
  split; [lia|]. intros Hx. rewrite (dbl_small (sec t * 1000000000)) by lia. by apply dbl_small.
Qed.

Lemma sec_sum a b : in_uint 64 a → in_uint 64 b → sec (timer_of_nsec a) + sec (timer_of_nsec b) + 1 < 2 ^ 64.
Proof.
  unfold in_uint, timer_of_nsec, NSEC_PER_SEC; simpl. intros Ha Hb.
  assert (a / 1000000000 < 2 ^ 62) by (apply Z.div_lt_upper_bound; lia).
  assert (b / 1000000000 < 2 ^ 62) by (apply Z.div_lt_upper_bound; lia). lia.
Qed.

Lemma from_double_spec {W} bound d (Q : Z → W → Prop) w :
  d < bound → Q d w → wp (from_double bound d) Q w.
Proof. intros Hd. unfold from_double. destruct (Z.ltb_spec d bound); [done|lia]. Qed.

Section lemmas.
Context {W : Type} `{!P4Codes, !P4Time W, !P4TimeLaws W}.
Implicit Types w : W.

Lemma sleep_until_nsec_spec t fuel w :
  (cancels w < fuel)%nat →
  wp (osal_sleep_until_nsec fuel t) (λ r w',
    now w ≤ now w' ∧ ((r = OSAL_OK ∧ t ≤ now w') ∨ r = OSAL_ERR_OPERATION_FAILED)) w.
Proof.
  intros Hf. unfold osal_sleep_until_nsec.
  eapply wp_cloop with (I := λ _ w1, now w ≤ now w1) (m := λ _ w1, cancels w1); [|lia|exact Hf].
  intros [] w1 H1. apply wp_bind. eapply wp_mono; [apply sleep_abs_law|].
  intros r w2 (Hle & Hok & Hc). apply wp_ret.
  destruct (Z.eqb_spec r P4_E_OK) as [->|Hr]; [split; [lia|left; auto]|].
  destruct (Z.eqb_spec r P4_E_BADTIMEOUT) as [->|Hb]; [split; [lia|by right]|].
  split; [lia|auto].
Qed.

Lemma sleep_until_past t fuel w :
  t < now w → wp (osal_sleep_until_nsec (S fuel) t) (λ r _, r = OSAL_ERR_OPERATION_FAILED) w.
Proof.
  intros Ht. unfold osal_sleep_until_nsec; simpl. apply wp_bind, wp_bind.
  eapply wp_mono; [by apply sleep_past_law|]. intros r w1 ->. apply wp_ret.
  destruct (Z.eqb_spec P4_E_BADTIMEOUT P4_E_OK) as [He|_]; [by destruct bad_timeout_law|].
  by rewrite Z.eqb_refl.
Qed.
End lemmas.

(** ** A concrete kernel

    The codes are numbered; a clock that sleeping sets forward, and a number of
    cancellations. *)
Module Sim.
#[global] Instance codes : P4Codes := {|
  P4_E_OK := 0; P4_E_ABORT := 1; P4_E_BADTIMEOUT := 2; P4_E_BADUID := 3; P4_E_CANCEL := 4;
  P4_E_EXIST := 5; P4_E_INVAL := 6; P4_E_IO := 7; P4_E_LIMIT := 8; P4_E_MISMATCH := 9;
  P4_E_NAME := 10; P4_E_NOABILITY := 11; P4_E_NOCONTAINER := 12; P4_E_NOENT := 13;
  P4_E_NOKMEM := 14; P4_E_NOTIMPL := 15; P4_E_OOFILE := 16; P4_E_OVERFLOW := 17;
  P4_E_PAGEFAULT := 18; P4_E_PERM := 19; P4_E_RESTRICTED := 20; P4_E_SIZE := 21;
  P4_E_STATE := 22; P4_E_TIMEOUT := 23; P4_ULOCK_LIMIT := 64;
|}.

Inductive timeout : Type := rel (n : Z) | abs (t : Z) | infinite.

Record world : Type := mk_world { clock : Z; to_cancel : nat }.

(** The clock, kept to 64 bits. *)
Definition time (w : world) : Z := Z.max 0 (Z.min (2 ^ 64 - 1) (clock w)).

Definition sleep (to : timeout) : C world Z := λ w,
  match to with
  | infinite => NoReturn
  | rel _ | abs _ =>
      let t := match to with abs t => t | rel n => time w + n | infinite => 0 end in
      if (t <? time w) || (2 ^ 64 <=? t) then Ret P4_E_BADTIMEOUT w
      else match to_cancel w with
           | S k => Ret P4_E_CANCEL (mk_world (clock w) k)
           | O => Ret P4_E_OK (mk_world t 0)
           end
  end.

#[global] Instance p4 : P4Time world := {|
  p4_timeout := timeout;
  P4_NSEC := rel;
  P4_TIMEOUT_ABS := abs;
  P4_TIMEOUT_INFINITE := infinite;
  P4_time_bound := 2 ^ 64;
  p4_sleep := sleep;
  p4_get_time := λ w, Ret (time w) w;
|}.

#[global] Instance laws : P4TimeLaws world.
Proof.
  refine {| now := time; cancels := to_cancel |}; [| | |discriminate].
  - intros w. unfold wp; simpl. unfold time. lia.
  - intros t w. unfold wp; simpl.
    destruct (Z.ltb_spec t (time w)), (Z.leb_spec (2 ^ 64) t); simpl;
      try (split; [lia|split; [discriminate|by intros _ []]]).
    destruct (to_cancel w) as [|k]; simpl.
    + split; [|split; [|by intros []]]; unfold time in *; simpl; lia.
    + split; [done|split; [discriminate|lia]].
  - intros t w Ht. unfold wp; simpl. apply Z.ltb_lt in Ht as ->. done.
Defined.
End Sim.

(** ** Properties *)

(** (C35) On PikeOS [osal_sleep_until] returns, given more rounds than there are
    cancellations to come, and returns [OSAL_OK] only when the time has come:
    exactly for times below [2^53] nanoseconds, and at most 1024 nanoseconds
    early for later ones, because the time is computed in [double]. A time
    that is over by more than that is answered with
    [OSAL_ERR_OPERATION_FAILED]. *)
Theorem pikeos_sleep_until_waits {W} `{!P4Codes, !P4Time W, !P4TimeLaws W} t fuel (w : W) :
  timer_wf t → timer_total t < 2 ^ 62 → (cancels w < fuel)%nat →
  let slack := if timer_total t <? 2 ^ 53 then 0 else 1024 in
  wp (osal_sleep_until fuel (Some t)) (λ r w',
    (r = OSAL_OK ∧ timer_total t - slack ≤ now w') ∨ r = OSAL_ERR_OPERATION_FAILED) w ∧
  (timer_total t + slack < now w →
   wp (osal_sleep_until fuel (Some t)) (λ r _, r = OSAL_ERR_OPERATION_FAILED) w).
Proof.
  intros Hwf Ht Hf slack. destruct (timer_double_near t Hwf Ht) as [Hnear Hexact].
  assert (timer_total t - slack ≤ timer_double t ≤ timer_total t + slack) as Hd.
  { unfold slack. destruct (Z.ltb_spec (timer_total t) (2 ^ 53)); lia. }
  split; [|intros Hpast]; unfold osal_sleep_until;
    apply wp_bind, wp_ret, wp_bind, from_double_spec; try lia.
  - eapply wp_mono; [by apply sleep_until_nsec_spec|]. intros r w' [_ [[-> Hn]| ->]]; [left|by right].
    split; [done|lia].
  - destruct fuel as [|fuel]; [lia|]. apply sleep_until_past. lia.
Qed.

Lemma pikeos_sleep_until_waits_witness :
  timer_double (mk_timer 4000000000 7) = 4000000000000000000 ∧
  wp (osal_sleep_until 3 (Some (mk_timer 4000000000 7)))
    (λ r w', (r = OSAL_OK ∧ 4000000000000000007 - 1024 ≤ Sim.time w') ∨ r = OSAL_ERR_OPERATION_FAILED)
    (Sim.mk_world 5 2).
Proof.
  split; [reflexivity|].
  destruct (pikeos_sleep_until_waits (mk_timer 4000000000 7) 3 (Sim.mk_world 5 2)) as [H _].
  - apply timer_wfb_spec. reflexivity.
  - reflexivity.
  - simpl. lia.
  - eapply wp_mono; [exact H|]. intros r w' [[-> Ht]| ->]; [left|by right]. split; [done|].
    change (timer_total (mk_timer 4000000000 7)) with 4000000000000000007 in Ht.
    change (4000000000000000007 <? 2 ^ 53) with false in Ht. exact Ht.
Defined.

(** [osal_sleep] does not look at the result of [p4_sleep]: a cancelled sleep
    is over at once, where the header promises that it does not return
    earlier. *)
Theorem pikeos_sleep_cancelled {W} `{!P4Codes, !P4Time W} n (w w' : W) r :
  p4_sleep (P4_NSEC n) w = Ret r w' → osal_sleep n w = Ret tt w'.
Proof. intros Hr. unfold osal_sleep. by rewrite (bind_run _ _ _ _ _ Hr). Qed.

Lemma pikeos_sleep_cancelled_witness :
  osal_sleep 1000000 (Sim.mk_world 5 1) = Ret tt (Sim.mk_world 5 0).
Proof. apply (pikeos_sleep_cancelled 1000000 _ _ P4_E_CANCEL). reflexivity. Defined.

(** [osal_timer_init] gives the present time plus the time-out, exactly,
    and [osal_timer_expired] reports [OSAL_ERR_TIMEOUT] exactly when the timer
    is not in the future. *)
Theorem pikeos_timer_deadline {W} `{!P4Codes, !P4Time W, !P4TimeLaws W} timeout t (w : W) :
  in_uint 64 timeout → timer_wf t →
  wp (osal_timer_init (Some tt) timeout) (λ d w',
    timer_wf d ∧ timer_total d = now w' + timeout ∧ now w ≤ now w') w ∧
  wp (osal_timer_expired (Some t)) (λ r w',
    now w ≤ now w' ∧ r = if timer_total t <=? now w' then OSAL_ERR_TIMEOUT else OSAL_OK) w.
Proof.
  intros Hto Ht. split.
  - unfold osal_timer_init. apply wp_bind, wp_ret, wp_bind. eapply wp_mono; [apply get_time_law|].
    intros x w' (-> & Hle & Hx). apply wp_ret.
    destruct (timer_add_total (timer_of_nsec (now w')) (timer_of_nsec timeout)) as [Hd Htot]; auto with osal.
    + apply sec_sum; done.
    + by rewrite !timer_of_nsec_total in Htot.
  - unfold osal_timer_expired. apply wp_bind, wp_ret, wp_bind.
    unfold osal_timer_gettime. apply wp_bind, wp_ret, wp_bind. eapply wp_mono; [apply get_time_law|].
    intros x w' (-> & Hle & Hx). apply wp_ret, wp_ret. split; [done|]. simpl.
    
    change (mk_timer (now w' / NSEC_PER_SEC) (now w' mod NSEC_PER_SEC)) with (timer_of_nsec (now w')).
    rewrite (timer_cmp_total _ _ Z.ltb (timer_of_nsec_wf _ Hx) Ht) by (rewrite elem_of_cons; by left).
    rewrite timer_of_nsec_total. destruct (Z.ltb_spec (now w') (timer_total t)), (Z.leb_spec (timer_total t) (now w')); lia || done.
Qed.

Lemma pikeos_timer_deadline_witness :
  wp (osal_timer_init (Some tt) 2500000000) (λ d w',
    timer_wf d ∧ timer_total d = Sim.time w' + 2500000000 ∧ Sim.time (Sim.mk_world 700000000 0) ≤ Sim.time w')
    (Sim.mk_world 700000000 0).
Proof.
  refine (proj1 (pikeos_timer_deadline 2500000000 (mk_timer 1 0) (Sim.mk_world 700000000 0) _ _)).
  - split; [discriminate|reflexivity].
  - apply timer_wfb_spec. reflexivity.
Defined.
