(* ===== verification/PikeosSync.v ===== *)
(** * PikeOS semaphores, mutexes and condition variables

    src/pikeos/semaphore.c, binary_semaphore.c, mutex.c and condvar.c, a Module
    each, over the P4 calls of the classes [P4Sem], [P4Mutex] and [P4Cond]. What
    the kernel does is taken from the comments of the sources: the classes
    [P4SemLaws] and [P4MutexLaws]. *)

From S2P Require Import Prelude Osal Timer BinarySemaphore PosixMutex PikeosTimer.

(** The configuration macros the back end tests. *)
Class PikeosConfig := {
  LIBOSAL_HAVE_P4EXT_THREADS_H : bool;
  LIBOSAL_HAVE_P4_MUTEX_INIT_EXT : bool;
}.

Class P4Sem (W : Type) `{!P4Time W} := {
  p4_sem_init : loc → Z → Z → C W unit;
  p4_sem_post : loc → C W Z;
  p4_sem_wait : loc → p4_timeout → C W Z;
  p4_sem_trywait : loc → C W Z;
}.

Class P4Mutex (W : Type) `{!P4Time W} := {
  P4_MUTEX_SHARED : Z;
  P4_MUTEX_ROBUST : Z;
  P4_MUTEX_RECURSIVE : Z;
  P4_MUTEX_PRIO_INHERIT : Z;
  P4_MUTEX_PRIO_CEILING : Z;
  p4_mutex_init : loc → Z → C W unit;
  p4_mutex_init_ext : loc → Z → Z → C W unit;
  p4_mutex_lock : loc → p4_timeout → C W Z;
  p4_mutex_trylock : loc → C W Z;
  p4_mutex_unlock : loc → C W Z;
}.

Class P4Cond (W : Type) `{!P4Time W} := {
  P4_COND_SHARED : Z;
  p4_cond_init : loc → Z → C W unit;
  p4_cond_wake : loc → Z → C W Z;
  p4_cond_broadcast : loc → C W Z;
  p4_cond_wait : loc → loc → p4_timeout → C W Z;
}.

(** [P4_time_t timeout = to->sec * 1E9 + to->nsec;] *)
Definition p4_deadline {W} `{!P4Time W} (to : osal_timer) : C W Z :=
  from_double P4_time_bound (timer_double to).

(** [if (local_ret != P4_E_OK) switch (local_ret) ...] *)
Definition p4_ret `{!P4Codes} (local_ret : Z) (cases : list (Z * Z)) (dflt : Z) : Z :=
  if local_ret =? P4_E_OK then OSAL_OK else switch local_ret cases dflt.

Module Semaphore.
Section semaphore.
Context {W : Type} `{!P4Codes, !P4Time W, !P4Sem W}.

Definition osal_semaphore_init (sem : option loc) (attr : option Z) (initval : Z) : C W Z :=
  l ← assert_ptr sem;
  _ ← p4_sem_init l initval 0;
  mret OSAL_OK.

Definition osal_semaphore_post (sem : option loc) : C W Z :=
  l ← assert_ptr sem;
  local_ret ← p4_sem_post l;
  mret (p4_ret local_ret [(P4_E_INVAL, OSAL_ERR_INVALID_PARAM)] OSAL_ERR_OPERATION_FAILED).

Definition osal_semaphore_wait (sem : option loc) : C W Z :=
  l ← assert_ptr sem;
  local_ret ← p4_sem_wait l P4_TIMEOUT_INFINITE;
  mret (p4_ret local_ret
    [(P4_E_BADTIMEOUT, OSAL_ERR_INVALID_PARAM); (P4_E_TIMEOUT, OSAL_ERR_INVALID_PARAM);
     (P4_E_INVAL, OSAL_ERR_INVALID_PARAM)] OSAL_ERR_OPERATION_FAILED).

Definition osal_semaphore_trywait (sem : option loc) : C W Z :=
  l ← assert_ptr sem;
  local_ret ← p4_sem_trywait l;
  mret (if negb (local_ret =? P4_E_OK) then OSAL_ERR_BUSY else OSAL_OK).

Definition osal_semaphore_timedwait (sem : option loc) (to : option osal_timer) : C W Z :=
  l ← assert_ptr sem;
  to ← assert_ptr to;
  timeout ← p4_deadline to;
  local_ret ← p4_sem_wait l (P4_TIMEOUT_ABS timeout);
  mret (p4_ret local_ret
    [(P4_E_TIMEOUT, OSAL_ERR_TIMEOUT); (P4_E_BADTIMEOUT, OSAL_ERR_INVALID_PARAM);
     (P4_E_INVAL, OSAL_ERR_INVALID_PARAM); (P4_E_LIMIT, OSAL_ERR_SYSTEM_LIMIT_REACHED);
     (P4_E_NOABILITY, OSAL_ERR_PERMISSION_DENIED)] OSAL_ERR_OPERATION_FAILED).

Definition osal_semaphore_destroy (sem : option loc) : C W Z :=
  _ ← assert_ptr sem; mret OSAL_OK.
End semaphore.
End Semaphore.

Module BinSem.
Section binary_semaphore.
Context {W : Type} `{!P4Codes, !P4Time W, !P4Sem W}.

(** The source means the third argument, flags, as a maximum count. *)
Definition osal_binary_semaphore_init (sem : option loc) (attr : option Z) : C W Z :=
  l ← assert_ptr sem;
  let start := 0 in
  let flags := 1 in
  _ ← p4_sem_init l start flags;
  mret OSAL_OK.

Definition osal_binary_semaphore_post (sem : option loc) : C W Z :=
  l ← assert_ptr sem;
  local_ret ← p4_sem_post l;
  mret (p4_ret local_ret [(P4_E_INVAL, OSAL_ERR_INVALID_PARAM)] OSAL_ERR_OPERATION_FAILED).

Definition osal_binary_semaphore_wait (sem : option loc) : C W Z :=
  l ← assert_ptr sem;
  local_ret ← p4_sem_wait l P4_TIMEOUT_INFINITE;
  mret (p4_ret local_ret
    [(P4_E_BADTIMEOUT, OSAL_ERR_INVALID_PARAM); (P4_E_TIMEOUT, OSAL_ERR_INVALID_PARAM);
     (P4_E_INVAL, OSAL_ERR_INVALID_PARAM)] OSAL_ERR_OPERATION_FAILED).

Definition osal_binary_semaphore_trywait (sem : option loc) : C W Z :=
  l ← assert_ptr sem;
  local_ret ← p4_sem_trywait l;
  mret (if negb (local_ret =? P4_E_OK) then OSAL_ERR_BUSY else OSAL_OK).

Definition osal_binary_semaphore_timedwait (sem : option loc) (to : option osal_timer) : C W Z :=
  l ← assert_ptr sem;
  to ← assert_ptr to;
  timeout ← p4_deadline to;
  local_ret ← p4_sem_wait l (P4_TIMEOUT_ABS timeout);
  mret (p4_ret local_ret
    [(P4_E_TIMEOUT, OSAL_ERR_TIMEOUT); (P4_E_BADTIMEOUT, OSAL_ERR_INVALID_PARAM);
     (P4_E_INVAL, OSAL_ERR_INVALID_PARAM)] OSAL_ERR_OPERATION_FAILED).

Definition osal_binary_semaphore_destroy (sem : option loc) : C W Z :=
  _ ← assert_ptr sem; mret OSAL_OK.
End binary_semaphore.
End BinSem.

Module Mutex.
Section mutex.
Context {W : Type} `{!PikeosConfig, !P4Codes, !P4Time W, !P4Mutex W}.

(** The condition of the [#if]s around what sets priorities. *)
Definition have_ext : bool := LIBOSAL_HAVE_P4EXT_THREADS_H && LIBOSAL_HAVE_P4_MUTEX_INIT_EXT.

(** [flags] *)
Definition mutex_flags (attr : Z) : Z :=
  let flags :=
    or_if (Z.land attr OSAL_MUTEX_ATTR__TYPE__MASK =? OSAL_MUTEX_ATTR__TYPE__RECURSIVE) P4_MUTEX_RECURSIVE
    (or_if (has attr OSAL_MUTEX_ATTR__ROBUST) P4_MUTEX_ROBUST
    (or_if (has attr OSAL_MUTEX_ATTR__PROCESS_SHARED) P4_MUTEX_SHARED 0)) in
  if have_ext then
    or_if (has attr OSAL_MUTEX_ATTR__PRIOCEILING__MASK) P4_MUTEX_PRIO_CEILING
    (or_if (Z.land attr OSAL_MUTEX_ATTR__PROTOCOL__MASK =? OSAL_MUTEX_ATTR__PROTOCOL__INHERIT)
       P4_MUTEX_PRIO_INHERIT flags)
  else flags.

(** [ceil_prio] *)
Definition mutex_ceil_prio (attr : Z) : Z :=
  if have_ext && has attr OSAL_MUTEX_ATTR__PRIOCEILING__MASK
  then Z.shiftr (Z.land attr OSAL_MUTEX_ATTR__PRIOCEILING__MASK) OSAL_MUTEX_ATTR__PRIOCEILING__SHIFT
  else 0.

Definition osal_mutex_init (mtx : option loc) (attr : option Z) : C W Z :=
  l ← assert_ptr mtx;
  let flags := match attr with Some attr => mutex_flags attr | None => 0 end in
  let ceil_prio := match attr with Some attr => mutex_ceil_prio attr | None => 0 end in
  _ ← (if ceil_prio =? 0 then p4_mutex_init l flags else p4_mutex_init_ext l flags ceil_prio);
  mret OSAL_OK.

Definition osal_mutex_lock (mtx : option loc) : C W Z :=
  l ← assert_ptr mtx;
  local_ret ← p4_mutex_lock l P4_TIMEOUT_INFINITE;
  mret (p4_ret local_ret
    [(P4_E_STATE, OSAL_ERR_BUSY); (P4_E_LIMIT, OSAL_ERR_SYSTEM_LIMIT_REACHED);
     (P4_E_TIMEOUT, OSAL_ERR_TIMEOUT); (P4_E_BADTIMEOUT, OSAL_ERR_INVALID_PARAM);
     (P4_E_BADUID, OSAL_ERR_INVALID_PARAM); (P4_E_INVAL, OSAL_ERR_INVALID_PARAM)]
    OSAL_ERR_UNAVAILABLE).

(** [if (local_ret != 0) { }] *)
Definition osal_mutex_trylock (mtx : option loc) : C W Z :=
  l ← assert_ptr mtx;
  _ ← p4_mutex_trylock l;
  mret OSAL_OK.

Definition osal_mutex_unlock (mtx : option loc) : C W Z :=
  l ← assert_ptr mtx;
  local_ret ← p4_mutex_unlock l;
  mret (p4_ret local_ret [(P4_E_STATE, OSAL_ERR_MUTEX_IS_LOCKED)] OSAL_ERR_OPERATION_FAILED).

Definition osal_mutex_destroy (mtx : option loc) : C W Z :=
  _ ← assert_ptr mtx; mret OSAL_OK.
End mutex.
End Mutex.

Module Condvar.
Section condvar.
Context {W : Type} `{!P4Codes, !P4Time W, !P4Cond W}.

(** The bit is [OSAL_BINARY_SEMAPHORE_ATTR__PROCESS_SHARED] in the source; the
    one of condition variables has the same value. *)
Definition osal_condvar_init (cv : option loc) (attr : option Z) : C W Z :=
  l ← assert_ptr cv;
  let flags := match attr with Some attr => or_if (has attr 0x20) P4_COND_SHARED 0 | None => 0 end in
  _ ← p4_cond_init l flags;
  mret OSAL_OK.

Definition wake_ret (result : Z) : Z :=
  p4_ret result [(P4_E_INVAL, OSAL_ERR_INVALID_PARAM); (P4_E_NOABILITY, OSAL_ERR_PERMISSION_DENIED)]
    OSAL_ERR_OPERATION_FAILED.

Definition osal_condvar_signal (cv : option loc) : C W Z :=
  l ← assert_ptr cv;
  result ← p4_cond_wake l 0;
  mret (wake_ret result).

Definition osal_condvar_broadcast (cv : option loc) : C W Z :=
  l ← assert_ptr cv;
  result ← p4_cond_broadcast l;
  mret (wake_ret result).

Definition osal_condvar_wait (cv mtx : option loc) : C W Z :=
  c ← assert_ptr cv;
  m ← assert_ptr mtx;
  result ← p4_cond_wait c m P4_TIMEOUT_INFINITE;
  mret (p4_ret result [(P4_E_STATE, OSAL_ERR_INVALID_PARAM)] OSAL_ERR_OPERATION_FAILED).

Definition osal_condvar_timedwait (cv mtx : option loc) (to : option osal_timer) : C W Z :=
  c ← assert_ptr cv;
  m ← assert_ptr mtx;
  to ← assert_ptr to;
  timeout ← p4_deadline to;
  result ← p4_cond_wait c m (P4_TIMEOUT_ABS timeout);
  mret (p4_ret result [(P4_E_STATE, OSAL_ERR_INVALID_PARAM); (P4_E_TIMEOUT, OSAL_ERR_TIMEOUT)]
          OSAL_ERR_OPERATION_FAILED).

Definition osal_condvar_destroy (cv : option loc) : C W Z :=
  _ ← assert_ptr cv; mret OSAL_OK.
End condvar.
End Condvar.

(** ** What the kernel promises

    Why the kernel refuses every call on a semaphore, whatever its counter. *)
Inductive defect : Type :=
  | Invalid (* no valid address *)
  | Unmapped (* not fully mapped *)
  | BadThreads (* references invalid waiting threads *)
  | NoAbility. (* shareable, and the task must not use it *)

Definition defect_code `{!P4Codes} (d : defect) : Z :=
  match d with
  | Invalid => P4_E_INVAL
  | Unmapped => P4_E_PAGEFAULT
  | BadThreads => P4_E_BADUID
  | NoAbility => P4_E_NOABILITY
  end.

(** For a semaphore no other thread posts to or takes from meanwhile: [count l w]
    is its counter, at most [P4_SEM_MAX_COUNT], [waiting l w] the number of
    threads that wait for it, no more than that either. A wait that would block
    may be cancelled, one of [cancels w] times; one until a time that is over may
    be refused for that even if there is a unit. *)
Class P4SemLaws (W : Type) `{!P4Codes, !P4Time W, !P4TimeLaws W, !P4Sem W} := {
  P4_SEM_MAX_COUNT : Z;
  count : loc → W → Z;
  waiting : loc → W → Z;
  defective : loc → W → option defect;
  sem_init_law l v flags w :
    0 ≤ v ≤ P4_SEM_MAX_COUNT → defective l w = None →
    wp (p4_sem_init l v flags) (λ _ w', count l w' = v ∧ defective l w' = None) w;
  sem_post_law l w :
    wp (p4_sem_post l) (λ r w', defective l w' = defective l w ∧
      match defective l w with
      | Some d => r = defect_code d ∧ count l w' = count l w
      | None =>
          if count l w <? P4_SEM_MAX_COUNT then r = P4_E_OK ∧ count l w' = count l w + 1
          else r = P4_E_LIMIT ∧ count l w' = count l w
      end) w;
  sem_defect_law l to d w :
    defective l w = Some d → wp (p4_sem_wait l to) (λ r w', r = defect_code d ∧ count l w' = count l w) w;
  sem_take_law l w :
    defective l w = None → 0 < count l w →
    wp (p4_sem_wait l P4_TIMEOUT_INFINITE) (λ r w', r = P4_E_OK ∧ count l w' = count l w - 1) w;
  sem_block_law l w :
    defective l w = None → count l w ≤ 0 →
    wlp (p4_sem_wait l P4_TIMEOUT_INFINITE) (λ r w', count l w' = count l w ∧
      (r = P4_E_LIMIT ∧ P4_SEM_MAX_COUNT ≤ waiting l w ∨ r = P4_E_CANCEL ∧ (cancels w' < cancels w)%nat)) w;
  sem_until_law l t w :
    defective l w = None → t < P4_time_bound → wp (p4_sem_wait l (P4_TIMEOUT_ABS t)) (λ r w',
      (r = P4_E_OK ∧ 0 < count l w ∧ count l w' = count l w - 1) ∨
      (count l w' = count l w ∧
       (r = P4_E_BADTIMEOUT ∧ t < now w ∨
        count l w ≤ 0 ∧
        (r = P4_E_TIMEOUT ∧ t ≤ now w' ∨ r = P4_E_LIMIT ∧ P4_SEM_MAX_COUNT ≤ waiting l w ∨
         r = P4_E_CANCEL ∧ (cancels w' < cancels w)%nat)))) w;
  sem_trywait_law l w :
    wp (p4_sem_trywait l) (λ r w', defective l w' = defective l w ∧
      if bool_decide (defective l w = None) && (0 <? count l w) then r = P4_E_OK ∧ count l w' = count l w - 1
      else r ≠ P4_E_OK ∧ count l w' = count l w) w;
  sem_codes_law :
    NoDup [P4_E_OK; P4_E_TIMEOUT; P4_E_BADTIMEOUT; P4_E_LIMIT; P4_E_INVAL; P4_E_PAGEFAULT; P4_E_BADUID;
           P4_E_NOABILITY; P4_E_CANCEL];
}.

#[export] Instance defect_eq_dec : EqDecision defect.
Proof. solve_decision. Defined.

(** [m_holds l w]: the calling thread holds the mutex; [m_other l w]: another
    thread does. *)
Class P4MutexLaws (W : Type) `{!P4Codes, !P4Time W, !P4Mutex W} := {
  m_holds : loc → W → bool;
  m_other : loc → W → bool;
  mutex_lock_law l w :
    wlp (p4_mutex_lock l P4_TIMEOUT_INFINITE) (λ r w',
      m_holds l w' = if r =? P4_E_OK then true else m_holds l w) w;
  mutex_trylock_law l w :
    wp (p4_mutex_trylock l) (λ r w',
      m_other l w' = m_other l w ∧
      if m_other l w then r ≠ P4_E_OK ∧ m_holds l w' = m_holds l w
      else m_holds l w' = if r =? P4_E_OK then true else m_holds l w) w;
  mutex_unlock_law l w :
    wp (p4_mutex_unlock l) (λ r w',
      if m_holds l w then r = P4_E_OK ∧ m_holds l w' = false
      else r = P4_E_STATE ∧ m_holds l w' = false) w;
  state_law : P4_E_STATE ≠ P4_E_OK;
}.

(** ** Lemmas *)

Lemma p4_ret_ok `{!P4Codes} r cases dflt :
  Forall (λ r, r ≠ OSAL_OK) (dflt :: cases.*2) → p4_ret r cases dflt = OSAL_OK ↔ r = P4_E_OK.
Proof.
  intros Hc. unfold p4_ret. destruct (Z.eqb_spec r P4_E_OK) as [->|Hr]; [done|].
  pose proof (switch_not_ok r cases dflt Hc). naive_solver.
Qed.

Ltac not_ok := repeat first [apply Forall_cons; split; [discriminate|] | apply Forall_nil; exact I].

(** How far the deadline is from the time-out. *)
Definition slack (t : osal_timer) : Z := if timer_total t <? 2 ^ 53 then 0 else 1024.

Lemma deadline_slack t :
  timer_wf t → timer_total t < 2 ^ 62 →
  timer_total t - slack t ≤ timer_double t ≤ timer_total t + slack t.
Proof.
  intros Hwf Ht. destruct (timer_double_near t Hwf Ht) as [Hnear Hexact].
  unfold slack. destruct (Z.ltb_spec (timer_total t) (2 ^ 53)); lia.
Qed.

(** Running [m] [n] times and collecting the results. *)
Fixpoint times {W A} (n : nat) (m : C W A) : C W (list A) :=
  match n with
  | O => mret []
  | S n => x ← m; xs ← times n m; mret (x :: xs)
  end.

(** Every round gives [x], keeps [J] and moves the measure [f] by [d]. *)
Lemma times_spec {W A} (m : C W A) (x : A) (J : W → Prop) (f : W → Z) (I : Z → Prop) (d : Z) :
  (∀ w, J w → I (f w) → wp m (λ r w', r = x ∧ J w' ∧ f w' = f w + d) w) →
  ∀ n w, J w → (∀ k : Z, 0 ≤ k < Z.of_nat n → I (f w + k * d)) →
  wp (times n m) (λ r w', r = replicate n x ∧ J w' ∧ f w' = f w + Z.of_nat n * d) w.
Proof.
  intros Hm. induction n as [|n IH]; intros w HJ Hk; [apply wp_ret; split; [done|split; [done|lia]]|].
  simpl. apply wp_bind. eapply wp_mono.
  - apply Hm; [done|]. replace (f w) with (f w + 0 * d) by lia. apply Hk. lia.
  - intros r w1 (-> & HJ1 & H1). apply wp_bind. eapply wp_mono.
    + apply IH; [done|]. intros k Hk'. rewrite H1.
      replace (f w + d + k * d) with (f w + (k + 1) * d) by lia. apply Hk. lia.
    + intros rs w2 (-> & HJ2 & H2). apply wp_ret. split; [done|]. split; [done|lia].
Qed.

(** What the functions make of a defect: a timed wait has a code of its own for
    a missing ability. *)
Definition defect_ret (timed : bool) (d : defect) : Z :=
  match d with
  | Invalid => OSAL_ERR_INVALID_PARAM
  | NoAbility => if timed then OSAL_ERR_PERMISSION_DENIED else OSAL_ERR_OPERATION_FAILED
  | Unmapped | BadThreads => OSAL_ERR_OPERATION_FAILED
  end.

Section lemmas.
Context {W : Type} `{!P4Codes, !P4Time W, !P4TimeLaws W, !P4Sem W, !P4SemLaws W}.
Implicit Types w : W.

(** The codes are different from each other. *)
Ltac p4_codes :=
  pose proof sem_codes_law as Hnd; rewrite !NoDup_cons, !not_elem_of_cons in Hnd; destruct_and! Hnd;
  unfold p4_ret; cbn [switch app];
  repeat first [rewrite Z.eqb_refl | match goal with |- context [?a =? ?b] =>
    rewrite (proj2 (Z.eqb_neq a b)) by first [assumption | apply not_eq_sym; assumption] end]; try done.

Lemma post_spec l w :
  defective l w = None →
  wp (p4_sem_post l) (λ x w',
    let r := p4_ret x [(P4_E_INVAL, OSAL_ERR_INVALID_PARAM)] OSAL_ERR_OPERATION_FAILED in
    defective l w' = None ∧
    if count l w <? P4_SEM_MAX_COUNT then r = OSAL_OK ∧ count l w' = count l w + 1
    else r = OSAL_ERR_OPERATION_FAILED ∧ count l w' = count l w) w.
Proof.
  intros Hd. eapply wp_mono; [apply sem_post_law|]. rewrite Hd. intros x w' [Hd' Hx]. split; [done|]. revert Hx.
  destruct (count l w <? P4_SEM_MAX_COUNT); intros [-> Hw']; (split; [|done]); p4_codes.
Qed.

Lemma trywait_spec l w :
  wp (p4_sem_trywait l) (λ x w',
    let r := if negb (x =? P4_E_OK) then OSAL_ERR_BUSY else OSAL_OK in
    defective l w' = defective l w ∧
    if bool_decide (defective l w = None) && (0 <? count l w) then r = OSAL_OK ∧ count l w' = count l w - 1
    else r = OSAL_ERR_BUSY ∧ count l w' = count l w) w.
Proof.
  eapply wp_mono; [apply sem_trywait_law|]. intros x w' [Hd Hx]. split; [done|]. revert Hx.
  destruct (_ && _); intros [Hx Hw']; (split; [|done]).
  - subst x. by rewrite Z.eqb_refl.
  - by apply Z.eqb_neq in Hx as ->.
Qed.

(** *** Operations of the counting semaphore *)
Lemma semaphore_post_spec l w :
  wp (Semaphore.osal_semaphore_post (Some l)) (λ r w',
    match defective l w with
    | Some d => r = defect_ret false d ∧ count l w' = count l w + 0
    | None =>
        if count l w <? P4_SEM_MAX_COUNT then r = OSAL_OK ∧ count l w' = count l w + 1
        else r = OSAL_ERR_OPERATION_FAILED ∧ count l w' = count l w + 0
    end) w.
Proof.
  apply wp_bind, wp_ret, wp_bind. destruct (defective l w) as [d|] eqn:Hd.
  - eapply wp_mono; [apply sem_post_law|]. rewrite Hd. intros x w' (_ & -> & Hw'). apply wp_ret. split; [|lia].
    destruct d; simpl; p4_codes.
  - eapply wp_mono; [by apply post_spec|]. intros x w' [_ Hx]. apply wp_ret. revert Hx. simpl.
    destruct (count l w <? P4_SEM_MAX_COUNT); intros [-> ->]; (split; [done|lia]).
Qed.

Lemma semaphore_wait_spec l w :
  match defective l w with
  | Some d => wp (Semaphore.osal_semaphore_wait (Some l)) (λ r w', r = defect_ret false d ∧ count l w' = count l w + 0) w
  | None =>
      if 0 <? count l w
      then wp (Semaphore.osal_semaphore_wait (Some l)) (λ r w', r = OSAL_OK ∧ count l w' = count l w + -1) w
      else wlp (Semaphore.osal_semaphore_wait (Some l)) (λ r w',
        (r = OSAL_ERR_OPERATION_FAILED ∧ count l w' = count l w + 0) ∧
        (P4_SEM_MAX_COUNT ≤ waiting l w ∨ (cancels w' < cancels w)%nat)) w
  end.
Proof.
  destruct (defective l w) as [d|] eqn:Hd; [|destruct (Z.ltb_spec 0 (count l w)) as [Hc|Hc]].
  - apply wp_bind, wp_ret, wp_bind. eapply wp_mono; [by apply sem_defect_law|].
    intros x w' [-> Hw']. apply wp_ret. split; [|lia]. destruct d; simpl; p4_codes.
  - apply wp_bind, wp_ret, wp_bind. eapply wp_mono; [by apply sem_take_law|].
    intros x w' [-> Hw']. apply wp_ret. unfold p4_ret. rewrite Z.eqb_refl. split; [done|lia].
  - apply wlp_bind, wlp_ret, wlp_bind. eapply wlp_mono; [by apply sem_block_law|].
    intros x w' (Hw' & [[-> Hx]|[-> Hx]]); apply wlp_ret; (split; [split; [p4_codes|lia]|auto]).
Qed.

Lemma semaphore_timedwait_spec l to w :
  timer_wf to → timer_total to < 2 ^ 62 → 2 ^ 63 ≤ P4_time_bound →
  wp (Semaphore.osal_semaphore_timedwait (Some l) (Some to)) (λ r w',
    match defective l w with
    | Some d => r = defect_ret true d ∧ count l w' = count l w + 0
    | None =>
        (r = OSAL_OK ∧ count l w' = count l w + -1) ∧ 0 < count l w ∨
        (r = OSAL_ERR_INVALID_PARAM ∧ count l w' = count l w + 0) ∧ timer_total to - slack to < now w ∨
        count l w ≤ 0 ∧
        ((r = OSAL_ERR_TIMEOUT ∧ count l w' = count l w + 0) ∧ timer_total to - slack to ≤ now w' ∨
         (r = OSAL_ERR_SYSTEM_LIMIT_REACHED ∧ count l w' = count l w + 0) ∧ P4_SEM_MAX_COUNT ≤ waiting l w ∨
         (r = OSAL_ERR_OPERATION_FAILED ∧ count l w' = count l w + 0) ∧ (cancels w' < cancels w)%nat)
    end) w.
Proof.
  intros Hwf Ht Hb. pose proof (deadline_slack to Hwf Ht) as Hs.
  assert (timer_double to < P4_time_bound) by (unfold slack in Hs; destruct (timer_total to <? 2 ^ 53); lia).
  apply wp_bind, wp_ret, wp_bind, wp_ret, wp_bind, from_double_spec, wp_bind; [done|].
  destruct (defective l w) as [d|] eqn:Hd.
  { eapply wp_mono; [by apply sem_defect_law|]. intros x w' [-> Hw']. apply wp_ret. split; [|lia]. destruct d; simpl; p4_codes. }
  eapply wp_mono; [by apply sem_until_law|]. intros x w' Hx. apply wp_ret.
  destruct Hx as [(-> & Hc & Hw')|(Hw' & [[-> Hx]|(Hc & [[-> Hx]|[[-> Hx]|[-> Hx]]])])].
  - left. split; [split; [p4_codes|lia]|done].
  - right; left. split; [split; [p4_codes|lia]|lia].
  - right; right. split; [done|]. left. split; [split; [p4_codes|lia]|lia].
  - right; right. split; [done|]. right; left. split; [split; [p4_codes|lia]|lia].
  - right; right. split; [done|]. right; right. split; [split; [p4_codes|lia]|done].
Qed.
End lemmas.

(** ** A concrete kernel

    One semaphore and one mutex next to the clock of PikeosTimer's. The objects 2
    to 5 are defective. *)
Module Sim.
Import PikeosTimer.Sim.

Record sync : Type := mk_sync { counter : Z; owner : option bool; clk : world }.

Definition put_counter (n : Z) (s : sync) : sync := mk_sync n (owner s) (clk s).
Definition put_owner (o : option bool) (s : sync) : sync := mk_sync (counter s) o (clk s).

Definition lift {A} (m : C world A) : C sync A := λ s,
  match m (clk s) with
  | Ret a w => Ret a (mk_sync (counter s) (owner s) w)
  | Aborted => Aborted
  | Undef => Undef
  | NoReturn => NoReturn
  end.

Lemma lift_wp {A} (m : C world A) (Q : A → world → Prop) s :
  wp m Q (clk s) → wp (lift m) (λ a s', Q a (clk s') ∧ counter s' = counter s ∧ owner s' = owner s) s.
Proof. unfold wp, lift. by destruct (m (clk s)). Qed.

#[global] Instance p4_time : P4Time sync := {|
  p4_timeout := timeout;
  P4_NSEC := rel;
  P4_TIMEOUT_ABS := abs;
  P4_TIMEOUT_INFINITE := infinite;
  P4_time_bound := 2 ^ 64;
  p4_sleep := λ to, lift (p4_sleep (P4Time := p4) to);
  p4_get_time := lift (p4_get_time (P4Time := p4));
|}.

#[global] Instance p4_time_laws : P4TimeLaws sync.
Proof.
  refine {| now := λ s, time (clk s); cancels := λ s, to_cancel (clk s) |}; [| | |discriminate].
  - intros s. eapply wp_mono; [apply lift_wp, (get_time_law (P4TimeLaws := laws))|]. by intros a s' [H _].
  - intros t s. eapply wp_mono; [apply lift_wp, (sleep_abs_law (P4TimeLaws := laws))|]. by intros a s' [H _].
  - intros t s Ht. eapply wp_mono; [by apply lift_wp, (sleep_past_law (P4TimeLaws := laws))|]. by intros a s' [H _].
Defined.

(** The greatest value of a counter, small here. *)
Definition MAX : Z := 3.

Definition flaw (l : loc) : option defect :=
  match l with
  | 2%positive => Some Invalid
  | 3%positive => Some Unmapped
  | 4%positive => Some BadThreads
  | 5%positive => Some NoAbility
  | _ => None
  end.

(** Waiting until [t], or for ever; the next cancellation comes first. *)
Definition blocked (t : option Z) : C sync Z := λ s,
  match to_cancel (clk s), t with
  | S n, _ => Ret P4_E_CANCEL (mk_sync (counter s) (owner s) (mk_world (clock (clk s)) n))
  | O, None => NoReturn
  | O, Some t => Ret P4_E_TIMEOUT (mk_sync (counter s) (owner s) (mk_world t 0))
  end.

#[global] Instance sem : P4Sem sync := {|
  p4_sem_init _ v _ s := Ret tt (put_counter v s);
  p4_sem_post l s :=
    match flaw l with
    | Some d => Ret (defect_code d) s
    | None => if counter s <? MAX then Ret P4_E_OK (put_counter (counter s + 1) s) else Ret P4_E_LIMIT s
    end;
  p4_sem_wait l to s :=
    match flaw l with
    | Some d => Ret (defect_code d) s
    | None =>
        if 0 <? counter s then Ret P4_E_OK (put_counter (counter s - 1) s)
        else match to with
             | infinite => blocked None s
             | rel n => blocked (Some (time (clk s) + n)) s
             | abs t => if t <? time (clk s) then Ret P4_E_BADTIMEOUT s
                        else if 2 ^ 64 <=? t then NoReturn else blocked (Some t) s
             end
    end;
  p4_sem_trywait l s :=
    match flaw l with
    | Some d => Ret (defect_code d) s
    | None => if 0 <? counter s then Ret P4_E_OK (put_counter (counter s - 1) s) else Ret P4_E_TIMEOUT s
    end;
|}.

#[global] Instance mutex : P4Mutex sync := {|
  P4_MUTEX_SHARED := 1; P4_MUTEX_ROBUST := 2; P4_MUTEX_RECURSIVE := 4;
  P4_MUTEX_PRIO_INHERIT := 8; P4_MUTEX_PRIO_CEILING := 16;
  p4_mutex_init _ _ s := Ret tt (put_owner None s);
  p4_mutex_init_ext _ _ _ s := Ret tt (put_owner None s);
  p4_mutex_lock _ _ s :=
    match owner s with
    | None => Ret P4_E_OK (put_owner (Some true) s)
    | Some true => Ret P4_E_STATE s
    | Some false => NoReturn
    end;
  p4_mutex_trylock _ s :=
    match owner s with
    | None => Ret P4_E_OK (put_owner (Some true) s)
    | Some true => Ret P4_E_STATE s
    | Some false => Ret P4_E_TIMEOUT s
    end;
  p4_mutex_unlock _ s :=
    match owner s with Some true => Ret P4_E_OK (put_owner None s) | _ => Ret P4_E_STATE s end;
|}.

#[global] Instance mutex_laws : P4MutexLaws sync.
Proof.
  refine {| m_holds := λ _ s, bool_decide (owner s = Some true);
            m_other := λ _ s, bool_decide (owner s = Some false) |}; [| | |discriminate];
    intros l [n [[]|] w]; unfold wp, wlp; simpl; done.
Defined.

#[global] Instance sem_laws : P4SemLaws sync.
Proof.
  refine {| P4_SEM_MAX_COUNT := MAX; count := λ _, counter; waiting := λ _ _, 0; defective := λ l _, flaw l |};
    try intros l.
  - intros v flags s Hv Hd. by split.
  - intros s. unfold wp; simpl. destruct (flaw l); [done|]. by destruct (counter s <? MAX).
  - intros to d s Hd. unfold wp; simpl. by rewrite Hd.
  - intros s Hd Hc. unfold wp; simpl. rewrite Hd. by apply Z.ltb_lt in Hc as ->.
  - intros s Hd Hc. unfold wlp; simpl. rewrite Hd. apply Z.ltb_ge in Hc as ->. unfold blocked.
    destruct (to_cancel (clk s)) as [|n] eqn:Hn; [done|]. split; [done|]. right. split; [done|]. simpl. lia.
  - intros t s Hd Ht. unfold wp; simpl in *. rewrite Hd. destruct (Z.ltb_spec 0 (counter s)) as [Hc|Hc]; [by left|].
    destruct (Z.ltb_spec t (time (clk s))); [right; split; [done|by left]|].
    destruct (Z.leb_spec (2 ^ 64) t); [lia|]. unfold blocked. destruct (to_cancel (clk s)) as [|n] eqn:Hn; simpl;
      right; (split; [done|right; split; [done|]]).
    + left. split; [done|]. unfold time in *; simpl. lia.
    + right; right. split; [done|lia].
  - intros s. unfold wp; simpl. destruct (flaw l) as [[]|]; [done..|]. simpl. by destruct (0 <? counter s).
  - repeat constructor; rewrite ?elem_of_cons, elem_of_nil; naive_solver.
Defined.
End Sim.

(** ** Properties *)

(** (C36) A PikeOS counting semaphore that no other thread posts to or takes from,
    on every branch. [init] sets the counter; [post] adds one unit, unless the
    counter is at its maximum; [wait] takes one if there is one, and otherwise
    blocks, until it is cancelled or for ever, or finds too many threads waiting;
    [trywait] takes one or returns [OSAL_ERR_BUSY]; [timedwait] takes one, or
    returns [OSAL_ERR_TIMEOUT] not before the time (1024 nanoseconds at most for
    times from [2^53] nanoseconds on), or, when the time is over already,
    [OSAL_ERR_INVALID_PARAM] instead of it, or an error for too many waiting
    threads or a cancellation; [destroy] does nothing. [OSAL_OK] is returned only
    when a unit has moved; every call on a defective semaphore returns an error
    and moves none; a null pointer fails an assertion. *)
Theorem pikeos_semaphore_alone
    {W} `{!P4Codes, !P4Time W, !P4TimeLaws W, !P4Sem W, !P4SemLaws W} l attr v to (w : W) :
  timer_wf to → timer_total to < 2 ^ 62 → 2 ^ 63 ≤ P4_time_bound → 0 ≤ v ≤ P4_SEM_MAX_COUNT →
  let changed r w' (r0 d : Z) := r = r0 ∧ count l w' = count l w + d in
  (defective l w = None →
   wp (Semaphore.osal_semaphore_init (Some l) attr v) (λ r w', r = OSAL_OK ∧ count l w' = v) w) ∧
  wp (Semaphore.osal_semaphore_post (Some l)) (λ r w',
    match defective l w with
    | Some d => changed r w' (defect_ret false d) 0
    | None => if count l w <? P4_SEM_MAX_COUNT then changed r w' OSAL_OK 1 else changed r w' OSAL_ERR_OPERATION_FAILED 0
    end) w ∧
  match defective l w with
  | Some d => wp (Semaphore.osal_semaphore_wait (Some l)) (λ r w', changed r w' (defect_ret false d) 0) w
  | None =>
      if 0 <? count l w then wp (Semaphore.osal_semaphore_wait (Some l)) (λ r w', changed r w' OSAL_OK (-1)) w
      else wlp (Semaphore.osal_semaphore_wait (Some l)) (λ r w', changed r w' OSAL_ERR_OPERATION_FAILED 0 ∧
        (P4_SEM_MAX_COUNT ≤ waiting l w ∨ (cancels w' < cancels w)%nat)) w
  end ∧
  wp (Semaphore.osal_semaphore_trywait (Some l)) (λ r w',
    if bool_decide (defective l w = None) && (0 <? count l w)
    then changed r w' OSAL_OK (-1) else changed r w' OSAL_ERR_BUSY 0) w ∧
  wp (Semaphore.osal_semaphore_timedwait (Some l) (Some to)) (λ r w',
    match defective l w with
    | Some d => changed r w' (defect_ret true d) 0
    | None =>
        changed r w' OSAL_OK (-1) ∧ 0 < count l w ∨
        changed r w' OSAL_ERR_INVALID_PARAM 0 ∧ timer_total to - slack to < now w ∨
        count l w ≤ 0 ∧
        (changed r w' OSAL_ERR_TIMEOUT 0 ∧ timer_total to - slack to ≤ now w' ∨
         changed r w' OSAL_ERR_SYSTEM_LIMIT_REACHED 0 ∧ P4_SEM_MAX_COUNT ≤ waiting l w ∨
         changed r w' OSAL_ERR_OPERATION_FAILED 0 ∧ (cancels w' < cancels w)%nat)
    end) w ∧
  Semaphore.osal_semaphore_destroy (Some l) w = Ret OSAL_OK w ∧
  (∀ p, p ∈ [Semaphore.osal_semaphore_init None attr v; Semaphore.osal_semaphore_post None; Semaphore.osal_semaphore_wait None;
             Semaphore.osal_semaphore_trywait None; Semaphore.osal_semaphore_timedwait None (Some to);
             Semaphore.osal_semaphore_timedwait (Some l) None; Semaphore.osal_semaphore_destroy None] → p w = Aborted).
Proof.
  intros Hwf Ht Hb Hv changed. split_and!; [| | | | |done|by apply Forall_forall; repeat constructor].
  - intros Hd. apply wp_bind, wp_ret, wp_bind. eapply wp_mono; [by apply sem_init_law|].
    intros [] w' [Hc _]. by apply wp_ret.
  - apply semaphore_post_spec.
  - apply semaphore_wait_spec.
  - apply wp_bind, wp_ret, wp_bind. eapply wp_mono; [apply trywait_spec|]. intros x w' [_ Hx]. apply wp_ret.
    revert Hx. simpl. destruct (_ && _); intros [-> Hw']; (split; [done|lia]).
  - by apply semaphore_timedwait_spec.
Qed.

(** A time that is over, a wait that is cancelled, and one that is not. *)
Lemma pikeos_semaphore_alone_witness :
  let s n := Sim.mk_sync 0 None (PikeosTimer.Sim.mk_world 2000000000 n) in
  wp (Semaphore.osal_semaphore_timedwait (Some 1%positive) (Some (mk_timer 1 0)))
    (λ r _, r = OSAL_ERR_INVALID_PARAM) (s 0%nat) ∧
  Semaphore.osal_semaphore_wait (Some 1%positive) (s 1%nat) = Ret OSAL_ERR_OPERATION_FAILED (s 0%nat) ∧
  Semaphore.osal_semaphore_wait (Some 1%positive) (s 0%nat) = NoReturn ∧
  wlp (Semaphore.osal_semaphore_wait (Some 1%positive)) (λ r w',
    (r = OSAL_ERR_OPERATION_FAILED ∧ Sim.counter w' = 0) ∧ (3 ≤ 0 ∨ (cancels w' < 1)%nat)) (s 1%nat).
Proof.
  intros s. split; [reflexivity|]. split; [reflexivity|]. split; [reflexivity|].
  refine (proj1 (proj2 (proj2 (pikeos_semaphore_alone 1%positive None 0 (mk_timer 1 0) (s 1%nat) _ _ _ _))));
    [|reflexivity|discriminate|split; discriminate].
  apply timer_wfb_spec. reflexivity.
Defined.

(** The PikeOS binary semaphore counts. Its initialisation passes the
    maximum count of one as the kernel's flags, so every one of [n] posts
    stores a unit, and [n] waits succeed after them; posting at the kernel's
    maximum returns [OSAL_ERR_OPERATION_FAILED]. *)
Theorem pikeos_binary_semaphore_counts
    {W} `{!P4Codes, !P4Time W, !P4TimeLaws W, !P4Sem W, !P4SemLaws W} l attr n (w : W) :
  Z.of_nat n ≤ P4_SEM_MAX_COUNT → defective l w = None →
  wp (_ ← BinSem.osal_binary_semaphore_init (Some l) attr;
      posts ← times n (BinSem.osal_binary_semaphore_post (Some l));
      waits ← times n (BinSem.osal_binary_semaphore_trywait (Some l));
      last ← BinSem.osal_binary_semaphore_trywait (Some l);
      mret (posts, waits, last))
    (λ r _, r = (replicate n OSAL_OK, replicate n OSAL_OK, OSAL_ERR_BUSY)) w ∧
  (count l w = P4_SEM_MAX_COUNT →
   wp (BinSem.osal_binary_semaphore_post (Some l)) (λ r _, r = OSAL_ERR_OPERATION_FAILED) w).
Proof.
  intros Hn Hd. split.
  - apply wp_bind, wp_bind, wp_ret, wp_bind. eapply wp_mono; [apply sem_init_law; [lia|done]|].
    intros [] w1 [H1 Hd1]. apply wp_ret, wp_bind. eapply wp_mono.
    { apply (times_spec _ OSAL_OK (λ w, defective l w = None) (count l) (λ c, c < P4_SEM_MAX_COUNT) 1); [|done|lia].
      intros w2 Hd2 H2. apply wp_bind, wp_ret, wp_bind. eapply wp_mono; [by apply post_spec|].
      intros x w3 [Hd3 Hx]. apply wp_ret. revert Hx. simpl. apply Z.ltb_lt in H2 as ->. by intros [-> ->]. }
    intros posts w2 (-> & Hd2 & H2). apply wp_bind. eapply wp_mono.
    { apply (times_spec _ OSAL_OK (λ w, defective l w = None) (count l) (λ c, 0 < c) (-1)); [|done|lia].
      intros w3 Hd3 H3. apply wp_bind, wp_ret, wp_bind. eapply wp_mono; [apply trywait_spec|].
      intros x w4 [Hd4 Hx]. apply wp_ret. revert Hx. simpl. rewrite Hd3 in *. apply Z.ltb_lt in H3 as ->. by intros [-> ->]. }
    intros waits w3 (-> & Hd3 & H3). apply wp_bind, wp_bind, wp_ret, wp_bind. eapply wp_mono; [apply trywait_spec|].
    intros x w4 [_ Hx]. apply wp_ret, wp_ret. revert Hx. simpl. rewrite Hd3. simpl.
    destruct (Z.ltb_spec 0 (count l w3)); [lia|]. by intros [-> _].
  - intros Hc. apply wp_bind, wp_ret, wp_bind. eapply wp_mono; [by apply post_spec|].
    intros x w1 [_ Hx]. apply wp_ret. revert Hx. simpl. rewrite Hc, Z.ltb_irrefl. by intros [-> _].
Qed.

Lemma pikeos_binary_semaphore_counts_witness :
  wp (_ ← BinSem.osal_binary_semaphore_init (Some 1%positive) None;
      posts ← times 2 (BinSem.osal_binary_semaphore_post (Some 1%positive));
      waits ← times 2 (BinSem.osal_binary_semaphore_trywait (Some 1%positive));
      last ← BinSem.osal_binary_semaphore_trywait (Some 1%positive);
      mret (posts, waits, last))
    (λ r _, r = ([OSAL_OK; OSAL_OK], [OSAL_OK; OSAL_OK], OSAL_ERR_BUSY))
    (Sim.mk_sync 0 None (PikeosTimer.Sim.mk_world 5 0)).
Proof.
  refine (proj1 (pikeos_binary_semaphore_counts 1%positive None 2
    (Sim.mk_sync 0 None (PikeosTimer.Sim.mk_world 5 0)) _ eq_refl)).
  by vm_compute.
Defined.

(** PikeOS mutexes: after [osal_mutex_lock] the caller holds the mutex if it
    returns [OSAL_OK], and unlocking releases it; but [osal_mutex_trylock]
    ignores the kernel's answer and returns [OSAL_OK] also while another thread
    holds the mutex, so the caller enters unprotected, as the failing unlock
    shows. *)
Theorem pikeos_mutex_trylock_blind
    {W} `{!P4Codes, !P4Time W, !P4Mutex W, !P4MutexLaws W} l (w : W) :
  wlp (Mutex.osal_mutex_lock (Some l)) (λ r w', r = OSAL_OK → m_holds l w' = true) w ∧
  (m_holds l w = true →
   wp (Mutex.osal_mutex_unlock (Some l)) (λ r w', r = OSAL_OK ∧ m_holds l w' = false) w) ∧
  (m_other l w = true → m_holds l w = false →
   wp (r1 ← Mutex.osal_mutex_trylock (Some l); r2 ← Mutex.osal_mutex_unlock (Some l); mret (r1, r2))
     (λ r _, r = (OSAL_OK, OSAL_ERR_MUTEX_IS_LOCKED)) w).
Proof.
  split; [|split].
  - apply wlp_bind, wlp_ret, wlp_bind. eapply wlp_mono; [apply mutex_lock_law|].
    intros x w' Hx. apply wlp_ret. intros Hok. apply p4_ret_ok in Hok as ->; [|not_ok].
    by rewrite Hx, Z.eqb_refl.
  - intros Hh. apply wp_bind, wp_ret, wp_bind. eapply wp_mono; [apply mutex_unlock_law|].
    intros x w'. rewrite Hh. intros [-> Hw']. apply wp_ret. split; [|done].
    unfold p4_ret. by rewrite Z.eqb_refl.
  - intros Ho Hh. apply wp_bind, wp_bind, wp_ret, wp_bind. eapply wp_mono; [apply mutex_trylock_law|].
    intros x w1. rewrite Ho, Hh. intros [Ho1 [Hx Hh1]]. apply wp_ret, wp_bind, wp_bind, wp_ret, wp_bind.
    eapply wp_mono; [apply mutex_unlock_law|]. intros y w2. rewrite Hh1. intros [-> _].
    apply wp_ret, wp_ret. unfold p4_ret.
    destruct (Z.eqb_spec P4_E_STATE P4_E_OK) as [He|_]; [by destruct state_law|]. simpl. by rewrite Z.eqb_refl.
Qed.

Lemma pikeos_mutex_trylock_blind_witness :
  wp (r1 ← Mutex.osal_mutex_trylock (Some 1%positive);
      r2 ← Mutex.osal_mutex_unlock (Some 1%positive); mret (r1, r2))
    (λ r _, r = (OSAL_OK, OSAL_ERR_MUTEX_IS_LOCKED)) (Sim.mk_sync 0 (Some false) (PikeosTimer.Sim.mk_world 5 0)).
Proof.
  refine (proj2 (proj2 (pikeos_mutex_trylock_blind 1%positive
    (Sim.mk_sync 0 (Some false) (PikeosTimer.Sim.mk_world 5 0)))) _ _); reflexivity.
Defined.
