(* ===== verification/PikeosTask.v ===== *)
(** * PikeOS tasks: src/pikeos/task.c

    Over the thread calls of the kernel, the class [P4Task]. As in PosixTask a
    handle is the thread number it holds, [None] a null handle, and the member
    [running] of [start_args] is shared with the new thread. *)

From S2P Require Import Prelude Osal Timer PosixTask PikeosTimer.

(** ** include/libosal/task.h *)

Definition OSAL_STATE_THREAD_UNKNOWN_ID : Z := 0.
Definition OSAL_STATE_THREAD_ACTIVE : Z := 1.
Definition OSAL_STATE_THREAD_INACTIVE : Z := 2.
Definition OSAL_STATE_THREAD_BLOCKED : Z := 3.

(** [thr_create prio name args] starts [pikeos_task_wrapper] and gives the
    number it stored in the handle, if it stored one. *)
Class P4Task (W F : Type) := {
  P4EXT_THR_NUM_INVALID : Z;
  P4_THREAD_MYSELF : Z;
  P4_THREAD_STOPPED : Z;
  P4_THREAD_READY : Z;
  P4_THREAD_CURRENT : Z;
  P4_THREAD_SLEEPING : Z;
  P4_THREAD_WAIT_RX : Z;
  P4_THREAD_WAIT_RX_EV : Z;
  P4_THREAD_WAIT_TX : Z;
  P4_THREAD_WAIT_EV : Z;
  P4_THREAD_WAIT_INT : Z;
  p4ext_thr_create : Z → list Z → start_args F → C W (Z * option Z);
  p4_thread_delete : Z → C W Z;
  p4_thread_ex_priority : Z → Z → C W Z;
  p4_thread_get_priority : Z → C W (Z * Z);
  p4_thread_stop : Z → C W Z;
  p4_thread_resume : Z → C W Z;
  p4_thread_get_attr : Z → C W (Z * Z);
  p4_start_running : C W Z;
  p4_set_running : Z → C W unit;
  p4_run_handler : F → Z → C W Z;
}.

Section task.
Context {W F : Type} `{!P4Codes, !P4Time W, !P4Task W F}.

Definition pikeos_task_wrapper (args : start_args F) : C W Z :=
  p4_set_running 1;;
  p4_run_handler (user_handler args) (user_arg args).

(** ["thread"] *)
Definition default_name : list Z := [116; 104; 114; 101; 97; 100; 0].

Definition osal_task_create (fuel : nat) (hdl : option Z) (attr : option osal_task_attr)
    (handler : F) (arg : Z) : C W (Z * Z) :=
  _ ← assert_ptr hdl;
  let prio := match attr with Some a => if 0 <? priority a then priority a else 1 | None => 1 end in
  let name := match attr with
              | Some a => if negb (default 0 (head (task_name a)) =? 0) then task_name a else default_name
              | None => default_name
              end in
  p4_set_running 0;;
  '(local_ret, tid) ← p4ext_thr_create prio name (mk_start_args handler arg attr);
  let ret := if local_ret =? P4_E_OK then OSAL_OK
             else if local_ret =? P4_E_INVAL then OSAL_ERR_INVALID_PARAM
             else OSAL_ERR_OPERATION_FAILED in
  (if ret =? OSAL_OK then
     cloop fuel (λ _ : unit,
       running ← p4_start_running;
       if running =? 0 then osal_sleep 1000000;; mret (inl tt) else mret (inr tt)) tt
   else mret tt);;
  mret (ret, default P4EXT_THR_NUM_INVALID tid).

(** [state] points to an integer that may not have been written yet; its
    content comes with the result. *)
Definition osal_task_get_state (hdl : option Z) (state : option (option Z)) : C W (Z * option Z) :=
  tid ← assert_ptr hdl;
  state ← assert_ptr state;
  '(local_ret, st) ← p4_thread_get_attr tid;
  mret (if negb (local_ret =? P4_E_OK) then (OSAL_ERR_INVALID_PARAM, Some OSAL_STATE_THREAD_UNKNOWN_ID)
        else (OSAL_OK,
              if (st =? P4_THREAD_STOPPED) || (st =? P4_THREAD_READY) then Some OSAL_STATE_THREAD_INACTIVE
              else if st =? P4_THREAD_CURRENT then Some OSAL_STATE_THREAD_ACTIVE
              else if (st =? P4_THREAD_SLEEPING) || (st =? P4_THREAD_WAIT_RX) ||
                      (st =? P4_THREAD_WAIT_RX_EV) || (st =? P4_THREAD_WAIT_TX) ||
                      (st =? P4_THREAD_WAIT_EV) || (st =? P4_THREAD_WAIT_INT)
              then Some OSAL_STATE_THREAD_BLOCKED
              else state)).

(** One round of the [do ... while] of [osal_task_join], on the local [state]. *)
Definition join_round (tid : Z) (state : option Z) : C W (option Z + Z) :=
  '(ret, state) ← osal_task_get_state (Some tid) (Some state);
  if negb (ret =? OSAL_OK) then mret (inr ret)
  else
    st ← deref state;
    if st =? OSAL_STATE_THREAD_ACTIVE then osal_sleep 1000000;; mret (inl state)
    else mret (inr ret).

(** [*retval] is set to NULL when [retval] is not. *)
Definition osal_task_join (fuel : nat) (hdl : option Z) : C W Z :=
  tid ← assert_ptr hdl;
  cloop fuel (join_round tid) None.

(** [ret = (local_ret != P4_E_OK) ? OSAL_ERR_OPERATION_FAILED : OSAL_OK] *)
Definition op_ret (local_ret : Z) : Z :=
  if negb (local_ret =? P4_E_OK) then OSAL_ERR_OPERATION_FAILED else OSAL_OK.

Definition osal_task_destroy (hdl : option Z) : C W Z :=
  tid ← assert_ptr hdl; r ← p4_thread_delete tid; mret (op_ret r).

Definition osal_task_get_hdl (hdl : option Z) : C W Z :=
  _ ← assert_ptr hdl; mret OSAL_ERR_NOT_IMPLEMENTED.

Definition osal_task_set_task_attr (hdl : option Z) (attr : option osal_task_attr) : C W Z :=
  _ ← assert_ptr hdl; mret OSAL_ERR_NOT_IMPLEMENTED.

Definition osal_task_get_task_attr (hdl : option Z) (attr : option osal_task_attr) : C W Z :=
  _ ← assert_ptr hdl; mret OSAL_ERR_NOT_IMPLEMENTED.

Definition osal_task_set_priority (hdl : option Z) (prio : Z) : C W Z :=
  tid ← assert_ptr hdl; r ← p4_thread_ex_priority tid prio; mret (op_ret r).

Definition osal_task_get_priority (hdl : option Z) (prio : option unit) : C W (Z * Z) :=
  tid ← assert_ptr hdl;
  _ ← assert_ptr prio;
  '(r, p) ← p4_thread_get_priority tid;
  mret (op_ret r, p).

Definition osal_task_suspend (hdl : option Z) : C W Z :=
  tid ← deref hdl; r ← p4_thread_stop tid; mret (op_ret r).

Definition osal_task_resume (hdl : option Z) : C W Z :=
  tid ← deref hdl; r ← p4_thread_resume tid; mret (op_ret r).

Definition osal_task_delete : C W Z :=
  r ← p4_thread_delete P4_THREAD_MYSELF; mret (op_ret r).
End task.

(** The states [osal_task_get_state] lists for a thread that is not running. *)
Definition waiting_states {W F} `{!P4Task W F} : list Z :=
  [P4_THREAD_STOPPED; P4_THREAD_READY; P4_THREAD_SLEEPING; P4_THREAD_WAIT_RX; P4_THREAD_WAIT_RX_EV;
   P4_THREAD_WAIT_TX; P4_THREAD_WAIT_EV; P4_THREAD_WAIT_INT].

(** ** What the kernel promises

    [alive t w]: there is a thread [t]; [thr_state t w] is its state, one of
    those the source lists. *)
Class P4TaskLaws (W F : Type) `{!P4Codes, !P4Time W, !P4Task W F} := {
  alive : Z → W → bool;
  thr_state : Z → W → Z;
  p4_running : W → Z;
  get_attr_law t w :
    wp (p4_thread_get_attr t) (λ r w', w' = w ∧
      if alive t w then r = (P4_E_OK, thr_state t w) else r.1 ≠ P4_E_OK) w;
  states_law t w : thr_state t w ∈ P4_THREAD_CURRENT :: waiting_states;
  current_law : P4_THREAD_CURRENT ∉ waiting_states;
  sleep_law to w : wlp (p4_sleep to) (λ _ _, True) w;
  thr_create_law prio name a w : wlp (p4ext_thr_create prio name a) (λ _ _, True) w;
  p4_set_running_law v w : wp (p4_set_running v) (λ _ w', p4_running w' = v) w;
  p4_start_running_law w : wp p4_start_running (λ r w', r = p4_running w') w;
}.

(** ** Lemmas *)

Section lemmas.
Context {W F : Type} `{!P4Codes, !P4Time W, !P4Task W F, !P4TaskLaws W F}.
Implicit Types w : W.

(** What [osal_task_get_state] reports of a thread. *)
Lemma get_state_spec t s w :
  wp (osal_task_get_state (Some t) (Some s)) (λ r w', w' = w ∧
    if alive t w then
      r.1 = OSAL_OK ∧
      (thr_state t w = P4_THREAD_CURRENT → r.2 = Some OSAL_STATE_THREAD_ACTIVE) ∧
      (thr_state t w ∈ waiting_states →
       r.2 = Some OSAL_STATE_THREAD_INACTIVE ∨ r.2 = Some OSAL_STATE_THREAD_BLOCKED)
    else r = (OSAL_ERR_INVALID_PARAM, Some OSAL_STATE_THREAD_UNKNOWN_ID)) w.
Proof.
  apply wp_bind, wp_ret, wp_bind, wp_ret, wp_bind. eapply wp_mono; [apply get_attr_law|].
  intros [x st] w' [-> Hx]. apply wp_ret. split; [done|].
  destruct (alive t w); simpl in Hx; [|by apply Z.eqb_neq in Hx as ->].
  injection Hx as -> ->. rewrite Z.eqb_refl. split; [done|]. pose proof current_law as Hcur.
  unfold waiting_states in *. rewrite !elem_of_cons, elem_of_nil in *. simpl. split.
  - intros ->. destruct (Z.eqb_spec P4_THREAD_CURRENT P4_THREAD_STOPPED); [naive_solver|].
    destruct (Z.eqb_spec P4_THREAD_CURRENT P4_THREAD_READY); [naive_solver|]. simpl. by rewrite Z.eqb_refl.
  - intros Hst. destruct (_ || (_ =? P4_THREAD_READY)) eqn:Hs; [by left|right].
    destruct (Z.eqb_spec (thr_state t w) P4_THREAD_CURRENT) as [He|_]; [by rewrite He in Hst|].
    apply orb_false_iff in Hs as [?%Z.eqb_neq ?%Z.eqb_neq].
    repeat match goal with |- context [?a =? ?b] => destruct (Z.eqb_spec a b); simpl; [done|] end.
    naive_solver.
Qed.

(** A round of joining: it goes on while the thread is the current one. *)
Lemma join_round_spec t s w :
  wlp (join_round t s) (λ r w',
    match r with
    | inl s' => True
    | inr r => w' = w ∧ r = if alive t w then OSAL_OK else OSAL_ERR_INVALID_PARAM
    end) w.
Proof.
  apply wlp_bind, wp_wlp. eapply wp_mono; [apply get_state_spec|]. intros [r s'] w' [-> Hr].
  destruct (alive t w); [|injection Hr as -> ->; by split].
  simpl in Hr. destruct Hr as (-> & Hc & Hwait).
  pose proof (states_law t w) as [Hs|Hs]%elem_of_cons.
  - rewrite (Hc Hs). apply wlp_bind, wlp_ret. simpl. apply wlp_bind, wlp_bind.
    eapply wlp_mono; [apply sleep_law|]. intros. by apply wlp_ret, wlp_ret.
  - destruct (Hwait Hs) as [-> | ->]; by apply wlp_ret.
Qed.
End lemmas.

(** ** A concrete kernel

    Thread 1, which may be alive, with its state; the clock of PikeosTimer's. *)
Module Sim.
Import PikeosTimer.Sim.

Inductive tstate : Type := current | stopped | ready | sleeping | receiving.

Record tasks : Type := mk_tasks { thread : option tstate; run : Z; clk : world }.

Definition code (st : tstate) : Z :=
  match st with current => 1 | stopped => 2 | ready => 3 | sleeping => 4 | receiving => 5 end.

#[global] Instance p4_time : P4Time tasks := {|
  p4_timeout := timeout;
  P4_NSEC := rel;
  P4_TIMEOUT_ABS := abs;
  P4_TIMEOUT_INFINITE := infinite;
  P4_time_bound := 2 ^ 64;
  p4_sleep to s :=
    match to with
    | infinite => NoReturn
    | _ => Ret P4_E_OK (mk_tasks (if thread s is Some current then None else thread s) (run s) (clk s))
    end;
  p4_get_time s := Ret (time (clk s)) s;
|}.

#[global] Instance task : P4Task tasks unit := {|
  P4EXT_THR_NUM_INVALID := -1; P4_THREAD_MYSELF := 0;
  P4_THREAD_STOPPED := 2; P4_THREAD_READY := 3; P4_THREAD_CURRENT := 1; P4_THREAD_SLEEPING := 4;
  P4_THREAD_WAIT_RX := 5; P4_THREAD_WAIT_RX_EV := 6; P4_THREAD_WAIT_TX := 7; P4_THREAD_WAIT_EV := 8;
  P4_THREAD_WAIT_INT := 9;
  p4ext_thr_create prio name args s := Ret (P4_E_OK, Some 1) (mk_tasks (Some ready) 1 (clk s));
  p4_thread_delete t s := Ret P4_E_OK (mk_tasks None (run s) (clk s));
  p4_thread_ex_priority t p s := Ret P4_E_OK s;
  p4_thread_get_priority t s := Ret (P4_E_OK, 1) s;
  p4_thread_stop t s := Ret P4_E_OK (mk_tasks (Some stopped) (run s) (clk s));
  p4_thread_resume t s := Ret P4_E_OK (mk_tasks (Some ready) (run s) (clk s));
  p4_thread_get_attr t s :=
    match thread s with
    | Some st => Ret (P4_E_OK, code st) s
    | None => Ret (P4_E_INVAL, 0) s
    end;
  p4_start_running s := Ret (run s) s;
  p4_set_running v s := Ret tt (mk_tasks (thread s) v (clk s));
  p4_run_handler f a s := Ret a s;
|}.

#[global] Instance laws : P4TaskLaws tasks unit.
Proof.
  refine {| alive := λ _ s, bool_decide (is_Some (thread s));
            thr_state := λ _ s, if thread s is Some st then code st else 1;
            p4_running := run |}.
  - by intros t [[st|] r w].
  - intros t [[[]|] r w]; simpl; unfold waiting_states; simpl; rewrite !elem_of_cons; tauto.
  - unfold waiting_states. simpl. rewrite !elem_of_cons, elem_of_nil. naive_solver.
  - by intros [].
  - done.
  - done.
  - done.
Defined.
End Sim.

(** ** Properties *)

(** (C37) [osal_task_join] on PikeOS does not wait for the task to end: if it
    returns at all, it returns [OSAL_OK] while the task is still there and
    [OSAL_ERR_INVALID_PARAM] when it has ended; and it returns at once, without
    waiting, when the task is not the one running on a processor, for instance
    sleeping or ready. *)
Theorem pikeos_task_join_inverted
    {W F} `{!P4Codes, !P4Time W, !P4Task W F, !P4TaskLaws W F} t fuel (w : W) :
  wlp (osal_task_join fuel (Some t)) (λ r w',
    r = if alive t w' then OSAL_OK else OSAL_ERR_INVALID_PARAM) w ∧
  (alive t w = true → thr_state t w ∈ waiting_states →
   osal_task_join (S fuel) (Some t) w = Ret OSAL_OK w).
Proof.
  split.
  - apply wlp_bind, wlp_ret. eapply wlp_cloop with (I := λ _ _, True); [|done].
    intros s w1 _. eapply wlp_mono; [apply join_round_spec|]. intros [s'|r] w2; [done|]. by intros [-> ->].
  - intros Ha Hst. unfold osal_task_join. rewrite (bind_run _ _ t w w) by done. simpl.
    pose proof (get_state_spec t None w) as Hs. apply wp_ret_inv in Hs as ([r s] & w' & Hrun & -> & Hr).
    rewrite Ha in Hr. destruct Hr as (Hok & _ & Hwait). simpl in Hok. subst r.
    unfold join_round. unfold mbind, C_bind. rewrite Hrun.
    destruct (Hwait Hst) as [Hx|Hx]; simpl in Hx; by subst s.
Qed.

Lemma pikeos_task_join_inverted_witness :
  osal_task_join 1 (Some 1) (Sim.mk_tasks (Some Sim.sleeping) 1 (PikeosTimer.Sim.mk_world 5 0)) =
  Ret OSAL_OK (Sim.mk_tasks (Some Sim.sleeping) 1 (PikeosTimer.Sim.mk_world 5 0)).
Proof.
  refine (proj2 (pikeos_task_join_inverted 1 0
    (Sim.mk_tasks (Some Sim.sleeping) 1 (PikeosTimer.Sim.mk_world 5 0))) _ _); [reflexivity|].
  unfold waiting_states. simpl. rewrite !elem_of_cons. tauto.
Defined.

(** When [osal_task_create] returns [OSAL_OK] the new thread has copied its
    start arguments and set [running]. *)
Theorem pikeos_task_create_waits
    {W F} `{!P4Codes, !P4Time W, !P4Task W F, !P4TaskLaws W F} hdl attr (handler : F) arg fuel (w : W) :
  wlp (osal_task_create fuel (Some hdl) attr handler arg)
    (λ r w', r.1 = OSAL_OK → p4_running w' ≠ 0) w.
Proof.
  apply wlp_bind, wlp_ret, wlp_bind, wp_wlp. eapply wp_mono; [apply p4_set_running_law|].
  intros [] w1 _. apply wlp_bind. eapply wlp_mono; [apply thr_create_law|]. intros [x tid] w2 _.
  apply wlp_bind. destruct (Z.eqb_spec x P4_E_OK) as [->|Hx].
  - simpl. eapply wlp_mono.
    + apply (wlp_cloop (λ _ _, True) (λ _ w', p4_running w' ≠ 0)); [|done].
      intros [] w3 _. apply wlp_bind, wp_wlp. eapply wp_mono; [apply p4_start_running_law|].
      intros r w4 Hr. destruct (Z.eqb_spec r 0) as [_|Hr0]; [|apply wlp_ret; congruence].
      apply wlp_bind, wlp_bind. eapply wlp_mono; [apply sleep_law|]. intros. by apply wlp_ret, wlp_ret.
    + intros [] w3 H3. by apply wlp_ret.
  - destruct (x =? P4_E_INVAL); by apply wlp_ret, wlp_ret.
Qed.
