(* ===== verification/TaskShared.v ===== *)
(** * Creating tasks: [osal_task_create] and the new thread, src/posix/task.c

    The creating thread keeps [start_args] on its stack; the new thread reads
    them, applies the attributes, announces itself in [start_args.running] and
    runs its handler. Both functions are programs over these accesses, and any
    number of threads create tasks, which create tasks, at the same time
    (Threads).

    PikeOS creates tasks in the same way, so that the memory, the specification
    and the lemmas are for both; what differs is the class [Port].

    The stack frame and the attributes are gone when [osal_task_create] returns,
    and an access to them is undefined from then on. Creating tasks is
    linearizable: the new task runs the handler and the argument that it was
    given, after all its settings and once, and nobody touches what is gone. *)

From S2P Require Import Prelude Osal Timer Programs Threads PosixTask PikeosTimer PikeosTask.
Open Scope list_scope.

(** ** The memory *)

(** What a thread does to itself: its settings, and its handler. *)
Inductive act : Type :=
  | Policy (v : Z)
  | Priority (v : Z)
  | Affinity (v : Z)
  | Name (bytes : list Z)
  | Run (handler arg : Z).

(** What [creator] has asked for. *)
Record task : Type := mk_task {
  creator : nat;
  task_handler : Z;
  task_arg : Z;
  task_attr : option osal_task_attr;
}.

(** A frame of [osal_task_create]: [start_args], with [*hdl] and what the
    pointer to the attributes leads to. *)
Record frame : Type := mk_frame { args : task; is_running : Z; tid : option nat }.

(** [frames]: the frames that are there, by address. [alive]: the threads; those
    with an address are created and have not begun. [log]: what the threads have
    done; [next]: the next address and thread; [stderr]: the messages. [tasks]
    is no variable of the program: what was asked for when the threads were
    created. *)
Record shared : Type := mk_shared {
  frames : gmap nat frame;
  alive : gmap nat (option nat);
  log : gmap nat (list act);
  next : nat;
  stderr : list (string * Z * Z);
  tasks : gmap nat task;
}.

Inductive event : Type :=
  | Enter (args : task)
  | PthreadCreate (p : nat)
  | P4ThrCreate (p : nat) (prio : Z) (named : bool)
  | ReadRunning (p : nat)
  | Sleep (nsec : Z)
  | Leave (p : nat)
  | ReadHandler (p : nat)
  | ReadArg (p : nat)
  | ReadAttr (p : nat)
  | ReadPolicy (p : nat)
  | ReadPriority (p : nat)
  | ReadAffinity (p : nat)
  | ReadName0 (p : nat)
  | SetName (p : nat)
  | Act (a : act)
  | Fprintf (what : string) (value ret : Z)
  | WriteRunning (p : nat) (v : Z).

Abbreviation prog := (Programs.prog event).

Definition log_of (r : shared) (t : nat) : list act := default [] (log r !! t).
Definition set_frames (r : shared) (fs : gmap nat frame) : shared :=
  mk_shared fs (alive r) (log r) (next r) (stderr r) (tasks r).
Definition add_log (r : shared) (t : nat) (a : act) : shared :=
  mk_shared (frames r) (alive r) (<[t := log_of r t ++ [a]]> (log r)) (next r) (stderr r) (tasks r).
Definition set_running (fr : frame) (v : Z) : frame := mk_frame (args fr) v (tid fr).

(** The new thread, with what it has been set to when it is created. *)
Definition new_thread (r : shared) (p : nat) (fr : frame) (l : list act) : shared :=
  let n := next r in
  mk_shared (<[p := mk_frame (args fr) (is_running fr) (Some n)]> (frames r)) (<[n := Some p]> (alive r))
    (<[n := l]> (log r)) (S n) (stderr r) (<[n := args fr]> (tasks r)).

(** The name PikeOS gives to a thread: that of the attributes, or a constant. *)
Definition name_of (k : task) (named : bool) : option (list Z) :=
  if named then attr ← task_attr k; Some (task_name attr) else Some default_name.

(** What the two systems differ in: what the creation of a thread answers when
    it succeeds, and the settings, in their order, that a thread has from its
    creation and that it makes itself. *)
Class Port := {
  thread_ok : Z;
  creation_settings : task → list act;
  own_settings : task → list act;
}.

(** [create_answer] and [setting_ret] are what the creation of a thread and the
    settings answer. *)
Section accesses.
Context `{!Port} (create_answer : nat → Z) (setting_ret : nat → act → Z).

Definition read_frame (p : nat) (f : frame → Z) (r : shared) : option (Z * shared) :=
  fr ← frames r !! p; Some (f fr, r).

Definition read_attr (p : nat) (f : osal_task_attr → Z) (r : shared) : option (Z * shared) :=
  fr ← frames r !! p; attr ← task_attr (args fr); Some (f attr, r).

Definition access (t : nat) (e : event) (r : shared) : option (Z * shared) :=
  match e with
  | Enter a =>
      Some (Z.of_nat (next r), mk_shared (<[next r := mk_frame a 0 None]> (frames r)) (alive r) (log r) (S (next r))
        (stderr r) (tasks r))
  | PthreadCreate p =>
      fr ← frames r !! p;
      Some (if create_answer (next r) =? thread_ok then (thread_ok, new_thread r p fr [])
            else (create_answer (next r), r))
  | P4ThrCreate p prio named =>
      fr ← frames r !! p; name ← name_of (args fr) named;
      Some (if create_answer (next r) =? thread_ok then (thread_ok, new_thread r p fr [Priority prio; Name name])
            else (create_answer (next r), r))
  | ReadRunning p => read_frame p is_running r
  | Sleep _ => Some (0, r)
  | Leave p =>
      fr ← frames r !! p;
      Some (if tid fr is Some n then Z.of_nat n else -1, set_frames r (delete p (frames r)))
  | ReadHandler p => read_frame p (λ fr, task_handler (args fr)) r
  | ReadArg p => read_frame p (λ fr, task_arg (args fr)) r
  | ReadAttr p => read_frame p (λ fr, if task_attr (args fr) is Some _ then 1 else 0) r
  | ReadPolicy p => read_attr p policy r
  | ReadPriority p => read_attr p priority r
  | ReadAffinity p => read_attr p affinity r
  | ReadName0 p => read_attr p (λ attr, default 0 (head (task_name attr))) r
  | SetName p =>
      fr ← frames r !! p; attr ← task_attr (args fr);
      Some (0, add_log r t (Name (task_name attr)))
  | Act a => Some (setting_ret t a, add_log r t a)
  | Fprintf what v ret =>
      Some (0, mk_shared (frames r) (alive r) (log r) (next r) (stderr r ++ [(what, v, ret)]) (tasks r))
  | WriteRunning p v =>
      fr ← frames r !! p; Some (0, set_frames r (<[p := set_running fr v]> (frames r)))
  end.
End accesses.

Definition enabled (t : nat) (e : event) (r : shared) : bool := true.

(** ** The functions *)
Inductive answer : Type :=
  | Created (ret : Z) (tid : option nat)
  | Ran (handler arg : Z).

Module Shared.
Section programs.
Context `{!Config}.

(** One setting of the wrapper: the attribute is read for the test, for the
    call, and again to report a failure. *)
Definition setting (read : event) (wanted : Z → bool) (set : Z → act) (what : string) : prog unit :=
  v ← emit read;
  if wanted v then
    v ← emit read;
    local_ret ← emit (Act (set v));
    if negb (local_ret =? OSAL_OK) then
      v ← emit read; _ ← emit (Fprintf what v local_ret); mret tt
    else mret tt
  else mret tt.

Definition settings (p : nat) : prog unit :=
  setting (ReadPolicy p) (λ v, negb (v =? 0)) Policy "policy";;
  setting (ReadPriority p) (λ v, negb (v =? 0)) Priority "priority";;
  setting (ReadAffinity p) (λ v, 0 <? v) Affinity "affinity";;
  (if LIBOSAL_HAVE_SYS_PRCTL_H then
     c ← emit (ReadName0 p); if negb (c =? 0) then _ ← emit (SetName p); mret tt else mret tt
   else mret tt).

(** It ends where the handler begins. *)
Definition posix_task_wrapper (p : nat) : prog answer :=
  user_handler ← emit (ReadHandler p);
  user_arg ← emit (ReadArg p);
  user_attr ← emit (ReadAttr p);
  (if negb (user_attr =? 0) then settings p else mret tt);;
  _ ← emit (WriteRunning p 1);
  _ ← emit (Act (Run user_handler user_arg));
  mret (Ran user_handler user_arg).

Definition create_ret (local_ret : Z) : Z :=
  if local_ret =? 0 then OSAL_OK
  else if local_ret =? EAGAIN then OSAL_ERR_SYSTEM_LIMIT_REACHED
  else if local_ret =? EPERM then OSAL_ERR_PERMISSION_DENIED
  else if local_ret =? EINVAL then OSAL_ERR_INVALID_PARAM
  else OSAL_ERR_OPERATION_FAILED.

(** The frame [p] begins and ends with the call; what is in [*hdl] afterwards is
    the second part of the answer. *)
Definition osal_task_create (fuel : nat) (start_args : task) : prog answer :=
  p ← emit (Enter start_args);
  let p := Z.to_nat p in
  local_ret ← emit (PthreadCreate p);
  let ret := create_ret local_ret in
  (if ret =? OSAL_OK then
     ploop fuel (
       running ← emit (ReadRunning p);
       if running =? 0 then _ ← emit (Sleep 1000000); mret None else mret (Some tt))
   else mret tt);;
  tid ← emit (Leave p);
  mret (Created ret (if tid <? 0 then None else Some (Z.to_nat tid))).
End programs.
End Shared.

Inductive op : Type :=
  | Create (fuel : nat) (handler arg : Z) (attr : option osal_task_attr)
  | Wrapper (p : nat).

(** The wrapper is what a new thread begins with, at the address it was given;
    then it runs its handler, which may create tasks, as the threads that are
    there already. *)
Definition task_start (t : nat) (c : op) (r : shared) : option shared :=
  match c, alive r !! t with
  | Create _ _ _ _, Some None => Some r
  | Wrapper p, Some (Some p') =>
      if Nat.eqb p p' then
        Some (mk_shared (frames r) (<[t := None]> (alive r)) (log r) (next r) (stderr r) (tasks r))
      else None
  | _, _ => None
  end.

(** ** What the calls promise *)

(** The settings that attributes ask for. *)
Definition posix_settings `{!Config} (k : task) : list act :=
  match task_attr k with
  | None => []
  | Some attr =>
      (if negb (policy attr =? 0) then [Policy (policy attr)] else []) ++
      (if negb (priority attr =? 0) then [Priority (priority attr)] else []) ++
      (if 0 <? affinity attr then [Affinity (affinity attr)] else []) ++
      (if LIBOSAL_HAVE_SYS_PRCTL_H && negb (default 0 (head (task_name attr)) =? 0) then [Name (task_name attr)] else [])
  end.

#[export] Instance posix_port `{!Config} : Port :=
  {| thread_ok := 0; creation_settings _ := []; own_settings := posix_settings |}.

(** The settings of a task, and all that it does. *)
Definition settings_of `{!Port} (k : task) : list act := creation_settings k ++ own_settings k.
Definition acts_of `{!Port} (k : task) : list act := settings_of k ++ [Run (task_handler k) (task_arg k)].

(** The abstract state is the tasks that there are. *)
Definition task_spec (t : nat) (c : op) (v : gmap nat task) (b : answer) (v' : gmap nat task) : Prop :=
  match c, b with
  | Create _ h a attr, Created ret tid =>
      if ret =? OSAL_OK then ∃ n, tid = Some n ∧ v !! n = None ∧ v' = <[n := mk_task t h a attr]> v
      else tid = None ∧ v' = v
  | Wrapper _, Ran h a => v' = v ∧ ∃ c attr, v !! t = Some (mk_task c h a attr)
  | _, _ => False
  end.

(** ** What holds at every access *)
Section create.
Context `{!Port}.
Implicit Types (t p n : nat) (r : shared) (fr : frame) (k : task).

(** A created thread that has not all its settings still has the frame. *)
Definition task_ok r t k : Prop :=
  log_of r t `prefix_of` acts_of k ∧
  (settings_of k `prefix_of` log_of r t ∨
   ∃ p fr, frames r !! p = Some fr ∧ args fr = k ∧ is_running fr = 0 ∧ tid fr = Some t).

Record sound r : Prop := {
  sound_frames p fr : frames r !! p = Some fr → (p < next r)%nat;
  sound_alive t x : alive r !! t = Some x → (t < next r)%nat;
  sound_tid p fr t : frames r !! p = Some fr → tid fr = Some t → (t < next r)%nat ∧ tasks r !! t = Some (args fr);
  sound_log t : (next r ≤ t)%nat → log_of r t = [];
  sound_new t p : alive r !! t = Some (Some p) →
    ∃ fr, frames r !! p = Some fr ∧ is_running fr = 0 ∧ tid fr = Some t ∧ log_of r t = creation_settings (args fr);
  sound_tasks t k : tasks r !! t = Some k → (t < next r)%nat ∧ task_ok r t k;
}.

(** What thread [t] relies on: its own frame, but for [running], the frame of
    its creator until it is running itself, and what is its own. *)
Record rely_task t r r' : Prop := {
  rely_own p fr : frames r !! p = Some fr → creator (args fr) = t →
    ∃ v, frames r' !! p = Some (set_running fr v) ∧ (v = is_running fr ∨ tid fr ≠ None ∧ v ≠ 0);
  rely_owned p fr : frames r' !! p = Some fr → creator (args fr) = t →
    ∃ fr0, frames r !! p = Some fr0 ∧ creator (args fr0) = t;
  rely_frame p fr : frames r !! p = Some fr → tid fr = Some t → is_running fr = 0 → frames r' !! p = Some fr;
  rely_alive x : alive r !! t = Some x → alive r' !! t = Some x;
  rely_log x : alive r !! t = Some x → log_of r' t = log_of r t;
  rely_tasks k : tasks r !! t = Some k → tasks r' !! t = Some k;
}.

Lemma set_running_id fr : set_running fr (is_running fr) = fr.
Proof. by destruct fr. Qed.

#[export] Instance rely_task_preorder t : PreOrder (rely_task t).
Proof.
  split.
  - intros r. split; try done; intros p fr Hp Ho; [|by exists fr].
    exists (is_running fr). rewrite set_running_id. auto.
  - intros r1 r2 r3 H1 H2. split.
    + intros p fr Hp Ho. destruct (rely_own _ _ _ H1 _ _ Hp Ho) as (v & Hp2 & Hv).
      destruct (rely_own _ _ _ H2 _ _ Hp2 Ho) as (v' & Hp3 & Hv'). exists v'. split; [done|]. simpl in *.
      destruct Hv' as [-> | Hv']; [done|by right].
    + intros p fr Hp Ho. destruct (rely_owned _ _ _ H2 _ _ Hp Ho) as (fr2 & Hp2 & Ho2).
      by eapply rely_owned.
    + intros p fr Hp Ht Hr. apply (rely_frame _ _ _ H2); [|done..]. by apply (rely_frame _ _ _ H1).
    + intros x Hx. by apply (rely_alive _ _ _ H2), (rely_alive _ _ _ H1).
    + intros x Hx. rewrite (rely_log _ _ _ H2 x) by (by apply (rely_alive _ _ _ H1)). by apply (rely_log _ _ _ H1 x).
    + intros k Hk. by apply (rely_tasks _ _ _ H2), (rely_tasks _ _ _ H1).
Qed.

Definition rep_tasks r (v : gmap nat task) : Prop := tasks r = v ∧ sound r.

(** Thread [t] is not in [osal_task_create]. *)
Definition ready t r : Prop := ∀ p fr, frames r !! p = Some fr → creator (args fr) ≠ t.

Lemma idle_stable t r r' : ready t r → rely_task t r r' → ready t r'.
Proof. intros Hr Hrl p fr Hp Ho. destruct (rely_owned _ _ _ Hrl _ _ Hp Ho) as (fr0 & Hp0 & Ho0). by eapply Hr. Qed.

(** What a thread does to its own log. *)
Lemma log_of_add r t a t' : log_of (add_log r t a) t' = if decide (t' = t) then log_of r t ++ [a] else log_of r t'.
Proof.
  unfold log_of at 1. simpl. case_decide as Heq; [subst; by rewrite lookup_insert_eq|by rewrite lookup_insert_ne].
Qed.

Lemma add_log_sound r t a k :
  sound r → alive r !! t = Some None → tasks r !! t = Some k → log_of r t ++ [a] `prefix_of` acts_of k →
  sound (add_log r t a).
Proof.
  intros Hs Ha Hk Hpre. split; simpl; try apply Hs.
  - intros t' Ht'. rewrite log_of_add. case_decide as Heq; [|by apply Hs].
    subst. apply (sound_alive _ Hs) in Ha. lia.
  - intros t' p Hp. rewrite log_of_add. case_decide as Heq; [congruence|]. by apply Hs.
  - intros t' k' Hk'. destruct (sound_tasks _ Hs _ _ Hk') as (Hn & Hl & Hd). split; [done|].
    unfold task_ok. rewrite log_of_add. case_decide as Heq; [|done]. subst t'. rewrite Hk in Hk'. injection Hk' as <-.
    split; [done|]. destruct Hd as [Hd|Hd]; [left; by apply prefix_app_r|by right].
Qed.

Lemma add_log_rely r t a t' : t' ≠ t → rely_task t' r (add_log r t a).
Proof.
  intros Hne. split; simpl; try done.
  - intros p fr Hp Ho. exists (is_running fr). rewrite set_running_id. auto.
  - intros p fr Hp Ho. by exists fr.
  - intros x _. rewrite log_of_add. by rewrite decide_False.
Qed.

(** The creator's frame begins and ends. *)
Definition enter r k : shared :=
  mk_shared (<[next r := mk_frame k 0 None]> (frames r)) (alive r) (log r) (S (next r)) (stderr r) (tasks r).

Lemma next_not_frame r p fr : sound r → frames r !! p = Some fr → next r ≠ p.
Proof. intros Hs Hp <-. apply (sound_frames _ Hs) in Hp. lia. Qed.

Lemma enter_sound r k : sound r → sound (enter r k).
Proof.
  intros Hs. split; simpl.
  - intros p fr [[<- _]|[_ Hp]]%lookup_insert_Some; [lia|]. apply (sound_frames _ Hs) in Hp. lia.
  - intros t x Ht. apply (sound_alive _ Hs) in Ht. lia.
  - intros p fr t [[_ <-]|[_ Hp]]%lookup_insert_Some Ht; [done|].
    destruct (sound_tid _ Hs _ _ _ Hp Ht). split; [lia|done].
  - intros t Ht. apply (sound_log _ Hs). lia.
  - intros t p Ht. destruct (sound_new _ Hs _ _ Ht) as (fr & Hp & Hfr). exists fr. split; [|done].
    rewrite lookup_insert_ne; [done|by eapply next_not_frame].
  - intros t k' Hk'. destruct (sound_tasks _ Hs _ _ Hk') as (Hn & Hl & Hd). split; [lia|]. split; [done|].
    destruct Hd as [Hd|(p & fr & Hp & Hfr)]; [by left|right]. exists p, fr. split; [|done]. simpl.
    rewrite lookup_insert_ne; [done|by eapply next_not_frame].
Qed.

Lemma enter_rely r k t' : sound r → t' ≠ creator k → rely_task t' r (enter r k).
Proof.
  intros Hs Hne. split; simpl; try done.
  - intros p fr Hp Ho. exists (is_running fr). rewrite set_running_id, lookup_insert_ne by (by eapply next_not_frame).
    auto.
  - intros p fr [[_ <-]|[_ Hp]]%lookup_insert_Some Ho; [done|by exists fr].
  - intros p fr Hp _ _. rewrite lookup_insert_ne; [done|by eapply next_not_frame].
Qed.

(** It ends when the new thread is running, or was not created. *)
Definition leave r p : shared := set_frames r (delete p (frames r)).

Lemma leave_sound r p fr :
  sound r → frames r !! p = Some fr → is_running fr ≠ 0 ∨ tid fr = None → sound (leave r p).
Proof.
  intros Hs Hp Hfr. split; simpl; try apply Hs.
  - intros p' fr' [_ Hp']%lookup_delete_Some. by eapply sound_frames.
  - intros p' fr' t [_ Hp']%lookup_delete_Some. by eapply sound_tid.
  - intros t p' Ht. destruct (sound_new _ Hs _ _ Ht) as (fr' & Hp' & Hr' & Ht' & Hl). exists fr'. split; [|done].
    rewrite lookup_delete_ne; [done|]. intros ->. rewrite Hp in Hp'. injection Hp' as <-. destruct Hfr; congruence.
  - intros t k' Hk'. destruct (sound_tasks _ Hs _ _ Hk') as (Hn & Hl & Hd). split; [done|]. split; [done|].
    destruct Hd as [Hd|(p' & fr' & Hp' & Hk & Hr' & Ht')]; [by left|right]. exists p', fr'. split; [|done]. simpl.
    rewrite lookup_delete_ne; [done|]. intros ->. rewrite Hp in Hp'. injection Hp' as <-. destruct Hfr; congruence.
Qed.

Lemma leave_rely r p fr t' :
  frames r !! p = Some fr → is_running fr ≠ 0 ∨ tid fr = None → t' ≠ creator (args fr) → rely_task t' r (leave r p).
Proof.
  intros Hp Hfr Hne. split; simpl; try done.
  - intros p' fr' Hp' Ho. exists (is_running fr'). rewrite set_running_id, lookup_delete_ne by congruence. auto.
  - intros p' fr' [_ Hp']%lookup_delete_Some Ho. by exists fr'.
  - intros p' fr' Hp' Ht' Hr'. rewrite lookup_delete_ne; [done|]. intros ->.
    rewrite Hp in Hp'. injection Hp' as <-. destruct Hfr; congruence.
Qed.

(** The new thread is there. *)
Definition spawn r p k : shared := new_thread r p (mk_frame k 0 None) (creation_settings k).

Lemma log_of_spawn r p k t : log_of (spawn r p k) t = if decide (t = next r) then creation_settings k else log_of r t.
Proof. unfold log_of at 1. simpl. case_decide as Heq; [subst; by rewrite lookup_insert_eq|by rewrite lookup_insert_ne]. Qed.

Lemma spawn_sound r p k : sound r → frames r !! p = Some (mk_frame k 0 None) → sound (spawn r p k).
Proof.
  intros Hs Hp. split.
  - simpl. intros p' fr' [[<- _]|[_ Hp']]%lookup_insert_Some; [apply (sound_frames _ Hs) in Hp; lia|].
    apply (sound_frames _ Hs) in Hp'. lia.
  - simpl. intros t x [[<- _]|[_ Ht]]%lookup_insert_Some; [lia|]. apply (sound_alive _ Hs) in Ht. lia.
  - simpl. intros p' fr' t [[_ <-]|[_ Hp']]%lookup_insert_Some Ht.
    + injection Ht as <-. split; [lia|apply lookup_insert_eq].
    + destruct (sound_tid _ Hs _ _ _ Hp' Ht). split; [lia|]. rewrite lookup_insert_ne; [done|lia].
  - simpl. intros t Ht. rewrite log_of_spawn, decide_False by lia. apply (sound_log _ Hs). lia.
  - intros t p'. cbn [spawn new_thread alive]. intros [[<- [= <-]]|[Hne Ht]]%lookup_insert_Some.
    + exists (mk_frame k 0 (Some (next r))). rewrite log_of_spawn, decide_True by done. simpl.
      by rewrite lookup_insert_eq.
    + destruct (sound_new _ Hs _ _ Ht) as (fr & Hp' & Hr & Htid & Hl). exists fr.
      rewrite log_of_spawn, decide_False by done. split; [|done]. simpl.
      rewrite lookup_insert_ne; [done|]. intros <-. rewrite Hp in Hp'. by injection Hp' as <-.
  - intros t k'. cbn [spawn new_thread tasks]. intros [[<- <-]|[Hne Hk']]%lookup_insert_Some; unfold task_ok; rewrite log_of_spawn.
    + simpl. split; [lia|]. rewrite decide_True by done. split; [unfold acts_of, settings_of; auto using prefix_app_r|].
      right. exists p. eexists. split; [apply lookup_insert_eq|done].
    + destruct (sound_tasks _ Hs _ _ Hk') as (Hn & Hl & Hd). rewrite decide_False by done. simpl.
      split; [lia|]. split; [done|].
      destruct Hd as [Hd|(p' & fr & Hp' & Hk & Hr & Ht)]; [by left|right]. exists p', fr. split; [|done].
      rewrite lookup_insert_ne; [done|]. intros <-. rewrite Hp in Hp'. by injection Hp' as <-.
Qed.

Lemma spawn_rely r p k t' :
  sound r → frames r !! p = Some (mk_frame k 0 None) → t' ≠ creator k → rely_task t' r (spawn r p k).
Proof.
  intros Hs Hp Hne. split; simpl; try done.
  - intros p' fr Hp' Ho. exists (is_running fr). rewrite set_running_id, lookup_insert_ne; [auto|].
    intros <-. rewrite Hp in Hp'. by injection Hp' as <-.
  - intros p' fr [[_ <-]|[_ Hp']]%lookup_insert_Some Ho; [done|by exists fr].
  - intros p' fr Hp' Ht' Hr'. rewrite lookup_insert_ne; [done|]. intros <-. rewrite Hp in Hp'. by injection Hp' as <-.
  - intros x Hx. rewrite lookup_insert_ne; [done|]. apply (sound_alive _ Hs) in Hx. lia.
  - intros x Hx. apply (sound_alive _ Hs) in Hx. rewrite log_of_spawn. rewrite decide_False by lia. done.
  - intros k' Hk'. rewrite lookup_insert_ne; [done|]. apply (sound_tasks _ Hs) in Hk' as []. lia.
Qed.

(** A message. *)
Definition complain r m : shared := mk_shared (frames r) (alive r) (log r) (next r) (stderr r ++ [m]) (tasks r).

Lemma complain_sound r m : sound r → sound (complain r m).
Proof. intros Hs. split; apply Hs. Qed.

Lemma complain_rely r m t : rely_task t r (complain r m).
Proof.
  split; try done; intros p fr Hp Ho; [|by exists fr]. exists (is_running fr). rewrite set_running_id. auto.
Qed.

(** The new thread announces itself, when it has all its settings. *)
Definition announce r p fr : shared := set_frames r (<[p := set_running fr 1]> (frames r)).

Lemma announce_sound r p fr t :
  sound r → frames r !! p = Some fr → tid fr = Some t → alive r !! t = Some None →
  settings_of (args fr) `prefix_of` log_of r t → sound (announce r p fr).
Proof.
  intros Hs Hp Ht Ha Hl. split; simpl; try apply Hs.
  - intros p' fr' [[<- _]|[_ Hp']]%lookup_insert_Some; by eapply sound_frames.
  - intros p' fr' t' [[<- <-]|[_ Hp']]%lookup_insert_Some Ht'; [|by eapply sound_tid].
    by apply (sound_tid _ Hs _ _ _ Hp).
  - intros t' p' Ht'. destruct (sound_new _ Hs _ _ Ht') as (fr' & Hp' & Hr' & Htid & Hl'). exists fr'. split; [|done].
    rewrite lookup_insert_ne; [done|]. intros <-. congruence.
  - intros t' k' Hk'. destruct (sound_tasks _ Hs _ _ Hk') as (Hn & Hl' & Hd). split; [done|]. split; [done|].
    destruct Hd as [Hd|(p' & fr' & Hp' & Hk & Hr' & Ht')]; [by left|].
    destruct (decide (p = p')) as [<-|Hne].
    + left. rewrite Hp in Hp'. injection Hp' as <-. by simplify_eq.
    + right. exists p', fr'. split; [|done]. simpl. by rewrite lookup_insert_ne.
Qed.

Lemma announce_rely r p fr t t' :
  frames r !! p = Some fr → tid fr = Some t → t' ≠ t → rely_task t' r (announce r p fr).
Proof.
  intros Hp Ht Hne. split; simpl; try done.
  - intros p' fr' Hp' Ho. destruct (decide (p = p')) as [<-|Hpp].
    + rewrite Hp in Hp'. injection Hp' as <-. exists 1. rewrite lookup_insert_eq. split; [done|]. right. by rewrite Ht.
    + exists (is_running fr'). rewrite set_running_id, lookup_insert_ne by done. auto.
  - intros p' fr' [[<- <-]|[_ Hp']]%lookup_insert_Some Ho; [by exists fr|by exists fr'].
  - intros p' fr' Hp' Ht' _. rewrite lookup_insert_ne; [done|]. congruence.
Qed.
End create.

(** ** The functions, each by itself *)
Section serve.
Context `{!Port} (create_answer : nat → Z) (setting_ret : nat → act → Z) (v0 : gmap nat task).
Implicit Types (t p n : nat) (r : shared) (fr : frame) (k : task).
Implicit Types (o : object (S := gmap nat task) (C := op) (B := answer)).

Abbreviation acc := (access create_answer setting_ret).
Abbreviation serves t := (safe (acc t) (enabled t) (obj_inv task_spec v0 rep_tasks)
  (obj_rely rely_task t) (guar past (obj_rely rely_task) t)).

Definition stable t (K : shared → Prop) : Prop := ∀ r r', K r → rely_task t r r' → K r'.

(** An access that creates no task. *)
Lemma serve_step {A} (K : shared → Prop) (K' : Z → shared → Prop) (Φ : A → shared → object → Prop) t st e f r o :
  stable t K → K r → pending o !! t = Some st →
  (∀ r, K r → sound r → ∃ a r', acc t e r = Some (a, r') ∧ sound r' ∧ tasks r' = tasks r ∧
     (∀ t', t' ≠ t → rely_task t' r r') ∧ K' a r') →
  (∀ a r o, K' a r → pending o !! t = Some st → serves t Φ (f a) r o) →
  serves t Φ (emit e ≫= f) r o.
Proof.
  intros Hst HK Hp He Hf.
  apply (serve_access task_spec _ _ v0 rep_tasks rely_task K (λ a st' r, st' = st ∧ K' a r) _ t st); [done..| |].
  - intros r1 v HK1 [Hv Hs] _. destruct (He r1 HK1 Hs) as (a & r2 & Ha & Hs2 & Ht & Hr & HK2).
    exists a, r2, st, v. split; [done|]. split; [by split; [rewrite Ht|]|]. split; [done|]. split; [by left|done].
  - intros a st' r2 o2 [-> HK2]. by apply Hf.
Qed.

(** A reading of what does not change. *)
Lemma serve_read {A} (K : shared → Prop) (Q : Z → Prop) (Φ : A → shared → object → Prop) t st e f r o :
  stable t K → K r → pending o !! t = Some st →
  (∀ r, K r → ∃ a, acc t e r = Some (a, r) ∧ Q a) →
  (∀ a r o, Q a → K r → pending o !! t = Some st → serves t Φ (f a) r o) →
  serves t Φ (emit e ≫= f) r o.
Proof.
  intros Hst HK Hp He Hf. eapply (serve_step K (λ a r, Q a ∧ K r)); [done..| |].
  - intros r1 HK1 Hs. destruct (He r1 HK1) as (a & Ha & HQ). exists a, r1. split_and!; [done..| |done]. by intros.
  - intros a r1 o1 [HQ HK1]. by apply Hf.
Qed.

(** *** The new thread

    It has done [l] and still has the frame, or has announced itself. *)
Definition wrapping t p fr (l : list act) r : Prop :=
  frames r !! p = Some fr ∧ tid fr = Some t ∧ is_running fr = 0 ∧ alive r !! t = Some None ∧ log_of r t = l ∧ ready t r.

Definition announced t k r : Prop :=
  alive r !! t = Some None ∧ log_of r t = settings_of k ∧ tasks r !! t = Some k ∧ ready t r.

Lemma wrapping_stable t p fr l : stable t (wrapping t p fr l).
Proof.
  intros r r' (Hp & Ht & Hr & Ha & Hl & Hrd) Hrl. split_and!; [by apply (rely_frame _ _ _ Hrl)|done..| | |].
  - by apply (rely_alive _ _ _ Hrl).
  - by rewrite (rely_log _ _ _ Hrl None).
  - by eapply idle_stable.
Qed.

Lemma announced_stable t k : stable t (announced t k).
Proof.
  intros r r' (Ha & Hl & Hk & Hrd) Hrl.
  split_and!; [by apply (rely_alive _ _ _ Hrl)| |by apply (rely_tasks _ _ _ Hrl)|by eapply idle_stable].
  by rewrite (rely_log _ _ _ Hrl None).
Qed.

Lemma wrapping_act t p fr l r a :
  wrapping t p fr l r → sound r → l ++ [a] `prefix_of` settings_of (args fr) →
  sound (add_log r t a) ∧ (∀ t', t' ≠ t → rely_task t' r (add_log r t a)) ∧ wrapping t p fr (l ++ [a]) (add_log r t a).
Proof.
  intros (Hp & Ht & Hr & Ha & Hl & Hrd) Hs Hpre. split; [|split].
  - apply add_log_sound with (k := args fr); [done..|by apply (sound_tid _ Hs _ _ _ Hp)|].
    rewrite Hl. by apply prefix_app_r.
  - intros t' Hne. by apply add_log_rely.
  - split_and!; try done. rewrite log_of_add, decide_True by done. by rewrite Hl.
Qed.

Section wrapper.
Context (t p : nat) (fr : frame) (st : status (C := op) (B := answer)).

Definition at_log (l : list act) : unit → shared → object → Prop :=
  λ _ r o, wrapping t p fr l r ∧ pending o !! t = Some st.

Lemma setting_serves attr l read (wanted : Z → bool) (set : Z → act) what (g : osal_task_attr → Z) r o :
  (∀ r, frames r !! p = Some fr → acc t read r = Some (g attr, r)) →
  l ++ (if wanted (g attr) then [set (g attr)] else []) `prefix_of` settings_of (args fr) →
  at_log l tt r o →
  serves t (at_log (l ++ if wanted (g attr) then [set (g attr)] else [])) (Shared.setting read wanted set what) r o.
Proof.
  intros Hread Hpre [Hw Hst]. unfold Shared.setting.
  assert (∀ l r, wrapping t p fr l r → ∃ a, acc t read r = Some (a, r) ∧ a = g attr) as Hr.
  { intros l1 r1 Hw1. exists (g attr). split; [|done]. apply Hread, Hw1. }
  apply (serve_read (wrapping t p fr l) (λ v, v = g attr) _ _ st); [apply wrapping_stable|done|done|by eauto|].
  clear dependent r o. intros v r o -> Hw Hst. destruct (wanted (g attr)); [|by rewrite app_nil_r].
  apply (serve_read (wrapping t p fr l) (λ v, v = g attr) _ _ st); [apply wrapping_stable|done|done|by eauto|].
  clear dependent r o. intros v r o -> Hw Hst.
  apply (serve_step (wrapping t p fr l) (λ _, wrapping t p fr (l ++ [set (g attr)])) _ _ st);
    [apply wrapping_stable|done..| |].
  { intros r1 Hw1 Hs. destruct (wrapping_act _ _ _ _ _ (set (g attr)) Hw1 Hs Hpre) as (Hs2 & Hrl & Hw2).
    by exists (setting_ret t (set (g attr))), (add_log r1 t (set (g attr))). }
  clear dependent r o. intros ret r o Hw Hst. destruct (negb _); [|done].
  apply (serve_read (wrapping t p fr (l ++ [set (g attr)])) (λ v, v = g attr) _ _ st);
    [apply wrapping_stable|done|done|by eauto|].
  clear dependent r o. intros v r o -> Hw Hst.
  eapply (serve_step _ (λ _, wrapping t p fr (l ++ [set (g attr)])) _ _ st); [apply wrapping_stable|done|done| |done].
  intros r1 Hw1 Hs. exists 0, (complain r1 (what, g attr, ret)). split_and!; [done|by apply complain_sound|done| |done].
  intros t' _. apply complain_rely.
Qed.

Lemma at_log_bind {B} l (m : prog unit) (f : unit → prog B) Φ r o :
  serves t (at_log l) m r o → (∀ r o, at_log l tt r o → serves t Φ (f tt) r o) → serves t Φ (m ≫= f) r o.
Proof. intros Hm Hf. apply safe_bind. eapply safe_mono; [exact Hm|]. intros []. apply Hf. Qed.

End wrapper.

(** The call is served when the thread announces itself, with all its settings;
    its handler is then what comes next. *)
Lemma announce_serves t p fr r o :
  wrapping t p fr (settings_of (args fr)) r → pending o !! t = Some (Waiting (Wrapper p)) →
  serves t (obj_finished ready t)
    (_ ← emit (WriteRunning p 1);
     _ ← emit (Act (Run (task_handler (args fr)) (task_arg (args fr))));
     mret (Ran (task_handler (args fr)) (task_arg (args fr)))) r o.
Proof.
  intros Hw Hst.
  apply (serve_access task_spec _ _ v0 rep_tasks rely_task (wrapping t p fr (settings_of (args fr)))
    (λ _ st r, st = Answered (Ran (task_handler (args fr)) (task_arg (args fr))) ∧ announced t (args fr) r)
    _ t (Waiting (Wrapper p))); [apply wrapping_stable|done..| |].
  { intros r1 v (Hp & Ht & Hr & Ha & Hl & Hrd) [Hv Hs] _. destruct (sound_tid _ Hs _ _ _ Hp Ht) as [_ Hk].
    exists 0, (announce r1 p fr), (Answered (Ran (task_handler (args fr)) (task_arg (args fr)))), v.
    assert (acc t (WriteRunning p 1) r1 = Some (0, announce r1 p fr)) as Hacc by (simpl; by rewrite Hp).
    assert (ready t (announce r1 p fr)) as Hrd'.
    { intros p' fr'. simpl. intros [[<- <-]|[_ Hp']]%lookup_insert_Some; [exact (Hrd p fr Hp)|by eapply Hrd]. }
    split; [exact Hacc|]. split; [split; [done|]|]; [|split; [by intros; eapply announce_rely|split]]; [| |done].
    - eapply announce_sound; [done..|by rewrite Hl].
    - right. do 2 eexists. split; [done|]. split; [done|]. split; [done|]. rewrite <- Hv, Hk.
      by destruct (args fr); do 2 eexists. }
  clear dependent r o. intros a st r o [-> Hw] Hst.
  eapply (serve_step _ (λ _, ready t) _ _ (Answered _)); [apply announced_stable|exact Hw|exact Hst| |by intros].
  intros r1 (Ha & Hl & Hk & Hrd) Hs. do 2 eexists. split; [done|].
  split; [|split; [done|split; [|exact Hrd]]]; [|intros t' Hne; by apply add_log_rely].
  eapply add_log_sound; [done..|]. by rewrite Hl.
Qed.

(** The handler and the argument are read before. *)
Lemma wrapper_reads_serves {A} t p fr l (f : Z → Z → prog A) Φ r o :
  at_log t p fr (Waiting (Wrapper p)) l tt r o →
  (∀ r o, at_log t p fr (Waiting (Wrapper p)) l tt r o →
     serves t Φ (f (task_handler (args fr)) (task_arg (args fr))) r o) →
  serves t Φ (h ← emit (ReadHandler p); a ← emit (ReadArg p); f h a) r o.
Proof.
  intros [Hw Hst] Hf.
  assert (∀ (g : frame → Z) r, wrapping t p fr l r → ∃ a, read_frame p g r = Some (a, r) ∧ a = g fr) as Hread.
  { intros g r1 Hw1. exists (g fr). split; [|done]. unfold read_frame. destruct Hw1 as (Hp & _). by rewrite Hp. }
  eapply (serve_read _ _ _ _ (Waiting (Wrapper p))); [apply wrapping_stable|exact Hw|exact Hst|apply Hread|].
  clear dependent r o. intros h r o -> Hw Hst.
  eapply (serve_read _ _ _ _ (Waiting (Wrapper p))); [apply wrapping_stable|exact Hw|exact Hst|apply Hread|].
  clear dependent r o. intros a r o -> Hw Hst. by apply Hf.
Qed.

(** *** The creating thread

    Its frame is at [p], with [P] of its member [running]. *)
Definition calling k p (x : option nat) (P : Z → Prop) r : Prop :=
  (∃ v, frames r !! p = Some (mk_frame k v x) ∧ P v) ∧
  ∀ p' fr, frames r !! p' = Some fr → creator (args fr) = creator k → p' = p.

Lemma calling_stable k p x (P : Z → Prop) :
  (x ≠ None → ∀ v, v ≠ 0 → P v) → stable (creator k) (calling k p x P).
Proof.
  intros HP r r' [(v & Hp & Hv) Hon] Hrl. split.
  - destruct (rely_own _ _ _ Hrl _ _ Hp eq_refl) as (v' & Hp' & [-> | [Hx Hv']]); simpl in *; [by exists v|].
    exists v'. split; [done|]. by apply HP.
  - intros p' fr Hp' Ho. destruct (rely_owned _ _ _ Hrl _ _ Hp' Ho) as (fr0 & Hp0 & Ho0). by eapply Hon.
Qed.

Lemma leave_serves k p x (P : Z → Prop) ret r o :
  (x ≠ None → ∀ v, v ≠ 0 ↔ P v) → calling k p x P r →
  pending o !! creator k = Some (Answered (Created ret x)) →
  serves (creator k) (obj_finished ready (creator k))
    (n ← emit (Leave p); mret (Created ret (if n <? 0 then None else Some (Z.to_nat n)))) r o.
Proof.
  intros HP Hc Hst.
  apply (serve_step (calling k p x P) (λ a r, a = (if x is Some n then Z.of_nat n else -1) ∧ ready (creator k) r)
    _ _ (Answered (Created ret x))); [|done..| |].
  { apply calling_stable. intros Hx v Hv. by apply HP. }
  - intros r1 [(v & Hp & Hv) Hon] Hs. do 2 eexists. split; [simpl; by rewrite Hp|].
    assert (is_running (mk_frame k v x) ≠ 0 ∨ tid (mk_frame k v x) = None) as Hfr.
    { simpl. destruct x; [|by right]. left. by apply (HP ltac:(done)). }
    split; [by eapply leave_sound|]. split; [done|]. split; [intros t' Hne; by eapply leave_rely|]. split; [done|].
    intros p' fr. simpl. intros [Hne Hp']%lookup_delete_Some Ho. by apply Hne; symmetry; eapply Hon.
  - intros a r1 o1 [-> Hrd] Hst1. split; [|done]. rewrite Hst1. destruct x as [n|]; [|done].
    destruct (Z.ltb_spec (Z.of_nat n) 0); [lia|]. by rewrite Nat2Z.id.
Qed.

(** The loop ends when the new thread is running. *)
Lemma wait_serves fuel k p n r o st :
  calling k p (Some n) (λ _, True) r → pending o !! creator k = Some st →
  serves (creator k) (λ _ r o, calling k p (Some n) (λ v, v ≠ 0) r ∧ pending o !! creator k = Some st)
    (ploop fuel (
       running ← emit (ReadRunning p);
       if running =? 0 then _ ← emit (Sleep 1000000); mret None else mret (Some tt))) r o.
Proof.
  intros Hc Hst. apply (safe_ploop _ _ _ _ _ (λ r o, calling k p (Some n) (λ _, True) r ∧ pending o !! creator k = Some st));
    [done|]. clear dependent r o. intros r o [Hc Hst].
  assert (stable (creator k) (calling k p (Some n) (λ _, True))) as Hstable by by apply calling_stable.
  apply (serve_step (calling k p (Some n) (λ _, True)) (λ v, calling k p (Some n) (λ v', v = 0 ∨ v' ≠ 0)) _ _ st); [done..| |].
  - intros r1 [(v & Hp & _) Hon] Hs. exists v, r1. unfold access, read_frame. rewrite Hp.
    split_and!; [done..|]. split; [|done]. exists v. split; [done|]. simpl. lia.
  - clear dependent r o. intros v r o [(v' & Hp & Hv) Hon] Hst. destruct (Z.eqb_spec v 0) as [->|Hne].
    + apply (serve_step (calling k p (Some n) (λ _, True)) (λ _, calling k p (Some n) (λ _, True)) _ _ st); [done| |done| |done].
      { split; [by exists v'|done]. }
      intros r1 Hc1 Hs. exists 0, r1. by split_and!.
    + split; [|done]. split; [|done]. exists v'. split; [done|]. by destruct Hv.
Qed.

Lemma enter_serves {A} k (f : Z → prog A) Φ r o st :
  ready (creator k) r → pending o !! creator k = Some st →
  (∀ p r o, calling k p None (λ v, v = 0) r → pending o !! creator k = Some st →
     serves (creator k) Φ (f (Z.of_nat p)) r o) →
  serves (creator k) Φ (emit (Enter k) ≫= f) r o.
Proof.
  intros Hrd Hst Hf.
  apply (serve_step (ready (creator k)) (λ a r, ∃ p, a = Z.of_nat p ∧ calling k p None (λ v, v = 0) r) _ _ st);
    [by intros r1 r2; apply idle_stable|done..| |].
  - intros r1 Hrd1 Hs. exists (Z.of_nat (next r1)), (enter r1 k).
    split_and!; [done|by apply enter_sound|done|intros t' Hne; by apply enter_rely|].
    exists (next r1). split; [done|]. split; [exists 0; split; [apply lookup_insert_eq|done]|].
    intros p' fr. simpl. intros [[<- _]|[_ Hp']]%lookup_insert_Some Ho; [done|]. by destruct (Hrd1 _ _ Hp').
  - intros a r1 o1 (p & -> & Hc) Hst1. by apply Hf.
Qed.

(** The rest of a call, from where it creates the thread: the task comes to be
    when that succeeds. *)
Lemma create_serves t p fuel h a attr e (code : Z → Z) r o :
  let k := mk_task t h a attr in
  (∀ x, code x = OSAL_OK ↔ x = thread_ok) →
  (∀ r, frames r !! p = Some (mk_frame k 0 None) → acc t e r =
     Some (if create_answer (next r) =? thread_ok then (thread_ok, spawn r p k) else (create_answer (next r), r))) →
  calling k p None (λ v, v = 0) r → pending o !! t = Some (Waiting (Create fuel h a attr)) →
  serves t (obj_finished ready t)
    (local_ret ← emit e;
     (if code local_ret =? OSAL_OK then ploop fuel (
        running ← emit (ReadRunning p);
        if running =? 0 then _ ← emit (Sleep 1000000); mret None else mret (Some tt))
      else mret tt);;
     tid ← emit (Leave p);
     mret (Created (code local_ret) (if tid <? 0 then None else Some (Z.to_nat tid)))) r o.
Proof.
  intros k Hcode He Hc Hst.
  apply (serve_access task_spec _ _ v0 rep_tasks rely_task (calling k p None (λ v, v = 0))
    (λ x st r, (code x = OSAL_OK ∧ ∃ n, st = Answered (Created OSAL_OK (Some n)) ∧ calling k p (Some n) (λ _, True) r) ∨
       (code x ≠ OSAL_OK ∧ st = Answered (Created (code x) None) ∧ calling k p None (λ v, v = 0) r))
    _ t (Waiting (Create fuel h a attr))); [by apply (calling_stable k)|done..| |].
  2:{ clear dependent r o. intros x st r o [(Hx & n & -> & Hc)|(Hx & -> & Hc)] Hst.
      - rewrite Hx, Z.eqb_refl. apply safe_bind. eapply safe_mono; [by apply (wait_serves fuel k p n)|].
        clear dependent r o. intros u r o [Hc Hst]. by apply (leave_serves k p (Some n) (λ v, v ≠ 0)).
      - rewrite (proj2 (Z.eqb_neq _ _) Hx). by apply (leave_serves k p None (λ v, v = 0)). }
  clear dependent r o. intros r v [(z & Hp & ->) Hon] [Hv Hs] _. rewrite He by done.
  destruct (Z.eqb_spec (create_answer (next r)) thread_ok) as [H0|H0].
  - exists thread_ok, (spawn r p k), (Answered (Created OSAL_OK (Some (next r)))), (<[next r := k]> v).
    split; [done|]. split; [split; [by rewrite <- Hv|by apply spawn_sound]|].
    split; [intros t' Hne; by apply spawn_rely|]. split.
    + right. do 2 eexists. split; [done|]. split; [done|]. exists (next r). split; [done|]. split; [|done].
      rewrite <- Hv. apply eq_None_not_Some. intros [k' Hk']. apply (sound_tasks _ Hs) in Hk' as []. lia.
    + left. split; [by apply Hcode|]. exists (next r). split; [done|]. split.
      * exists 0. split; [apply lookup_insert_eq|done].
      * intros p' fr'. simpl. intros [[<- _]|[_ Hp']]%lookup_insert_Some Ho; [done|]. by eapply Hon.
  - rewrite <- Hcode in H0.
    exists (create_answer (next r)), r, (Answered (Created (code (create_answer (next r))) None)), v.
    split; [done|]. split; [done|]. split; [by intros|].
    split; [|right; split; [done|split; [done|split; [by exists 0|done]]]].
    right. do 2 eexists. split; [done|]. split; [done|]. simpl. by rewrite (proj2 (Z.eqb_neq _ _) H0).
Qed.
End serve.

(** ** Beginning a call *)
Section start.
Context `{!Port} (create_answer : nat → Z) (setting_ret : nat → act → Z).
Implicit Types (t p n : nat) (r : shared) (fr : frame) (k : task).


Definition begin r t : shared := mk_shared (frames r) (<[t := None]> (alive r)) (log r) (next r) (stderr r) (tasks r).

Lemma begin_sound r t p : sound r → alive r !! t = Some (Some p) → sound (begin r t).
Proof.
  intros Hs Ht. split; simpl; try apply Hs.
  - intros t' x [[<- _]|[_ Ht']]%lookup_insert_Some; by eapply sound_alive.
  - intros t' p' [[_ [=]]|[_ Ht']]%lookup_insert_Some. by apply (sound_new _ Hs).
Qed.

Lemma begin_rely r t t' : t' ≠ t → rely_task t' r (begin r t).
Proof.
  intros Hne. split; try done; simpl.
  - intros p fr Hp Ho. exists (is_running fr). rewrite set_running_id. auto.
  - intros p fr Hp Ho. by exists fr.
  - intros x Hx. by rewrite lookup_insert_ne.
Qed.

Lemma task_start_rep t c r r' v :
  rep_tasks r v → task_start t c r = Some r' → rep_tasks r' v ∧ ∀ t', t' ≠ t → rely_task t' r r'.
Proof.
  intros [Hv Hs]. unfold task_start. destruct c as [fuel h a attr|p], (alive r !! t) as [[p'|]|] eqn:Ht; try done.
  - intros [= <-]. split; [done|]. by intros.
  - destruct (Nat.eqb_spec p p') as [<-|]; [|done]. intros [= <-]. split; [split; [done|by eapply begin_sound]|].
    intros t' Hne. by apply begin_rely.
Qed.

(** [n] threads and no task that they have created. *)
Definition initial (n : nat) : shared :=
  mk_shared ∅ (list_to_map ((λ t, (t, None)) <$> seq 0 n)) ∅ n [] ∅.

Lemma initial_sound n : sound (initial n).
Proof.
  split; simpl; try (intros *; by rewrite lookup_empty); [| |].
  - intros t x Hx%elem_of_list_to_map_2. apply list_elem_of_fmap in Hx as (y & [= <- _] & Hy).
    apply elem_of_seq in Hy. lia.
  - intros t _. done.
  - intros t p Hp%elem_of_list_to_map_2. apply list_elem_of_fmap in Hp as (y & Hy & _). done.
Qed.

(** What is to be shown of the two functions of a system, and what follows. *)
Context (create : nat → task → prog answer) (wrapper : nat → prog answer).

Definition port_call t (c : op) : prog answer :=
  match c with
  | Create fuel h a attr => create fuel (mk_task t h a attr)
  | Wrapper p => wrapper p
  end.

Abbreviation serves v0 t := (safe (access create_answer setting_ret t) (enabled t) (obj_inv task_spec v0 rep_tasks)
  (obj_rely rely_task t) (guar past (obj_rely rely_task) t) (obj_finished ready t)).

Context (create_ok : ∀ v0 t fuel h a attr r (o : object), ready t r →
  pending o !! t = Some (Waiting (Create fuel h a attr)) → serves v0 t (create fuel (mk_task t h a attr)) r o).
Context (wrapper_ok : ∀ v0 t p fr r (o : object), wrapping t p fr (creation_settings (args fr)) r →
  pending o !! t = Some (Waiting (Wrapper p)) → serves v0 t (wrapper p) r o).

Lemma port_call_serves v0 t c r r' (o : object) :
  rep_tasks r (value o) → task_start t c r = Some r' → pending o !! t = Some (Waiting c) → ready t r →
  serves v0 t (port_call t c) r' o.
Proof.
  intros [Hv Hs]. unfold task_start. destruct c as [fuel h a attr|p], (alive r !! t) as [[p'|]|] eqn:Ht; try done.
  - intros [= <-] Hst Hrd. by apply create_ok.
  - destruct (Nat.eqb_spec p p') as [<-|]; [|done]. intros [= <-] Hst Hrd.
    destruct (sound_new _ Hs _ _ Ht) as (fr & Hp & Hr & Htid & Hl). apply wrapper_ok with (fr := fr); [|done].
    split_and!; [done..|apply lookup_insert_eq|done|done].
Qed.

Lemma port_linearizable n s :
  rtc (tstep (access create_answer setting_ret) enabled port_call task_start) (mk_threads (initial n) ∅ []) s →
  ¬ faulty (access create_answer setting_ret) enabled s ∧
  (∃ o, rtc (ostep task_spec) (mk_object ∅ ∅ []) o ∧ past o = history s ∧ value o = tasks (memory s)) ∧
  sound (memory s) ∧ ∀ t, Threads.running s !! t = None → ready t (memory s).
Proof.
  intros Hsteps.
  destruct (linearizable task_spec (access create_answer setting_ret) enabled port_call task_start ∅ rep_tasks
      rely_task ready) with (r := initial n) (s := s) as ((o & Ho & Hp & Hv & Hs) & Hready & Hf);
    [| | | | |exact Hsteps|].
  - intros t r r'. apply idle_stable.
  - intros t c r r' v. apply task_start_rep.
  - intros t c r r' o. apply port_call_serves.
  - split; [done|apply initial_sound].
  - intros t p fr. simpl. by rewrite lookup_empty.
  - split; [done|]. split; [by exists o|]. by split.
Qed.

(** A task has all its settings once its creator is out of [osal_task_create]. *)
Lemma port_settings r t k :
  sound r → tasks r !! t = Some k →
  log_of r t `prefix_of` acts_of k ∧ (ready (creator k) r → settings_of k `prefix_of` log_of r t).
Proof.
  intros Hs Hk. destruct (sound_tasks _ Hs _ _ Hk) as (_ & Hl & Hd). split; [done|].
  intros Hrd. destruct Hd as [Hd|(p & fr & Hpf & Hfr & _)]; [done|].
  exfalso. apply (Hrd p fr Hpf). by rewrite Hfr.
Qed.
End start.

(** ** The POSIX functions *)
Definition task_call `{!Config} : nat → op → prog answer :=
  port_call Shared.osal_task_create Shared.posix_task_wrapper.

Section posix.
Context `{!Config} (pthread_create_ret : nat → Z) (setting_ret : nat → act → Z) (v0 : gmap nat task).
Implicit Types (t p n : nat) (r : shared) (fr : frame) (k : task).
Implicit Types (o : object (S := gmap nat task) (C := op) (B := answer)).

Abbreviation serves t := (safe (access pthread_create_ret setting_ret t) (enabled t) (obj_inv task_spec v0 rep_tasks)
  (obj_rely rely_task t) (guar past (obj_rely rely_task) t)).

Lemma settings_serves t p fr st attr r o :
  task_attr (args fr) = Some attr → at_log t p fr st [] tt r o → serves t (at_log t p fr st (settings_of (args fr))) (Shared.settings p) r o.
Proof.
  intros Hattr Hat.
  assert (∀ f r, frames r !! p = Some fr → read_attr p f r = Some (f attr, r)) as Hread.
  { intros f r1 Hp. unfold read_attr. rewrite Hp. simpl. by rewrite Hattr. }
  assert (settings_of (args fr) = posix_settings (args fr)) as Hall by done. unfold posix_settings in Hall. rewrite Hattr in Hall.
  rewrite !app_assoc in Hall. unfold Shared.settings.
  eapply at_log_bind; [apply (setting_serves _ _ _ t p fr st attr [] _ (λ v, negb (v =? 0)) Policy _ policy); [by intros; apply Hread| |done]|].
  { rewrite Hall. auto using prefix_app_r. }
  clear dependent r o. intros r o Hat.
  eapply at_log_bind; [eapply (setting_serves _ _ _ t p fr st attr _ _ (λ v, negb (v =? 0)) Priority _ priority); [by intros; apply Hread| |exact Hat]|].
  { rewrite Hall. auto using prefix_app_r. }
  clear dependent r o. intros r o Hat.
  eapply at_log_bind; [eapply (setting_serves _ _ _ t p fr st attr _ _ (λ v, 0 <? v) Affinity _ affinity); [by intros; apply Hread| |exact Hat]|].
  { rewrite Hall. auto using prefix_app_r. }
  clear dependent r o. intros r o Hat. cbn [app] in Hat.
  destruct LIBOSAL_HAVE_SYS_PRCTL_H; cbn [andb] in Hall; [|by rewrite Hall, app_nil_r]. destruct Hat as [Hw Hst].
  eapply (serve_read _ _ _ _ (λ v, v = default 0 (head (task_name attr)))); [apply wrapping_stable|exact Hw|exact Hst| |].
  { intros r1 Hw1. eexists. split; [apply Hread, Hw1|done]. }
  clear dependent r o. intros c r o -> Hw Hst. destruct (negb (_ (head _) =? 0)); [|by rewrite Hall, app_nil_r].
  eapply (serve_step _ _ _ _ (λ _, wrapping t p fr (settings_of (args fr)))); [apply wrapping_stable|exact Hw|exact Hst| |done].
  intros r1 Hw1 Hs. destruct (wrapping_act _ _ _ _ _ (Name (task_name attr)) Hw1 Hs) as (Hs2 & Hrl & Hw2); [by rewrite Hall|].
  exists 0, (add_log r1 t (Name (task_name attr))). rewrite Hall. split_and!; [|done..].
  simpl. destruct Hw1 as (Hp & _). rewrite Hp. simpl. by rewrite Hattr.
Qed.

Lemma wrapper_serves t p fr r o :
  wrapping t p fr [] r → pending o !! t = Some (Waiting (Wrapper p)) →
  serves t (obj_finished ready t) (Shared.posix_task_wrapper p) r o.
Proof.
  intros Hw Hst. unfold Shared.posix_task_wrapper.
  eapply wrapper_reads_serves; [by split|]. clear dependent r o. intros r o [Hw Hst].
  eapply (serve_read _ _ _ (wrapping t p fr []) (λ v, v = if task_attr (args fr) is Some _ then 1 else 0) _ _
    (Waiting (Wrapper p))); [apply wrapping_stable|exact Hw|exact Hst| |].
  { intros r1 (Hp & _). eexists. split; [|done]. simpl. unfold read_frame. by rewrite Hp. }
  clear dependent r o. intros x r o -> Hw Hst.
  eapply at_log_bind with (l := settings_of (args fr)) (st := Waiting (Wrapper p)).
  { destruct (task_attr (args fr)) as [attr|] eqn:Hattr; [by eapply settings_serves|].
    unfold settings_of. simpl. unfold posix_settings. rewrite Hattr. done. }
  clear dependent r o. intros r o [Hw Hst]. by apply announce_serves.
Qed.

Lemma create_ret_ok x : Shared.create_ret x = OSAL_OK ↔ x = 0.
Proof. unfold Shared.create_ret. split; [|by intros ->]. by repeat case_match; intros; try lia. Qed.

Lemma posix_create_serves t fuel h a attr r o :
  ready t r → pending o !! t = Some (Waiting (Create fuel h a attr)) →
  serves t (obj_finished ready t) (Shared.osal_task_create fuel (mk_task t h a attr)) r o.
Proof.
  intros Hrd Hst. unfold Shared.osal_task_create.
  apply (enter_serves _ _ _ (mk_task t h a attr) _ _ _ _ _ Hrd Hst). clear dependent r o. intros p r o Hc Hst.
  rewrite Nat2Z.id. apply (create_serves _ _ _ t p fuel h a attr); [apply create_ret_ok| |done..].
  intros r1 Hp. simpl. by rewrite Hp.
Qed.
End posix.

(** Thread 0 creates a task of its own, thread 2, at the address 1; it waits once
    and returns before the handler begins. *)
Module TasksSim.
#[local] Existing Instance linux_config.
Definition attr : osal_task_attr := mk_task_attr [116; 0] 1 0 3.

Definition creating : list (nat * option op) :=
  [(0%nat, Some (Create 3 42 5 (Some attr)))] ++ replicate 4 (0%nat, None) ++
  [(2%nat, Some (Wrapper 1))] ++ replicate 15 (2%nat, None) ++ replicate 3 (0%nat, None) ++ replicate 2 (2%nat, None).

(** Setting a policy fails. *)
Definition acc : nat → event → shared → option (Z * shared) :=
  access (λ _, 0) (λ _ a, if a is Policy _ then OSAL_ERR_PERMISSION_DENIED else OSAL_OK).

Definition run : option (threads (E := event) (R := shared) (B := answer)) :=
  tschedule acc enabled task_call task_start creating (mk_threads (initial 1) ∅ []).
End TasksSim.

(** ** Properties *)

(** (C2) Any number of threads create tasks at the same time, and the tasks create
    further ones. No thread uses a frame of [osal_task_create], or attributes,
    that are gone. The calls are a history of a set of tasks to which
    [osal_task_create] adds, if it returns [OSAL_OK], a new one with its handler,
    argument and attributes, and from which the new thread takes what it runs. A
    task makes its settings, in their order, before it runs its handler once,
    and has made all of them when its creator is out of [osal_task_create]. *)
Theorem task_create_linearizable `{!Config} pthread_create_ret setting_ret n s :
  rtc (tstep (access pthread_create_ret setting_ret) enabled task_call task_start) (mk_threads (initial n) ∅ []) s →
  ¬ faulty (access pthread_create_ret setting_ret) enabled s ∧
  (∃ o, rtc (ostep task_spec) (mk_object ∅ ∅ []) o ∧ past o = history s ∧ value o = tasks (memory s)) ∧
  ∀ t k, tasks (memory s) !! t = Some k →
    log_of (memory s) t `prefix_of` acts_of k ∧
    (Threads.running s !! creator k = None → settings_of k `prefix_of` log_of (memory s) t).
Proof.
  intros Hsteps. apply port_linearizable in Hsteps as (Hf & Ho & Hs & Hready);
    [|by intros; apply posix_create_serves|by intros; eapply wrapper_serves].
  split; [done|]. split; [done|]. intros t k Hk. destruct (port_settings _ _ _ Hs Hk). auto.
Qed.

(** The task of [TasksSim]; setting its policy fails, and is reported. *)
Lemma task_create_linearizable_witness :
  ∃ s, rtc (tstep TasksSim.acc enabled (@task_call linux_config) task_start) (mk_threads (initial 1) ∅ []) s ∧
    omap (λ x, if x is Return _ b then Some b else None) (history s) = [Created OSAL_OK (Some 2%nat); Ran 42 5] ∧
    log_of (memory s) 2 = [Policy 1; Affinity 3; Name [116; 0]; Run 42 5] ∧
    stderr (memory s) = [("policy", 1, OSAL_ERR_PERMISSION_DENIED)] ∧ ¬ faulty TasksSim.acc enabled s.
Proof.
  eexists. assert (TasksSim.run = Some _) as Hs by (vm_compute; reflexivity).
  apply tschedule_reachable in Hs. split; [exact Hs|]. split; [reflexivity|]. split; [reflexivity|].
  split; [reflexivity|]. exact (proj1 (@task_create_linearizable linux_config _ _ 1 _ Hs)).
Defined.
