(* ===== verification/PikeosTaskShared.v ===== *)
(** * Creating tasks on PikeOS: [osal_task_create] and the new thread, src/pikeos/task.c

    As in TaskShared, whose memory and lemmas it uses, any number of threads
    create tasks at the same time. Here a task has its priority and its name
    from its creation; the creating thread reads them from the attributes, and
    the new thread reads its handler and its argument only. *)

From S2P Require Import Prelude Osal Timer Programs Threads PosixTask PikeosTimer PikeosTask TaskShared.
Open Scope list_scope.

(** ** The functions *)
Module P4.
Section programs.
Context `{!P4Codes}.

Definition pikeos_task_wrapper (p : nat) : prog answer :=
  user_handler ← emit (ReadHandler p);
  user_arg ← emit (ReadArg p);
  _ ← emit (WriteRunning p 1);
  _ ← emit (Act (Run user_handler user_arg));
  mret (Ran user_handler user_arg).

Definition create_ret (local_ret : Z) : Z :=
  if local_ret =? P4_E_OK then OSAL_OK
  else if local_ret =? P4_E_INVAL then OSAL_ERR_INVALID_PARAM
  else OSAL_ERR_OPERATION_FAILED.

(** [tattr.prio], and whether the name is that of the attributes. *)
Definition read_prio (p : nat) (attr : option osal_task_attr) : prog Z :=
  if attr is Some _ then
    v ← emit (ReadPriority p); if 0 <? v then emit (ReadPriority p) else mret 1
  else mret 1.

Definition read_named (p : nat) (attr : option osal_task_attr) : prog bool :=
  if attr is Some _ then c ← emit (ReadName0 p); mret (negb (c =? 0)) else mret false.

Definition osal_task_create (fuel : nat) (start_args : task) : prog answer :=
  p ← emit (Enter start_args);
  let p := Z.to_nat p in
  prio ← read_prio p (task_attr start_args);
  named ← read_named p (task_attr start_args);
  local_ret ← emit (P4ThrCreate p prio named);
  let ret := create_ret local_ret in
  (if ret =? OSAL_OK then
     ploop fuel (
       running ← emit (ReadRunning p);
       if running =? 0 then _ ← emit (Sleep 1000000); mret None else mret (Some tt))
   else mret tt);;
  tid ← emit (Leave p);
  mret (Created ret (if tid <? 0 then None else Some (Z.to_nat tid))).
End programs.
End P4.

(** ** What a task has *)
Definition prio_of (k : task) : Z :=
  if task_attr k is Some attr then if 0 <? priority attr then priority attr else 1 else 1.

Definition named (k : task) : bool :=
  if task_attr k is Some attr then negb (default 0 (head (task_name attr)) =? 0) else false.

Definition thread_name (k : task) : list Z := default default_name (name_of k (named k)).

Lemma name_of_named k : name_of k (named k) = Some (thread_name k).
Proof. unfold thread_name, named, name_of. destruct (task_attr k) as [attr|]; [|done]. by case_match. Qed.

#[export] Instance p4_port `{!P4Codes} : Port :=
  {| thread_ok := P4_E_OK; creation_settings k := [Priority (prio_of k); Name (thread_name k)]; own_settings _ := [] |}.

Definition p4_task_call `{!P4Codes} : nat → op → prog answer :=
  port_call P4.osal_task_create P4.pikeos_task_wrapper.

(** ** The functions, each by itself *)
Section serve.
Context `{!P4Codes} (create_answer : nat → Z) (setting_ret : nat → act → Z) (v0 : gmap nat task).
Implicit Types (t p n : nat) (r : shared) (fr : frame) (k : task).
Implicit Types (o : object (S := gmap nat task) (C := op) (B := answer)).

Abbreviation serves t := (safe (access create_answer setting_ret t) (enabled t) (obj_inv task_spec v0 rep_tasks)
  (obj_rely rely_task t) (guar past (obj_rely rely_task) t)).

Lemma p4_wrapper_serves t p fr r o :
  wrapping t p fr (creation_settings (args fr)) r → pending o !! t = Some (Waiting (Wrapper p)) →
  serves t (obj_finished ready t) (P4.pikeos_task_wrapper p) r o.
Proof.
  intros Hw Hst. unfold P4.pikeos_task_wrapper. eapply wrapper_reads_serves; [by split|].
  clear dependent r o. intros r o [Hw Hst]. by apply announce_serves.
Qed.

Lemma p4_create_ret_ok x : P4.create_ret x = OSAL_OK ↔ x = P4_E_OK.
Proof.
  unfold P4.create_ret. destruct (Z.eqb_spec x P4_E_OK) as [He|Hne]; [done|]. by destruct (x =? P4_E_INVAL).
Qed.

(** The creating thread reads the attributes, which nobody changes. *)
Section reads.
Context (k : task) (p : nat) (st : status (C := op) (B := answer)).

Definition calling_at : shared → object → Prop :=
  λ r o, calling k p None (λ v, v = 0) r ∧ pending o !! creator k = Some st.

Lemma read_attr_serves {A} e (g : osal_task_attr → Z) attr (f : Z → prog A) Φ r o :
  (∀ r, access create_answer setting_ret (creator k) e r = read_attr p g r) → task_attr k = Some attr →
  calling_at r o → (∀ r o, calling_at r o → serves (creator k) Φ (f (g attr)) r o) →
  serves (creator k) Φ (emit e ≫= f) r o.
Proof.
  intros He Hattr [Hc Hst] Hf.
  apply (serve_read create_answer setting_ret v0 (calling k p None (λ v, v = 0)) (λ v, v = g attr) _ _ st);
    [by apply calling_stable|done..| |].
  - intros r1 [(v & Hp & _) _]. exists (g attr). split; [|done]. rewrite He. unfold read_attr. rewrite Hp. simpl.
    by rewrite Hattr.
  - clear dependent r o. intros v r o -> Hc Hst. by apply Hf.
Qed.

Lemma read_prio_serves {A} (f : Z → prog A) Φ r o :
  calling_at r o → (∀ r o, calling_at r o → serves (creator k) Φ (f (prio_of k)) r o) →
  serves (creator k) Φ (P4.read_prio p (task_attr k) ≫= f) r o.
Proof.
  unfold P4.read_prio, prio_of. destruct (task_attr k) as [attr|] eqn:Hattr; intros Hc Hf; [|by apply Hf].
  apply (read_attr_serves _ priority attr); [done..|]. clear dependent r o. intros r o Hc.
  destruct (0 <? priority attr); [|by apply Hf]. by apply (read_attr_serves _ priority attr).
Qed.

Lemma read_named_serves {A} (f : bool → prog A) Φ r o :
  calling_at r o → (∀ r o, calling_at r o → serves (creator k) Φ (f (named k)) r o) →
  serves (creator k) Φ (P4.read_named p (task_attr k) ≫= f) r o.
Proof.
  unfold P4.read_named, named. destruct (task_attr k) as [attr|] eqn:Hattr; intros Hc Hf; [|by apply Hf].
  by apply (read_attr_serves _ (λ attr, default 0 (head (task_name attr))) attr).
Qed.
End reads.

Lemma p4_create_serves t fuel h a attr r o :
  ready t r → pending o !! t = Some (Waiting (Create fuel h a attr)) →
  serves t (obj_finished ready t) (P4.osal_task_create fuel (mk_task t h a attr)) r o.
Proof.
  intros Hrd Hst. unfold P4.osal_task_create. set (k := mk_task t h a attr).
  apply (enter_serves _ _ _ k _ _ _ _ _ Hrd Hst). clear dependent r o. intros p r o Hc Hst. rewrite Nat2Z.id.
  eapply (read_prio_serves k p); [by split|]. clear dependent r o. intros r o Hc.
  eapply (read_named_serves k p); [exact Hc|]. clear dependent r o. intros r o [Hc Hst].
  apply (create_serves _ _ _ t p fuel h a attr); [apply p4_create_ret_ok| |done..].
  intros r1 Hp. cbn [access]. rewrite Hp. fold k. cbn [mbind option_bind args]. by rewrite name_of_named.
Qed.
End serve.

Definition p4_access `{!P4Codes} : (nat → Z) → (nat → act → Z) → nat → event → shared → option (Z * shared) :=
  @access p4_port.

(** Thread 0 creates two tasks, threads 2 and 4; the second one has no attributes,
    and its creation fails once. *)
Module P4Sim.
Definition create_answer (n : nat) : Z := if Nat.eqb n 6 then P4_E_LIMIT else P4_E_OK.
Definition attr : osal_task_attr := mk_task_attr [116; 0] 1 7 0.
Definition acc : nat → event → shared → option (Z * shared) := p4_access create_answer (λ _ _, OSAL_OK).

Definition creating : list (nat * option op) :=
  [(0%nat, Some (Create 3 42 5 (Some attr)))] ++ replicate 7 (0%nat, None) ++
  [(2%nat, Some (Wrapper 1))] ++ replicate 3 (2%nat, None) ++ replicate 3 (0%nat, None) ++ replicate 2 (2%nat, None) ++
  [(0%nat, Some (Create 3 43 6 None))] ++ replicate 3 (0%nat, None) ++
  [(2%nat, Some (Create 3 44 7 None))] ++ replicate 4 (2%nat, None).

Definition run : option (threads (E := event) (R := shared) (B := answer)) :=
  tschedule acc enabled p4_task_call task_start creating (mk_threads (initial 1) ∅ []).
End P4Sim.

(** ** Properties *)

(** (C10) On PikeOS too any number of threads create tasks at the same time, and the
    tasks create further ones: the calls are a history of a set of tasks to which
    [osal_task_create] adds, if it returns [OSAL_OK], a new one with its handler,
    argument and attributes. No thread uses a frame of [osal_task_create] or
    attributes that are gone. A task has its priority, 1 if none is asked for,
    and its name before it runs its handler once. *)
Theorem pikeos_task_create_linearizable `{!P4Codes} create_answer setting_ret n s :
  rtc (tstep (p4_access create_answer setting_ret) enabled p4_task_call task_start) (mk_threads (initial n) ∅ []) s →
  ¬ faulty (p4_access create_answer setting_ret) enabled s ∧
  (∃ o, rtc (ostep task_spec) (mk_object ∅ ∅ []) o ∧ past o = history s ∧ value o = tasks (memory s)) ∧
  ∀ t k, tasks (memory s) !! t = Some k →
    log_of (memory s) t `prefix_of` [Priority (prio_of k); Name (thread_name k); Run (task_handler k) (task_arg k)] ∧
    (Threads.running s !! creator k = None →
     [Priority (prio_of k); Name (thread_name k)] `prefix_of` log_of (memory s) t).
Proof.
  intros Hsteps. unfold p4_access in *. apply port_linearizable in Hsteps as (Hf & Ho & Hs & Hready);
    [|by intros; apply p4_create_serves|by intros; eapply p4_wrapper_serves].
  split; [done|]. split; [done|]. intros t k Hk. destruct (port_settings _ _ _ Hs Hk). auto.
Qed.

(** The tasks of [P4Sim]: one has run its handler and creates a task itself,
    which fails; one has not begun. *)
Lemma pikeos_task_create_linearizable_witness :
  ∃ s, rtc (tstep P4Sim.acc enabled p4_task_call task_start) (mk_threads (initial 1) ∅ []) s ∧
    omap (λ x, if x is Return _ b then Some b else None) (history s) =
      [Created OSAL_OK (Some 2%nat); Ran 42 5; Created OSAL_ERR_OPERATION_FAILED None] ∧
    log_of (memory s) 2 = [Priority 7; Name [116; 0]; Run 42 5] ∧
    log_of (memory s) 4 = [Priority 1; Name default_name] ∧ ¬ faulty P4Sim.acc enabled s.
Proof.
  eexists. assert (P4Sim.run = Some _) as Hs by (vm_compute; reflexivity).
  apply tschedule_reachable in Hs. split; [exact Hs|]. split; [reflexivity|]. split; [reflexivity|].
  split; [reflexivity|]. exact (proj1 (pikeos_task_create_linearizable _ _ 1 _ Hs)).
Defined.
