(* ===== verification/TaskReturns.v ===== *)
(** * Creating a task ends: src/posix/task.c and src/pikeos/task.c

    [osal_task_create] waits for the new thread in a loop. Whatever the other
    threads do, the new thread has announced itself after a number of its own
    accesses that is known, and the loop ends with the first test after that
    ([waiting_ends]); no access makes a thread wait. *)

From S2P Require Import Prelude Osal Timer PosixTask PikeosTimer PikeosTask Programs Threads TaskShared PikeosTaskShared.
Open Scope list_scope.

(** ** The programs *)

(** It writes nothing to [running] that means not running, and has one access
    left when it has read that its task is running. *)
Fixpoint leaves {A} (p : prog A) : Prop :=
  match p with
  | Vis e k =>
      match e with
      | WriteRunning _ v => v ≠ 0
      | ReadRunning _ => ∀ v, v ≠ 0 → ends_within 1 (k v)
      | _ => True
      end ∧ ∀ v, leaves (k v)
  | _ => True
  end.

(** It writes to [running] of the frame [a] after at most [n] other accesses. *)
Fixpoint announces {A} (a n : nat) (p : prog A) {struct p} : Prop :=
  match p with
  | Vis e k =>
      if e is WriteRunning a' _ then a' = a
      else match n with O => False | S n' => ∀ v, announces a n' (k v) end
  | _ => False
  end.

(** The waiting loop and what comes after it. *)
Lemma wait_leaves {A} fuel p (f : unit → prog A) :
  ends_within 1 (f tt) → leaves (f tt) →
  leaves (ploop fuel (
    running ← emit (ReadRunning p);
    if running =? 0 then _ ← emit (Sleep 1000000); mret None else mret (Some tt)) ≫= f).
Proof.
  intros Hf Hl. induction fuel as [|fuel IH]; [done|]. simpl. split; intros v.
  - intros Hv. by rewrite (proj2 (Z.eqb_neq _ _) Hv).
  - destruct (v =? 0); [|done]. simpl. by split.
Qed.

Lemma posix_create_leaves `{!Config} fuel k : leaves (Shared.osal_task_create fuel k).
Proof.
  unfold Shared.osal_task_create. simpl. split; [done|]. intros p. split; [done|]. intros x.
  destruct (_ =? OSAL_OK); [|done]. by apply wait_leaves.
Qed.

Lemma p4_create_leaves `{!P4Codes} fuel k : leaves (P4.osal_task_create fuel k).
Proof.
  unfold P4.osal_task_create, P4.read_prio, P4.read_named. simpl. split; [done|]. intros p.
  destruct (task_attr k) as [attr|]; simpl.
  - split; [done|]. intros v. destruct (0 <? v); simpl; repeat (split; [done|]; intros ?).
    all: destruct (_ =? OSAL_OK); [by apply wait_leaves|done].
  - split; [done|]. intros x. destruct (_ =? OSAL_OK); [|done]. by apply wait_leaves.
Qed.

(** The wrappers, which have no loop: every way through them is followed. *)
Ltac follow :=
  simpl; intros;
  first [done | split; [done|follow] | match goal with |- context [if ?b then _ else _] => destruct b; follow end].

Lemma posix_wrapper_leaves `{!Config} p : leaves (Shared.posix_task_wrapper p).
Proof. unfold Shared.posix_task_wrapper, Shared.settings, Shared.setting. follow. Qed.

Lemma posix_wrapper_announces `{!Config} p : announces p 20 (Shared.posix_task_wrapper p).
Proof. unfold Shared.posix_task_wrapper, Shared.settings, Shared.setting. follow. Qed.

Lemma posix_wrapper_ends `{!Config} p : ends_within 22 (Shared.posix_task_wrapper p).
Proof. unfold Shared.posix_task_wrapper, Shared.settings, Shared.setting. follow. Qed.

Lemma p4_wrapper_ok `{!P4Codes} p :
  leaves (P4.pikeos_task_wrapper p) ∧ announces p 2 (P4.pikeos_task_wrapper p) ∧
  ends_within 4 (P4.pikeos_task_wrapper p).
Proof. done. Qed.

(** ** The memory *)

(** The call whose frame was at [a] has returned, or its task is running. *)
Definition gone_or_running (a : nat) (r : shared) : Prop :=
  (a < next r)%nat ∧ ∀ fr, frames r !! a = Some fr → is_running fr ≠ 0.

Section memory.
Context `{!Port} (create_answer : nat → Z) (setting_ret : nat → act → Z).
Implicit Types (t a p n : nat) (r : shared) (fr : frame).
Abbreviation acc := (access create_answer setting_ret).

Lemma access_next t e r x r' : acc t e r = Some (x, r') → (next r ≤ next r')%nat.
Proof.
  destruct e; simpl; unfold read_frame, read_attr, name_of; intros He;
    repeat match type of He with
    | context [frames r !! ?p] => destruct (frames r !! p); simpl in He; [|done]
    | context [task_attr ?k] => destruct (task_attr k); simpl in He; [|done]
    | context [if ?b then _ else _] => destruct b; simpl in He
    end; try done; injection He as <- <-; simpl; lia.
Qed.

Lemma new_thread_keeps a r p fr l :
  frames r !! p = Some fr → gone_or_running a r → gone_or_running a (new_thread r p fr l).
Proof.
  intros Hp [Hn Ha]. split; simpl; [lia|]. intros fr' [[<- <-]|[_ Hp']]%lookup_insert_Some; [simpl; by apply Ha|by apply Ha].
Qed.

Lemma access_keeps a t e r x r' :
  acc t e r = Some (x, r') → (if e is WriteRunning _ v then v ≠ 0 else True) → gone_or_running a r → gone_or_running a r'.
Proof.
  intros He Hw Hg. pose proof Hg as [Hn Ha]. destruct e; simpl in He; unfold read_frame, read_attr in He;
    repeat match type of He with
    | context [frames r !! ?p] => destruct (frames r !! p) eqn:?; simpl in He; [|done]
    | context [name_of ?k ?b] => destruct (name_of k b); simpl in He; [|done]
    | context [task_attr ?k] => destruct (task_attr k); simpl in He; [|done]
    | context [if ?b then _ else _] => destruct b; simpl in He
    end; try done; injection He as <- <-; try done; try (by apply new_thread_keeps).
  - split; simpl; [lia|]. intros fr [[<- _]|[_ Hp]]%lookup_insert_Some; [lia|by apply Ha].
  - split; [done|]. simpl. intros fr [_ Hp]%lookup_delete_Some. by apply Ha.
  - split; [done|]. simpl. intros fr [[<- <-]|[_ Hp]]%lookup_insert_Some; [done|by apply Ha].
Qed.

Lemma access_announces a t v r x r' :
  acc t (WriteRunning a v) r = Some (x, r') → v ≠ 0 → (a < next r)%nat → gone_or_running a r'.
Proof.
  simpl. destruct (frames r !! a) as [fr|]; [|done]. intros [= <- <-] Hv Hn. split; [done|]. simpl.
  intros fr' [[_ <-]|[Hne _]]%lookup_insert_Some; [done|by destruct Hne].
Qed.
End memory.

(** ** Schedules *)
Section schedules.
Context `{!Port} (create_answer : nat → Z) (setting_ret : nat → act → Z) (call : nat → op → prog answer).
Implicit Types (t a n : nat) (s : threads (E := event) (R := shared) (C := op) (B := answer)).
Abbreviation acc := (access create_answer setting_ret).
Abbreviation move := (texec acc enabled call task_start).
Abbreviation moves := (tschedule acc enabled call task_start).

Context (call_leaves : ∀ t c, leaves (call t c)).

Definition disciplined s : Prop := ∀ t p, running s !! t = Some p → leaves p.

Lemma leaves_tail (e : event) (k : Z → prog answer) x : leaves (Vis e k) → leaves (k x).
Proof. simpl. by intros [_ Hk]. Qed.

Lemma reachable_disciplined n s :
  rtc (tstep acc enabled call task_start) (mk_threads (initial n) ∅ []) s → disciplined s.
Proof.
  intros Hsteps. refine (tstep_programs _ _ _ _ leaves _ _ call_leaves leaves_tail _ Hsteps).
  intros t p Hp. cbn in Hp. by rewrite lookup_empty in Hp.
Qed.

Lemma move_disciplined m s s' : disciplined s → move m s = Some s' → disciplined s'.
Proof.
  intros Hd Hm%texec_step. refine (tstep_programs _ _ _ _ leaves _ _ call_leaves leaves_tail Hd _). by apply rtc_once.
Qed.

Lemma task_start_frames t c r r' : task_start t c r = Some r' → frames r' = frames r ∧ next r' = next r.
Proof. unfold task_start. by repeat case_match; intros [= <-]. Qed.

Lemma move_next m s s' : move m s = Some s' → (next (memory s) ≤ next (memory s'))%nat.
Proof.
  intros [t c r r' P h _ Hs|t e k x r r' P h _ _ He|t b r P h _]%texec_step; simpl; [|by eapply access_next|done].
  by apply task_start_frames in Hs as [_ ->].
Qed.

Lemma move_keeps a m s s' :
  disciplined s → move m s = Some s' → gone_or_running a (memory s) → gone_or_running a (memory s').
Proof.
  intros Hd Hm%texec_step. destruct Hm as [t c r r' P h _ Hs|t e k x r r' P h Hp _ He|t b r P h _]; simpl; [| |done].
  - unfold gone_or_running. by apply task_start_frames in Hs as [-> ->].
  - eapply access_keeps; [exact He|]. apply Hd in Hp as [Hw _]. by destruct e.
Qed.

Lemma moves_keep a l s s' :
  disciplined s → moves l s = Some s' → gone_or_running a (memory s) → gone_or_running a (memory s').
Proof.
  revert s. induction l as [|m l IH]; simpl; intros s Hd Hl Ha; [by injection Hl as <-|].
  destruct (move m s) as [s1|] eqn:Hm; [|done]. simpl in Hl.
  eapply IH; [by eapply move_disciplined|exact Hl|by eapply move_keeps].
Qed.

(** A move of a thread that is about to make an access. *)
Lemma move_access t c e k s s' :
  running s !! t = Some (Vis e k) → move (t, c) s = Some s' →
  ∃ x, acc t e (memory s) = Some (x, memory s') ∧ running s' !! t = Some (k x) ∧ history s' = history s.
Proof.
  destruct s as [r P h]. simpl. intros ->. destruct (access _ _ t e r) as [[x r']|]; [|done].
  intros [= <-]. exists x. simpl. by rewrite lookup_insert_eq.
Qed.

(** The new thread has announced itself. *)
Lemma moves_announce a n t p l s s' :
  disciplined s → (a < next (memory s))%nat → running s !! t = Some p → announces a n p →
  moves l s = Some s' → (n < moves_of t l)%nat → gone_or_running a (memory s').
Proof.
  unfold moves_of. revert n p s. induction l as [|m l IH]; intros n p s Hd Hn Hp Ha Hl Hlen; [simpl in Hlen; lia|].
  simpl in Hl. destruct (move m s) as [s1|] eqn:Hm; [|done]. simpl in Hl.
  pose proof (move_disciplined _ _ _ Hd Hm) as Hd1. pose proof (move_next _ _ _ Hm) as Hn1.
  destruct (decide (m.1 = t)) as [Ht|Hne].
  - rewrite filter_cons_True in Hlen by done. simpl in Hlen. destruct p as [b|e k| |]; [done| |done..].
    destruct m as [t' c]. simpl in Ht. subst t'. destruct (move_access _ _ _ _ _ _ Hp Hm) as (x & He & Hp1 & _).
    assert (announces a n (Vis e k) → (∃ v, e = WriteRunning a v) ∨ ∃ n', n = S n' ∧ announces a n' (k x)) as Hcase.
    { destruct e; simpl; try (destruct n as [|n']; [done|by right; exists n']). intros ->. by left; eexists. }
    destruct (Hcase Ha) as [[v ->]|(n' & -> & Ha')].
    + eapply moves_keep; [exact Hd1|exact Hl|]. eapply access_announces; [exact He| |done]. by apply Hd in Hp as [Hv _].
    + eapply IH; [exact Hd1| |exact Hp1|exact Ha'|exact Hl|]; lia.
  - rewrite filter_cons_False in Hlen by done. eapply IH; [exact Hd1| | |exact Ha|exact Hl|exact Hlen]; [lia|].
    by rewrite (texec_other acc enabled call task_start t m s s1).
Qed.

(** The creating thread is about to test [running]. *)
Lemma moves_return a t k l s s' :
  disciplined s → gone_or_running a (memory s) → running s !! t = Some (Vis (ReadRunning a) k) →
  moves l s = Some s' → (2 < moves_of t l)%nat → ∃ b h, history s' = history s ++ h ∧ Return t b ∈ h.
Proof.
  unfold moves_of. revert s. induction l as [|m l IH]; intros s Hd Ha Hp Hl Hlen; [simpl in Hlen; lia|].
  simpl in Hl. destruct (move m s) as [s1|] eqn:Hm; [|done]. simpl in Hl.
  pose proof (move_disciplined _ _ _ Hd Hm) as Hd1. destruct (decide (m.1 = t)) as [Ht|Hne].
  - rewrite filter_cons_True in Hlen by done. simpl in Hlen.
    destruct m as [t' c]. simpl in Ht. subst t'. destruct (move_access _ _ _ _ _ _ Hp Hm) as (x & He & Hp1 & <-).
    simpl in He. unfold read_frame in He. destruct (frames (memory s) !! a) as [fr|] eqn:Hfr; [|done]. simpl in He.
    injection He as <- _. eapply ends_within_returns with (n := 1%nat); [exact Hp1| |exact Hl|unfold moves_of; lia].
    apply Hd in Hp as [Hk _]. by apply Hk, Ha.
  - rewrite filter_cons_False in Hlen by done. destruct (texec_history _ _ _ _ _ _ _ Hm) as [h1 Hh1].
    destruct (IH s1) as (b & h & Hh & Hb); [done|exact (move_keeps _ _ _ _ Hd Hm Ha)| |done..|].
    { by rewrite (texec_other acc enabled call task_start t m s s1). }
    exists b, (h1 ++ h). rewrite Hh, Hh1, app_assoc. split; [done|]. set_solver.
Qed.

(** What is to be shown of a system: no thread waits, a new thread is in its
    handler and has returned after [bound] accesses and three more, and its
    creator, which tests whether it is running, is out of [osal_task_create] two
    moves later. *)
Definition waiting_ends (bound : nat) : Prop :=
  ∀ n s, rtc (tstep acc enabled call task_start) (mk_threads (initial n) ∅ []) s →
  (∀ t e k, running s !! t = Some (Vis e k) → is_Some (move (t, None) s)) ∧
  ∀ t a s1 l1 s2,
    running s !! t = None → move (t, Some (Wrapper a)) s = Some s1 → moves l1 s1 = Some s2 →
    ((bound + 2 < moves_of t l1)%nat → ∃ b h, history s2 = history s1 ++ h ∧ Return t b ∈ h) ∧
    ((bound < moves_of t l1)%nat → ∀ c k l2 s3,
       running s2 !! c = Some (Vis (ReadRunning a) k) → moves l2 s2 = Some s3 → (2 < moves_of c l2)%nat →
       ∃ b h, history s3 = history s2 ++ h ∧ Return c b ∈ h).

Lemma waiting_ends_intro bound :
  (∀ n s, rtc (tstep acc enabled call task_start) (mk_threads (initial n) ∅ []) s →
     ¬ faulty acc enabled s ∧ sound (memory s)) →
  (∀ t a, announces a bound (call t (Wrapper a)) ∧ ends_within (bound + 2) (call t (Wrapper a))) →
  waiting_ends bound.
Proof.
  intros Hsound Hwrapper n s Hsteps. destruct (Hsound _ _ Hsteps) as [Hf Hs].
  pose proof (reachable_disciplined _ _ Hsteps) as Hd. split.
  - intros t e k Hp. destruct s as [r P h]. simpl in *. rewrite Hp. simpl.
    destruct (acc t e r) as [[x r']|] eqn:He; [by eauto|]. exfalso. apply Hf. by exists t, (Vis e k).
  - intros t a s1 l1 s2 Hp Hm Hl1. pose proof (move_disciplined _ _ _ Hd Hm) as Hd1.
    destruct (Hwrapper t a) as [Ha He].
    assert ((a < next (memory s1))%nat ∧ running s1 !! t = Some (call t (Wrapper a))) as [Hn Hp1].
    { destruct s as [r P h]. simpl in *. rewrite Hp in Hm. simpl in Hm.
      destruct (alive r !! t) as [[p'|]|] eqn:Hal; try done. destruct (Nat.eqb_spec a p') as [<-|]; [|done].
      injection Hm as <-. simpl. rewrite lookup_insert_eq. split; [|done].
      destruct (sound_new _ Hs _ _ Hal) as (fr & Hfr & _). by apply (sound_frames _ Hs) in Hfr. }
    split; intros Hlen; [by eapply ends_within_returns|]. intros c k l2 s3 Hc Hl2 Hlen2.
    eapply moves_return; [| |exact Hc|exact Hl2|exact Hlen2].
    + refine (tstep_programs _ _ _ _ leaves _ _ call_leaves leaves_tail Hd1 _). by eapply tschedule_reachable.
    + by eapply moves_announce.
Qed.
End schedules.

(** ** Properties *)

(** (C14) Creating tasks ends, on POSIX and on PikeOS. At any time every thread that is
    in [osal_task_create], or is new, can go on. In any schedule, a new thread is
    in its handler after 23, or 5, moves of its own, whatever the other threads
    do; and once it has made 21, or 3, moves and its creator tests [running], the
    creator has returned from [osal_task_create] after three moves. *)
Theorem task_create_returns `{!Config, !P4Codes} pthread_create_ret p4_create_ret setting_ret :
  @waiting_ends posix_port pthread_create_ret setting_ret task_call 20 ∧
  @waiting_ends p4_port p4_create_ret setting_ret p4_task_call 2.
Proof.
  split; apply waiting_ends_intro.
  - intros t [fuel h a attr|p]; [apply posix_create_leaves|apply posix_wrapper_leaves].
  - intros n s Hsteps. apply port_linearizable in Hsteps as (Hf & _ & Hs & _); [done| |].
    + intros. by apply posix_create_serves.
    + intros. by eapply wrapper_serves.
  - intros t a. split; [apply posix_wrapper_announces|apply posix_wrapper_ends].
  - intros t [fuel h a attr|p]; [apply p4_create_leaves|apply p4_wrapper_ok].
  - intros n s Hsteps. apply port_linearizable in Hsteps as (Hf & _ & Hs & _); [done| |].
    + intros. by apply p4_create_serves.
    + intros. by eapply p4_wrapper_serves.
  - intros t a. apply p4_wrapper_ok.
Qed.

(** On PikeOS, thread 0 has created thread 2 and slept once; thread 2 begins,
    announces itself and runs its handler; then thread 0 returns. *)
Module ReturnsSim.
Definition after (l : list (nat * option op)) (s : threads) : threads :=
  default s (tschedule P4Sim.acc enabled p4_task_call task_start l s).

Definition slept : threads :=
  after ((0%nat, Some (Create 3 42 5 (Some P4Sim.attr))) :: replicate 7 (0%nat, None)) (mk_threads (initial 1) ∅ []).
Definition begun : threads := after [(2%nat, Some (Wrapper 1))] slept.
Definition ran : threads := after (replicate 5 (2%nat, None)) begun.
Definition returned : threads := after (replicate 3 (0%nat, None)) ran.
End ReturnsSim.

Lemma task_create_returns_witness :
  (∃ b h, history ReturnsSim.ran = history ReturnsSim.begun ++ h ∧ Return 2 b ∈ h) ∧
  (∃ b h, history ReturnsSim.returned = history ReturnsSim.ran ++ h ∧ Return 0 b ∈ h).
Proof.
  destruct (proj2 (@task_create_returns linux_config Sim.codes (λ _, 0) P4Sim.create_answer (λ _ _, OSAL_OK))
    1%nat ReturnsSim.slept) as [_ Hends].
  { apply tschedule_reachable with (l := (0%nat, Some (Create 3 42 5 (Some P4Sim.attr))) :: replicate 7 (0%nat, None)).
    vm_compute; reflexivity. }
  destruct (Hends 2%nat 1%nat ReturnsSim.begun (replicate 5 (2%nat, None)) ReturnsSim.ran) as [Hran Hret];
    [vm_compute; reflexivity..|].
  split; [apply Hran; vm_compute; lia|].
  assert (∃ k, running ReturnsSim.ran !! 0%nat = Some (Vis (ReadRunning 1) k)) as [k Hk] by (eexists; vm_compute; reflexivity).
  apply (Hret ltac:(vm_compute; lia) 0%nat k (replicate 3 (0%nat, None)) ReturnsSim.returned Hk);
    [vm_compute; reflexivity|vm_compute; lia].
Defined.
