(* ===== verification/PikeosShm.v ===== *)
(** * PikeOS shared memory: src/pikeos/shm.c

    Over the calls of the virtualisation layer, the class [P4Shm]: files mapped
    into memory that is allocated beforehand. *)

From S2P Require Import Prelude Osal BinarySemaphore PosixShm IoShm PikeosTimer.

(** [vm_open] stores a descriptor when it succeeds; [vm_map fd size ptr] maps
    the file at [ptr]. *)
Class P4Shm (W : Type) := {
  vm_fd : Type;
  VM_O_RD : Z;
  VM_O_WR : Z;
  VM_O_CREAT : Z;
  VM_O_EXCL : Z;
  VM_O_MAP : Z;
  vm_open : list Z → Z → C W (Z * option vm_fd);
  p4ext_vmem_alloc_aligned : Z → C W (option loc);
  vm_map : option vm_fd → Z → loc → C W Z;
}.

Section shm.
Context {W : Type} `{!P4Codes, !P4Shm W}.

(** [fd] is [None] as long as it is not written. *)
Record osal_shm : Type := mk_shm { shm_fd : option vm_fd; shm_size : Z }.

Definition vm_oflags (attr : Z) : Z :=
  or_if (has attr OSAL_SHM_ATTR__FLAG__MAP) VM_O_MAP
  (or_if (has attr OSAL_SHM_ATTR__FLAG__EXCL) VM_O_EXCL
  (or_if (has attr OSAL_SHM_ATTR__FLAG__CREAT) VM_O_CREAT
  (or_if (has attr OSAL_SHM_ATTR__FLAG__RDWR) (Z.lor VM_O_RD VM_O_WR)
  (or_if (has attr OSAL_SHM_ATTR__FLAG__RDONLY) VM_O_RD 0)))).

Definition osal_shm_open (shm : option osal_shm) (name : option (list Z)) (attr : option Z) (size : Z) :
    C W (Z * osal_shm) :=
  shm ← assert_ptr shm;
  name ← assert_ptr name;
  let oflags := match attr with Some attr => vm_oflags attr | None => 0 end in
  '(local_retval, fd) ← vm_open name oflags;
  mret (if local_retval =? P4_E_OK then OSAL_OK
        else switch local_retval
          [(P4_E_PERM, OSAL_ERR_PERMISSION_DENIED); (P4_E_RESTRICTED, OSAL_ERR_PERMISSION_DENIED);
           (P4_E_NOTIMPL, OSAL_ERR_NOT_IMPLEMENTED); (P4_E_NAME, OSAL_ERR_INVALID_PARAM);
           (P4_E_NOENT, OSAL_ERR_NOT_FOUND); (P4_E_INVAL, OSAL_ERR_INVALID_PARAM);
           (P4_E_OOFILE, OSAL_ERR_SYSTEM_LIMIT_REACHED); (P4_E_NOCONTAINER, OSAL_ERR_SYSTEM_LIMIT_REACHED);
           (P4_E_CANCEL, OSAL_ERR_SYSTEM_LIMIT_REACHED); (P4_E_LIMIT, OSAL_ERR_SYSTEM_LIMIT_REACHED);
           (P4_E_MISMATCH, OSAL_ERR_OPERATION_FAILED); (P4_E_EXIST, OSAL_ERR_OPERATION_FAILED);
           (P4_E_IO, OSAL_ERR_OPERATION_FAILED); (P4_E_TIMEOUT, OSAL_ERR_TIMEOUT)]
          OSAL_ERR_OPERATION_FAILED,
        mk_shm (match fd with Some _ => fd | None => shm_fd shm end) size).

(** The [switch] has no default; [ret] is still [OSAL_OK]. *)
Definition osal_shm_map (shm : option osal_shm) (attr : option Z) (ptr : option unit) :
    C W (Z * option loc) :=
  shm ← assert_ptr shm;
  _ ← assert_ptr ptr;
  p ← p4ext_vmem_alloc_aligned (shm_size shm);
  match p with
  | None => mret (OSAL_ERR_OUT_OF_MEMORY, None)
  | Some l =>
      local_retval ← vm_map (shm_fd shm) (shm_size shm) l;
      mret (if local_retval =? P4_E_OK then OSAL_OK
            else switch local_retval
              [(P4_E_PERM, OSAL_ERR_PERMISSION_DENIED); (P4_E_NOTIMPL, OSAL_ERR_INVALID_PARAM);
               (P4_E_SIZE, OSAL_ERR_INVALID_PARAM); (P4_E_OVERFLOW, OSAL_ERR_INVALID_PARAM);
               (P4_E_INVAL, OSAL_ERR_INVALID_PARAM); (P4_E_TIMEOUT, OSAL_ERR_TIMEOUT);
               (P4_E_NOKMEM, OSAL_ERR_OUT_OF_MEMORY); (P4_E_CANCEL, OSAL_ERR_OPERATION_FAILED)]
              OSAL_OK, Some l)
  end.

Definition osal_shm_close (shm : option osal_shm) : C W Z :=
  _ ← assert_ptr shm; mret OSAL_OK.
End shm.

(** ** A concrete kernel

    [files] descriptors are open; [vm_map] answers with [answer]. *)
Module Sim.
Record world : Type := mk_world { files : nat; answer : Z }.

#[global] Instance shm : P4Shm world := {|
  vm_fd := nat;
  VM_O_RD := 1; VM_O_WR := 2; VM_O_CREAT := 4; VM_O_EXCL := 8; VM_O_MAP := 16;
  vm_open _ _ w := Ret (P4_E_OK, Some (files w)) (mk_world (S (files w)) (answer w));
  p4ext_vmem_alloc_aligned n w := Ret (if 0 <? n then Some 1%positive else None) w;
  vm_map _ _ _ w := Ret (answer w) w;
|}.
End Sim.

(** ** Properties *)

(** [osal_shm_open] reports [OSAL_OK] exactly when the file was opened: every
    error of [vm_open] is reported. *)
Theorem pikeos_shm_open_ok_iff {W} `{!P4Codes, !P4Shm W} shm name attr size (w w' : W) x fd :
  vm_open name (match attr with Some attr => vm_oflags attr | None => 0 end) w = Ret (x, fd) w' →
  wp (osal_shm_open (Some shm) (Some name) attr size) (λ r _,
    (r.1 = OSAL_OK ↔ x = P4_E_OK) ∧ shm_size r.2 = size) w.
Proof.
  intros Hopen. apply wp_bind, wp_ret, wp_bind, wp_ret, wp_bind. unfold wp at 1. rewrite Hopen.
  apply wp_ret. split; [|done]. cbn [fst]. destruct (Z.eqb_spec x P4_E_OK) as [->|Hx]; [done|].
  split; [|done]. intros Hok. exfalso. revert Hok. apply switch_not_ok.
  repeat (apply Forall_cons; split; [discriminate|]). by apply Forall_nil.
Qed.

Lemma pikeos_shm_open_ok_iff_witness :
  wp (osal_shm_open (Some (mk_shm None 0)) (Some [102; 0]) (Some 0x2) 4096) (λ r _,
    (r.1 = OSAL_OK ↔ P4_E_OK = P4_E_OK) ∧ shm_size r.2 = 4096)
    (Sim.mk_world 3 0).
Proof.
  exact (pikeos_shm_open_ok_iff (mk_shm None 0) [102; 0] (Some 0x2) 4096 (Sim.mk_world 3 0) (Sim.mk_world 4 0)
    P4_E_OK (Some 3%nat) eq_refl).
Defined.

(** When [vm_map] fails with a code the [switch] does not list,
    [osal_shm_map] returns [OSAL_OK] with the address of memory nothing is
    mapped to. *)
Theorem pikeos_shm_map_hides_error {W} `{!P4Codes, !P4Shm W} shm attr l (w w1 w2 : W) x :
  p4ext_vmem_alloc_aligned (shm_size shm) w = Ret (Some l) w1 →
  vm_map (shm_fd shm) (shm_size shm) l w1 = Ret x w2 →
  x ∉ [P4_E_PERM; P4_E_NOTIMPL; P4_E_SIZE; P4_E_OVERFLOW; P4_E_INVAL; P4_E_TIMEOUT; P4_E_NOKMEM; P4_E_CANCEL] →
  osal_shm_map (Some shm) attr (Some tt) w = Ret (OSAL_OK, Some l) w2.
Proof.
  intros Ha Hm Hx. unfold osal_shm_map. rewrite (bind_run _ _ shm w w), (bind_run _ _ tt w w) by done.
  rewrite (bind_run _ _ _ _ _ Ha), (bind_run _ _ _ _ _ Hm).
  rewrite switch_default by done. by destruct (x =? P4_E_OK).
Qed.

Lemma pikeos_shm_map_hides_error_witness :
  osal_shm_map (Some (mk_shm (Some 3%nat) 4096)) None (Some tt)
    (Sim.mk_world 4 16) = Ret (OSAL_OK, Some 1%positive) (Sim.mk_world 4 16).
Proof.
  refine (pikeos_shm_map_hides_error (mk_shm (Some 3%nat) 4096) None 1%positive (Sim.mk_world 4 16)
    (Sim.mk_world 4 16) (Sim.mk_world 4 16) 16 eq_refl eq_refl _).
  rewrite !elem_of_cons, elem_of_nil. simpl. intuition discriminate.
Defined.
