(* ===== verification/Double.v ===== *)
(** * Times in [double] with fractions

    The Win32 and the VxWorks back ends turn a time-out into milliseconds, or
    ticks, in [double]. A [double] is here an integer number of [2^-80], which
    is fine enough for every time of at least a nanosecond. *)

From S2P Require Import Prelude Osal Timer.

(** ** Dividing in [double]

    [dbl_quot n d] is the [double] nearest to [n / d], ties to even, when the
    quotient is 0 or has more than 53 bits before the point. *)
Definition dbl_quot (n d : Z) : Z :=
  let e := Z.log2 (n / d) - 52 in
  let m := d * 2 ^ e in
  let q := n / m in
  let r := n mod m in
  (if (m <? 2 * r) || ((2 * r =? m) && Z.odd q) then q + 1 else q) * 2 ^ e.

(** The number of [2^-80] in one. *)
Definition ONE : Z := 2 ^ 80.

(** [to->sec*1000. + to->nsec/1000000.] *)
Definition msec_double (to : osal_timer) : Z :=
  dbl (dbl (dbl (sec to) * 1000) * ONE + dbl_quot (dbl (nsec to) * ONE) 1000000).

(** ** Lemmas *)

(** A number of at most 53 significant bits is a [double]. *)
Lemma log2_multiple k e : 0 ≤ k < 2 ^ 53 → 0 ≤ e → 2 ^ 53 ≤ k * 2 ^ e → 0 ≤ Z.log2 (k * 2 ^ e) - 52 ≤ e.
Proof.
  intros Hk He Hz. assert (53 ≤ Z.log2 (k * 2 ^ e)) by (apply Z.log2_le_pow2; lia).
  assert (k * 2 ^ e < 2 ^ (53 + e)) by (rewrite Z.pow_add_r by lia; nia).
  assert (Z.log2 (k * 2 ^ e) < 53 + e) by (apply Z.log2_lt_pow2; lia). lia.
Qed.

Lemma multiple_mod k e f : 0 ≤ f ≤ e → (k * 2 ^ e) mod 2 ^ f = 0.
Proof.
  intros Hf. replace e with (e - f + f) by lia. rewrite Z.pow_add_r, Z.mul_assoc by lia.
  apply Z_mod_mult.
Qed.

Lemma dbl_multiple k e : 0 ≤ k < 2 ^ 53 → 0 ≤ e → dbl (k * 2 ^ e) = k * 2 ^ e.
Proof.
  intros Hk He. destruct (Z.lt_ge_cases (k * 2 ^ e) (2 ^ 53)) as [Hz|Hz]; [by apply dbl_small|].
  pose proof (log2_multiple k e Hk He Hz) as Hl.
  assert (53 ≤ Z.log2 (k * 2 ^ e)) by (apply Z.log2_le_pow2; lia).
  unfold dbl. destruct (Z.ltb_spec (k * 2 ^ e) (2 ^ 53)); [lia|].
  rewrite multiple_mod by lia. set (f := Z.log2 (k * 2 ^ e) - 52) in *.
  assert (0 < 2 ^ (f - 1)) by (apply Z.pow_pos_nonneg; lia).
  destruct (Z.ltb_spec (2 ^ (f - 1)) 0); [lia|]. destruct (Z.eqb_spec 0 (2 ^ (f - 1))); [lia|]. simpl.
  rewrite Z.mul_comm. symmetry. apply Z_div_exact_full_2; [lia|]. apply multiple_mod. lia.
Qed.

Lemma dbl_quot_nonneg n d : 0 ≤ n → 0 < d → 0 ≤ dbl_quot n d.
Proof.
  intros Hn Hd. unfold dbl_quot. set (e := Z.log2 (n / d) - 52). pose proof (Z.pow_nonneg 2 e ltac:(lia)).
  assert (0 ≤ n / (d * 2 ^ e)) by (destruct (Z.eq_dec (2 ^ e) 0) as [->|]; [by rewrite Z.mul_0_r, Zdiv_0_r|apply Z.div_pos; nia]).
  destruct (_ || _); nia.
Qed.

Lemma quot_error n d :
  0 < d → 2 ^ 53 ≤ n / d → 2 * Z.abs (dbl_quot n d * d - n) ≤ d * 2 ^ (Z.log2 (n / d) - 52).
Proof.
  intros Hd Hn. assert (53 ≤ Z.log2 (n / d)) by (apply Z.log2_le_pow2; lia). unfold dbl_quot.
  set (e := Z.log2 (n / d) - 52) in *. assert (0 < 2 ^ e) by (apply Z.pow_pos_nonneg; lia).
  pose proof (Z.div_mod n (d * 2 ^ e) ltac:(nia)) as Hdm.
  pose proof (Z.mod_pos_bound n (d * 2 ^ e) ltac:(nia)) as Hr.
  set (q := n / (d * 2 ^ e)) in *. set (r := n mod (d * 2 ^ e)) in *.
  destruct (Z.ltb_spec (d * 2 ^ e) (2 * r)); simpl; [nia|].
  destruct (Z.eqb_spec (2 * r) (d * 2 ^ e)); simpl; [destruct (Z.odd q)|]; nia.
Qed.

Lemma quot_exact k e d :
  0 < d → 0 ≤ k < 2 ^ 53 → 0 ≤ e → k = 0 ∨ 2 ^ 53 ≤ k * 2 ^ e → dbl_quot (d * (k * 2 ^ e)) d = k * 2 ^ e.
Proof.
  intros Hd Hk He [->|Hz].
  - rewrite Z.mul_0_l, Z.mul_0_r. unfold dbl_quot. rewrite Z.div_0_l by lia.
    replace (2 ^ (Z.log2 0 - 52)) with 0 by reflexivity. by rewrite !Z.mul_0_r.
  - pose proof (log2_multiple k e Hk He Hz) as Hl. unfold dbl_quot.
    rewrite (Z.mul_comm d (k * 2 ^ e)), Z.div_mul by lia. set (f := Z.log2 (k * 2 ^ e) - 52) in *.
    assert (0 < 2 ^ f) by (apply Z.pow_pos_nonneg; lia).
    rewrite (Z.mul_comm (k * 2 ^ e) d), Z.mul_mod_distr_l, multiple_mod, Z.mul_0_r by lia.
    rewrite Z.div_mul_cancel_l by lia.
    destruct (Z.ltb_spec (d * 2 ^ f) (2 * 0)); [nia|]. destruct (Z.eqb_spec (2 * 0) (d * 2 ^ f)); [nia|]. simpl.
    rewrite Z.mul_comm. symmetry. apply Z_div_exact_full_2; [lia|]. apply multiple_mod. lia.
Qed.

(** The quotient of the nanoseconds errs by at most [2^36] (in [2^-80]). *)
Lemma nsec_quot n :
  0 ≤ n < 1000000000 →
  0 ≤ dbl_quot (n * ONE) 1000000 ∧
  Z.abs (dbl_quot (n * ONE) 1000000 * 1000000 - n * ONE) ≤ 2 ^ 36 * 1000000 ∧
  (n mod 1000000 = 0 → dbl_quot (n * ONE) 1000000 = n / 1000000 * ONE).
Proof.
  intros Hn. destruct (Z.eq_dec n 0) as [->|Hn0]; [vm_compute; repeat split; discriminate|].
  assert (2 ^ 53 ≤ n * ONE / 1000000) as Hq by (apply Z.div_le_lower_bound; unfold ONE; lia).
  pose proof (quot_error (n * ONE) 1000000 eq_refl Hq) as He.
  assert (Z.log2 (n * ONE / 1000000) < 90) as Hl.
  { apply Z.log2_lt_pow2; [lia|]. apply Z.div_lt_upper_bound; unfold ONE; lia. }
  assert (2 ^ (Z.log2 (n * ONE / 1000000) - 52) ≤ 2 ^ 37) as Hp by (apply Z.pow_le_mono_r; lia).
  assert (Z.abs (dbl_quot (n * ONE) 1000000 * 1000000 - n * ONE) ≤ 2 ^ 36 * 1000000) as Ha by lia.
  split; [|split; [exact Ha|]].
  - unfold ONE in *. lia.
  - intros Hm. pose proof (Z.div_mod n 1000000 ltac:(done)) as Hdm. rewrite Hm, Z.add_0_r in Hdm.
    assert (0 < n / 1000000 < 1000) by lia.
    rewrite Hdm at 1. rewrite <- Z.mul_assoc. unfold ONE. apply quot_exact; lia.
Qed.

(** The milliseconds are exact, rounded down, for every time-out that fits. *)
Lemma msec_exact to :
  timer_wf to → timer_total to < 2 ^ 32 * 1000000 → msec_double to / ONE = timer_total to / 1000000.
Proof.
  unfold timer_wf, in_uint, timer_total, msec_double, NSEC_PER_SEC. intros [[Hs _] Hn] Ht.
  rewrite (dbl_small (sec to)), (dbl_small (nsec to)), (dbl_small (sec to * 1000)) by lia.
  destruct (nsec_quot (nsec to) Hn) as (Hq0 & Hq & Hx).
  set (q := dbl_quot (nsec to * ONE) 1000000) in *.
  replace ((sec to * 1000000000 + nsec to) / 1000000) with (sec to * 1000 + nsec to / 1000000)
    by (replace (sec to * 1000000000 + nsec to) with (nsec to + sec to * 1000 * 1000000) by lia;
        rewrite Z.div_add by lia; lia).
  pose proof (Z.div_mod (nsec to) 1000000 ltac:(done)) as Hdm.
  pose proof (Z.mod_pos_bound (nsec to) 1000000 ltac:(done)) as Hm.
  destruct (Z.eq_dec (nsec to mod 1000000) 0) as [H0|H0].
  - rewrite (Hx H0), <- Z.mul_add_distr_r. unfold ONE.
    rewrite dbl_multiple by lia. by apply Z.div_mul.
  - assert (Z.abs (dbl (sec to * 1000 * ONE + q) - (sec to * 1000 * ONE + q)) ≤ 2 ^ 58) as Hd.
    { destruct (Z.lt_ge_cases (sec to * 1000 * ONE + q) (2 ^ 53)) as [Hz|Hz]; [rewrite dbl_small by done; lia|].
      pose proof (dbl_error _ Hz) as He.
      assert (Z.log2 (sec to * 1000 * ONE + q) < 112) by (apply Z.log2_lt_pow2; unfold ONE in *; lia).
      assert (2 ^ (Z.log2 (sec to * 1000 * ONE + q) - 52) ≤ 2 ^ 59) by (apply Z.pow_le_mono_r; lia). lia. }
    symmetry. apply Z.div_unique_pos with (r := dbl (sec to * 1000 * ONE + q) - (sec to * 1000 + nsec to / 1000000) * ONE);
      unfold ONE in *; lia.
Qed.

