(* ===== verification/Win32.v ===== *)
(** * Win32 semaphores and mutexes: src/win32/

    semaphore.c, binary_semaphore.c and mutex.c, a Module each, over the calls
    of <windows.h>, the class [Win32]. The timed waits turn the time-out into
    milliseconds in [double] (Double). *)

From S2P Require Import Prelude Osal Timer Double.

(** [(DWORD)(...)]: towards zero, and undefined when it does not fit. *)
Definition msec_dword {W} (to : osal_timer) : C W Z :=
  let ms := msec_double to / ONE in if ms <? 2 ^ 32 then mret ms else undef.

(** Handles are numbers, NULL is 0; a BOOL is false when it is 0. *)
Class Win32 (W : Type) := {
  WAIT_OBJECT_0 : Z;
  WAIT_ABANDONED : Z;
  WAIT_TIMEOUT : Z;
  WAIT_FAILED : Z;
  INFINITE : Z;
  CreateSemaphoreW : Z → Z → C W Z;
  ReleaseSemaphore : Z → Z → C W Z;
  CreateMutexA : C W Z;
  ReleaseMutex : Z → C W Z;
  WaitForSingleObject : Z → Z → C W Z;
  CloseHandle : Z → C W Z;
}.

Section waits.
Context {W : Type} `{!Win32 W}.

(** What every wait makes of the result of WaitForSingleObject. *)
Definition wait_ret (local_ret : Z) : Z :=
  if local_ret =? WAIT_OBJECT_0 then OSAL_OK
  else if local_ret =? WAIT_ABANDONED then OSAL_ERR_OWNER_DEAD
  else if local_ret =? WAIT_TIMEOUT then OSAL_ERR_TIMEOUT
  else if local_ret =? WAIT_FAILED then OSAL_ERR_OPERATION_FAILED
  else OSAL_ERR_OPERATION_FAILED.

Definition bool_ret (local_ret : Z) : Z :=
  if local_ret =? 0 then OSAL_ERR_OPERATION_FAILED else OSAL_OK.
End waits.

(** The handle a structure holds is passed for the pointer to it. *)
Module Semaphore.
Section semaphore.
Context {W : Type} `{!Win32 W}.

Definition osal_semaphore_init (sem : option unit) (attr : option Z) (initval : Z) : C W (Z * Z) :=
  _ ← assert_ptr sem;
  h ← CreateSemaphoreW initval 0x7FFFFFF;
  mret (bool_ret h, h).

Definition osal_semaphore_post (sem : option Z) : C W Z :=
  h ← assert_ptr sem; r ← ReleaseSemaphore h 1; mret (bool_ret r).

Definition osal_semaphore_wait (sem : option Z) : C W Z :=
  h ← assert_ptr sem; r ← WaitForSingleObject h INFINITE; mret (wait_ret r).

Definition osal_semaphore_trywait (sem : option Z) : C W Z :=
  h ← assert_ptr sem; r ← WaitForSingleObject h 0; mret (wait_ret r).

Definition osal_semaphore_timedwait (sem : option Z) (to : option osal_timer) : C W Z :=
  h ← assert_ptr sem;
  to ← assert_ptr to;
  ms ← msec_dword to;
  r ← WaitForSingleObject h ms;
  mret (wait_ret r).

Definition osal_semaphore_destroy (sem : option Z) : C W Z :=
  h ← assert_ptr sem; r ← CloseHandle h; mret (bool_ret r).
End semaphore.
End Semaphore.

Module BinSem.
Section binary_semaphore.
Context {W : Type} `{!Win32 W}.

Definition osal_binary_semaphore_init (sem : option unit) (attr : option Z) : C W (Z * Z) :=
  _ ← assert_ptr sem;
  h ← CreateSemaphoreW 0 1;
  mret (bool_ret h, h).

Definition osal_binary_semaphore_post (sem : option Z) : C W Z :=
  h ← assert_ptr sem; r ← ReleaseSemaphore h 1; mret (bool_ret r).

Definition osal_binary_semaphore_wait (sem : option Z) : C W Z :=
  h ← assert_ptr sem; r ← WaitForSingleObject h INFINITE; mret (wait_ret r).

Definition osal_binary_semaphore_trywait (sem : option Z) : C W Z :=
  h ← assert_ptr sem; r ← WaitForSingleObject h 0; mret (wait_ret r).

Definition osal_binary_semaphore_timedwait (sem : option Z) (to : option osal_timer) : C W Z :=
  h ← assert_ptr sem;
  to ← assert_ptr to;
  ms ← msec_dword to;
  r ← WaitForSingleObject h ms;
  mret (wait_ret r).

Definition osal_binary_semaphore_destroy (sem : option Z) : C W Z :=
  h ← assert_ptr sem; r ← CloseHandle h; mret (bool_ret r).
End binary_semaphore.
End BinSem.

Module Mutex.
Section mutex.
Context {W : Type} `{!Win32 W}.

Definition osal_mutex_init (mtx : option unit) (attr : option Z) : C W (Z * Z) :=
  _ ← assert_ptr mtx; h ← CreateMutexA; mret (bool_ret h, h).

Definition osal_mutex_lock (mtx : option Z) : C W Z :=
  h ← assert_ptr mtx; r ← WaitForSingleObject h INFINITE; mret (wait_ret r).

Definition osal_mutex_trylock (mtx : option Z) : C W Z :=
  h ← assert_ptr mtx; r ← WaitForSingleObject h 0; mret (wait_ret r).

Definition osal_mutex_unlock (mtx : option Z) : C W Z :=
  h ← assert_ptr mtx; r ← ReleaseMutex h; mret (bool_ret r).

Definition osal_mutex_destroy (mtx : option Z) : C W Z :=
  h ← assert_ptr mtx; r ← CloseHandle h; mret (bool_ret r).
End mutex.
End Mutex.

(** ** What Windows promises

    For a semaphore no other thread uses meanwhile: [count h w] is its counter,
    [limit h w] the maximum it was created with. A wait that runs out has
    taken its milliseconds. [clock w] is the system time in nanoseconds. *)
Class Win32Laws (W : Type) `{!Win32 W} := {
  count : Z → W → Z;
  limit : Z → W → Z;
  clock : W → Z;
  create_law v m w :
    0 ≤ v ≤ m → wp (CreateSemaphoreW v m) (λ h w', h ≠ 0 → count h w' = v ∧ limit h w' = m) w;
  release_law h w :
    wp (ReleaseSemaphore h 1) (λ r w', limit h w' = limit h w ∧
      if count h w <? limit h w then r ≠ 0 ∧ count h w' = count h w + 1
      else r = 0 ∧ count h w' = count h w) w;
  wait_take_law h ms w :
    0 < count h w → wp (WaitForSingleObject h ms) (λ r w',
      r = WAIT_OBJECT_0 ∧ count h w' = count h w - 1 ∧ limit h w' = limit h w) w;
  wait_timeout_law h ms w :
    count h w ≤ 0 → 0 ≤ ms < INFINITE → wp (WaitForSingleObject h ms) (λ r w',
      r = WAIT_TIMEOUT ∧ count h w' = count h w ∧ limit h w' = limit h w ∧
      clock w + ms * 1000000 ≤ clock w') w;
  wait_for_ever_law h w : count h w ≤ 0 → WaitForSingleObject h INFINITE w = NoReturn;
  infinite_law : INFINITE = 2 ^ 32 - 1;
  wait_codes_law : NoDup [WAIT_OBJECT_0; WAIT_ABANDONED; WAIT_TIMEOUT; WAIT_FAILED];
}.

Section lemmas.
Context {W : Type} `{!Win32 W, !Win32Laws W}.
Implicit Types w : W.

Lemma wait_ret_timeout : wait_ret (W := W) WAIT_TIMEOUT = OSAL_ERR_TIMEOUT.
Proof.
  pose proof (wait_codes_law (W := W)) as Hc. rewrite !NoDup_cons, !not_elem_of_cons in Hc. unfold wait_ret.
  destruct (Z.eqb_spec WAIT_TIMEOUT WAIT_OBJECT_0); [naive_solver|].
  destruct (Z.eqb_spec WAIT_TIMEOUT WAIT_ABANDONED); [naive_solver|]. by rewrite Z.eqb_refl.
Qed.

Lemma wait_ret_object : wait_ret (W := W) WAIT_OBJECT_0 = OSAL_OK.
Proof. unfold wait_ret. by rewrite Z.eqb_refl. Qed.

(** A wait with a time: a unit is taken, or the time passes. *)
Lemma wait_spec h ms w :
  0 ≤ ms < INFINITE →
  wp (WaitForSingleObject h ms) (λ x w',
    let r := wait_ret x in limit h w' = limit h w ∧
    if 0 <? count h w then r = OSAL_OK ∧ count h w' = count h w - 1
    else r = OSAL_ERR_TIMEOUT ∧ count h w' = count h w ∧ clock w + ms * 1000000 ≤ clock w') w.
Proof.
  intros Hms. destruct (Z.ltb_spec 0 (count h w)) as [Hc|Hc].
  - eapply wp_mono; [by apply wait_take_law|]. intros x w' (-> & Hw' & Hl). split; [done|].
    by rewrite wait_ret_object.
  - eapply wp_mono; [by apply wait_timeout_law|]. intros x w' (-> & Hw' & Hl & Ht). split; [done|].
    by rewrite wait_ret_timeout.
Qed.
End lemmas.

(** ** A concrete system: one semaphore, a mutex and a clock *)
Module Sim.
Record world : Type := mk_world { cnt : Z; max : Z; time : Z }.

#[global] Instance win32 : Win32 world := {|
  WAIT_OBJECT_0 := 0; WAIT_ABANDONED := 0x80; WAIT_TIMEOUT := 0x102; WAIT_FAILED := 0xFFFFFFFF;
  INFINITE := 0xFFFFFFFF;
  CreateSemaphoreW v m w := Ret 7 (mk_world v m (time w));
  ReleaseSemaphore _ n w :=
    if cnt w <? max w then Ret 1 (mk_world (cnt w + 1) (max w) (time w)) else Ret 0 w;
  CreateMutexA w := Ret 7 w;
  ReleaseMutex _ w := Ret 1 w;
  WaitForSingleObject _ ms w :=
    if 0 <? cnt w then Ret 0 (mk_world (cnt w - 1) (max w) (time w))
    else if ms =? 0xFFFFFFFF then NoReturn
    else Ret 0x102 (mk_world (cnt w) (max w) (time w + ms * 1000000));
  CloseHandle _ w := Ret 1 w;
|}.

#[global] Instance laws : Win32Laws world.
Proof.
  refine {| count := λ _, cnt; limit := λ _, max; clock := time |}; try done.
  - intros h w. unfold wp; simpl. by destruct (cnt w <? max w).
  - intros h ms w Hc. unfold wp; simpl. by apply Z.ltb_lt in Hc as ->.
  - intros h ms w Hc Hms. unfold wp; simpl in *. apply Z.ltb_ge in Hc as ->.
    destruct (Z.eqb_spec ms 0xFFFFFFFF); [lia|done].
  - intros h w Hc. simpl. by apply Z.ltb_ge in Hc as ->.
  - repeat constructor; rewrite ?elem_of_cons, elem_of_nil; naive_solver.
Defined.
End Sim.

(** ** Properties *)

(** (C38) On Win32 the absolute time-out of [osal_semaphore_timedwait] is waited
    for from now on. The milliseconds are computed exactly, rounded down, in
    spite of the [double] arithmetic; but when no unit comes the call returns
    [OSAL_ERR_TIMEOUT] only after the whole time-out has passed again, however
    late it is; with the greatest number of milliseconds it does not return. *)
Theorem win32_timedwait_relative {W} `{!Win32 W, !Win32Laws W} h to (w : W) :
  timer_wf to → timer_total to < 2 ^ 32 * 1000000 →
  (timer_total to / 1000000 < INFINITE →
   wp (Semaphore.osal_semaphore_timedwait (Some h) (Some to)) (λ r w',
    if 0 <? count h w then r = OSAL_OK ∧ count h w' = count h w - 1
    else r = OSAL_ERR_TIMEOUT ∧ count h w' = count h w ∧ clock w + timer_total to < clock w' + 1000000) w) ∧
  (timer_total to / 1000000 = INFINITE → count h w ≤ 0 →
   Semaphore.osal_semaphore_timedwait (Some h) (Some to) w = NoReturn).
Proof.
  intros Hwf Ht. pose proof (msec_exact to Hwf Ht) as Hms.
  assert (0 ≤ timer_total to / 1000000 < 2 ^ 32) as Hb.
  { split; [apply Z.div_pos|apply Z.div_lt_upper_bound]; try lia.
    destruct Hwf as [[??] ?]. unfold timer_total, NSEC_PER_SEC in *. lia. }
  assert (∀ w : W, msec_dword to w = Ret (timer_total to / 1000000) w) as Hd.
  { intros w1. unfold msec_dword. rewrite Hms. destruct (Z.ltb_spec (timer_total to / 1000000) (2 ^ 32)); [done|lia]. }
  pose proof (Z.div_mod (timer_total to) 1000000 ltac:(done)).
  pose proof (Z.mod_pos_bound (timer_total to) 1000000 ltac:(done)). split.
  - intros Hi. apply wp_bind, wp_ret, wp_bind, wp_ret, wp_bind. unfold wp at 1. rewrite Hd. apply wp_bind.
    eapply wp_mono; [apply wait_spec; lia|]. intros x w' [_ Hx]. apply wp_ret. simpl in Hx.
    destruct (0 <? count h w); [done|]. destruct Hx as (-> & -> & Hc). split; [done|split; [done|lia]].
  - intros Hi Hc. unfold Semaphore.osal_semaphore_timedwait.
    rewrite (bind_run _ _ h w w), (bind_run _ _ to w w) by done. rewrite (bind_run _ _ _ _ _ (Hd w)), Hi.
    unfold mbind, C_bind. by rewrite wait_for_ever_law.
Qed.

Lemma win32_timedwait_relative_witness :
  wp (Semaphore.osal_semaphore_timedwait (Some 7) (Some (mk_timer 1000 500000)))
    (λ r w', r = OSAL_ERR_TIMEOUT ∧ Sim.cnt w' = 0 ∧ 999000000000 + 1000000500000 < Sim.time w' + 1000000)
    (Sim.mk_world 0 5 999000000000).
Proof.
  destruct (win32_timedwait_relative 7 (mk_timer 1000 500000) (Sim.mk_world 0 5 999000000000)) as [H _];
    [apply timer_wfb_spec; reflexivity|reflexivity|].
  eapply wp_mono; [apply H; reflexivity|]. intros r w' (-> & Hc & Ht). split; [reflexivity|].
  split; [exact Hc|].
  change (timer_total (mk_timer 1000 500000)) with 1000000500000 in Ht. exact Ht.
Defined.

(** The Win32 binary semaphore, used by one thread, refines a flag:
    initialised down, raised by post, which returns
    [OSAL_ERR_OPERATION_FAILED] when it is up already and leaves it up, lowered
    by a wait that returns [OSAL_OK]; trywait of a lowered flag returns
    [OSAL_ERR_TIMEOUT]. *)
Theorem win32_binary_semaphore_flag {W} `{!Win32 W, !Win32Laws W} attr h (w : W) :
  let flag h (b : bool) w := count h w = (if b then 1 else 0) ∧ limit h w = 1 in
  wp (BinSem.osal_binary_semaphore_init (Some tt) attr) (λ r w', r.1 = OSAL_OK → flag r.2 false w') w ∧
  ∀ b, flag h b w →
  wp (BinSem.osal_binary_semaphore_post (Some h)) (λ r w',
    r = (if b then OSAL_ERR_OPERATION_FAILED else OSAL_OK) ∧ flag h true w') w ∧
  wp (BinSem.osal_binary_semaphore_trywait (Some h)) (λ r w',
    r = (if b then OSAL_OK else OSAL_ERR_TIMEOUT) ∧ flag h false w') w ∧
  (if b then wp (BinSem.osal_binary_semaphore_wait (Some h)) (λ r w', r = OSAL_OK ∧ flag h false w') w
   else BinSem.osal_binary_semaphore_wait (Some h) w = NoReturn).
Proof.
  intros flag. split.
  - apply wp_bind, wp_ret, wp_bind. eapply wp_mono; [by apply create_law|]. intros h1 w' Hh. apply wp_ret.
    unfold bool_ret. simpl. destruct (Z.eqb_spec h1 0); [done|]. intros _. by apply Hh.
  - intros b [Hc Hl]. split; [|split].
    + apply wp_bind, wp_ret, wp_bind. eapply wp_mono; [apply release_law|]. intros x w'.
      rewrite Hc, Hl. unfold bool_ret, flag. intros [Hl' Hx]. apply wp_ret.
      destruct b; simpl in Hx; destruct Hx as [Hx ->]; [by subst x|]. by apply Z.eqb_neq in Hx as ->.
    + apply wp_bind, wp_ret, wp_bind. eapply wp_mono; [apply wait_spec; by rewrite infinite_law|].
      intros x w'. simpl. rewrite Hc, Hl. unfold flag. intros [Hl' Hx]. apply wp_ret.
      destruct b; simpl in Hx; [by destruct Hx as [-> ->]|by destruct Hx as (-> & -> & _)].
    + destruct b.
      * apply wp_bind, wp_ret, wp_bind. eapply wp_mono; [apply wait_take_law; lia|].
        intros x w' (-> & Hc' & Hl'). apply wp_ret. rewrite wait_ret_object. unfold flag.
        split; [done|]. split; [lia|congruence].
      * unfold BinSem.osal_binary_semaphore_wait. rewrite (bind_run _ _ h w w) by done.
        unfold mbind, C_bind. rewrite wait_for_ever_law; [done|lia].
Qed.

Lemma win32_binary_semaphore_flag_witness :
  wp (BinSem.osal_binary_semaphore_post (Some 7))
    (λ r w', r = OSAL_ERR_OPERATION_FAILED ∧ Sim.cnt w' = 1 ∧ Sim.max w' = 1) (Sim.mk_world 1 1 5).
Proof.
  refine (proj1 (proj2 (win32_binary_semaphore_flag None 7 (Sim.mk_world 1 1 5)) true _)).
  split; reflexivity.
Defined.
