(* ===== verification/VxWorks.v ===== *)
(** * VxWorks semaphores, mutexes and tasks: src/vxworks/

    binary_semaphore.c, semaphore.c, mutex.c and condvar.c, a Module each, and
    task.c, over the calls of semLib, condVarLib and taskLib, the class
    [VxWorks]. osal_condvar_timedwait of condvar.c calls [sysClkRateGet(void)],
    which is not C; the call without an argument is meant. *)

From S2P Require Import Prelude Osal Timer Double.

(** SEM_ID and CONDVAR_ID are numbers, the null ids are 0. A call that returns
    STATUS returns [OK] or [ERROR] and sets errno in the latter case. *)
Class VxWorks (W : Type) := {
  SEM_Q_FIFO : Z;
  SEM_EMPTY : Z;
  CONDVAR_Q_PRIORITY : Z;
  CONDVAR_INTERRUPTIBLE : Z;
  S_objLib_OBJ_ID_ERROR : Z;
  S_objLib_OBJ_UNAVAILABLE : Z;
  S_objLib_OBJ_TIMEOUT : Z;
  semBCreate : Z → Z → C W Z;
  semCCreate : Z → Z → C W Z;
  semMCreate : Z → C W Z;
  semTake : Z → Z → C W Z;
  semGive : Z → C W Z;
  semDelete : Z → C W Z;
  condVarCreate : Z → C W Z;
  condVarSignal : Z → C W Z;
  condVarBroadcast : Z → C W Z;
  condVarWait : Z → Z → Z → C W Z;
  condVarDelete : Z → C W Z;
  sysClkRateGet : C W Z;
  taskSpawn : list Z → Z → Z → Z → C W unit → C W Z;
}.

Definition OK : Z := 0.
Definition ERROR : Z := -1.
Definition WAIT_FOREVER : Z := -1.
Definition NO_WAIT : Z := 0.

(** [int ticks = ((to->sec * 1E3) + (to->nsec / 1E6)) / 60], in [double]: towards
    zero, and undefined when it does not fit. *)
Definition ticks_double (to : osal_timer) : Z := dbl_quot (msec_double to) 60.

Definition timeout_ticks {W} (to : osal_timer) : C W Z :=
  let t := ticks_double to / ONE in if t <? 2 ^ 31 then mret t else undef.

(** The id a structure holds is passed for the pointer to it. *)
Module BinSem.
Section binary_semaphore.
Context {W : Type} `{!VxWorks W}.

Definition osal_binary_semaphore_init (sem : option unit) (attr : option Z) : C W (Z * Z) :=
  _ ← assert_ptr sem; vx_sem ← semBCreate SEM_Q_FIFO SEM_EMPTY; mret (OSAL_OK, vx_sem).

Definition osal_binary_semaphore_post (sem : option Z) : C W Z :=
  vx_sem ← assert_ptr sem; _ ← semGive vx_sem; mret OSAL_OK.

Definition osal_binary_semaphore_wait (sem : option Z) : C W Z :=
  vx_sem ← assert_ptr sem; _ ← semTake vx_sem WAIT_FOREVER; mret OSAL_OK.

Definition osal_binary_semaphore_trywait (sem : option Z) : C W Z :=
  vx_sem ← assert_ptr sem; _ ← semTake vx_sem NO_WAIT; mret OSAL_OK.

Definition osal_binary_semaphore_timedwait (sem : option Z) (to : option osal_timer) : C W Z :=
  vx_sem ← assert_ptr sem;
  to ← deref to;
  ticks ← timeout_ticks to;
  _ ← semTake vx_sem ticks;
  mret OSAL_OK.

Definition osal_binary_semaphore_destroy (sem : option Z) : C W Z :=
  vx_sem ← assert_ptr sem; _ ← semDelete vx_sem; mret OSAL_OK.
End binary_semaphore.
End BinSem.

Module Semaphore.
Section semaphore.
Context {W : Type} `{!VxWorks W}.

Definition osal_semaphore_init (sem : option unit) (attr : option Z) (initval : Z) : C W (Z * Z) :=
  _ ← assert_ptr sem; vx_sem ← semCCreate SEM_Q_FIFO initval; mret (OSAL_OK, vx_sem).

Definition osal_semaphore_post (sem : option Z) : C W Z :=
  vx_sem ← assert_ptr sem; _ ← semGive vx_sem; mret OSAL_OK.

Definition osal_semaphore_wait (sem : option Z) : C W Z :=
  vx_sem ← assert_ptr sem; _ ← semTake vx_sem WAIT_FOREVER; mret OSAL_OK.

Definition osal_semaphore_trywait (sem : option Z) : C W Z :=
  vx_sem ← assert_ptr sem; _ ← semTake vx_sem NO_WAIT; mret OSAL_OK.

Definition osal_semaphore_timedwait (sem : option Z) (to : option osal_timer) : C W Z :=
  vx_sem ← assert_ptr sem;
  to ← assert_ptr to;
  ticks ← timeout_ticks to;
  _ ← semTake vx_sem ticks;
  mret OSAL_OK.

Definition osal_semaphore_destroy (sem : option Z) : C W Z :=
  vx_sem ← assert_ptr sem; _ ← semDelete vx_sem; mret OSAL_OK.
End semaphore.
End Semaphore.

Module Mutex.
Section mutex.
Context {W : Type} `{!VxWorks W}.

(** The switch of lock, trylock and unlock, over what the call returned. *)
Definition sem_ret (local_ret : Z) : Z :=
  if local_ret =? 0 then OSAL_OK
  else if local_ret =? S_objLib_OBJ_UNAVAILABLE then OSAL_ERR_UNAVAILABLE
  else if local_ret =? S_objLib_OBJ_ID_ERROR then OSAL_ERR_INVALID_PARAM
  else OSAL_ERR_UNAVAILABLE.

Definition osal_mutex_init (mtx : option unit) (attr : option Z) : C W (Z * Z) :=
  _ ← assert_ptr mtx;
  vxworks_mtx ← semMCreate SEM_Q_FIFO;
  mret (if vxworks_mtx =? 0 then OSAL_ERR_OUT_OF_MEMORY else OSAL_OK, vxworks_mtx).

Definition osal_mutex_lock (mtx : option Z) : C W Z :=
  vxworks_mtx ← assert_ptr mtx; local_ret ← semTake vxworks_mtx WAIT_FOREVER; mret (sem_ret local_ret).

Definition osal_mutex_trylock (mtx : option Z) : C W Z :=
  vxworks_mtx ← assert_ptr mtx; local_ret ← semTake vxworks_mtx NO_WAIT; mret (sem_ret local_ret).

Definition osal_mutex_unlock (mtx : option Z) : C W Z :=
  vxworks_mtx ← assert_ptr mtx; local_ret ← semGive vxworks_mtx; mret (sem_ret local_ret).

Definition osal_mutex_destroy (mtx : option Z) : C W Z :=
  vxworks_mtx ← assert_ptr mtx;
  local_ret ← semDelete vxworks_mtx;
  mret (if negb (local_ret =? 0) then OSAL_ERR_INVALID_PARAM else OSAL_OK).
End mutex.
End Mutex.

Module Condvar.
Section condvar.
Context {W : Type} `{!VxWorks W}.

Definition status_ret (local_ret : Z) : Z :=
  if negb (local_ret =? OK) then OSAL_ERR_INVALID_PARAM else OSAL_OK.

Definition osal_condvar_init (cv : option unit) (attr : option Z) : C W (Z * Z) :=
  _ ← assert_ptr cv;
  vxworks_cond ← condVarCreate (Z.lor CONDVAR_Q_PRIORITY CONDVAR_INTERRUPTIBLE);
  mret (OSAL_OK, vxworks_cond).

Definition osal_condvar_signal (cv : option Z) : C W Z :=
  vxworks_cond ← assert_ptr cv; local_ret ← condVarSignal vxworks_cond; mret (status_ret local_ret).

Definition osal_condvar_broadcast (cv : option Z) : C W Z :=
  vxworks_cond ← assert_ptr cv; local_ret ← condVarBroadcast vxworks_cond; mret (status_ret local_ret).

Definition osal_condvar_wait (cv mtx : option Z) : C W Z :=
  vxworks_cond ← assert_ptr cv;
  vxworks_mtx ← deref mtx;
  local_ret ← condVarWait vxworks_cond vxworks_mtx WAIT_FOREVER;
  mret (status_ret local_ret).

Definition osal_condvar_timedwait (cv mtx : option Z) (to : option osal_timer) : C W Z :=
  vxworks_cond ← assert_ptr cv;
  vxworks_mtx ← assert_ptr mtx;
  _ ← assert_ptr to;
  freq ← sysClkRateGet;
  local_ret ← condVarWait vxworks_cond vxworks_mtx WAIT_FOREVER;
  mret (if negb (local_ret =? OK) then
          if local_ret =? S_objLib_OBJ_TIMEOUT then OSAL_ERR_TIMEOUT else OSAL_ERR_INVALID_PARAM
        else OSAL_OK).

Definition osal_condvar_destroy (cv : option Z) : C W Z :=
  vxworks_cond ← assert_ptr cv; _ ← condVarDelete vxworks_cond; mret OSAL_OK.
End condvar.
End Condvar.

Module Task.
(** The members of [osal_task_attr_t] that are read. *)
Record osal_task_attr_t : Type := mk_attr { task_name : list Z; priority : Z }.

Definition TASK_NAME_LEN : Z := 64.

(** [strcpy] into an array of [n] bytes: the text up to and with its NUL. *)
Fixpoint strcpy_bytes (n : nat) (src : list Z) : option (list Z) :=
  match n, src with
  | S n, c :: src => if c =? 0 then Some [0] else cons c <$> strcpy_bytes n src
  | _, _ => None
  end.

Section task.
Context {W : Type} `{!VxWorks W}.

(** A handler is what it does with its argument; the new task runs it. *)
Definition vxworks_task_entry {A} (hdl : A → C W unit) (arg : A) : C W Z := hdl arg;; mret 0.

Definition osal_task_create {A} (hdl : option unit) (attr : option osal_task_attr_t)
    (handler : A → C W unit) (arg : A) : C W (Z * Z) :=
  attr ← deref attr;
  name ← deref (strcpy_bytes (Z.to_nat TASK_NAME_LEN) (task_name attr));
  _ ← deref hdl;
  tid ← taskSpawn name (priority attr) 0 0x1000 (_ ← vxworks_task_entry handler arg; mret tt);
  mret (OSAL_OK, tid).
End task.
End Task.

(** ** What VxWorks promises

    For a semaphore no other task uses meanwhile: [count h w] is its counter,
    [full h w] whether a give is lost, as on a binary semaphore that is full.
    [ticks w] counts the ticks of the system clock. Only ids are reported in
    the number a call returns; a STATUS is [OK] or [ERROR]. *)
Class VxWorksLaws (W : Type) `{!VxWorks W} := {
  count : Z → W → Z;
  full : Z → W → bool;
  ticks : W → Z;
  give_law h w :
    wp (semGive h) (λ _ w', count h w' = if full h w then count h w else count h w + 1) w;
  take_law h t w :
    0 < count h w → wp (semTake h t) (λ r w', r = OK ∧ count h w' = count h w - 1) w;
  take_timeout_law h t w :
    count h w ≤ 0 → 0 ≤ t → wp (semTake h t) (λ r w', r = ERROR ∧ count h w' = count h w ∧ ticks w + t ≤ ticks w') w;
  take_forever_law h w : count h w ≤ 0 → semTake h WAIT_FOREVER w = NoReturn;
  errno_law : S_objLib_OBJ_ID_ERROR ≠ ERROR ∧ S_objLib_OBJ_UNAVAILABLE ≠ ERROR ∧ S_objLib_OBJ_TIMEOUT ≠ ERROR;
  rate_law w : wp sysClkRateGet (λ _ w', w' = w) w;
  cond_wait_law c m t w : wlp (condVarWait c m t) (λ r _, r = OK ∨ r = ERROR) w;
}.

(** ** Lemmas *)

(** The milliseconds are 0 or large enough to be divided again. *)
Lemma msec_double_large to :
  timer_wf to → timer_total to < 2 ^ 32 * 1000000 → 0 < timer_total to → 2 ^ 59 ≤ msec_double to.
Proof.
  unfold timer_wf, in_uint, timer_total, msec_double, NSEC_PER_SEC. intros [[Hs _] Hn] Ht Hpos.
  rewrite (dbl_small (sec to)), (dbl_small (nsec to)), (dbl_small (sec to * 1000)) by lia.
  destruct (nsec_quot (nsec to) Hn) as (Hq0 & Hq & _).
  set (q := dbl_quot (nsec to * ONE) 1000000) in *.
  assert (2 ^ 60 - 2 ^ 37 ≤ sec to * 1000 * ONE + q) as Hz by (unfold ONE in *; nia).
  pose proof (dbl_error (sec to * 1000 * ONE + q) ltac:(lia)) as He.
  assert (0 ≤ Z.log2 (sec to * 1000 * ONE + q)) by apply Z.log2_nonneg.
  assert (2 ^ Z.log2 (sec to * 1000 * ONE + q) ≤ sec to * 1000 * ONE + q) as Hl by (apply Z.log2_spec; lia).
  set (z := sec to * 1000 * ONE + q) in *.
  assert (2 ^ (Z.log2 z - 52) ≤ 2 ^ (Z.log2 z - 1)) by (apply Z.pow_le_mono_r; lia).
  assert (59 ≤ Z.log2 z) by (apply Z.log2_le_pow2; lia).
  replace (2 ^ Z.log2 z) with (2 * 2 ^ (Z.log2 z - 1)) in Hl by (rewrite <- Z.pow_succ_r by lia; f_equal; lia).
  lia.
Qed.

(** The ticks are the milliseconds divided by 60, up to one. *)
Lemma ticks_close to :
  timer_wf to → timer_total to < 2 ^ 32 * 1000000 →
  Z.abs (ticks_double to / ONE - timer_total to / 60000000) ≤ 1 ∧ 0 ≤ ticks_double to / ONE < 2 ^ 31.
Proof.
  intros Hwf Ht. pose proof (msec_exact to Hwf Ht) as Hms.
  assert (0 ≤ timer_total to) as H0.
  { destruct Hwf as [[??] ?]. unfold timer_total, NSEC_PER_SEC. lia. }
  destruct (Z.eq_dec (timer_total to) 0) as [Hz|Hz].
  { destruct to as [s n], Hwf as [[? _] ?]. unfold timer_total, NSEC_PER_SEC in Hz. simpl in *.
    assert (s = 0) as -> by lia. assert (n = 0) as -> by lia. vm_compute. by repeat split. }
  pose proof (msec_double_large to Hwf Ht ltac:(lia)) as Hl. unfold ticks_double.
  replace (timer_total to / 60000000) with (timer_total to / 1000000 / 60)
    by (rewrite Z.div_div by lia; done).
  assert (timer_total to / 1000000 < 2 ^ 32) by (apply Z.div_lt_upper_bound; lia).
  rewrite <- Hms in *. set (m := msec_double to) in *.
  pose proof (quot_error m 60 eq_refl ltac:(apply Z.div_le_lower_bound; lia)) as He.
  set (q := dbl_quot m 60) in *.
  pose proof (Z.div_mod m ONE ltac:(done)) as Hdm. pose proof (Z.mod_pos_bound m ONE ltac:(done)) as Hm.
  assert (Z.log2 (m / 60) < 112) as Hlog.
  { apply Z.log2_lt_pow2; [apply Z.div_str_pos; lia|]. apply Z.div_lt_upper_bound; unfold ONE in *; lia. }
  assert (2 ^ (Z.log2 (m / 60) - 52) ≤ 2 ^ 59) as Hp by (apply Z.pow_le_mono_r; lia).
  set (t := m / ONE) in *. set (r := m mod ONE) in *.
  pose proof (Z.div_mod t 60 ltac:(done)). pose proof (Z.mod_pos_bound t 60 ltac:(done)).
  pose proof (Z.div_mod q ONE ltac:(done)). pose proof (Z.mod_pos_bound q ONE ltac:(done)).
  assert (0 ≤ q) by (apply dbl_quot_nonneg; lia).
  unfold ONE in *. split; [|split]; lia.
Qed.

Section lemmas.
Context {W : Type} `{!VxWorks W, !VxWorksLaws W}.
Implicit Types w : W.

Lemma timeout_ticks_run to w :
  timer_wf to → timer_total to < 2 ^ 32 * 1000000 →
  timeout_ticks to w = Ret (ticks_double to / ONE) w.
Proof.
  intros Hwf Ht. unfold timeout_ticks. destruct (ticks_close to Hwf Ht) as [_ [_ H]].
  by apply Z.ltb_lt in H as ->.
Qed.

(** A take with a time: a unit is taken, or the time passes. *)
Lemma take_spec h t w :
  0 ≤ t →
  wp (semTake h t) (λ r w', r = (if 0 <? count h w then OK else ERROR) ∧
    if 0 <? count h w then count h w' = count h w - 1
    else count h w' = count h w ∧ ticks w + t ≤ ticks w') w.
Proof.
  intros Ht. destruct (Z.ltb_spec 0 (count h w)) as [Hc|Hc]; [by apply take_law|].
  eapply wp_mono; [by apply take_timeout_law|]. naive_solver.
Qed.

Lemma sem_ret_status (b : bool) :
  Mutex.sem_ret (W := W) (if b then OK else ERROR) = if b then OSAL_OK else OSAL_ERR_UNAVAILABLE.
Proof.
  destruct errno_law as (H1 & H2 & _). unfold Mutex.sem_ret. destruct b; [done|].
  change (ERROR =? 0) with false. destruct (Z.eqb_spec ERROR S_objLib_OBJ_UNAVAILABLE); [congruence|].
  destruct (Z.eqb_spec ERROR S_objLib_OBJ_ID_ERROR); [congruence|done].
Qed.
End lemmas.

(** ** A concrete system: one semaphore and a clock *)
Module Sim.
Record world : Type := mk_world { cnt : Z; binary : bool; time : Z }.

Definition is_full (w : world) : bool := binary w && (0 <? cnt w).

#[global] Instance vxworks : VxWorks world := {|
  SEM_Q_FIFO := 0; SEM_EMPTY := 0; CONDVAR_Q_PRIORITY := 1; CONDVAR_INTERRUPTIBLE := 2;
  S_objLib_OBJ_ID_ERROR := 0x3D0001; S_objLib_OBJ_UNAVAILABLE := 0x3D0002;
  S_objLib_OBJ_TIMEOUT := 0x3D0004;
  semBCreate _ v w := Ret 7 (mk_world v true (time w));
  semCCreate _ v w := Ret 7 (mk_world v false (time w));
  semMCreate _ w := Ret 7 (mk_world 1 true (time w));
  semTake _ t w :=
    if 0 <? cnt w then Ret OK (mk_world (cnt w - 1) (binary w) (time w))
    else if t <? 0 then NoReturn else Ret ERROR (mk_world (cnt w) (binary w) (time w + t));
  semGive _ w := Ret OK (if is_full w then w else mk_world (cnt w + 1) (binary w) (time w));
  semDelete _ w := Ret OK w;
  condVarCreate _ w := Ret 8 w;
  condVarSignal _ w := Ret OK w;
  condVarBroadcast _ w := Ret OK w;
  condVarWait _ _ _ _ := NoReturn;
  condVarDelete _ w := Ret OK w;
  sysClkRateGet w := Ret 60 w;
  taskSpawn _ _ _ _ _ w := Ret 9 w;
|}.

#[global] Instance laws : VxWorksLaws world.
Proof.
  refine {| count := λ _, cnt; full := λ _, is_full; ticks := time |}.
  - intros h w. unfold wp. simpl. by destruct (is_full w).
  - intros h t w Hc. unfold wp. simpl. by apply Z.ltb_lt in Hc as ->.
  - intros h t w Hc Ht. unfold wp. simpl. apply Z.ltb_ge in Hc as ->. apply Z.ltb_ge in Ht as ->. simpl. lia.
  - intros h w Hc. simpl. by apply Z.ltb_ge in Hc as ->.
  - done.
  - done.
  - done.
Defined.
End Sim.

(** ** Properties *)

(** On VxWorks the waits of both semaphores do not say whether they got a unit:
    trywait and the timed wait take one if there is one, and return [OSAL_OK]
    in any case, the timed wait after one tick for every 60 milliseconds of the
    absolute time-out, counted from now on; a wait for a semaphore that is not
    posted does not return. *)
Theorem vxworks_waits_blind {W} `{!VxWorks W, !VxWorksLaws W} h to (w : W) :
  timer_wf to → timer_total to < 2 ^ 32 * 1000000 →
  let tried r w' := r = OSAL_OK ∧ count h w' = if 0 <? count h w then count h w - 1 else count h w in
  let timed r w' := r = OSAL_OK ∧
    if 0 <? count h w then count h w' = count h w - 1
    else count h w' = count h w ∧ ticks w + timer_total to / 60000000 - 1 ≤ ticks w' in
  wp (BinSem.osal_binary_semaphore_trywait (Some h)) tried w ∧
  wp (Semaphore.osal_semaphore_trywait (Some h)) tried w ∧
  wp (BinSem.osal_binary_semaphore_timedwait (Some h) (Some to)) timed w ∧
  wp (Semaphore.osal_semaphore_timedwait (Some h) (Some to)) timed w ∧
  (count h w ≤ 0 → BinSem.osal_binary_semaphore_wait (Some h) w = NoReturn ∧
                   Semaphore.osal_semaphore_wait (Some h) w = NoReturn).
Proof.
  intros Hwf Ht tried timed. destruct (ticks_close to Hwf Ht) as [Hc [H0 _]].
  assert (wp (_ ← semTake h NO_WAIT; mret OSAL_OK) tried w) as Htry.
  { apply wp_bind. eapply wp_mono; [by apply take_spec|]. intros r w' [_ H]. apply wp_ret. split; [done|].
    destruct (0 <? count h w); [done|]. by destruct H. }
  assert (wp (t ← timeout_ticks to; _ ← semTake h t; mret OSAL_OK) timed w) as Htimed.
  { apply wp_bind. unfold wp at 1. rewrite timeout_ticks_run by done. apply wp_bind.
    eapply wp_mono; [by apply take_spec|]. intros r w' [_ H]. apply wp_ret. split; [done|].
    destruct (0 <? count h w); [done|]. destruct H. split; [done|lia]. }
  split; [by apply wp_bind, wp_ret|]. split; [by apply wp_bind, wp_ret|].
  split; [by apply wp_bind, wp_ret, wp_bind, wp_ret|]. split; [by apply wp_bind, wp_ret, wp_bind, wp_ret|].
  intros Hz. split; unfold BinSem.osal_binary_semaphore_wait, Semaphore.osal_semaphore_wait;
    rewrite (bind_run _ _ h w w) by done; unfold mbind, C_bind; by rewrite take_forever_law.
Qed.

Lemma vxworks_waits_blind_witness :
  wp (BinSem.osal_binary_semaphore_trywait (Some 7)) (λ r w', r = OSAL_OK ∧ Sim.cnt w' = 0)
    (Sim.mk_world 0 true 5).
Proof.
  refine (proj1 (vxworks_waits_blind 7 (mk_timer 1 0) (Sim.mk_world 0 true 5) _ _)).
  - apply timer_wfb_spec. reflexivity.
  - reflexivity.
Defined.

(** The VxWorks mutex reports every failure of the call as
    [OSAL_ERR_UNAVAILABLE], a mutex that is held as well as an invalid one: the
    numbers that the switch tells apart are errno's. trylock returns [OSAL_OK]
    exactly when it takes the mutex. *)
Theorem vxworks_mutex_trylock {W} `{!VxWorks W, !VxWorksLaws W} h (w : W) :
  wp (Mutex.osal_mutex_trylock (Some h)) (λ r w',
    r = (if 0 <? count h w then OSAL_OK else OSAL_ERR_UNAVAILABLE) ∧
    count h w' = if 0 <? count h w then count h w - 1 else count h w) w.
Proof.
  apply wp_bind, wp_ret, wp_bind. eapply wp_mono; [by apply take_spec|]. intros r w' [-> H]. apply wp_ret.
  rewrite sem_ret_status. split; [done|]. destruct (0 <? count h w); [done|]. by destruct H.
Qed.

(** The time-out of a condition variable is not used: the timed wait is the
    untimed one, and never returns [OSAL_ERR_TIMEOUT]. *)
Theorem vxworks_condvar_timedwait_untimed {W} `{!VxWorks W, !VxWorksLaws W} c m to (w : W) :
  Condvar.osal_condvar_timedwait (Some c) (Some m) (Some to) w = Condvar.osal_condvar_wait (Some c) (Some m) w.
Proof.
  unfold Condvar.osal_condvar_timedwait, Condvar.osal_condvar_wait.
  do 3 (erewrite bind_run by done). symmetry. do 2 (erewrite bind_run by done). symmetry.
  destruct (wp_ret_inv _ _ _ (rate_law w)) as (r & w1 & Hr & ->). erewrite bind_run by exact Hr.
  pose proof (cond_wait_law c m WAIT_FOREVER w) as Hw. unfold mbind, C_bind, wlp in *.
  destruct (condVarWait c m WAIT_FOREVER w) as [r2 w2| | |]; [|done..].
  destruct errno_law as (_ & _ & Ht). unfold mret, C_ret, Condvar.status_ret. f_equal.
  destruct Hw as [-> | ->]; [done|]. change (ERROR =? OK) with false. cbn [negb]. by destruct (Z.eqb_spec ERROR S_objLib_OBJ_TIMEOUT).
Qed.
