(* ===== verification/Logger.v ===== *)
(** * The logger: src/tools/logger/main.c

    A process that maps the ring of IoShm and prints what the library's
    processes have printed into it, line by line. It composes the reader of
    src/io.c, its set-up and the timers; standard output is the list of the
    lines printed so far, a local of the loop.

    The property is about messages that fit their slot with a NUL; one that
    fills its slot makes the logger read past its array ([logger_overread]).
    Other processes print between the rounds of the logger or while it waits,
    not while it copies a message: IoShmShared has the accesses of the two
    interleaved, and IoShmThreads those of any number of processes. *)

From S2P Require Import Prelude Osal Timer BinarySemaphore IoShm.
Open Scope list_scope.

Class LoggerEnv (E : Type) := { osal_timer_init : Z → C (io E) osal_timer }.

(** The C string at the start of an array, up to its NUL. *)
Fixpoint c_string (s : list Z) : option (list Z) :=
  match s with
  | [] => None
  | c :: s => if c =? 0 then Some [] else cons c <$> c_string s
  end.

Section logger.
Context {E : Type} `{!IoEnv E, !LoggerEnv E}.

(** [printf("%s\n", msg);] *)
Definition print_line (msg : list Z) (out : list (list Z)) : C (io E) (list (list Z)) :=
  s ← deref (c_string msg); mret (out ++ [s]).

(** One round of the loop, with the array [msg] and the output so far. *)
Definition main_round (s : list Z * list (list Z)) : C (io E) (list Z * list (list Z)) :=
  let '(msg, out) := s in
  to ← osal_timer_init 10000000;
  '(ret, msg) ← osal_io_shm_get_message msg (Some to);
  if ret =? OSAL_OK then out ← print_line msg out; mret (msg, out)
  else mret (msg, out).

(** The bytes of a string literal. *)
Definition bytes (s : string) : list Z := (λ a, Z.of_N (Ascii.N_of_ascii a)) <$> String.list_ascii_of_string s.

(** What it returns and has printed to standard output. [junk] is what [msg]
    holds before it is written; [argv[0]] is a null pointer when [argc] is 0. *)
Definition main (fuel : nat) (junk : list Z) (argv : list (list Z)) : C (io E) (Z * list (list Z)) :=
  match argv with
  | _ :: shm_name :: _ =>
      let out := [bytes "SHM logger"] in
      _ ← osal_io_shm_setup (Some shm_name) 1000 512;
      cloop fuel (λ s, s ← main_round s; mret (inl s)) (junk, out)
  | [argv0] => mret (0, [bytes "usage: " ++ argv0 ++ bytes " <shm_name>"])
  | [] => undef
  end.

(** Rounds of the logger, another process printing [ms] before each of them. *)
Fixpoint session (batches : list (list (string * list farg))) (s : list Z * list (list Z)) :
    C (io E) (list Z * list (list Z)) :=
  match batches with
  | [] => mret s
  | ms :: batches => s ← (print_all ms;; main_round s); session batches s
  end.
End logger.

(** ** Specification *)

(** The text of a message, and that it fits into a slot with its NUL. *)
Definition text {E} `{!IoEnv E} (m : string * list farg) : list Z := take 529 (vtext m.1 m.2).
Definition fits {E} `{!IoEnv E} (n : Z) (m : string * list farg) : Prop := Z.of_nat (length (text m)) < n.

(** What has not been logged yet and what has been. *)
Definition log_state {E} `{!IoEnv E} : Type := list (string * list farg) * list (list Z).

(** Logging the oldest message, if there is one. *)
Definition taken {E} `{!IoEnv E} (s : log_state) : log_state :=
  match s.1 with [] => ([], s.2) | m :: q => (q, s.2 ++ [text m]) end.

(** A round takes one of the messages: those left, [h.1], which were printed
    since the last round, and [h.2], which arrive while it waits. *)
Definition log_round {E} `{!IoEnv E} (cap : nat) (s : log_state)
    (h : list (string * list farg) * list (string * list farg)) : log_state :=
  taken (foldl (push cap) s.1 (h.1 ++ h.2), s.2).

(** All that was printed, in order. *)
Definition printed (hs : list (list (string * list farg) * list (string * list farg))) : list (string * list farg) :=
  concat ((λ h, h.1 ++ h.2) <$> hs).

(** Calls leave the ring at [l] alone, but while the logger waits the other
    process may print. *)
Class LoggerLaws (E : Type) `{!IoEnv E, !LoggerEnv E} (l : loc) (n sz : Z) := {
  timer_init_law t (w : io E) :
    wp (osal_timer_init t) (λ _ w', osal_io_shm_buffer w' = osal_io_shm_buffer w ∧ regions w' = regions w) w;
  timedwait_law to (w : io E) q :
    io_rep l w n sz q →
    wp (osal_semaphore_timedwait l to) (λ _ w', ∃ ms, Forall (fits sz) ms ∧
      io_rep l w' n sz (foldl (push (Z.to_nat n - 1)) q (message sz <$> ms))) w;
}.

(** ** Lemmas *)

Lemma c_string_text t rest : Forall (λ c, c ≠ 0) t → c_string (t ++ 0 :: rest) = Some t.
Proof.
  induction t as [|c t IH]; intros Ht; [done|]. inversion_clear Ht as [|?? Hc Ht'].
  simpl. apply Z.eqb_neq in Hc as ->. by rewrite IH.
Qed.

Section lemmas.
Context {E : Type} `{!IoEnv E, !IoLaws E, !LoggerEnv E}.
Implicit Types w : io E.

Lemma message_c_string sz m rest :
  0 ≤ sz → fits sz m → c_string (message sz m ++ rest) = Some (text m).
Proof.
  intros Hs Hm. unfold fits, message, slot_text, text in *.
  rewrite take_ge, <- app_assoc by lia.
  destruct (Z.to_nat sz - length (take 529 (vtext m.1 m.2)))%nat as [|k] eqn:Hk; [lia|].
  apply c_string_text, Forall_take, vtext_law.
Qed.

Lemma io_rep_agree l w w' n sz q :
  osal_io_shm_buffer w' = osal_io_shm_buffer w → regions w' = regions w →
  io_rep l w n sz q → io_rep l w' n sz q.
Proof. intros Hb Hr [H1 H2]. split; [by rewrite Hb|by rewrite Hr]. Qed.
End lemmas.

(** A bounded queue forgets messages, it does not change or reorder them. *)
Lemma push_sublist {A} cap (q : list A) m : push cap q m `sublist_of` q ++ [m].
Proof. apply sublist_drop. Qed.

Lemma push_all_sublist {A} cap (q ms : list A) : foldl (push cap) q ms `sublist_of` q ++ ms.
Proof.
  revert q. induction ms as [|m ms IH]; intros q; simpl; [by rewrite app_nil_r|].
  etrans; [apply IH|]. rewrite cons_middle, app_assoc. apply sublist_app; [apply push_sublist|done].
Qed.

Lemma push_all_room {A} cap (q ms : list A) : (length q + length ms ≤ cap)%nat → foldl (push cap) q ms = q ++ ms.
Proof.
  revert q. induction ms as [|m ms IH]; intros q; simpl; intros Hc; [by rewrite app_nil_r|].
  unfold push at 2. replace (length q + 1 - cap)%nat with 0%nat by lia. rewrite drop_0.
  rewrite IH; [by rewrite <- app_assoc|]. rewrite length_app. simpl. lia.
Qed.

Lemma push_all_fmap {A B} (f : A → B) cap q ms :
  foldl (push cap) (f <$> q) (f <$> ms) = f <$> foldl (push cap) q ms.
Proof.
  revert q. induction ms as [|m ms IH]; intros q; [done|]. simpl. rewrite <- IH. f_equal.
  unfold push. rewrite length_fmap, fmap_drop, fmap_app. done.
Qed.

Lemma push_all_Forall {A} (P : A → Prop) cap q ms : Forall P q → Forall P ms → Forall P (foldl (push cap) q ms).
Proof.
  rewrite !Forall_forall. intros Hq Hms x Hx. apply (elem_of_sublist _ (q ++ ms)) in Hx; [|apply push_all_sublist].
  apply elem_of_app in Hx. naive_solver.
Qed.

Section rounds.
Context {E : Type} `{!IoEnv E, !IoLaws E, !LoggerEnv E} (l : loc) (n sz : Z) `{!LoggerLaws E l n sz}.
Implicit Types w : io E.

(** The array of the logger and the ring, in the state [s]. *)
Definition logging (s : log_state) (r : list Z * list (list Z)) w : Prop :=
  io_rep l w n sz (message sz <$> s.1) ∧ Forall (fits sz) s.1 ∧ r.2 = s.2 ∧
  length r.1 = Z.to_nat LIBOSAL_IO_SHM_MAX_MSG_SIZE.

Abbreviation cap := (Z.to_nat n - 1)%nat.

(** Taking the oldest message, if there is one, and printing it. *)
Definition print_got (out : list (list Z)) (a : Z * list Z) : C (io E) (list Z * list (list Z)) :=
  let '(ret, msg) := a in
  if ret =? OSAL_OK then out ← print_line msg out; mret (msg, out) else mret (msg, out).

Lemma take_step m q out msg w to :
  logging (m :: q, out) (msg, out) w →
  wp (osal_io_shm_get_message msg to)
    (λ a w', wp (print_got out a) (logging (taken (m :: q, out))) w') w.
Proof.
  intros (Hr & Hf & _ & Hl). simpl in *. inversion_clear Hf as [|?? Hm Hq].
  assert (0 ≤ sz ≤ 512) as Hs by (by destruct Hr as (_ & r & _ & _ & <- & (_ & Hs & _) & _)).
  eapply wp_mono; [by eapply get_step|]. intros ? w' [-> Hr']. simpl.
  apply wp_bind. unfold print_line. rewrite message_c_string by (done || lia).
  apply wp_ret, wp_ret. split; [exact Hr'|]. split; [done|]. split; [done|]. simpl.
  destruct (message_bytes sz m) as [Hb _]; [lia|]. apply strncpy_bytes_length in Hb.
  rewrite length_app, length_drop. unfold LIBOSAL_IO_SHM_MAX_MSG_SIZE in *. lia.
Qed.

Lemma take_none_step q out msg w :
  logging (q, out) (msg, out) w →
  wp (osal_io_shm_get_message msg None) (λ a w', wp (print_got out a) (logging (taken (q, out))) w') w.
Proof.
  intros Hw. destruct q as [|m q]; [|by apply take_step].
  destruct Hw as (Hr & Hw). unfold wp at 1. rewrite (get_step_empty _ _ _ _ _ Hr). by apply wp_ret.
Qed.

Lemma round_step q out msg ms w :
  logging (q, out) (msg, out) w → Forall (fits sz) ms →
  wp (print_all ms;; main_round (msg, out)) (λ r w', ∃ arr, Forall (fits sz) arr ∧
    logging (log_round cap (q, out) (ms, arr)) r w') w.
Proof.
  intros (Hr & Hf & _ & Hl) Hms. simpl in *. apply wp_bind. eapply wp_mono; [by apply print_all_step|].
  intros ? w1 H1. rewrite push_all_fmap in H1. apply wp_bind. eapply wp_mono; [apply timer_init_law|].
  intros to w2 [Hb2 Hr2]. pose proof (io_rep_agree _ _ _ _ _ _ Hb2 Hr2 H1) as H2. clear H1.
  assert (Forall (fits sz) (foldl (push cap) q ms)) as Hq by by apply push_all_Forall.
  unfold log_round. simpl. apply wp_bind. destruct (foldl (push cap) q ms) as [|m q'] eqn:Hpush.
  - eapply get_step_wait; [exact H2|]. eapply wp_mono; [by apply timedwait_law|].
    intros ? w3 (arr & Harr & H3). rewrite (push_all_fmap _ _ [] arr) in H3.
    eapply wp_mono; [apply (take_none_step (foldl (push cap) [] arr) out)|].
    + split; [exact H3|]. split; [by apply push_all_Forall|done].
    + intros a' w4 Hg. eapply wp_mono; [exact Hg|]. intros r w5 H5. exists arr. by rewrite foldl_app, Hpush.
  - eapply wp_mono; [by apply (take_step m q' out msg w2 (Some to))|].
    intros a' w3 Hg. eapply wp_mono; [exact Hg|]. intros r w4 H4. exists []. by rewrite app_nil_r, Hpush.
Qed.

(** The rounds follow [log_round], for some arrivals. *)
Lemma session_steps batches q out msg w :
  logging (q, out) (msg, out) w → Forall (Forall (fits sz)) batches →
  wp (session batches (msg, out)) (λ r w', ∃ hs, hs.*1 = batches ∧
    logging (foldl (log_round cap) (q, out) hs) r w') w.
Proof.
  revert q out msg w. induction batches as [|ms batches IH]; intros q out msg w Hw Hms.
  - apply wp_ret. by exists [].
  - apply Forall_cons in Hms as [Hm Hms]. cbn [session].
    apply wp_bind. eapply wp_mono; [by apply round_step|]. intros [msg1 out1] w1 (arr & _ & H1).
    destruct (log_round cap (q, out) (ms, arr)) as [q1 out2] eqn:Hr.
    assert (out1 = out2) as -> by apply H1.
    eapply wp_mono; [by apply IH|]. intros r w2 (hs & Hhs & H2). exists ((ms, arr) :: hs).
    split; [by rewrite fmap_cons, Hhs|]. simpl. by rewrite Hr.
Qed.
End rounds.

Lemma printed_cons h hs : printed (h :: hs) = (h.1 ++ h.2) ++ printed hs.
Proof. done. Qed.

(** What has been logged and what is left are, in order, messages that were
    printed; all of them, when the ring did not run over. *)
Lemma log_in_order {E} `{!IoEnv E} cap hs q out :
  let s := foldl (log_round cap) (q, out) hs in
  s.2 ++ (text <$> s.1) `sublist_of` out ++ (text <$> q ++ printed hs) ∧
  ((length q + length (printed hs) ≤ cap)%nat → s.2 ++ (text <$> s.1) = out ++ (text <$> q ++ printed hs)).
Proof.
  revert q out. induction hs as [|h hs IH]; intros q out.
  - simpl. by rewrite app_nil_r.
  - rewrite printed_cons. simpl. set (q1 := foldl (push cap) q (h.1 ++ h.2)).
    destruct (log_round cap (q, out) h) as [q2 out2] eqn:Hr.
    assert (out2 ++ (text <$> q2) = out ++ (text <$> q1)) as Heq.
    { unfold log_round, taken in Hr. simpl in Hr. fold q1 in Hr. destruct q1; simplify_eq/=; [done|].
      by rewrite <- app_assoc. }
    destruct (IH q2 out2) as [IH1 IH2]. rewrite !fmap_app, !app_assoc, Heq in IH1, IH2.
    rewrite !fmap_app, !app_assoc in *. split.
    + etrans; [exact IH1|]. apply sublist_app; [|done]. rewrite <- !app_assoc, <- !fmap_app.
      apply sublist_app; [done|]. unfold q1. rewrite <- push_all_fmap, (fmap_app _ q). apply push_all_sublist.
    + rewrite !length_app. intros Hlen. rewrite IH2.
      * unfold q1. rewrite push_all_room by (rewrite length_app; lia). by rewrite !fmap_app, !app_assoc.
      * unfold q1, log_round, taken in Hr. simpl in Hr. rewrite push_all_room in Hr by (rewrite length_app; lia).
        assert (length q2 ≤ length (q ++ h.1 ++ h.2))%nat by (destruct (q ++ h.1 ++ h.2); simplify_eq/=; lia).
        rewrite !length_app in *. lia.
Qed.

(** ** A concrete system: the ring of IoShm's, and a clock that stands still *)
Module Sim.
#[global] Instance env : LoggerEnv unit := {| osal_timer_init t := mret (timer_of_nsec t) |}.

#[global] Instance laws : LoggerLaws unit 1 3 4.
Proof.
  split; [done|]. intros to w q H. unfold wp. simpl. by exists [].
Defined.
End Sim.

(** ** Properties *)

(** (C19) Of the messages that fit their slot with a NUL, printed by other
    processes between two rounds of the logger or while it waits for one (not
    while it copies one out), what the logger has printed and what is still in
    the ring are messages that were printed, unchanged, in their order, and none
    of them twice; they are all the messages when no more than fit into the ring
    were printed. A round that finds a message prints one. *)
Theorem logger_in_order {E} `{!IoEnv E, !IoLaws E, !LoggerEnv E} l n sz `{!LoggerLaws E l n sz} batches junk (w : io E) :
  io_rep l w n sz [] → length junk = 512%nat → Forall (Forall (fits sz)) batches →
  wp (session batches (junk, []))
    (λ '(_, out) w', ∃ hs q, hs.*1 = batches ∧ io_rep l w' n sz (message sz <$> q) ∧
      let cap := (Z.to_nat n - 1)%nat in
      foldl (log_round cap) ([], []) hs = (q, out) ∧
      out ++ (text <$> q) `sublist_of` (text <$> printed hs) ∧
      ((length (printed hs) ≤ cap)%nat → out ++ (text <$> q) = text <$> printed hs)) w.
Proof.
  intros Hr Hjunk Hb. eapply wp_mono.
  - apply (session_steps l n sz batches [] [] junk); [|done]. split; [exact Hr|]. split; [constructor|done].
  - intros [msg out] w' (hs & Hhs & Hl). destruct (foldl (log_round (Z.to_nat n - 1)) ([], []) hs) as [q out'] eqn:Hf.
    destruct Hl as (Hr' & _ & Hout & _). simpl in *. subst out'. exists hs, q.
    destruct (log_in_order (Z.to_nat n - 1) hs [] []) as [H1 H2]. rewrite Hf in H1, H2. done.
Qed.

Lemma logger_in_order_witness :
  wp (session [[("a"%string, []); ("bc"%string, [])]; []] (replicate 512 7, []))
    (λ '(_, out) _, ∃ hs, hs.*1 = [[("a"%string, []); ("bc"%string, [])]; []] ∧
      out `sublist_of` (text <$> printed hs)) IoShm.Sim.world3.
Proof.
  eapply wp_mono.
  - apply (logger_in_order 1%positive 3 4); [exact IoShm.Sim.world3_rep|reflexivity|].
    repeat constructor.
  - intros [msg out] w' (hs & q & Hhs & _ & _ & H & _). exists hs. split; [exact Hhs|].
    etrans; [|exact H]. by apply sublist_inserts_r.
Defined.

(** A message that fills its slot has no NUL there, and printing the array it
    was copied to reads past the end of it. *)
Lemma logger_overread {E} `{!IoEnv E} (msg : list Z) out (w : io E) :
  Forall (λ c, c ≠ 0) msg → print_line msg out w = Undef.
Proof.
  intros H. apply bind_undef. assert (c_string msg = None) as ->; [|done].
  induction H as [|c s Hc _ IH]; [done|]. simpl. apply Z.eqb_neq in Hc as ->. by rewrite IH.
Qed.
