(* ===== verification/ShmTest.v ===== *)
(** * The test tool for shared memory: src/tools/shmtest/main.c

    A program over the POSIX osal_shm functions (PosixShm) and [osal_printf]
    (IoShm), which prints to standard output here. The bytes of a mapping are
    reached by [segment]. No return code of the calls is looked at: when the
    segment cannot be mapped the program goes on with what [mmap] has returned. *)

From S2P Require Import Prelude Osal Timer BinarySemaphore IoShm PosixShm Logger.
Open Scope list_scope.

(** The memory behind an address, as far as it is mapped. *)
Class MappedMemory (W : Type) := {
  segment : loc → W → option (list Z);
  set_segment : loc → list Z → W → W;
}.

Definition bytes_of (s : string) : list Z := (λ c, Z.of_N (Ascii.N_of_ascii c)) <$> String.list_ascii_of_string s.

Definition greeting : list Z := bytes_of "Hallo shared memory!".

Section shmtest.
Context {E : Type} `{!IoEnv E, !PosixShmOS (io E), !MappedMemory (io E)}.

(** The string that a [%s] prints. *)
Definition read_string (l : loc) : C (io E) (list Z) :=
  bs ← gets (segment l); bs ← deref bs; deref (c_string bs).

(** [sprintf] of a text without conversions. *)
Definition sprintf_text (l : loc) (text : list Z) : C (io E) unit :=
  bs ← gets (segment l);
  bs ← deref bs;
  if (length text + 1 <=? length bs)%nat
  then modify (set_segment l (text ++ [0] ++ drop (length text + 1) bs))
  else undef.

(** [junk] is what [shm] holds before it is opened. *)
Definition open_and_map (junk : osal_shm_t) (shm_name : list Z) : C (io E) (osal_shm_t * option loc) :=
  let shm_attr := Z.lor (Z.lor (Z.lor PosixShm.OSAL_SHM_ATTR__FLAG__CREAT PosixShm.OSAL_SHM_ATTR__FLAG__RDWR)
                               OSAL_SHM_ATTR__FLAG__MAP)
                        (Z.shiftl 0x1B6 PosixShm.OSAL_SHM_ATTR__MODE__SHIFT) in
  '(local_ret, shm) ← PosixShm.osal_shm_open (Some junk) (Some shm_name) (Some shm_attr) 0x1000;
  _ ← osal_printf (Some "opened shm: fd %d, local_ret %d\n"%string) [AInt (fd shm); AInt local_ret];
  let shm_map_attr := Z.lor (Z.lor PosixShm.OSAL_SHM_MAP_ATTR__SHARED PosixShm.OSAL_SHM_MAP_ATTR__PROT_READ)
                            PosixShm.OSAL_SHM_MAP_ATTR__PROT_WRITE in
  '(local_ret, shm_mem) ← PosixShm.osal_shm_map (Some shm) (Some shm_map_attr) (Some tt);
  _ ← osal_printf (Some "mapped shared memory: %p, local_ret %d\n"%string) [APtr; AInt local_ret];
  mret (shm, shm_mem).

Definition main (junk : osal_shm_t) (argv : list (list Z)) : C (io E) Z :=
  match argv with
  | _ :: shm_name :: _ =>
      '(shm, shm_mem) ← open_and_map junk shm_name;
      l ← deref shm_mem;
      content ← read_string l;
      _ ← osal_printf (Some "content: %s\n"%string) [AStr content];
      sprintf_text l greeting;;
      _ ← osal_shm_close (Some shm);
      mret 0
  | [name] => _ ← osal_printf (Some "usage: %s <shm_name>\n"%string) [AStr name]; mret 0
  | [] => undef
  end.
End shmtest.

(** Printing to standard output and closing a descriptor leave mappings alone. *)
Class ShmTestLaws (E : Type) `{!IoEnv E, !PosixShmOS (io E), !MappedMemory (io E)} := {
  segment_set_law l bs (w : io E) : segment l (set_segment l bs w) = Some bs;
  segment_puts_law s l (w : io E) :
    wp (osal_puts s) (λ _ w', osal_io_shm_buffer w' = osal_io_shm_buffer w ∧ segment l w' = segment l w) w;
  segment_close_law f l (w : io E) : wp (close f) (λ _ w', segment l w' = segment l w) w;
}.

(** ** Lemmas *)
Section lemmas.
Context {E : Type} `{!IoEnv E, !PosixShmOS (io E), !MappedMemory (io E), !ShmTestLaws E}.
Implicit Types w : io E.

(** Without a ring [osal_printf] prints to standard output. *)
Lemma printf_stdout fmt args l w :
  osal_io_shm_buffer w = None →
  wp (osal_printf (Some fmt) args) (λ r w', osal_io_shm_buffer w' = None ∧ segment l w' = segment l w) w.
Proof.
  intros Hb. unfold osal_printf. apply wp_bind, wp_ret, wp_bind. unfold wp at 1, gets. rewrite Hb.
  apply wp_bind. eapply wp_mono; [apply (segment_puts_law _ l)|]. intros r w' [Hb' Hs]. apply wp_ret. by rewrite Hb', Hb.
Qed.
End lemmas.

(** ** A concrete system: one file of zeros, mapped at 1 *)
Module Sim.
Abbreviation memory := (gmap loc (list Z)).

#[global] Instance ext : IoEnv memory := {|
  vtext fmt _ := filter (λ z, z ≠ 0) (bytes_of fmt);
  osal_puts _ := mret OSAL_OK; osal_semaphore_init _ _ _ := mret OSAL_OK; osal_semaphore_post _ := mret OSAL_OK;
  osal_semaphore_timedwait _ _ := mret OSAL_ERR_TIMEOUT; osal_mutex_init _ _ := mret OSAL_OK;
  IoShm.osal_shm_open _ _ _ := mret OSAL_OK; IoShm.osal_shm_map _ := mret (OSAL_OK, None);
|}.

#[global] Instance shm_os : PosixShmOS (io memory) := {|
  shm_open _ _ _ := mret (3, 0);
  fstat_size _ := mret (Some 0);
  ftruncate _ _ := mret 0;
  mmap n _ _ _ w :=
    Ret (Some 1%positive, 0) (mk_io (osal_io_shm_buffer w) (regions w) (<[1%positive := replicate (Z.to_nat n) 0]> (env w)));
  close _ := mret 0;
|}.

#[global] Instance mem : MappedMemory (io memory) := {|
  segment l w := env w !! l;
  set_segment l bs w := mk_io (osal_io_shm_buffer w) (regions w) (<[l := bs]> (env w));
|}.

#[global] Instance laws : ShmTestLaws memory.
Proof. split; [|done..]. intros l bs w. apply lookup_insert_eq. Qed.

Definition world : io memory := mk_io None ∅ ∅.
End Sim.

(** ** Properties *)

(** When the segment is mapped, holds a string and has room for the text, the
    program ends with 0 and the segment begins with the text, the rest being as
    it was. *)
Theorem shmtest_writes {E} `{!IoEnv E, !PosixShmOS (io E), !MappedMemory (io E), !ShmTestLaws E}
    junk name shm_name shm l bs s (w w1 : io E) :
  open_and_map junk shm_name w = Ret (shm, Some l) w1 → osal_io_shm_buffer w1 = None →
  segment l w1 = Some bs → c_string bs = Some s → (length greeting < length bs)%nat →
  wp (main junk [name; shm_name])
    (λ r w', r = 0 ∧ segment l w' = Some (greeting ++ [0] ++ drop (length greeting + 1) bs)) w.
Proof.
  intros Hm Hb Hs Hstr Hlen. unfold main. apply wp_bind. unfold wp at 1. rewrite Hm.
  apply wp_bind, wp_ret, wp_bind. unfold read_string. apply wp_bind. unfold wp at 1, gets. rewrite Hs.
  apply wp_bind, wp_ret. rewrite Hstr. apply wp_ret, wp_bind.
  eapply wp_mono; [by apply (printf_stdout _ _ l)|]. intros r w2 [Hb2 Hs2]. apply wp_bind. unfold sprintf_text.
  apply wp_bind. unfold wp at 1, gets. rewrite Hs2, Hs. apply wp_bind, wp_ret.
  destruct (Nat.leb_spec (length greeting + 1) (length bs)); [|lia]. unfold wp at 1, modify.
  apply wp_bind. unfold osal_shm_close. apply wp_bind, wp_ret, wp_bind.
  eapply wp_mono; [apply (segment_close_law _ l)|]. intros r2 w3 Hs3. apply wp_ret, wp_ret.
  split; [done|]. by rewrite Hs3, segment_set_law.
Qed.

Lemma shmtest_writes_witness :
  wp (main (mk_shm 0 0) [[97]; [98]])
    (λ r w', r = 0 ∧ segment 1%positive w' = Some (greeting ++ [0] ++ drop 21 (replicate (Z.to_nat 4096) 0))) Sim.world.
Proof.
  refine (shmtest_writes (mk_shm 0 0) [97] [98] (mk_shm 3 4096) 1%positive (replicate (Z.to_nat 4096) 0) [] Sim.world
    (mk_io None ∅ {[1%positive := replicate (Z.to_nat 4096) 0]}) _ _ _ _ _); (reflexivity || (vm_compute; lia)).
Defined.

(** The result of [osal_shm_map] is printed and not looked at: without a mapping
    the program reads through the pointer all the same. *)
Theorem shmtest_unmapped {E} `{!IoEnv E, !PosixShmOS (io E), !MappedMemory (io E)} junk name shm_name shm (w w1 : io E) :
  open_and_map junk shm_name w = Ret (shm, None) w1 → main junk [name; shm_name] w = Undef.
Proof. intros Hm. unfold main. by erewrite bind_run by exact Hm. Qed.
