(* ===== verification/Heap.v ===== *)
(** * Memory and a separation logic for it

    The macros of include/libosal/queue.h work on structures linked by pointers
    to objects and by pointers to pointers. Memory is a finite map of cells; a
    cell is a member of an object. Assertions on memory ([hprop]) are an Iris
    logic, so that the proof mode splits memory among the structures, and
    [hwp c Q] is the weakest precondition of a C computation [c]: what is not
    mentioned in it is not touched. *)

From S2P Require Import Prelude BinarySemaphore.
From iris.bi Require Import bi.
From iris.proofmode Require Import proofmode environments.

(** ** Memory *)

(** The [n]-th pointer of the object at [l]. *)
Definition cell : Type := loc * nat.

(** What a cell holds: a pointer to an object, a pointer to a cell, or what
    was there before it was written. *)
Inductive cval : Type := VPtr (p : option loc) | VCell (c : cell) | VUndef.

Definition mem : Type := gmap cell cval.

Definition load (c : cell) : C mem cval := λ m,
  match m !! c with Some v => Ret v m | None => Undef end.

Definition store (c : cell) (v : cval) : C mem unit := λ m,
  match m !! c with Some _ => Ret tt (<[c := v]> m) | None => Undef end.

(** Reading a [struct type *] and a [struct type **]. *)
Definition load_ptr (c : cell) : C mem (option loc) :=
  v ← load c; match v with VPtr p => mret p | _ => undef end.

Definition load_cell (c : cell) : C mem cell :=
  v ← load c; match v with VCell c => mret c | _ => undef end.

(** [p == q] *)
Definition ptr_eq (p q : option loc) : bool := bool_decide (p = q).

(** ** Assertions

    An assertion that holds of a memory holds of every larger one. *)
Record hprop : Type := HProp {
  holds : mem → Prop;
  holds_mono m1 m2 : m1 ⊆ m2 → holds m1 → holds m2;
}.
Arguments holds : simpl never.

Section ofe.
Inductive hprop_equiv (P Q : hprop) : Prop := { hprop_eqv m : holds P m ↔ holds Q m }.
#[local] Instance hprop_equiv_inst : Equiv hprop := hprop_equiv.
#[local] Instance hprop_equivalence : Equivalence (≡@{hprop}).
Proof.
  split.
  - by intros P.
  - intros P Q [H]. split. naive_solver.
  - intros P Q R [H1] [H2]. split. naive_solver.
Qed.
Canonical Structure hpropO := discreteO hprop.
End ofe.

Inductive hentails (P Q : hprop) : Prop := { hentail m : holds P m → holds Q m }.

Section connectives.
Program Definition hpure (φ : Prop) : hprop := HProp (λ _, φ) _.
Next Obligation. done. Qed.

Definition hemp : hprop := hpure True.

Program Definition hand (P Q : hprop) : hprop := HProp (λ m, holds P m ∧ holds Q m) _.
Next Obligation. intros P Q m1 m2 Hm [HP HQ]. split; by eapply holds_mono. Qed.

Program Definition hor (P Q : hprop) : hprop := HProp (λ m, holds P m ∨ holds Q m) _.
Next Obligation. intros P Q m1 m2 Hm [HP|HQ]; [left|right]; by eapply holds_mono. Qed.

Program Definition himpl (P Q : hprop) : hprop := HProp (λ m, ∀ m', m ⊆ m' → holds P m' → holds Q m') _.
Next Obligation. intros P Q m1 m2 Hm H m' Hm'. apply H. by etrans. Qed.

Program Definition hforall A (Φ : A → hprop) : hprop := HProp (λ m, ∀ a, holds (Φ a) m) _.
Next Obligation. intros A Φ m1 m2 Hm H a. eapply holds_mono; [done|apply H]. Qed.

Program Definition hexist A (Φ : A → hprop) : hprop := HProp (λ m, ∃ a, holds (Φ a) m) _.
Next Obligation. intros A Φ m1 m2 Hm [a H]. exists a. by eapply holds_mono. Qed.

Program Definition hsep (P Q : hprop) : hprop :=
  HProp (λ m, ∃ m1 m2, m = m1 ∪ m2 ∧ m1 ##ₘ m2 ∧ holds P m1 ∧ holds Q m2) _.
Next Obligation.
  intros P Q m1 m2 Hm (n1 & n2 & -> & Hd & HP & HQ). exists n1, (m2 ∖ n1).
  assert (n1 ⊆ m2) by (etrans; [apply map_union_subseteq_l|done]).
  split; [symmetry; by apply map_difference_union|]. split; [by apply map_disjoint_difference_r1|].
  split; [done|]. eapply holds_mono; [|exact HQ]. apply map_subseteq_spec. intros c v Hc.
  apply lookup_difference_Some. split.
  - apply (lookup_weaken (n1 ∪ n2)); [|done]. rewrite lookup_union_r //. by eapply map_disjoint_Some_r.
  - by eapply map_disjoint_Some_r.
Qed.

Program Definition hwand (P Q : hprop) : hprop :=
  HProp (λ m, ∀ m', m ##ₘ m' → holds P m' → holds Q (m ∪ m')) _.
Next Obligation.
  intros P Q m1 m2 Hm H m' Hd HP. eapply holds_mono; [|apply H; [|exact HP]].
  - apply map_union_mono_r; [done|done].
  - by eapply map_disjoint_weaken_l.
Qed.

Definition hpersistently (P : hprop) : hprop := hpure (hentails hemp P).
End connectives.

(** ** The logic *)

Section mixin.
Lemma hprop_bi_mixin : BiMixin (PROP := hprop) hentails hemp hpure hand hor himpl hforall hexist hsep hwand.
Proof.
  split.
  - split; [by intros P|]. intros P Q R [H1] [H2]. split. auto.
  - intros P Q. split.
    + intros [H]. split; split; intros m Hm; by apply H.
    + intros [[H1] [H2]]. split. split; auto.
  - intros n φ ψ H. split. intros m. exact H.
  - intros n P P' [HP] Q Q' [HQ]. split. intros m. split; intros [H1 H2]; (split; [by apply HP|by apply HQ]).
  - intros n P P' [HP] Q Q' [HQ]. split. intros m.
    split; (intros [H|H]; [left; by apply HP|right; by apply HQ]).
  - intros n P P' [HP] Q Q' [HQ]. split. intros m.
    split; intros H m' Hm' Hp; apply HQ, H; (done || by apply HP).
  - intros A n Φ Ψ H. split. intros m. split; intros Hm a; by apply (H a).
  - intros A n Φ Ψ H. split. intros m. split; intros [a Hm]; exists a; by apply (H a).
  - intros n P P' [HP] Q Q' [HQ]. split. intros m.
    split; intros (m1 & m2 & -> & Hd & H1 & H2); exists m1, m2; repeat split; try done; (by apply HP) || by apply HQ.
  - intros n P P' [HP] Q Q' [HQ]. split. intros m.
    split; intros H m' Hd H1; apply HQ, H; (done || by apply HP).
  - intros φ P Hφ. by split.
  - intros φ P H. split. intros m Hφ. by apply H.
  - intros P Q. split. by intros m [H _].
  - intros P Q. split. by intros m [_ H].
  - intros P Q R [H1] [H2]. split. intros m Hm. split; auto.
  - intros P Q. split. intros m Hm. by left.
  - intros P Q. split. intros m Hm. by right.
  - intros P Q R [H1] [H2]. split. intros m [Hm|Hm]; auto.
  - intros P Q R [H]. split. intros m Hm m' Hsub HQ. apply H. split; [by eapply holds_mono|done].
  - intros P Q R [H]. split. intros m [HP HQ]. by apply (H m HP m).
  - intros A P Ψ H. split. intros m Hm a. by apply H.
  - intros A Ψ a. split. intros m Hm. apply Hm.
  - intros A Ψ a. split. intros m Hm. by exists a.
  - intros A Φ Q H. split. intros m [a Hm]. by apply (H a).
  - intros P P' Q Q' [H1] [H2]. split. intros m (m1 & m2 & -> & Hd & ? & ?). exists m1, m2. auto.
  - intros P. split. intros m Hm. exists ∅, m. rewrite map_empty_union.
    split; [done|]. split; [apply map_disjoint_empty_l|done].
  - intros P. split. intros m (m1 & m2 & -> & Hd & _ & Hm).
    apply (holds_mono P m2); [by apply map_union_subseteq_r|exact Hm].
  - intros P Q. split. intros m (m1 & m2 & -> & Hd & ? & ?). exists m2, m1.
    split; [by apply map_union_comm|auto].
  - intros P Q R. split. intros m (m12 & m3 & -> & Hd & (m1 & m2 & -> & Hd' & ? & ?) & ?).
    apply map_disjoint_union_l in Hd as [Hd1 Hd2]. exists m1, (m2 ∪ m3). rewrite map_union_assoc.
    split; [done|]. split; [by apply map_disjoint_union_r|]. split; [done|]. exists m2, m3. auto.
  - intros P Q R [H]. split. intros m Hm m' Hd HQ. apply H. exists m, m'. auto.
  - intros P Q R [H]. split. intros m (m1 & m2 & -> & Hd & HP & HQ). by apply (H m1).
Qed.

Lemma hprop_persistently_mixin : BiPersistentlyMixin (PROP := hprop) hentails hemp hand hexist hsep hpersistently.
Proof.
  eapply bi_persistently_mixin_discrete, hprop_bi_mixin; [done| |done].
  intros A Φ [H]. destruct (H ∅ I) as [a Ha]. exists a. split. intros m _.
  apply (holds_mono (Φ a) ∅); [apply map_empty_subseteq|exact Ha].
Qed.

Lemma hprop_later_mixin :
  BiLaterMixin (PROP := hprop) hentails hpure hor himpl hforall hexist hsep hpersistently (λ P, P).
Proof. by eapply bi_later_mixin_id, hprop_bi_mixin. Qed.
End mixin.

Canonical Structure hpropI : bi :=
  {| bi_ofe_mixin := ofe_mixin_of hprop;
     bi_bi_mixin := hprop_bi_mixin;
     bi_bi_persistently_mixin := hprop_persistently_mixin;
     bi_bi_later_mixin := hprop_later_mixin |}.

#[export] Instance hprop_affine : BiAffine hpropI.
Proof. intros P. split. by intros m _. Qed.

(** Entailment in the logic is implication at every memory. *)
Lemma hprop_entails (P Q : hpropI) m : (P ⊢ Q) → holds P m → holds Q m.
Proof. intros [H]. apply H. Qed.

(** ** Cells *)

(** Owning the cell [c], which holds [v]. *)
Program Definition pts (c : cell) (v : cval) : hpropI := HProp (λ m, m !! c = Some v) _.
Next Obligation. intros c v m1 m2 Hm H. by apply (lookup_weaken m1 m2). Qed.

Notation "c ↦ v" := (pts c v) (at level 20, format "c  ↦  v") : bi_scope.
Notation "c ↦ -" := (∃ v, pts c v)%I (at level 20, format "c  ↦  -") : bi_scope.

(** Two assertions own different cells. *)
Lemma pts_ne c1 c2 v1 v2 : c1 ↦ v1 ∗ c2 ↦ v2 ⊢ ⌜c1 ≠ c2⌝.
Proof.
  split. intros m (m1 & m2 & -> & Hd & H1 & H2) Hc. rewrite -Hc in H2.
  exact (proj1 (map_disjoint_spec m1 m2) Hd _ _ _ H1 H2).
Qed.

(** ** Weakest preconditions

    The part of memory that is owned is changed; any other part stays. *)
Program Definition hwp {A} (c : C mem A) (Φ : A → hpropI) : hpropI :=
  HProp (λ m, ∀ mf, m ##ₘ mf →
    Prelude.wp c (λ a m', ∃ m1, m1 ##ₘ mf ∧ m' = m1 ∪ mf ∧ holds (Φ a) m1) (m ∪ mf)) _.
Next Obligation.
  intros A c Φ m1 m2 Hm H mf Hd. rewrite -(map_difference_union m1 m2 Hm) in Hd |- *.
  apply map_disjoint_union_l in Hd as [Hd1 Hd2]. rewrite -map_union_assoc.
  assert (m1 ##ₘ (m2 ∖ m1) ∪ mf) as Hd by (apply map_disjoint_union_r; split; [by apply map_disjoint_difference_r1|done]).
  eapply wp_mono; [by apply H|]. intros a m' (m3 & Hd3 & -> & HΦ).
  apply map_disjoint_union_r in Hd3 as [Hd3 Hd4]. exists (m3 ∪ m2 ∖ m1).
  split; [by apply map_disjoint_union_l|]. split; [by rewrite map_union_assoc|].
  eapply holds_mono; [|exact HΦ]. apply map_union_subseteq_l.
Qed.

(** What [hwp] says of a run: in a memory with a part where [P] holds, the
    computation returns, changes that part only, and [Φ] holds of it. *)
Lemma hwp_sound {A} (P : hpropI) (c : C mem A) Φ m mf :
  (P ⊢ hwp c Φ) → holds P m → m ##ₘ mf →
  Prelude.wp c (λ a m', ∃ m1, m1 ##ₘ mf ∧ m' = m1 ∪ mf ∧ holds (Φ a) m1) (m ∪ mf).
Proof. intros HP Hm Hd. by apply (hprop_entails _ _ _ HP Hm). Qed.

Section rules.
Context {A : Type}.
Implicit Types Φ Ψ : A → hpropI.

Lemma hwp_ret (a : A) Φ : Φ a ⊢ hwp (mret a) Φ.
Proof. split. intros m Hm mf Hd. exists m. done. Qed.

Lemma hwp_bind {B} (c : C mem B) (k : B → C mem A) Φ : hwp c (λ b, hwp (k b) Φ) ⊢ hwp (c ≫= k) Φ.
Proof.
  split. intros m Hm mf Hd. apply wp_bind. eapply wp_mono; [by apply Hm|].
  intros b m' (m1 & Hd1 & -> & Hk). by apply Hk.
Qed.

Lemma hwp_wand (c : C mem A) Φ Ψ : hwp c Φ ∗ (∀ a, Φ a -∗ Ψ a) ⊢ hwp c Ψ.
Proof.
  split. intros m (m1 & m2 & -> & Hd & Hc & Hw) mf Hdf.
  apply map_disjoint_union_l in Hdf as [Hd1 Hd2]. rewrite -map_union_assoc.
  eapply wp_mono; [apply Hc; by apply map_disjoint_union_r|]. intros a m' (m3 & Hd3 & -> & HΦ).
  apply map_disjoint_union_r in Hd3 as [Hd3 Hd4]. exists (m3 ∪ m2).
  split; [by apply map_disjoint_union_l|]. split; [by rewrite map_union_assoc|].
  rewrite map_union_comm //. apply Hw; [by symmetry|exact HΦ].
Qed.

Lemma hwp_mono (c : C mem A) Φ Ψ : (∀ a, Φ a ⊢ Ψ a) → hwp c Φ ⊢ hwp c Ψ.
Proof. intros H. iIntros "Hc". iApply hwp_wand. iFrame. iIntros (a) "Ha". by iApply H. Qed.
End rules.

Lemma hwp_load c v Φ : c ↦ v ∗ (c ↦ v -∗ Φ v) ⊢ hwp (load c) Φ.
Proof.
  split. intros m (m1 & m2 & -> & Hd & Hc & Hw) mf Hdf. unfold Prelude.wp, load.
  rewrite (lookup_union_Some_l _ mf c v); [|by apply lookup_union_Some_l].
  exists (m1 ∪ m2). split; [done|]. split; [done|]. rewrite map_union_comm //. by apply Hw.
Qed.

Lemma hwp_store c v w Φ : c ↦ v ∗ (c ↦ w -∗ Φ tt) ⊢ hwp (store c w) Φ.
Proof.
  split. intros m (m1 & m2 & -> & Hd & Hc & Hw) mf Hdf. unfold Prelude.wp, store.
  rewrite (lookup_union_Some_l _ mf c v); [|by apply lookup_union_Some_l].
  assert (∀ n : mem, m1 ##ₘ n → <[c := w]> m1 ##ₘ n) as Hins.
  { intros n Hn. apply map_disjoint_insert_l. split; [|done]. by apply (map_disjoint_Some_l m1 n c v Hn). }
  apply map_disjoint_union_l in Hdf as [Hd1 Hd2].
  exists (<[c := w]> m1 ∪ m2). split; [apply map_disjoint_union_l; auto|].
  split; [by rewrite -!map_union_assoc insert_union_l|].
  rewrite map_union_comm; [|by apply Hins]. apply Hw; [symmetry; by apply Hins|].
  apply lookup_insert_eq.
Qed.

Lemma hwp_load_ptr c p Φ : c ↦ VPtr p ∗ (c ↦ VPtr p -∗ Φ p) ⊢ hwp (load_ptr c) Φ.
Proof.
  iIntros "[Hc HΦ]". iApply hwp_bind. iApply hwp_load. iFrame. iIntros "Hc". iApply hwp_ret. by iApply "HΦ".
Qed.

Lemma hwp_load_cell c d Φ : c ↦ VCell d ∗ (c ↦ VCell d -∗ Φ d) ⊢ hwp (load_cell c) Φ.
Proof.
  iIntros "[Hc HΦ]". iApply hwp_bind. iApply hwp_load. iFrame. iIntros "Hc". iApply hwp_ret. by iApply "HΦ".
Qed.

(** One step of a sequence. *)
Lemma hwp_bind_ret {A B} (b : B) (k : B → C mem A) Φ : hwp (k b) Φ ⊢ hwp (mret b ≫= k) Φ.
Proof. iIntros "H". iApply hwp_bind. by iApply hwp_ret. Qed.

Lemma hwp_bind_deref {A B} (b : B) (k : B → C mem A) Φ : hwp (k b) Φ ⊢ hwp (deref (Some b) ≫= k) Φ.
Proof. apply (hwp_bind_ret b k). Qed.

Lemma hwp_bind_load_ptr {A} c p (k : option loc → C mem A) Φ :
  c ↦ VPtr p ∗ (c ↦ VPtr p -∗ hwp (k p) Φ) ⊢ hwp (load_ptr c ≫= k) Φ.
Proof. iIntros "H". iApply hwp_bind. by iApply hwp_load_ptr. Qed.

Lemma hwp_bind_load_cell {A} c d (k : cell → C mem A) Φ :
  c ↦ VCell d ∗ (c ↦ VCell d -∗ hwp (k d) Φ) ⊢ hwp (load_cell c ≫= k) Φ.
Proof. iIntros "H". iApply hwp_bind. by iApply hwp_load_cell. Qed.

Lemma hwp_bind_store {A} c v w (k : unit → C mem A) Φ :
  c ↦ v ∗ (c ↦ w -∗ hwp (k tt) Φ) ⊢ hwp (store c w ≫= k) Φ.
Proof. iIntros "H". iApply hwp_bind. by iApply hwp_store. Qed.

(** Runs the computation as far as the cells it reads and writes are owned. *)
Ltac hstep :=
  lazymatch goal with
  | |- envs_entails _ (hwp ((_ ≫= _) ≫= _) _) => iApply hwp_bind
  | |- envs_entails _ (hwp (mret _ ≫= _) _) => iApply hwp_bind_ret
  | |- envs_entails _ (hwp (deref _ ≫= _) _) => iApply hwp_bind_deref
  | |- envs_entails _ (hwp (load_ptr _ ≫= _) _) => iApply hwp_bind_load_ptr; iFrame; iIntros "?"
  | |- envs_entails _ (hwp (load_cell _ ≫= _) _) => iApply hwp_bind_load_cell; iFrame; iIntros "?"
  | |- envs_entails _ (hwp (store _ _ ≫= _) _) => iApply hwp_bind_store; iFrame; iIntros "?"
  | |- envs_entails _ (hwp (load_ptr _) _) => iApply hwp_load_ptr; iFrame; iIntros "?"
  | |- envs_entails _ (hwp (load_cell _) _) => iApply hwp_load_cell; iFrame; iIntros "?"
  | |- envs_entails _ (hwp (store _ _) _) => iApply hwp_store; iFrame; iIntros "?"
  | |- envs_entails _ (hwp (mret _) _) => iApply hwp_ret
  end; cbv beta iota.

Ltac hsteps := repeat hstep.
