(* ===== verification/Queue.v ===== *)
(** * Linked lists and queues: include/libosal/queue.h

    What the six kinds of lists and queues of the header share. Their macros
    are computations on the memory of Heap; the argument [field] of the macros
    picks one of the link members of an element, so the location of an element
    stands for that member. The abstract state is a list of elements and the
    set of elements in no queue; the class [Queue] is the interface of a kind,
    and a sequence of operations is proved correct once, against it. The kinds
    are in QueueLists, QueueTails and QueueCircle. *)

From S2P Require Import Prelude BinarySemaphore Heap.
From iris.proofmode Require Import proofmode environments.

(** ** Lists of elements as the abstract state

    The operations the six kinds have between them, on the list of elements
    of a queue and the set of elements that are in no queue. *)
Inductive operation : Type :=
  | InsertHead (e : loc)
  | InsertTail (e : loc)
  | InsertAfter (l e : loc)
  | InsertBefore (l e : loc)
  | Remove (e : loc)
  | RemoveHead.

Definition state : Type := list loc * gset loc.

Fixpoint insert_after (l e : loc) (xs : list loc) : list loc :=
  match xs with
  | [] => []
  | x :: xs => if decide (x = l) then x :: e :: xs else x :: insert_after l e xs
  end.

Fixpoint insert_before (l e : loc) (xs : list loc) : list loc :=
  match xs with
  | [] => []
  | x :: xs => if decide (x = l) then e :: x :: xs else x :: insert_before l e xs
  end.

Fixpoint remove (e : loc) (xs : list loc) : list loc :=
  match xs with
  | [] => []
  | x :: xs => if decide (x = e) then xs else x :: remove e xs
  end.

(** What an operation does; [None] when it may not be called. *)
Definition perform (o : operation) (σ : state) : option state :=
  let '(xs, free) := σ in
  match o with
  | InsertHead e => guard (e ∈ free);; Some (e :: xs, free ∖ {[e]})
  | InsertTail e => guard (e ∈ free);; Some (xs ++ [e], free ∖ {[e]})
  | InsertAfter l e => guard (e ∈ free ∧ l ∈ xs);; Some (insert_after l e xs, free ∖ {[e]})
  | InsertBefore l e => guard (e ∈ free ∧ l ∈ xs);; Some (insert_before l e xs, free ∖ {[e]})
  | Remove e => guard (e ∈ xs);; Some (remove e xs, {[e]} ∪ free)
  | RemoveHead => match xs with [] => None | x :: xs => Some (xs, {[x]} ∪ free) end
  end.

Arguments perform : simpl never.

(** The cells of an element that is in no queue; the elements of a
    singly-linked queue have one, and a head may have two as well. *)
Definition entry1 (e : loc) : hpropI := (e, 0%nat) ↦ -.
Definition entry2 (e : loc) : hpropI := (e, 0%nat) ↦ - ∗ (e, 1%nat) ↦ -.

(** A kind of queue: its representation in memory, the cells of an element in
    no queue, the values HEAD_INITIALIZER gives to the cells of the head, and
    its macros: INIT, the one for an operation, if it has one, and FOREACH, with
    a body that threads the locals [s]. [fuel] is for the loops of the macros
    that search the list and for the traversal. *)
Class Queue := {
  queue : loc → list loc → hpropI;
  entry : loc → hpropI;
  initializer : loc → list cval;
  init : loc → C mem unit;
  run : nat → loc → operation → option (C mem unit);
  traverse : ∀ {S : Type}, nat → loc → (loc → S → C mem S) → S → C mem S;
}.

(** The macro FOREACH_REVERSE of the kinds with links in both directions. *)
Class ReverseQueue := {
  traverse_reverse : ∀ {S : Type}, nat → loc → (loc → S → C mem S) → S → C mem S;
}.

(** The elements an operation takes from the free ones and gives back. *)
Definition taken (o : operation) : gset loc :=
  match o with
  | InsertHead e | InsertTail e | InsertAfter _ e | InsertBefore _ e => {[e]}
  | Remove _ | RemoveHead => ∅
  end.

Definition given (o : operation) (xs : list loc) : gset loc :=
  match o with
  | Remove e => {[e]}
  | RemoveHead => match xs with [] => ∅ | x :: _ => {[x]} end
  | _ => ∅
  end.

(** [body] keeps the queue [R], and brings the invariant [I] from the elements
    visited before [x] to those with [x]. *)
Definition visits {S} (R : hpropI) (xs : list loc) (I : list loc → S → hpropI) (body : loc → S → C mem S) : Prop :=
  ∀ ys x zs s, xs = ys ++ x :: zs → R ∗ I ys s ⊢ hwp (body x s) (λ s', R ∗ I (ys ++ [x]) s').

(** What a kind promises of its macros. *)
Class QueueLaws `{!Queue} := {
  entry_law e : entry2 e ⊢ entry e;
  initializer_law h v0 v1 :
    initializer h `prefix_of` [v0; v1] → (h, 0%nat) ↦ v0 ∗ (h, 1%nat) ↦ v1 ⊢ queue h [];
  init_law h : entry2 h ⊢ hwp (init h) (λ _, queue h []);
  run_law fuel h o c xs free xs' free' :
    run fuel h o = Some c → perform o (xs, free) = Some (xs', free') → (length xs ≤ fuel)%nat →
    queue h xs ∗ ([∗ set] e ∈ taken o, entry e) ⊢
    hwp c (λ _, queue h xs' ∗ [∗ set] e ∈ given o xs, entry e);
  traverse_law {S} (I : list loc → S → hpropI) h xs body fuel s :
    visits (queue h xs) xs I body → (length xs < fuel)%nat →
    queue h xs ∗ I [] s ⊢ hwp (traverse fuel h body s) (λ s', queue h xs ∗ I xs s');
}.

Class ReverseLaws `{!Queue, !ReverseQueue} := {
  reverse_law {S} (I : list loc → S → hpropI) h xs body fuel s :
    visits (queue h xs) (reverse xs) I body → (length xs < fuel)%nat →
    queue h xs ∗ I [] s ⊢ hwp (traverse_reverse fuel h body s) (λ s', queue h xs ∗ I (reverse xs) s');
}.

(** A queue with the elements that are in no queue. *)
Definition pool `{!Queue} (h : loc) (σ : state) : hpropI := queue h σ.1 ∗ [∗ set] e ∈ σ.2, entry e.

(** Any sequence of operations. *)
Fixpoint perform_all (os : list operation) (σ : state) : option state :=
  match os with [] => Some σ | o :: os => σ ← perform o σ; perform_all os σ end.

Fixpoint run_all `{!Queue} (fuel : nat) (h : loc) (os : list operation) : option (C mem unit) :=
  match os with
  | [] => Some (mret tt)
  | o :: os => c ← run fuel h o; cs ← run_all fuel h os; Some (c;; cs)
  end.

Lemma insert_after_split l e xs :
  l ∈ xs → ∃ ys zs, xs = ys ++ l :: zs ∧ insert_after l e xs = ys ++ l :: e :: zs.
Proof.
  induction xs as [|x xs IH]; [by intros ?%not_elem_of_nil|]. intros Hl. simpl. case_decide as Hx.
  - subst x. by exists [], xs.
  - destruct IH as (ys & zs & -> & ->); [set_solver|]. by exists (x :: ys), zs.
Qed.

Lemma insert_before_split l e xs :
  l ∈ xs → ∃ ys zs, xs = ys ++ l :: zs ∧ insert_before l e xs = ys ++ e :: l :: zs.
Proof.
  induction xs as [|x xs IH]; [by intros ?%not_elem_of_nil|]. intros Hl. simpl. case_decide as Hx.
  - subst x. by exists [], xs.
  - destruct IH as (ys & zs & -> & ->); [set_solver|]. by exists (x :: ys), zs.
Qed.

Lemma remove_split e xs :
  e ∈ xs → ∃ ys zs, xs = ys ++ e :: zs ∧ e ∉ ys ∧ remove e xs = ys ++ zs.
Proof.
  induction xs as [|x xs IH]; [by intros ?%not_elem_of_nil|]. intros Hl. simpl. case_decide as Hx.
  - subst x. exists [], xs. split; [done|]. split; [apply not_elem_of_nil|done].
  - destruct IH as (ys & zs & -> & Hy & ->); [set_solver|]. exists (x :: ys), zs.
    split; [done|]. split; [set_solver|done].
Qed.

(** An operation moves elements between the list and the free ones. *)
Lemma perform_free o xs free xs' free' :
  perform o (xs, free) = Some (xs', free') →
  taken o ⊆ free ∧ free' = free ∖ taken o ∪ given o xs.
Proof.
  unfold perform, taken, given. destruct o; intros H; simplify_option_eq;
    try (destruct xs; simplify_eq); split; set_solver.
Qed.

Lemma perform_length o xs free xs' free' :
  perform o (xs, free) = Some (xs', free') → (length xs' ≤ S (length xs))%nat.
Proof.
  unfold perform. destruct o; intros H; simplify_option_eq; simpl; rewrite ?length_app; simpl; try lia.
  - destruct H0 as [_ Hl]. destruct (insert_after_split l e xs Hl) as (ys & zs & -> & ->).
    rewrite !length_app. simpl. lia.
  - destruct H0 as [_ Hl]. destruct (insert_before_split l e xs Hl) as (ys & zs & -> & ->).
    rewrite !length_app. simpl. lia.
  - destruct (remove_split e xs H0) as (ys & zs & -> & _ & ->). rewrite !length_app. simpl. lia.
  - destruct xs; simplify_eq. simpl. lia.
Qed.

Section pool.
Context `{!Queue, !QueueLaws}.

(** One macro refines one operation on the pool. *)
Lemma run_refines fuel h o c xs free σ' :
  run fuel h o = Some c → perform o (xs, free) = Some σ' → (length xs ≤ fuel)%nat →
  pool h (xs, free) ⊢ hwp c (λ _, pool h σ').
Proof.
  intros Hc Ho Hf. destruct σ' as [xs' free']. destruct (perform_free _ _ _ _ _ Ho) as [Ht ->].
  rewrite /pool. simpl. iIntros "[Hq Hfree]".
  rewrite {1}(union_difference_L (taken o) free Ht) big_sepS_union; [|set_solver].
  iDestruct "Hfree" as "[Ht Hr]". iApply hwp_wand. iSplitL "Hq Ht".
  - iApply (run_law fuel h o c xs free xs'); [done..|]. iFrame.
  - iIntros (_) "[Hq Hg]". iFrame. iApply (big_sepS_union_2 with "Hr Hg").
Qed.

Lemma run_all_refines fuel h os c xs free σ' :
  run_all fuel h os = Some c → perform_all os (xs, free) = Some σ' → (length xs + length os ≤ fuel)%nat →
  pool h (xs, free) ⊢ hwp c (λ _, pool h σ').
Proof.
  revert c xs free. induction os as [|o os IH]; simpl; intros c xs free Hc Ho Hf.
  - simplify_eq. iIntros "H". by iApply hwp_ret.
  - destruct (run fuel h o) as [c1|] eqn:Hc1; [|done]. destruct (run_all fuel h os) as [cs|] eqn:Hcs; [|done].
    destruct (perform o (xs, free)) as [[xs1 free1]|] eqn:Ho1; [|done]. simpl in Hc, Ho. simplify_eq.
    pose proof (perform_length _ _ _ _ _ Ho1).
    iIntros "H". iApply hwp_bind. iApply hwp_wand. iSplitL "H".
    + iApply (run_refines fuel h o with "H"); [done..|lia].
    + iIntros (_) "H". iApply (IH with "H"); [done..|lia].
Qed.

End pool.

(** ** Traversals

    The loops of the FOREACH macros: [first] and [next] read the pointers, and
    the loop ends at [sentinel]: NULL, or the head in a circular queue. *)
Definition foreach {S} (fuel : nat) (sentinel : option loc) (first : C mem (option loc))
    (next : loc → C mem (option loc)) (body : loc → S → C mem S) (s : S) : C mem S :=
  var ← first;
  cloop fuel (λ '(var, s),
    if decide (var = sentinel) then mret (inr s)
    else x ← deref var; s ← body x s; var ← next x; mret (inl (var, s))) (var, s).

(** The pointer to the first element. *)
Definition front (sentinel : option loc) (xs : list loc) : option loc :=
  match xs with [] => sentinel | x :: _ => Some x end.

(** A traversal visits the elements of [xs] in their order when [first] and
    [next] read them so, whatever the body does that keeps the queue. *)
Lemma foreach_spec {S} (R : hpropI) sentinel (I : list loc → S → hpropI) xs first next body fuel s :
  (R ⊢ hwp first (λ p, ⌜p = front sentinel xs⌝ ∗ R)) →
  (∀ ys x zs, xs = ys ++ x :: zs → R ⊢ hwp (next x) (λ p, ⌜p = front sentinel zs⌝ ∗ R)) →
  (∀ ys x zs, xs = ys ++ x :: zs → R ⊢ ⌜Some x ≠ sentinel⌝) →
  visits R xs I body → (length xs < fuel)%nat →
  R ∗ I [] s ⊢ hwp (foreach fuel sentinel first next body s) (λ s', R ∗ I xs s').
Proof.
  intros Hfirst Hnext Hne Hbody Hf. iIntros "[HR HI]". iApply hwp_bind. iApply hwp_wand.
  iSplitL "HR"; [by iApply Hfirst|]. iIntros (p) "[-> HR]".
  assert (∀ zs ys fuel s, xs = ys ++ zs → (length zs < fuel)%nat →
    R ∗ I ys s ⊢ hwp (cloop fuel (λ '(var, s), if decide (var = sentinel) then mret (inr s)
      else x ← deref var; s ← body x s; var ← next x; mret (inl (var, s))) (front sentinel zs, s))
      (λ s', R ∗ I xs s')) as Hloop.
  { clear fuel s Hf. intros zs. induction zs as [|x zs IH]; intros ys fuel s Hxs Hf;
      (destruct fuel as [|fuel]; [simpl in Hf; lia|]); simpl.
    - rewrite app_nil_r in Hxs. subst ys. rewrite decide_True //. iIntros "H". hsteps. done.
    - iIntros "[HR HI]". iDestruct (Hne ys x zs Hxs with "HR") as %Hx. rewrite decide_False //. hsteps.
      iApply hwp_bind. iApply hwp_wand. iSplitL; [iApply (Hbody ys x zs); [done|]; iFrame|].
      iIntros (s') "[HR HI]". hsteps. iApply hwp_bind. iApply hwp_wand. iSplitL "HR"; [by iApply (Hnext ys x zs)|].
      iIntros (p) "[-> HR]". hsteps. iApply (IH (ys ++ [x])); [by rewrite -app_assoc|simpl in Hf; lia|]. iFrame. }
  iApply (Hloop xs []); [done..|]. iFrame.
Qed.

(** The same backwards, for [last] and [prev]. *)
Lemma foreach_reverse_spec {S} (R : hpropI) sentinel (I : list loc → S → hpropI) xs last prev body fuel s :
  (R ⊢ hwp last (λ p, ⌜p = front sentinel (reverse xs)⌝ ∗ R)) →
  (∀ ys x zs, xs = ys ++ x :: zs → R ⊢ hwp (prev x) (λ p, ⌜p = front sentinel (reverse ys)⌝ ∗ R)) →
  (∀ ys x zs, xs = ys ++ x :: zs → R ⊢ ⌜Some x ≠ sentinel⌝) →
  visits R (reverse xs) I body → (length xs < fuel)%nat →
  R ∗ I [] s ⊢ hwp (foreach fuel sentinel last prev body s) (λ s', R ∗ I (reverse xs) s').
Proof.
  intros Hlast Hprev Hne Hbody Hf.
  assert (∀ ys x zs, reverse xs = ys ++ x :: zs → xs = reverse zs ++ x :: reverse ys) as Hrev.
  { intros ys x zs Hxs. rewrite -(reverse_involutive xs) Hxs reverse_app reverse_cons -app_assoc. done. }
  apply foreach_spec; [done| | |done|by rewrite length_reverse].
  - intros ys x zs Hxs. rewrite -(reverse_involutive zs). by eapply Hprev, Hrev.
  - intros ys x zs Hxs. by eapply Hne, Hrev.
Qed.

(** The macro EMPTY, from what it reads. *)
Lemma empty_spec (R : hpropI) sentinel xs first :
  (R ⊢ hwp first (λ p, ⌜p = front sentinel xs⌝ ∗ R)) →
  (∀ ys x zs, xs = ys ++ x :: zs → R ⊢ ⌜Some x ≠ sentinel⌝) →
  R ⊢ hwp (p ← first; mret (ptr_eq p sentinel)) (λ b, ⌜b = bool_decide (xs = [])⌝ ∗ R).
Proof.
  intros Hfirst Hne. iIntros "H". iApply hwp_bind. iApply hwp_wand. iSplitL; [by iApply Hfirst|].
  iIntros (p) "[-> H]". hsteps. destruct xs as [|x xs].
  - rewrite /ptr_eq !bool_decide_true //. by iFrame.
  - iDestruct (Hne [] x xs eq_refl with "H") as %Hx. rewrite /ptr_eq !bool_decide_false //. by iFrame.
Qed.

(** ** Segments of linked elements

    [sseg c xs d]: the cell [c] points to the first element of [xs], each
    element's first cell to the next one, and [d] is the cell after the last
    one. [tseg] has back pointers in the second cell of every element, to the
    cell that points to the element. *)
Fixpoint sseg (c : cell) (xs : list loc) (d : cell) : hpropI :=
  match xs with
  | [] => ⌜c = d⌝
  | x :: xs => c ↦ VPtr (Some x) ∗ sseg (x, 0%nat) xs d
  end.

Fixpoint tseg (c : cell) (xs : list loc) (d : cell) : hpropI :=
  match xs with
  | [] => ⌜c = d⌝
  | x :: xs => c ↦ VPtr (Some x) ∗ (x, 1%nat) ↦ VCell c ∗ tseg (x, 0%nat) xs d
  end.

Lemma sseg_app c xs ys d : sseg c (xs ++ ys) d ⊣⊢ ∃ b, sseg c xs b ∗ sseg b ys d.
Proof.
  revert c. induction xs as [|x xs IH]; intros c; simpl.
  - iSplit; [iIntros "H"; iExists c; by iFrame|by iIntros "(%b & -> & H)"].
  - rewrite IH. iSplit.
    + iIntros "(Hc & %b & H1 & H2)". iExists b. iFrame.
    + iIntros "(%b & [Hc H1] & H2)". iFrame.
Qed.

Lemma tseg_app c xs ys d : tseg c (xs ++ ys) d ⊣⊢ ∃ b, tseg c xs b ∗ tseg b ys d.
Proof.
  revert c. induction xs as [|x xs IH]; intros c; simpl.
  - iSplit; [iIntros "H"; iExists c; by iFrame|by iIntros "(%b & -> & H)"].
  - rewrite IH. iSplit.
    + iIntros "(Hc & Hp & %b & H1 & H2)". iExists b. iFrame.
    + iIntros "(%b & (Hc & Hp & H1) & H2)". iFrame.
Qed.

(** The pointer to a segment that NULL ends. *)
Lemma sseg_front c xs d :
  sseg c xs d ∗ d ↦ VPtr None ⊢ hwp (load_ptr c) (λ p, ⌜p = front None xs⌝ ∗ sseg c xs d ∗ d ↦ VPtr None).
Proof.
  iIntros "[Hs Hd]". destruct xs as [|x xs]; simpl.
  - iDestruct "Hs" as %<-. hsteps. by iFrame.
  - iDestruct "Hs" as "[Hx Hs]". hsteps. by iFrame.
Qed.

Lemma tseg_front c xs d :
  tseg c xs d ∗ d ↦ VPtr None ⊢ hwp (load_ptr c) (λ p, ⌜p = front None xs⌝ ∗ tseg c xs d ∗ d ↦ VPtr None).
Proof.
  iIntros "[Hs Hd]". destruct xs as [|x xs]; simpl.
  - iDestruct "Hs" as %<-. hsteps. by iFrame.
  - iDestruct "Hs" as "(Hx & Hp & Hs)". hsteps. by iFrame.
Qed.

Lemma prefix_cons_inv {A} (x y : A) xs ys : x :: xs `prefix_of` y :: ys → x = y ∧ xs `prefix_of` ys.
Proof. intros H. split; [by eapply prefix_cons_inv_1|by eapply prefix_cons_inv_2]. Qed.

Lemma hwp_post {A} (c : C mem A) (P Q R : hpropI) : (P ⊢ hwp c (λ _, Q)) → Q ⊣⊢ R → P ⊢ hwp c (λ _, R).
Proof. intros H HR. rewrite H. apply hwp_mono. intros _. by rewrite HR. Qed.

(** The laws of a kind, reduced to the specifications of its macros: one goal
    for each operation, on the list around the element the operation is given. *)
Ltac queue_law :=
  intros fuel h o c xs free xs' free' Hc Ho Hf; destruct o; simpl in Hc; simplify_eq;
  rewrite /perform in Ho; simplify_option_eq;
  repeat match goal with
  | H : _ ∈ _ ∧ _ ∈ _ |- _ => destruct H
  | H : ?l ∈ ?xs |- context [insert_after ?l ?e ?xs] =>
      destruct (insert_after_split l e xs H) as (?ys & ?zs & -> & ->)
  | H : ?l ∈ ?xs |- context [insert_before ?l ?e ?xs] =>
      destruct (insert_before_split l e xs H) as (?ys & ?zs & -> & ->)
  | H : ?e ∈ ?xs |- context [remove ?e ?xs] =>
      destruct (remove_split e xs H) as (?ys & ?zs & -> & ? & ->)
  | H : context [match ?xs with [] => None | _ => _ end] |- _ => destruct xs; simplify_eq
  end;
  rewrite /taken /given ?big_sepS_singleton ?big_sepS_empty ?right_id;
  (eapply hwp_post; [|rewrite ?big_sepS_singleton ?big_sepS_empty ?right_id; reflexivity]).

(** Proves the second conjunct of the goal, an element that was taken out. *)
Ltac give_entry1 c0 :=
  iRename select (c0 ↦ _)%I into "He0"; iSplitR "He0"; [|by iExists _].
Ltac give_entry2 c0 c1 :=
  iRename select (c0 ↦ _)%I into "He0"; iRename select (c1 ↦ _)%I into "He1";
  iSplitR "He0 He1"; [|iSplitL "He0"; by iExists _].

(** ** The loop of the REMOVE macros of singly-linked lists

    [while(curelm->field.next != (elm)) curelm = curelm->field.next;] *)
Definition find_prev (fuel : nat) (curelm : option loc) (elm : loc) : C mem (option loc) :=
  cloop fuel (λ curelm,
    c ← deref curelm;
    n ← load_ptr (c, 0%nat);
    if decide (n = Some elm) then mret (inr curelm)
    else c ← deref curelm; n ← load_ptr (c, 0%nat); mret (inl n)) curelm.

Lemma find_prev_spec fuel x ys e zs d :
  e ∉ ys → (length ys < fuel)%nat →
  sseg (x, 0%nat) (ys ++ e :: zs) d ⊢
  hwp (find_prev fuel (Some x) e) (λ p, ∃ y, ⌜p = Some y⌝ ∗
    sseg (x, 0%nat) ys (y, 0%nat) ∗ (y, 0%nat) ↦ VPtr (Some e) ∗ sseg (e, 0%nat) zs d).
Proof.
  revert x fuel. induction ys as [|y ys IH]; intros x fuel Hy Hf; (destruct fuel as [|fuel]; [simpl in Hf; lia|]);
    unfold find_prev; simpl; iIntros "[Hx Hs]"; hsteps.
  - rewrite decide_True //. hsteps. iExists x. by iFrame.
  - rewrite decide_False; [|set_solver]. hsteps. iApply hwp_wand. iSplitL "Hs".
    + iApply (IH with "Hs"); [set_solver|simpl in Hf; lia].
    + iIntros (p) "(%z & -> & Hs & Hz & He)". iExists z. by iFrame.
Qed.
