(* ===== verification/QueueLists.v ===== *)
(** * Lists and singly-linked lists: include/libosal/queue.h

    The macros LIST_... (Module [LIST]) and SLIST_... (Module [SLIST]). *)

From S2P Require Import Prelude BinarySemaphore Heap Queue.
From iris.proofmode Require Import proofmode environments.

Module LIST.
Definition lh_first (h : loc) : cell := (h, 0%nat).
Definition le_next (e : loc) : cell := (e, 0%nat).
Definition le_prev (e : loc) : cell := (e, 1%nat).

Definition LIST_HEAD_INITIALIZER (head : loc) : list cval := [VPtr None].

Definition LIST_INIT (head : loc) : C mem unit := store (lh_first head) (VPtr None).

Definition LIST_INSERT_AFTER (listelm elm : loc) : C mem unit :=
  p ← load_ptr (le_next listelm);
  store (le_next elm) (VPtr p);;
  (if p is Some _ then
     n ← load_ptr (le_next listelm);
     n ← deref n;
     store (le_prev n) (VCell (le_next elm))
   else mret tt);;
  store (le_next listelm) (VPtr (Some elm));;
  store (le_prev elm) (VCell (le_next listelm)).

Definition LIST_INSERT_BEFORE (listelm elm : loc) : C mem unit :=
  c ← load_cell (le_prev listelm);
  store (le_prev elm) (VCell c);;
  store (le_next elm) (VPtr (Some listelm));;
  c ← load_cell (le_prev listelm);
  store c (VPtr (Some elm));;
  store (le_prev listelm) (VCell (le_next elm)).

Definition LIST_INSERT_HEAD (head elm : loc) : C mem unit :=
  p ← load_ptr (lh_first head);
  store (le_next elm) (VPtr p);;
  (if p is Some _ then
     n ← load_ptr (lh_first head);
     n ← deref n;
     store (le_prev n) (VCell (le_next elm))
   else mret tt);;
  store (lh_first head) (VPtr (Some elm));;
  store (le_prev elm) (VCell (lh_first head)).

Definition LIST_REMOVE (elm : loc) : C mem unit :=
  p ← load_ptr (le_next elm);
  (if p is Some _ then
     n ← load_ptr (le_next elm);
     n ← deref n;
     c ← load_cell (le_prev elm);
     store (le_prev n) (VCell c)
   else mret tt);;
  c ← load_cell (le_prev elm);
  p ← load_ptr (le_next elm);
  store c (VPtr p).

Definition LIST_FOREACH {S} (fuel : nat) (head : loc) (body : loc → S → C mem S) (s : S) : C mem S :=
  foreach fuel None (load_ptr (lh_first head)) (λ var, load_ptr (le_next var)) body s.

Definition LIST_EMPTY (head : loc) : C mem bool :=
  p ← load_ptr (lh_first head); mret (ptr_eq p None).
Definition LIST_FIRST (head : loc) : C mem (option loc) := load_ptr (lh_first head).
Definition LIST_NEXT (elm : loc) : C mem (option loc) := load_ptr (le_next elm).

Definition lst (h : loc) (xs : list loc) : hpropI :=
  ∃ d, tseg (lh_first h) xs d ∗ d ↦ VPtr None.
#[local] Typeclasses Opaque lst.


(** The list around one of its elements. *)
Lemma lst_split h xs x ys :
  lst h (xs ++ x :: ys) ⊣⊢ ∃ b d, tseg (lh_first h) xs b ∗
    b ↦ VPtr (Some x) ∗ le_prev x ↦ VCell b ∗ tseg (le_next x) ys d ∗ d ↦ VPtr None.
Proof.
  rewrite /lst. setoid_rewrite tseg_app. iSplit.
  - iIntros "(%d & (%b & H1 & H2 & H3 & H4) & Hd)". iExists b, d. iFrame.
  - iIntros "(%b & %d & H1 & H2 & H3 & H4 & Hd)". iExists d. iFrame.
Qed.

Lemma list_insert_after_spec h xs l ys e :
  lst h (xs ++ l :: ys) ∗ entry2 e ⊢ hwp (LIST_INSERT_AFTER l e) (λ _, lst h (xs ++ l :: e :: ys)).
Proof.
  rewrite lst_split. iIntros "[(%b & %d & Hs & Hb & Hl & Hy & Hd) [[%v Hn] [%w Hp]]]".
  unfold LIST_INSERT_AFTER. destruct ys as [|y ys]; simpl.
  - iDestruct "Hy" as %<-. hsteps. rewrite lst_split. iExists b, (le_next e). by iFrame.
  - iDestruct "Hy" as "(Hy & Hyp & Hys)". hsteps. rewrite lst_split. iExists b, d. iFrame.
Qed.

Lemma list_insert_before_spec h xs l ys e :
  lst h (xs ++ l :: ys) ∗ entry2 e ⊢ hwp (LIST_INSERT_BEFORE l e) (λ _, lst h (xs ++ e :: l :: ys)).
Proof.
  rewrite lst_split. iIntros "[(%b & %d & Hs & Hb & Hl & Hy & Hd) [[%v Hn] [%w Hp]]]".
  unfold LIST_INSERT_BEFORE. hsteps. rewrite lst_split. iExists b, d. iFrame.
Qed.

Lemma list_remove_spec h xs e ys :
  lst h (xs ++ e :: ys) ⊢ hwp (LIST_REMOVE e) (λ _, lst h (xs ++ ys) ∗ entry2 e).
Proof.
  rewrite lst_split. iIntros "(%b & %d & Hs & Hb & Hl & Hy & Hd)".
  unfold LIST_REMOVE. destruct ys as [|y ys]; simpl.
  - iDestruct "Hy" as %<-. hsteps. give_entry2 (le_next e) (le_prev e). rewrite app_nil_r. iExists b. iFrame.
  - iDestruct "Hy" as "(Hy & Hyp & Hys)". hsteps. give_entry2 (le_next e) (le_prev e). rewrite lst_split. iExists b, d. iFrame.
Qed.

Lemma list_insert_head_spec h xs e :
  lst h xs ∗ entry2 e ⊢ hwp (LIST_INSERT_HEAD h e) (λ _, lst h (e :: xs)).
Proof.
  rewrite {1}/lst. iIntros "[(%d & Hs & Hd) [[%v Hn] [%w Hp]]]". unfold LIST_INSERT_HEAD. destruct xs as [|x xs]; simpl.
  - iDestruct "Hs" as %<-. hsteps. iExists (le_next e). by iFrame.
  - iDestruct "Hs" as "(Hx & Hxp & Hs)". hsteps. iExists d. iFrame.
Qed.

Lemma list_init_spec h : lh_first h ↦ - ⊢ hwp (LIST_INIT h) (λ _, lst h []).
Proof. iIntros "[%v H]". unfold LIST_INIT. hsteps. iExists (lh_first h). by iFrame. Qed.

Lemma list_first_spec h xs : lst h xs ⊢ hwp (LIST_FIRST h) (λ p, ⌜p = front None xs⌝ ∗ lst h xs).
Proof.
  rewrite {1}/lst. iIntros "[%d H]". iApply hwp_wand. iSplitL; [by iApply (tseg_front with "H")|].
  iIntros (p) "[$ H]". by iExists d.
Qed.

Lemma list_next_spec h xs x ys :
  lst h (xs ++ x :: ys) ⊢ hwp (LIST_NEXT x) (λ p, ⌜p = front None ys⌝ ∗ lst h (xs ++ x :: ys)).
Proof.
  rewrite {1}lst_split. iIntros "(%b & %d & H1 & H2 & H3 & Hy & Hd)".
  iApply hwp_wand. iSplitL "Hy Hd"; [by iApply (tseg_front with "[$Hy $Hd]")|].
  iIntros (p) "[$ [Hy Hd]]". rewrite lst_split. iExists b, d. iFrame.
Qed.

Lemma list_empty_spec h xs : lst h xs ⊢ hwp (LIST_EMPTY h) (λ b, ⌜b = bool_decide (xs = [])⌝ ∗ lst h xs).
Proof. apply (empty_spec _ None _ (LIST_FIRST h)); [apply list_first_spec|auto]. Qed.

#[export] Instance list_queue : Queue := {|
  queue := lst;
  entry := entry2;
  initializer := LIST_HEAD_INITIALIZER;
  init := LIST_INIT;
  run fuel h o :=
    match o with
    | InsertHead e => Some (LIST_INSERT_HEAD h e)
    | InsertAfter l e => Some (LIST_INSERT_AFTER l e)
    | InsertBefore l e => Some (LIST_INSERT_BEFORE l e)
    | Remove e => Some (LIST_REMOVE e)
    | InsertTail _ | RemoveHead => None
    end;
  traverse := @LIST_FOREACH;
|}.

#[export] Instance list_queue_laws : QueueLaws.
Proof.
  split.
  - done.
  - intros h v0 v1 [<- _]%prefix_cons_inv. iIntros "[H _]". iExists (lh_first h). by iFrame.
  - intros h. iIntros "[H _]". iApply (list_init_spec with "H").
  - queue_law.
    + apply list_insert_head_spec.
    + apply list_insert_after_spec.
    + apply list_insert_before_spec.
    + apply list_remove_spec.
  - intros S I h xs body fuel s Hb Hf. apply foreach_spec; [apply list_first_spec| |auto|done|done].
    intros ys x zs ->. apply list_next_spec.
Qed.
End LIST.

Module SLIST.
Definition slh_first (h : loc) : cell := (h, 0%nat).
Definition sle_next (e : loc) : cell := (e, 0%nat).

Definition SLIST_HEAD_INITIALIZER (head : loc) : list cval := [VPtr None].

Definition SLIST_INIT (head : loc) : C mem unit := store (slh_first head) (VPtr None).

Definition SLIST_INSERT_AFTER (slistelm elm : loc) : C mem unit :=
  p ← load_ptr (sle_next slistelm);
  store (sle_next elm) (VPtr p);;
  store (sle_next slistelm) (VPtr (Some elm)).

Definition SLIST_INSERT_HEAD (head elm : loc) : C mem unit :=
  p ← load_ptr (slh_first head);
  store (sle_next elm) (VPtr p);;
  store (slh_first head) (VPtr (Some elm)).

Definition SLIST_REMOVE_HEAD (head : loc) : C mem unit :=
  p ← load_ptr (slh_first head);
  f ← deref p;
  n ← load_ptr (sle_next f);
  store (slh_first head) (VPtr n).

Definition SLIST_REMOVE (fuel : nat) (head elm : loc) : C mem unit :=
  p ← load_ptr (slh_first head);
  if decide (p = Some elm) then SLIST_REMOVE_HEAD head
  else
    curelm ← load_ptr (slh_first head);
    curelm ← find_prev fuel curelm elm;
    c ← deref curelm;
    n ← load_ptr (sle_next c);
    n ← deref n;
    nn ← load_ptr (sle_next n);
    store (sle_next c) (VPtr nn).

Definition SLIST_FOREACH {S} (fuel : nat) (head : loc) (body : loc → S → C mem S) (s : S) : C mem S :=
  foreach fuel None (load_ptr (slh_first head)) (λ var, load_ptr (sle_next var)) body s.

Definition SLIST_EMPTY (head : loc) : C mem bool :=
  p ← load_ptr (slh_first head); mret (ptr_eq p None).
Definition SLIST_FIRST (head : loc) : C mem (option loc) := load_ptr (slh_first head).
Definition SLIST_NEXT (elm : loc) : C mem (option loc) := load_ptr (sle_next elm).

Definition slst (h : loc) (xs : list loc) : hpropI :=
  ∃ d, sseg (slh_first h) xs d ∗ d ↦ VPtr None.
#[local] Typeclasses Opaque slst.

(** The list around one of its elements. *)
Lemma slst_split h xs x ys :
  slst h (xs ++ x :: ys) ⊣⊢ ∃ b d, sseg (slh_first h) xs b ∗
    b ↦ VPtr (Some x) ∗ sseg (sle_next x) ys d ∗ d ↦ VPtr None.
Proof.
  rewrite /slst. setoid_rewrite sseg_app. iSplit.
  - iIntros "(%d & (%b & H1 & H2 & H3) & Hd)". iExists b, d. iFrame.
  - iIntros "(%b & %d & H1 & H2 & H3 & Hd)". iExists d. iFrame.
Qed.

Lemma slist_init_spec h : slh_first h ↦ - ⊢ hwp (SLIST_INIT h) (λ _, slst h []).
Proof. iIntros "[%v H]". unfold SLIST_INIT. hsteps. iExists (slh_first h). by iFrame. Qed.

Lemma slist_insert_head_spec h xs e :
  slst h xs ∗ entry1 e ⊢ hwp (SLIST_INSERT_HEAD h e) (λ _, slst h (e :: xs)).
Proof.
  rewrite {1}/slst. iIntros "[(%d & Hs & Hd) [%v Hn]]". unfold SLIST_INSERT_HEAD. destruct xs as [|x xs]; simpl.
  - iDestruct "Hs" as %<-. hsteps. iExists (sle_next e). by iFrame.
  - iDestruct "Hs" as "[Hx Hs]". hsteps. iExists d. iFrame.
Qed.

Lemma slist_insert_after_spec h xs l ys e :
  slst h (xs ++ l :: ys) ∗ entry1 e ⊢ hwp (SLIST_INSERT_AFTER l e) (λ _, slst h (xs ++ l :: e :: ys)).
Proof.
  rewrite slst_split. iIntros "[(%b & %d & Hs & Hb & Hy & Hd) [%v Hn]]".
  unfold SLIST_INSERT_AFTER. destruct ys as [|y ys]; simpl.
  - iDestruct "Hy" as %<-. hsteps. rewrite slst_split. iExists b, (sle_next e). by iFrame.
  - iDestruct "Hy" as "[Hy Hys]". hsteps. rewrite slst_split. iExists b, d. iFrame.
Qed.

Lemma slist_remove_head_spec h x xs :
  slst h (x :: xs) ⊢ hwp (SLIST_REMOVE_HEAD h) (λ _, slst h xs ∗ entry1 x).
Proof.
  rewrite {1}/slst. simpl. iIntros "(%d & [Hx Hs] & Hd)". unfold SLIST_REMOVE_HEAD. destruct xs as [|y xs]; simpl.
  - iDestruct "Hs" as %<-. hsteps. give_entry1 (sle_next x). iExists (slh_first h). by iFrame.
  - iDestruct "Hs" as "[Hy Hs]". hsteps. give_entry1 (sle_next x). iExists d. iFrame.
Qed.

Lemma slist_remove_spec fuel h xs e ys :
  e ∉ xs → (length xs < fuel)%nat →
  slst h (xs ++ e :: ys) ⊢ hwp (SLIST_REMOVE fuel h e) (λ _, slst h (xs ++ ys) ∗ entry1 e).
Proof.
  intros He Hf. unfold SLIST_REMOVE. destruct xs as [|x xs].
  - simpl. iIntros "H". rewrite {1}/slst. simpl. iDestruct "H" as "(%d & [Hx Hs] & Hd)". hsteps. rewrite decide_True //.
    iApply slist_remove_head_spec. iExists d. iFrame.
  - iIntros "H". rewrite {1}/slst. simpl. iDestruct "H" as "(%d & [Hx Hs] & Hd)". hsteps.
    rewrite decide_False; [|set_solver]. hsteps. iApply hwp_bind. iApply hwp_wand. iSplitL "Hs".
    { iApply (find_prev_spec with "Hs"); [set_solver|simpl in Hf; lia]. }
    iIntros (p) "(%y & -> & Hs & Hy & He)". destruct ys as [|z ys]; simpl.
    + iDestruct "He" as %<-. hsteps. give_entry1 (sle_next e). rewrite app_nil_r. iExists (y, 0%nat). simpl. iFrame.
    + iDestruct "He" as "[He Hz]". hsteps. give_entry1 (sle_next e). iExists d. simpl. rewrite sseg_app. iFrame.
Qed.

Lemma slist_first_spec h xs : slst h xs ⊢ hwp (SLIST_FIRST h) (λ p, ⌜p = front None xs⌝ ∗ slst h xs).
Proof.
  rewrite {1}/slst. iIntros "[%d H]". iApply hwp_wand. iSplitL; [by iApply (sseg_front with "H")|].
  iIntros (p) "[$ H]". by iExists d.
Qed.

Lemma slist_next_spec h xs x ys :
  slst h (xs ++ x :: ys) ⊢ hwp (SLIST_NEXT x) (λ p, ⌜p = front None ys⌝ ∗ slst h (xs ++ x :: ys)).
Proof.
  rewrite {1}slst_split. iIntros "(%b & %d & H1 & H2 & Hy & Hd)".
  iApply hwp_wand. iSplitL "Hy Hd"; [by iApply (sseg_front with "[$Hy $Hd]")|].
  iIntros (p) "[$ [Hy Hd]]". rewrite slst_split. iExists b, d. iFrame.
Qed.

Lemma slist_empty_spec h xs : slst h xs ⊢ hwp (SLIST_EMPTY h) (λ b, ⌜b = bool_decide (xs = [])⌝ ∗ slst h xs).
Proof. apply (empty_spec _ None _ (SLIST_FIRST h)); [apply slist_first_spec|auto]. Qed.

#[export] Instance slist_queue : Queue := {|
  queue := slst;
  entry := entry1;
  initializer := SLIST_HEAD_INITIALIZER;
  init := SLIST_INIT;
  run fuel h o :=
    match o with
    | InsertHead e => Some (SLIST_INSERT_HEAD h e)
    | InsertAfter l e => Some (SLIST_INSERT_AFTER l e)
    | Remove e => Some (SLIST_REMOVE fuel h e)
    | RemoveHead => Some (SLIST_REMOVE_HEAD h)
    | InsertTail _ | InsertBefore _ _ => None
    end;
  traverse := @SLIST_FOREACH;
|}.

#[export] Instance slist_queue_laws : QueueLaws.
Proof.
  split.
  - intros e. by iIntros "[H _]".
  - intros h v0 v1 [<- _]%prefix_cons_inv. iIntros "[H _]". iExists (slh_first h). by iFrame.
  - intros h. iIntros "[H _]". iApply (slist_init_spec with "H").
  - queue_law.
    + apply slist_insert_head_spec.
    + apply slist_insert_after_spec.
    + apply slist_remove_spec; [done|]. rewrite length_app in Hf. simpl in Hf. lia.
    + apply slist_remove_head_spec.
  - intros S I h xs body fuel s Hb Hf. apply foreach_spec; [apply slist_first_spec| |auto|done|done].
    intros ys x zs ->. apply slist_next_spec.
Qed.
End SLIST.
