(* ===== verification/QueueTails.v ===== *)
(** * Tail queues: include/libosal/queue.h

    The macros STAILQ_... (Module [STAILQ]), SIMPLEQ_... (Module [SIMPLEQ]),
    whose bodies are those of STAILQ with other member names, and TAILQ_...
    (Module [TAILQ]), whose FOREACH_REVERSE, LAST and PREV read the link of an
    element as if it were a head. *)

From S2P Require Import Prelude BinarySemaphore Heap Queue.
From iris.proofmode Require Import proofmode environments.

Module STAILQ.
Definition stqh_first (h : loc) : cell := (h, 0%nat).
Definition stqh_last (h : loc) : cell := (h, 1%nat).
Definition stqe_next (e : loc) : cell := (e, 0%nat).

Definition STAILQ_HEAD_INITIALIZER (head : loc) : list cval := [VPtr None; VCell (stqh_first head)].

Definition STAILQ_INIT (head : loc) : C mem unit :=
  store (stqh_first head) (VPtr None);;
  store (stqh_last head) (VCell (stqh_first head)).

Definition STAILQ_INSERT_HEAD (head elm : loc) : C mem unit :=
  p ← load_ptr (stqh_first head);
  store (stqe_next elm) (VPtr p);;
  (if p is None then store (stqh_last head) (VCell (stqe_next elm)) else mret tt);;
  store (stqh_first head) (VPtr (Some elm)).

Definition STAILQ_INSERT_TAIL (head elm : loc) : C mem unit :=
  store (stqe_next elm) (VPtr None);;
  c ← load_cell (stqh_last head);
  store c (VPtr (Some elm));;
  store (stqh_last head) (VCell (stqe_next elm)).

Definition STAILQ_INSERT_AFTER (head listelm elm : loc) : C mem unit :=
  p ← load_ptr (stqe_next listelm);
  store (stqe_next elm) (VPtr p);;
  (if p is None then store (stqh_last head) (VCell (stqe_next elm)) else mret tt);;
  store (stqe_next listelm) (VPtr (Some elm)).

Definition STAILQ_REMOVE_HEAD (head : loc) : C mem unit :=
  p ← load_ptr (stqh_first head);
  f ← deref p;
  n ← load_ptr (stqe_next f);
  store (stqh_first head) (VPtr n);;
  if n is None then store (stqh_last head) (VCell (stqh_first head)) else mret tt.

Definition STAILQ_REMOVE (fuel : nat) (head elm : loc) : C mem unit :=
  p ← load_ptr (stqh_first head);
  if decide (p = Some elm) then STAILQ_REMOVE_HEAD head
  else
    curelm ← load_ptr (stqh_first head);
    curelm ← find_prev fuel curelm elm;
    c ← deref curelm;
    n ← load_ptr (stqe_next c);
    n ← deref n;
    nn ← load_ptr (stqe_next n);
    store (stqe_next c) (VPtr nn);;
    if nn is None then store (stqh_last head) (VCell (stqe_next c)) else mret tt.

Definition STAILQ_FOREACH {S} (fuel : nat) (head : loc) (body : loc → S → C mem S) (s : S) : C mem S :=
  foreach fuel None (load_ptr (stqh_first head)) (λ var, load_ptr (stqe_next var)) body s.

Definition STAILQ_EMPTY (head : loc) : C mem bool :=
  p ← load_ptr (stqh_first head); mret (ptr_eq p None).
Definition STAILQ_FIRST (head : loc) : C mem (option loc) := load_ptr (stqh_first head).
Definition STAILQ_NEXT (elm : loc) : C mem (option loc) := load_ptr (stqe_next elm).

Definition STAILQ_CONCAT (head1 head2 : loc) : C mem unit :=
  empty ← STAILQ_EMPTY head2;
  if negb empty then
    c ← load_cell (stqh_last head1);
    p ← load_ptr (stqh_first head2);
    store c (VPtr p);;
    d ← load_cell (stqh_last head2);
    store (stqh_last head1) (VCell d);;
    STAILQ_INIT head2
  else mret tt.

Definition stq (h : loc) (xs : list loc) : hpropI :=
  ∃ d, sseg (stqh_first h) xs d ∗ d ↦ VPtr None ∗ stqh_last h ↦ VCell d.
#[local] Typeclasses Opaque stq.

(** The list around one of its elements. *)
Lemma stq_split h xs x ys :
  stq h (xs ++ x :: ys) ⊣⊢ ∃ b d, sseg (stqh_first h) xs b ∗
    b ↦ VPtr (Some x) ∗ sseg (stqe_next x) ys d ∗ d ↦ VPtr None ∗ stqh_last h ↦ VCell d.
Proof.
  rewrite /stq. setoid_rewrite sseg_app. iSplit.
  - iIntros "(%d & (%b & H1 & H2 & H3) & Hd)". iExists b, d. iFrame.
  - iIntros "(%b & %d & H1 & H2 & H3 & Hd)". iExists d. iFrame.
Qed.

Lemma stailq_init_spec h : entry2 h ⊢ hwp (STAILQ_INIT h) (λ _, stq h []).
Proof. iIntros "[[%v H] [%w Hl]]". unfold STAILQ_INIT. hsteps. iExists (stqh_first h). by iFrame. Qed.

Lemma stailq_insert_head_spec h xs e :
  stq h xs ∗ entry1 e ⊢ hwp (STAILQ_INSERT_HEAD h e) (λ _, stq h (e :: xs)).
Proof.
  rewrite {1}/stq. iIntros "[(%d & Hs & Hd & Hl) [%v Hn]]". unfold STAILQ_INSERT_HEAD. destruct xs as [|x xs]; simpl.
  - iDestruct "Hs" as %<-. hsteps. iExists (stqe_next e). by iFrame.
  - iDestruct "Hs" as "[Hx Hs]". hsteps. iExists d. iFrame.
Qed.

Lemma stailq_insert_tail_spec h xs e :
  stq h xs ∗ entry1 e ⊢ hwp (STAILQ_INSERT_TAIL h e) (λ _, stq h (xs ++ [e])).
Proof.
  rewrite {1}/stq. iIntros "[(%d & Hs & Hd & Hl) [%v Hn]]". unfold STAILQ_INSERT_TAIL. hsteps.
  rewrite stq_split. iExists d, (stqe_next e). by iFrame.
Qed.

Lemma stailq_insert_after_spec h xs l ys e :
  stq h (xs ++ l :: ys) ∗ entry1 e ⊢ hwp (STAILQ_INSERT_AFTER h l e) (λ _, stq h (xs ++ l :: e :: ys)).
Proof.
  rewrite stq_split. iIntros "[(%b & %d & Hs & Hb & Hy & Hd & Hl) [%v Hn]]".
  unfold STAILQ_INSERT_AFTER. destruct ys as [|y ys]; simpl.
  - iDestruct "Hy" as %<-. hsteps. rewrite stq_split. iExists b, (stqe_next e). by iFrame.
  - iDestruct "Hy" as "[Hy Hys]". hsteps. rewrite stq_split. iExists b, d. iFrame.
Qed.

Lemma stailq_remove_head_spec h x xs :
  stq h (x :: xs) ⊢ hwp (STAILQ_REMOVE_HEAD h) (λ _, stq h xs ∗ entry1 x).
Proof.
  rewrite {1}/stq. simpl. iIntros "(%d & [Hx Hs] & Hd & Hl)". unfold STAILQ_REMOVE_HEAD. destruct xs as [|y xs]; simpl.
  - iDestruct "Hs" as %<-. hsteps. give_entry1 (stqe_next x). iExists (stqh_first h). by iFrame.
  - iDestruct "Hs" as "[Hy Hs]". hsteps. give_entry1 (stqe_next x). iExists d. iFrame.
Qed.

Lemma stailq_remove_spec fuel h xs e ys :
  e ∉ xs → (length xs < fuel)%nat →
  stq h (xs ++ e :: ys) ⊢ hwp (STAILQ_REMOVE fuel h e) (λ _, stq h (xs ++ ys) ∗ entry1 e).
Proof.
  intros He Hf. unfold STAILQ_REMOVE. iIntros "H". rewrite {1}/stq.
  destruct xs as [|x xs]; iDestruct "H" as "(%d & [Hx Hs] & Hd & Hl)"; hsteps.
  - rewrite decide_True //. iApply stailq_remove_head_spec. iExists d. iFrame.
  - rewrite decide_False; [|set_solver]. hsteps. iApply hwp_bind. iApply hwp_wand. iSplitL "Hs".
    { iApply (find_prev_spec with "Hs"); [set_solver|simpl in Hf; lia]. }
    iIntros (p) "(%y & -> & Hs & Hy & He)". destruct ys as [|z ys]; simpl.
    + iDestruct "He" as %<-. hsteps. give_entry1 (stqe_next e). rewrite app_nil_r. iExists (y, 0%nat). simpl. iFrame.
    + iDestruct "He" as "[He Hz]". hsteps. give_entry1 (stqe_next e). iExists d. simpl. rewrite sseg_app. iFrame.
Qed.

Lemma stailq_first_spec h xs : stq h xs ⊢ hwp (STAILQ_FIRST h) (λ p, ⌜p = front None xs⌝ ∗ stq h xs).
Proof.
  rewrite {1}/stq. iIntros "(%d & Hs & Hd & Hl)". iApply hwp_wand.
  iSplitL "Hs Hd"; [by iApply (sseg_front with "[$Hs $Hd]")|].
  iIntros (p) "[$ [Hs Hd]]". iExists d. iFrame.
Qed.

Lemma stailq_next_spec h xs x ys :
  stq h (xs ++ x :: ys) ⊢ hwp (STAILQ_NEXT x) (λ p, ⌜p = front None ys⌝ ∗ stq h (xs ++ x :: ys)).
Proof.
  rewrite {1}stq_split. iIntros "(%b & %d & H1 & H2 & Hy & Hd & Hl)".
  iApply hwp_wand. iSplitL "Hy Hd"; [by iApply (sseg_front with "[$Hy $Hd]")|].
  iIntros (p) "[$ [Hy Hd]]". rewrite stq_split. iExists b, d. iFrame.
Qed.

Lemma stailq_empty_spec h xs : stq h xs ⊢ hwp (STAILQ_EMPTY h) (λ b, ⌜b = bool_decide (xs = [])⌝ ∗ stq h xs).
Proof. apply (empty_spec _ None _ (STAILQ_FIRST h)); [apply stailq_first_spec|auto]. Qed.

Lemma stailq_concat_spec h1 h2 xs ys :
  stq h1 xs ∗ stq h2 ys ⊢ hwp (STAILQ_CONCAT h1 h2) (λ _, stq h1 (xs ++ ys) ∗ stq h2 []).
Proof.
  iIntros "[H1 H2]". unfold STAILQ_CONCAT. iApply hwp_bind. iApply hwp_wand.
  iSplitL "H2"; [by iApply stailq_empty_spec|]. iIntros (b) "[-> H2]". destruct ys as [|y ys]; simpl.
  - rewrite app_nil_r. hsteps. iFrame.
  - rewrite {1 2}/stq. iDestruct "H1" as "(%d1 & Hs1 & Hd1 & Hl1)". iDestruct "H2" as "(%d2 & [Hy Hs2] & Hd2 & Hl2)".
    hsteps. iApply hwp_wand. iRename select (stqh_first h2 ↦ _)%I into "Hf2". iRename select (stqh_last h2 ↦ _)%I into "Hl2".
    iSplitL "Hf2 Hl2"; [iApply stailq_init_spec; iSplitL "Hf2"; by iExists _|].
    iIntros (_) "$". iExists d2. rewrite sseg_app. iFrame.
Qed.

#[export] Instance stailq_queue : Queue := {|
  queue := stq;
  entry := entry1;
  initializer := STAILQ_HEAD_INITIALIZER;
  init := STAILQ_INIT;
  run fuel h o :=
    match o with
    | InsertHead e => Some (STAILQ_INSERT_HEAD h e)
    | InsertTail e => Some (STAILQ_INSERT_TAIL h e)
    | InsertAfter l e => Some (STAILQ_INSERT_AFTER h l e)
    | Remove e => Some (STAILQ_REMOVE fuel h e)
    | RemoveHead => Some (STAILQ_REMOVE_HEAD h)
    | InsertBefore _ _ => None
    end;
  traverse := @STAILQ_FOREACH;
|}.

#[export] Instance stailq_queue_laws : QueueLaws.
Proof.
  split.
  - intros e. by iIntros "[H _]".
  - intros h v0 v1 [<- [<- _]%prefix_cons_inv]%prefix_cons_inv. iIntros "[H Hl]". iExists (stqh_first h). by iFrame.
  - apply stailq_init_spec.
  - queue_law.
    + apply stailq_insert_head_spec.
    + apply stailq_insert_tail_spec.
    + apply stailq_insert_after_spec.
    + apply stailq_remove_spec; [done|]. rewrite length_app in Hf. simpl in Hf. lia.
    + apply stailq_remove_head_spec.
  - intros S I h xs body fuel s Hb Hf. apply foreach_spec; [apply stailq_first_spec| |auto|done|done].
    intros ys x zs ->. apply stailq_next_spec.
Qed.
End STAILQ.

Module SIMPLEQ.
Definition sqh_first (h : loc) : cell := (h, 0%nat).
Definition sqh_last (h : loc) : cell := (h, 1%nat).
Definition sqe_next (e : loc) : cell := (e, 0%nat).

Definition SIMPLEQ_HEAD_INITIALIZER (head : loc) : list cval := [VPtr None; VCell (sqh_first head)].

Definition SIMPLEQ_INIT (head : loc) : C mem unit :=
  store (sqh_first head) (VPtr None);;
  store (sqh_last head) (VCell (sqh_first head)).

Definition SIMPLEQ_INSERT_HEAD (head elm : loc) : C mem unit :=
  p ← load_ptr (sqh_first head);
  store (sqe_next elm) (VPtr p);;
  (if p is None then store (sqh_last head) (VCell (sqe_next elm)) else mret tt);;
  store (sqh_first head) (VPtr (Some elm)).

Definition SIMPLEQ_INSERT_TAIL (head elm : loc) : C mem unit :=
  store (sqe_next elm) (VPtr None);;
  c ← load_cell (sqh_last head);
  store c (VPtr (Some elm));;
  store (sqh_last head) (VCell (sqe_next elm)).

Definition SIMPLEQ_INSERT_AFTER (head listelm elm : loc) : C mem unit :=
  p ← load_ptr (sqe_next listelm);
  store (sqe_next elm) (VPtr p);;
  (if p is None then store (sqh_last head) (VCell (sqe_next elm)) else mret tt);;
  store (sqe_next listelm) (VPtr (Some elm)).

Definition SIMPLEQ_REMOVE_HEAD (head : loc) : C mem unit :=
  p ← load_ptr (sqh_first head);
  f ← deref p;
  n ← load_ptr (sqe_next f);
  store (sqh_first head) (VPtr n);;
  if n is None then store (sqh_last head) (VCell (sqh_first head)) else mret tt.

Definition SIMPLEQ_REMOVE (fuel : nat) (head elm : loc) : C mem unit :=
  p ← load_ptr (sqh_first head);
  if decide (p = Some elm) then SIMPLEQ_REMOVE_HEAD head
  else
    curelm ← load_ptr (sqh_first head);
    curelm ← find_prev fuel curelm elm;
    c ← deref curelm;
    n ← load_ptr (sqe_next c);
    n ← deref n;
    nn ← load_ptr (sqe_next n);
    store (sqe_next c) (VPtr nn);;
    if nn is None then store (sqh_last head) (VCell (sqe_next c)) else mret tt.

Definition SIMPLEQ_FOREACH {S} (fuel : nat) (head : loc) (body : loc → S → C mem S) (s : S) : C mem S :=
  foreach fuel None (load_ptr (sqh_first head)) (λ var, load_ptr (sqe_next var)) body s.

Definition SIMPLEQ_EMPTY (head : loc) : C mem bool :=
  p ← load_ptr (sqh_first head); mret (ptr_eq p None).
Definition SIMPLEQ_FIRST (head : loc) : C mem (option loc) := load_ptr (sqh_first head).
Definition SIMPLEQ_NEXT (elm : loc) : C mem (option loc) := load_ptr (sqe_next elm).

(** The laws of [STAILQ] hold as they are. *)
#[export] Instance simpleq_queue : Queue := {|
  queue := STAILQ.stq;
  entry := entry1;
  initializer := SIMPLEQ_HEAD_INITIALIZER;
  init := SIMPLEQ_INIT;
  run fuel h o :=
    match o with
    | InsertHead e => Some (SIMPLEQ_INSERT_HEAD h e)
    | InsertTail e => Some (SIMPLEQ_INSERT_TAIL h e)
    | InsertAfter l e => Some (SIMPLEQ_INSERT_AFTER h l e)
    | Remove e => Some (SIMPLEQ_REMOVE fuel h e)
    | RemoveHead => Some (SIMPLEQ_REMOVE_HEAD h)
    | InsertBefore _ _ => None
    end;
  traverse := @SIMPLEQ_FOREACH;
|}.

#[export] Instance simpleq_queue_laws : QueueLaws.
Proof. exact STAILQ.stailq_queue_laws. Qed.

Lemma simpleq_first_spec h xs :
  STAILQ.stq h xs ⊢ hwp (SIMPLEQ_FIRST h) (λ p, ⌜p = front None xs⌝ ∗ STAILQ.stq h xs).
Proof. apply STAILQ.stailq_first_spec. Qed.

Lemma simpleq_next_spec h xs x ys :
  STAILQ.stq h (xs ++ x :: ys) ⊢
  hwp (SIMPLEQ_NEXT x) (λ p, ⌜p = front None ys⌝ ∗ STAILQ.stq h (xs ++ x :: ys)).
Proof. apply STAILQ.stailq_next_spec. Qed.

Lemma simpleq_empty_spec h xs :
  STAILQ.stq h xs ⊢ hwp (SIMPLEQ_EMPTY h) (λ b, ⌜b = bool_decide (xs = [])⌝ ∗ STAILQ.stq h xs).
Proof. apply STAILQ.stailq_empty_spec. Qed.
End SIMPLEQ.

Module TAILQ.
Definition tqh_first (h : loc) : cell := (h, 0%nat).
Definition tqh_last (h : loc) : cell := (h, 1%nat).
Definition tqe_next (e : loc) : cell := (e, 0%nat).
Definition tqe_prev (e : loc) : cell := (e, 1%nat).

Definition TAILQ_HEAD_INITIALIZER (head : loc) : list cval := [VPtr None; VCell (tqh_first head)].

Definition TAILQ_INIT (head : loc) : C mem unit :=
  store (tqh_first head) (VPtr None);;
  store (tqh_last head) (VCell (tqh_first head)).

Definition TAILQ_INSERT_HEAD (head elm : loc) : C mem unit :=
  p ← load_ptr (tqh_first head);
  store (tqe_next elm) (VPtr p);;
  (if p is Some _ then
     f ← load_ptr (tqh_first head);
     f ← deref f;
     store (tqe_prev f) (VCell (tqe_next elm))
   else store (tqh_last head) (VCell (tqe_next elm)));;
  store (tqh_first head) (VPtr (Some elm));;
  store (tqe_prev elm) (VCell (tqh_first head)).

Definition TAILQ_INSERT_TAIL (head elm : loc) : C mem unit :=
  store (tqe_next elm) (VPtr None);;
  c ← load_cell (tqh_last head);
  store (tqe_prev elm) (VCell c);;
  c ← load_cell (tqh_last head);
  store c (VPtr (Some elm));;
  store (tqh_last head) (VCell (tqe_next elm)).

Definition TAILQ_INSERT_AFTER (head listelm elm : loc) : C mem unit :=
  p ← load_ptr (tqe_next listelm);
  store (tqe_next elm) (VPtr p);;
  (if p is Some _ then
     n ← load_ptr (tqe_next elm);
     n ← deref n;
     store (tqe_prev n) (VCell (tqe_next elm))
   else store (tqh_last head) (VCell (tqe_next elm)));;
  store (tqe_next listelm) (VPtr (Some elm));;
  store (tqe_prev elm) (VCell (tqe_next listelm)).

Definition TAILQ_INSERT_BEFORE (listelm elm : loc) : C mem unit :=
  c ← load_cell (tqe_prev listelm);
  store (tqe_prev elm) (VCell c);;
  store (tqe_next elm) (VPtr (Some listelm));;
  c ← load_cell (tqe_prev listelm);
  store c (VPtr (Some elm));;
  store (tqe_prev listelm) (VCell (tqe_next elm)).

Definition TAILQ_REMOVE (head elm : loc) : C mem unit :=
  p ← load_ptr (tqe_next elm);
  (if p is Some _ then
     n ← load_ptr (tqe_next elm);
     n ← deref n;
     c ← load_cell (tqe_prev elm);
     store (tqe_prev n) (VCell c)
   else
     c ← load_cell (tqe_prev elm);
     store (tqh_last head) (VCell c));;
  c ← load_cell (tqe_prev elm);
  p ← load_ptr (tqe_next elm);
  store c (VPtr p).

Definition TAILQ_FOREACH {S} (fuel : nat) (head : loc) (body : loc → S → C mem S) (s : S) : C mem S :=
  foreach fuel None (load_ptr (tqh_first head)) (λ var, load_ptr (tqe_next var)) body s.

(** [((struct headname * )c)->tqh_last]: the pointer after the one at [c]. *)
Definition as_head_last (c : cell) : cell := (c.1, S c.2).

Definition TAILQ_LAST (head : loc) : C mem (option loc) :=
  c ← load_cell (tqh_last head); d ← load_cell (as_head_last c); load_ptr d.
Definition TAILQ_PREV (elm : loc) : C mem (option loc) :=
  c ← load_cell (tqe_prev elm); d ← load_cell (as_head_last c); load_ptr d.

Definition TAILQ_FOREACH_REVERSE {S} (fuel : nat) (head : loc) (body : loc → S → C mem S) (s : S) : C mem S :=
  foreach fuel None
    (c ← load_cell (tqh_last head); d ← load_cell (as_head_last c); load_ptr d)
    (λ var, c ← load_cell (tqe_prev var); d ← load_cell (as_head_last c); load_ptr d) body s.

Definition TAILQ_EMPTY (head : loc) : C mem bool :=
  p ← load_ptr (tqh_first head); mret (ptr_eq p None).
Definition TAILQ_FIRST (head : loc) : C mem (option loc) := load_ptr (tqh_first head).
Definition TAILQ_NEXT (elm : loc) : C mem (option loc) := load_ptr (tqe_next elm).

Definition TAILQ_CONCAT (head1 head2 : loc) : C mem unit :=
  empty ← TAILQ_EMPTY head2;
  if negb empty then
    c ← load_cell (tqh_last head1);
    p ← load_ptr (tqh_first head2);
    store c (VPtr p);;
    p ← load_ptr (tqh_first head2);
    f ← deref p;
    c ← load_cell (tqh_last head1);
    store (tqe_prev f) (VCell c);;
    d ← load_cell (tqh_last head2);
    store (tqh_last head1) (VCell d);;
    TAILQ_INIT head2
  else mret tt.

Definition tlq (h : loc) (xs : list loc) : hpropI :=
  ∃ d, tseg (tqh_first h) xs d ∗ d ↦ VPtr None ∗ tqh_last h ↦ VCell d.
#[local] Typeclasses Opaque tlq.

(** The list around one of its elements. *)
Lemma tlq_split h xs x ys :
  tlq h (xs ++ x :: ys) ⊣⊢ ∃ b d, tseg (tqh_first h) xs b ∗ b ↦ VPtr (Some x) ∗
    tqe_prev x ↦ VCell b ∗ tseg (tqe_next x) ys d ∗ d ↦ VPtr None ∗ tqh_last h ↦ VCell d.
Proof.
  rewrite /tlq. setoid_rewrite tseg_app. iSplit.
  - iIntros "(%d & (%b & H1 & H2 & H3 & H4) & Hd)". iExists b, d. iFrame.
  - iIntros "(%b & %d & H1 & H2 & H3 & H4 & Hd)". iExists d. iFrame.
Qed.

Lemma tailq_init_spec h : entry2 h ⊢ hwp (TAILQ_INIT h) (λ _, tlq h []).
Proof. iIntros "[[%v H] [%w Hl]]". unfold TAILQ_INIT. hsteps. iExists (tqh_first h). by iFrame. Qed.

Lemma tailq_insert_head_spec h xs e :
  tlq h xs ∗ entry2 e ⊢ hwp (TAILQ_INSERT_HEAD h e) (λ _, tlq h (e :: xs)).
Proof.
  rewrite {1}/tlq. iIntros "[(%d & Hs & Hd & Hl) [[%v Hn] [%w Hp]]]". unfold TAILQ_INSERT_HEAD.
  destruct xs as [|x xs]; simpl.
  - iDestruct "Hs" as %<-. hsteps. iExists (tqe_next e). by iFrame.
  - iDestruct "Hs" as "(Hx & Hxp & Hs)". hsteps. iExists d. iFrame.
Qed.

Lemma tailq_insert_tail_spec h xs e :
  tlq h xs ∗ entry2 e ⊢ hwp (TAILQ_INSERT_TAIL h e) (λ _, tlq h (xs ++ [e])).
Proof.
  rewrite {1}/tlq. iIntros "[(%d & Hs & Hd & Hl) [[%v Hn] [%w Hp]]]". unfold TAILQ_INSERT_TAIL. hsteps.
  rewrite tlq_split. iExists d, (tqe_next e). by iFrame.
Qed.

Lemma tailq_insert_after_spec h xs l ys e :
  tlq h (xs ++ l :: ys) ∗ entry2 e ⊢ hwp (TAILQ_INSERT_AFTER h l e) (λ _, tlq h (xs ++ l :: e :: ys)).
Proof.
  rewrite tlq_split. iIntros "[(%b & %d & Hs & Hb & Hbp & Hy & Hd & Hl) [[%v Hn] [%w Hp]]]".
  unfold TAILQ_INSERT_AFTER. destruct ys as [|y ys]; simpl.
  - iDestruct "Hy" as %<-. hsteps. rewrite tlq_split. iExists b, (tqe_next e). by iFrame.
  - iDestruct "Hy" as "(Hy & Hyp & Hys)". hsteps. rewrite tlq_split. iExists b, d. iFrame.
Qed.

Lemma tailq_insert_before_spec h xs l ys e :
  tlq h (xs ++ l :: ys) ∗ entry2 e ⊢ hwp (TAILQ_INSERT_BEFORE l e) (λ _, tlq h (xs ++ e :: l :: ys)).
Proof.
  rewrite tlq_split. iIntros "[(%b & %d & Hs & Hb & Hbp & Hy & Hd & Hl) [[%v Hn] [%w Hp]]]".
  unfold TAILQ_INSERT_BEFORE. hsteps. rewrite tlq_split. iExists b, d. iFrame.
Qed.

Lemma tailq_remove_spec h xs e ys :
  tlq h (xs ++ e :: ys) ⊢ hwp (TAILQ_REMOVE h e) (λ _, tlq h (xs ++ ys) ∗ entry2 e).
Proof.
  rewrite tlq_split. iIntros "(%b & %d & Hs & Hb & Hbp & Hy & Hd & Hl)".
  unfold TAILQ_REMOVE. destruct ys as [|y ys]; simpl.
  - iDestruct "Hy" as %<-. hsteps. give_entry2 (tqe_next e) (tqe_prev e). rewrite app_nil_r. iExists b. iFrame.
  - iDestruct "Hy" as "(Hy & Hyp & Hys)". hsteps. give_entry2 (tqe_next e) (tqe_prev e). rewrite tlq_split. iExists b, d. iFrame.
Qed.

Lemma tailq_first_spec h xs : tlq h xs ⊢ hwp (TAILQ_FIRST h) (λ p, ⌜p = front None xs⌝ ∗ tlq h xs).
Proof.
  rewrite {1}/tlq. iIntros "(%d & Hs & Hd & Hl)". iApply hwp_wand.
  iSplitL "Hs Hd"; [by iApply (tseg_front with "[$Hs $Hd]")|].
  iIntros (p) "[$ [Hs Hd]]". iExists d. iFrame.
Qed.

Lemma tailq_next_spec h xs x ys :
  tlq h (xs ++ x :: ys) ⊢ hwp (TAILQ_NEXT x) (λ p, ⌜p = front None ys⌝ ∗ tlq h (xs ++ x :: ys)).
Proof.
  rewrite {1}tlq_split. iIntros "(%b & %d & H1 & H2 & H3 & Hy & Hd & Hl)".
  iApply hwp_wand. iSplitL "Hy Hd"; [by iApply (tseg_front with "[$Hy $Hd]")|].
  iIntros (p) "[$ [Hy Hd]]". rewrite tlq_split. iExists b, d. iFrame.
Qed.

Lemma tailq_empty_spec h xs : tlq h xs ⊢ hwp (TAILQ_EMPTY h) (λ b, ⌜b = bool_decide (xs = [])⌝ ∗ tlq h xs).
Proof. apply (empty_spec _ None _ (TAILQ_FIRST h)); [apply tailq_first_spec|auto]. Qed.

(** An element, or the head when there is none, read as a head: its second
    pointer is the cell that points to it. *)
Lemma tailq_last_spec h xs : tlq h xs ⊢ hwp (TAILQ_LAST h) (λ p, ⌜p = front None (reverse xs)⌝ ∗ tlq h xs).
Proof.
  unfold TAILQ_LAST. destruct xs as [|x xs _] using rev_ind.
  - rewrite /tlq. simpl. iIntros "(%d & <- & Hd & Hl)". hsteps. iSplit; [done|]. iExists (tqh_first h). by iFrame.
  - rewrite reverse_snoc. simpl. rewrite {1}tlq_split. simpl. iIntros "(%b & %d & H1 & H2 & H3 & <- & Hd & Hl)".
    hsteps. rewrite /as_head_last. simpl. hsteps. iSplit; [done|]. rewrite tlq_split. iExists b, (tqe_next x). by iFrame.
Qed.

Lemma tailq_prev_spec h xs x ys :
  tlq h (xs ++ x :: ys) ⊢ hwp (TAILQ_PREV x) (λ p, ⌜p = front None (reverse xs)⌝ ∗ tlq h (xs ++ x :: ys)).
Proof.
  unfold TAILQ_PREV. rewrite {1}tlq_split. iIntros "(%b & %d & Hs & Hb & Hbp & Hy & Hd & Hl)".
  destruct xs as [|y xs _] using rev_ind; simpl.
  - iDestruct "Hs" as %<-. hsteps. iSplit; [done|]. iExists d. simpl. iFrame.
  - rewrite reverse_snoc tseg_app. simpl. iDestruct "Hs" as "(%a & Hs & Ha & Hyp & <-)". hsteps.
    rewrite /as_head_last. simpl. hsteps. iSplit; [done|]. rewrite tlq_split. iExists (tqe_next y), d. rewrite tseg_app. iFrame.
    done.
Qed.

Lemma tailq_concat_spec h1 h2 xs ys :
  tlq h1 xs ∗ tlq h2 ys ⊢ hwp (TAILQ_CONCAT h1 h2) (λ _, tlq h1 (xs ++ ys) ∗ tlq h2 []).
Proof.
  iIntros "[H1 H2]". unfold TAILQ_CONCAT. iApply hwp_bind. iApply hwp_wand.
  iSplitL "H2"; [by iApply tailq_empty_spec|]. iIntros (b) "[-> H2]". destruct ys as [|y ys]; simpl.
  - rewrite app_nil_r. hsteps. iFrame.
  - rewrite {1 2}/tlq. iDestruct "H1" as "(%d1 & Hs1 & Hd1 & Hl1)". iDestruct "H2" as "(%d2 & (Hy & Hyp & Hs2) & Hd2 & Hl2)".
    hsteps. iApply hwp_wand. iRename select (tqh_first h2 ↦ _)%I into "Hf2". iRename select (tqh_last h2 ↦ _)%I into "Hl2".
    iSplitL "Hf2 Hl2"; [iApply tailq_init_spec; iSplitL "Hf2"; by iExists _|].
    iIntros (_) "$". iExists d2. rewrite tseg_app. iFrame.
Qed.

#[export] Instance tailq_queue : Queue := {|
  queue := tlq;
  entry := entry2;
  initializer := TAILQ_HEAD_INITIALIZER;
  init := TAILQ_INIT;
  run fuel h o :=
    match o with
    | InsertHead e => Some (TAILQ_INSERT_HEAD h e)
    | InsertTail e => Some (TAILQ_INSERT_TAIL h e)
    | InsertAfter l e => Some (TAILQ_INSERT_AFTER h l e)
    | InsertBefore l e => Some (TAILQ_INSERT_BEFORE l e)
    | Remove e => Some (TAILQ_REMOVE h e)
    | RemoveHead => None
    end;
  traverse := @TAILQ_FOREACH;
|}.

#[export] Instance tailq_reverse : ReverseQueue := {| traverse_reverse := @TAILQ_FOREACH_REVERSE |}.

#[export] Instance tailq_queue_laws : QueueLaws.
Proof.
  split.
  - done.
  - intros h v0 v1 [<- [<- _]%prefix_cons_inv]%prefix_cons_inv. iIntros "[H Hl]". iExists (tqh_first h). by iFrame.
  - apply tailq_init_spec.
  - queue_law.
    + apply tailq_insert_head_spec.
    + apply tailq_insert_tail_spec.
    + apply tailq_insert_after_spec.
    + apply tailq_insert_before_spec.
    + apply tailq_remove_spec.
  - intros S I h xs body fuel s Hb Hf. apply foreach_spec; [apply tailq_first_spec| |auto|done|done].
    intros ys x zs ->. apply tailq_next_spec.
Qed.

#[export] Instance tailq_reverse_laws : ReverseLaws.
Proof.
  split. intros S I h xs body fuel s Hb Hf. apply foreach_reverse_spec; [apply tailq_last_spec| |auto|done|done].
  intros ys x zs ->. apply tailq_prev_spec.
Qed.
End TAILQ.
