(* ===== verification/QueueCircle.v ===== *)
(** * Circular queues: include/libosal/queue.h

    The macros CIRCLEQ_... (Module [CIRCLEQ]). The links of the first and the
    last element point to the head, and the macros compare with the head where
    those of the other kinds compare with NULL. *)

From S2P Require Import Prelude BinarySemaphore Heap Queue.
From iris.proofmode Require Import proofmode environments.

Module CIRCLEQ.
Definition cqh_first (h : loc) : cell := (h, 0%nat).
Definition cqh_last (h : loc) : cell := (h, 1%nat).
Definition cqe_next (e : loc) : cell := (e, 0%nat).
Definition cqe_prev (e : loc) : cell := (e, 1%nat).

Definition CIRCLEQ_HEAD_INITIALIZER (head : loc) : list cval := [VPtr (Some head); VPtr (Some head)].

Definition CIRCLEQ_INIT (head : loc) : C mem unit :=
  store (cqh_first head) (VPtr (Some head));;
  store (cqh_last head) (VPtr (Some head)).

Definition CIRCLEQ_INSERT_AFTER (head listelm elm : loc) : C mem unit :=
  p ← load_ptr (cqe_next listelm);
  store (cqe_next elm) (VPtr p);;
  store (cqe_prev elm) (VPtr (Some listelm));;
  p ← load_ptr (cqe_next listelm);
  (if ptr_eq p (Some head) then store (cqh_last head) (VPtr (Some elm))
   else
     p ← load_ptr (cqe_next listelm);
     n ← deref p;
     store (cqe_prev n) (VPtr (Some elm)));;
  store (cqe_next listelm) (VPtr (Some elm)).

Definition CIRCLEQ_INSERT_BEFORE (head listelm elm : loc) : C mem unit :=
  store (cqe_next elm) (VPtr (Some listelm));;
  p ← load_ptr (cqe_prev listelm);
  store (cqe_prev elm) (VPtr p);;
  p ← load_ptr (cqe_prev listelm);
  (if ptr_eq p (Some head) then store (cqh_first head) (VPtr (Some elm))
   else
     p ← load_ptr (cqe_prev listelm);
     n ← deref p;
     store (cqe_next n) (VPtr (Some elm)));;
  store (cqe_prev listelm) (VPtr (Some elm)).

Definition CIRCLEQ_INSERT_HEAD (head elm : loc) : C mem unit :=
  p ← load_ptr (cqh_first head);
  store (cqe_next elm) (VPtr p);;
  store (cqe_prev elm) (VPtr (Some head));;
  p ← load_ptr (cqh_last head);
  (if ptr_eq p (Some head) then store (cqh_last head) (VPtr (Some elm))
   else
     p ← load_ptr (cqh_first head);
     f ← deref p;
     store (cqe_prev f) (VPtr (Some elm)));;
  store (cqh_first head) (VPtr (Some elm)).

Definition CIRCLEQ_INSERT_TAIL (head elm : loc) : C mem unit :=
  store (cqe_next elm) (VPtr (Some head));;
  p ← load_ptr (cqh_last head);
  store (cqe_prev elm) (VPtr p);;
  p ← load_ptr (cqh_first head);
  (if ptr_eq p (Some head) then store (cqh_first head) (VPtr (Some elm))
   else
     p ← load_ptr (cqh_last head);
     l ← deref p;
     store (cqe_next l) (VPtr (Some elm)));;
  store (cqh_last head) (VPtr (Some elm)).

Definition CIRCLEQ_REMOVE (head elm : loc) : C mem unit :=
  n ← load_ptr (cqe_next elm);
  (if ptr_eq n (Some head) then
     p ← load_ptr (cqe_prev elm);
     store (cqh_last head) (VPtr p)
   else
     n ← load_ptr (cqe_next elm);
     n ← deref n;
     p ← load_ptr (cqe_prev elm);
     store (cqe_prev n) (VPtr p));;
  p ← load_ptr (cqe_prev elm);
  if ptr_eq p (Some head) then
    n ← load_ptr (cqe_next elm);
    store (cqh_first head) (VPtr n)
  else
    p ← load_ptr (cqe_prev elm);
    p ← deref p;
    n ← load_ptr (cqe_next elm);
    store (cqe_next p) (VPtr n).

Definition CIRCLEQ_FOREACH {S} (fuel : nat) (head : loc) (body : loc → S → C mem S) (s : S) : C mem S :=
  foreach fuel (Some head) (load_ptr (cqh_first head)) (λ var, load_ptr (cqe_next var)) body s.

Definition CIRCLEQ_FOREACH_REVERSE {S} (fuel : nat) (head : loc) (body : loc → S → C mem S) (s : S) : C mem S :=
  foreach fuel (Some head) (load_ptr (cqh_last head)) (λ var, load_ptr (cqe_prev var)) body s.

Definition CIRCLEQ_EMPTY (head : loc) : C mem bool :=
  p ← load_ptr (cqh_first head); mret (ptr_eq p (Some head)).
Definition CIRCLEQ_FIRST (head : loc) : C mem (option loc) := load_ptr (cqh_first head).
Definition CIRCLEQ_LAST (head : loc) : C mem (option loc) := load_ptr (cqh_last head).
Definition CIRCLEQ_NEXT (elm : loc) : C mem (option loc) := load_ptr (cqe_next elm).
Definition CIRCLEQ_PREV (elm : loc) : C mem (option loc) := load_ptr (cqe_prev elm).

Definition CIRCLEQ_LOOP_NEXT (head elm : loc) : C mem (option loc) :=
  p ← load_ptr (cqe_next elm);
  if ptr_eq p (Some head) then load_ptr (cqh_first head) else load_ptr (cqe_next elm).

Definition CIRCLEQ_LOOP_PREV (head elm : loc) : C mem (option loc) :=
  p ← load_ptr (cqe_prev elm);
  if ptr_eq p (Some head) then load_ptr (cqh_last head) else load_ptr (cqe_prev elm).

(** [dseg a xs b]: links in both directions from [a] over [xs] to [b]. *)
Fixpoint dseg (a : loc) (xs : list loc) (b : loc) : hpropI :=
  match xs with
  | [] => (a, 0%nat) ↦ VPtr (Some b) ∗ (b, 1%nat) ↦ VPtr (Some a)
  | x :: xs => (a, 0%nat) ↦ VPtr (Some x) ∗ (x, 1%nat) ↦ VPtr (Some a) ∗ dseg x xs b
  end.

Definition circle (h : loc) (xs : list loc) : hpropI := dseg h xs h.

Lemma dseg_app a xs x ys b : dseg a (xs ++ x :: ys) b ⊣⊢ dseg a xs x ∗ dseg x ys b.
Proof.
  revert a. induction xs as [|y xs IH]; intros a; simpl; [by rewrite assoc|].
  rewrite IH. by rewrite !assoc.
Qed.

(** The first and the last link of a segment, from other ends. *)
Lemma dseg_open_l a xs b :
  dseg a xs b ⊢ ∃ n, ⌜Some n = front (Some b) xs⌝ ∗ (a, 0%nat) ↦ VPtr (Some n) ∗ (n, 1%nat) ↦ VPtr (Some a) ∗
    ∀ a', (a', 0%nat) ↦ VPtr (Some n) ∗ (n, 1%nat) ↦ VPtr (Some a') -∗ dseg a' xs b.
Proof.
  destruct xs as [|x xs]; simpl.
  - iIntros "[H1 H2]". iExists b. iFrame. iSplit; [done|]. iIntros (a') "[$ $]".
  - iIntros "(H1 & H2 & H)". iExists x. iFrame. iSplit; [done|]. iIntros (a') "[$ $]".
Qed.

Lemma dseg_open_r a xs b :
  dseg a xs b ⊢ ∃ p, ⌜Some p = front (Some a) (reverse xs)⌝ ∗ (p, 0%nat) ↦ VPtr (Some b) ∗ (b, 1%nat) ↦ VPtr (Some p) ∗
    ∀ b', (p, 0%nat) ↦ VPtr (Some b') ∗ (b', 1%nat) ↦ VPtr (Some p) -∗ dseg a xs b'.
Proof.
  destruct xs as [|x xs _] using rev_ind; simpl.
  - iIntros "[H1 H2]". iExists a. iFrame. iSplit; [done|]. iIntros (b') "[$ $]".
  - rewrite reverse_snoc dseg_app. iIntros "(H & H1 & H2)". iExists x. iFrame. iSplit; [done|].
    iIntros (b') "[H1 H2]". rewrite dseg_app. simpl. iFrame.
Qed.

(** The links around an element, which make a segment without it when they
    are closed. *)
Lemma dseg_unlink a xs e ys b :
  dseg a xs e ∗ dseg e ys b ⊢ ∃ p n,
    (e, 0%nat) ↦ VPtr (Some n) ∗ (n, 1%nat) ↦ VPtr (Some e) ∗
    (p, 0%nat) ↦ VPtr (Some e) ∗ (e, 1%nat) ↦ VPtr (Some p) ∗
    ((p, 0%nat) ↦ VPtr (Some n) ∗ (n, 1%nat) ↦ VPtr (Some p) -∗ dseg a (xs ++ ys) b).
Proof.
  iIntros "[Hx Hy]". iDestruct (dseg_open_r with "Hx") as "(%p & _ & Hpe & Hep & Hx)". iExists p.
  destruct ys as [|y ys]; simpl.
  - iDestruct "Hy" as "[Hy Hb]". iExists b. iFrame. rewrite app_nil_r. iApply "Hx".
  - iDestruct "Hy" as "(Hy & Hyp & Hs)". iExists y. iFrame. iIntros "H". rewrite dseg_app. iFrame. by iApply "Hx".
Qed.

(** The elements are not the head. *)
Lemma circle_ne h xs x ys : circle h (xs ++ x :: ys) ⊢ ⌜x ≠ h⌝.
Proof.
  rewrite /circle dseg_app dseg_open_r dseg_open_r.
  iIntros "[(%p & _ & _ & Hx & _) (%q & _ & _ & Hh & _)]".
  iDestruct (pts_ne with "[$Hx $Hh]") as %Hne. iPureIntro. congruence.
Qed.

Lemma circle_split h xs x ys :
  circle h (xs ++ x :: ys) ⊢ ⌜x ≠ h⌝ ∗ dseg h xs x ∗ dseg x ys h.
Proof.
  iIntros "H". iSplit; [by iApply circle_ne|]. by rewrite /circle dseg_app.
Qed.

(** The two branches of a test for the head: both of them write the same
    cell, the neighbour being the head in the first one. *)
Ltac head_cases n h :=
  rewrite /ptr_eq; let Hn := fresh in destruct (decide (n = h)) as [Hn|Hn];
  [rewrite (bool_decide_true (Some n = Some h)); [|congruence]; try subst n
  |rewrite (bool_decide_false (Some n = Some h)); [|congruence]].

Lemma circleq_init_spec h : entry2 h ⊢ hwp (CIRCLEQ_INIT h) (λ _, circle h []).
Proof. iIntros "[[%v H] [%w Hl]]". unfold CIRCLEQ_INIT. hsteps. iFrame. Qed.

Lemma circleq_insert_after_spec h xs l ys e :
  circle h (xs ++ l :: ys) ∗ entry2 e ⊢ hwp (CIRCLEQ_INSERT_AFTER h l e) (λ _, circle h (xs ++ l :: e :: ys)).
Proof.
  rewrite circle_split. iIntros "[(% & Hx & Hy) [[%v Hn] [%w Hp]]]".
  iDestruct (dseg_open_l with "Hy") as "(%n & _ & Hln & Hnl & Hy)". unfold CIRCLEQ_INSERT_AFTER. hsteps.
  head_cases n h; hsteps; rewrite /circle dseg_app; iFrame; iApply "Hy"; iFrame.
Qed.

Lemma circleq_insert_before_spec h xs l ys e :
  circle h (xs ++ l :: ys) ∗ entry2 e ⊢ hwp (CIRCLEQ_INSERT_BEFORE h l e) (λ _, circle h (xs ++ e :: l :: ys)).
Proof.
  rewrite circle_split. iIntros "[(% & Hx & Hy) [[%v Hn] [%w Hp]]]".
  iDestruct (dseg_open_r with "Hx") as "(%p & _ & Hpl & Hlp & Hx)". unfold CIRCLEQ_INSERT_BEFORE. hsteps.
  head_cases p h; hsteps; rewrite /circle dseg_app; iFrame; iApply "Hx"; iFrame.
Qed.

Lemma circleq_remove_spec h xs e ys :
  circle h (xs ++ e :: ys) ⊢ hwp (CIRCLEQ_REMOVE h e) (λ _, circle h (xs ++ ys) ∗ entry2 e).
Proof.
  rewrite circle_split dseg_unlink. iIntros "(% & %p & %n & Hen & Hne & Hpe & Hep & H)". unfold CIRCLEQ_REMOVE. hsteps.
  head_cases n h; hsteps; head_cases p h; hsteps; subst; give_entry2 (cqe_next e) (cqe_prev e); iApply "H"; iFrame.
Qed.

(** The other end of a circle with elements is not the head. *)
Lemma circleq_insert_head_spec h xs e :
  circle h xs ∗ entry2 e ⊢ hwp (CIRCLEQ_INSERT_HEAD h e) (λ _, circle h (e :: xs)).
Proof.
  rewrite /circle. iIntros "[H [[%v Hn] [%w Hp]]]". unfold CIRCLEQ_INSERT_HEAD. destruct xs as [|x xs]; simpl.
  - iDestruct "H" as "[Hf Hl]". hsteps. head_cases h h; [|done]. hsteps. iFrame.
  - iDestruct "H" as "(Hf & Hx & H)". iDestruct (dseg_open_r with "H") as "(%p & _ & Hph & Hhp & H)".
    iDestruct (pts_ne with "[$Hf $Hph]") as %Hne. hsteps. head_cases p h; [congruence|]. hsteps. iFrame. iApply "H". iFrame.
Qed.

Lemma circleq_insert_tail_spec h xs e :
  circle h xs ∗ entry2 e ⊢ hwp (CIRCLEQ_INSERT_TAIL h e) (λ _, circle h (xs ++ [e])).
Proof.
  rewrite /circle. iIntros "[H [[%v Hn] [%w Hp]]]". unfold CIRCLEQ_INSERT_TAIL. destruct xs as [|x xs]; simpl.
  - iDestruct "H" as "[Hf Hl]". hsteps. head_cases h h; [|done]. hsteps. iFrame.
  - iDestruct "H" as "(Hf & Hx & H)". iDestruct (dseg_open_r with "H") as "(%p & _ & Hph & Hhp & H)".
    iDestruct (pts_ne with "[$Hx $Hhp]") as %Hne. hsteps. head_cases x h; [congruence|]. hsteps. rewrite dseg_app. iFrame. iApply "H". iFrame.
Qed.

(** ** Traversals *)

Lemma circleq_first_spec h xs : circle h xs ⊢ hwp (CIRCLEQ_FIRST h) (λ p, ⌜p = front (Some h) xs⌝ ∗ circle h xs).
Proof.
  rewrite {1}/circle. iIntros "H". iDestruct (dseg_open_l with "H") as "(%n & % & Hf & Hn & H)". unfold CIRCLEQ_FIRST. hsteps.
  iSplit; [done|]. iApply "H". iFrame.
Qed.

Lemma circleq_last_spec h xs :
  circle h xs ⊢ hwp (CIRCLEQ_LAST h) (λ p, ⌜p = front (Some h) (reverse xs)⌝ ∗ circle h xs).
Proof.
  rewrite {1}/circle. iIntros "H". iDestruct (dseg_open_r with "H") as "(%n & % & Hf & Hn & H)". unfold CIRCLEQ_LAST. hsteps.
  iSplit; [done|]. iApply "H". iFrame.
Qed.

Lemma circleq_next_spec h xs x ys :
  circle h (xs ++ x :: ys) ⊢ hwp (CIRCLEQ_NEXT x) (λ p, ⌜p = front (Some h) ys⌝ ∗ circle h (xs ++ x :: ys)).
Proof.
  rewrite {1}circle_split. iIntros "(_ & Hx & H)".
  iDestruct (dseg_open_l with "H") as "(%n & % & Hf & Hn & H)". unfold CIRCLEQ_NEXT. hsteps.
  iSplit; [done|]. rewrite /circle dseg_app. iFrame. iApply "H". iFrame.
Qed.

Lemma circleq_prev_spec h xs x ys :
  circle h (xs ++ x :: ys) ⊢ hwp (CIRCLEQ_PREV x) (λ p, ⌜p = front (Some h) (reverse xs)⌝ ∗ circle h (xs ++ x :: ys)).
Proof.
  rewrite {1}circle_split. iIntros "(_ & H & Hy)".
  iDestruct (dseg_open_r with "H") as "(%n & % & Hf & Hn & H)". unfold CIRCLEQ_PREV. hsteps.
  iSplit; [done|]. rewrite /circle dseg_app. iFrame. iApply "H". iFrame.
Qed.

Lemma circleq_empty_spec h xs : circle h xs ⊢ hwp (CIRCLEQ_EMPTY h) (λ b, ⌜b = bool_decide (xs = [])⌝ ∗ circle h xs).
Proof.
  apply (empty_spec _ (Some h) _ (CIRCLEQ_FIRST h)); [apply circleq_first_spec|].
  intros ys x zs ->. rewrite circle_ne. iIntros (Hx). iPureIntro. congruence.
Qed.

(** LOOP_NEXT goes from the last element to the first one, LOOP_PREV the
    other way. *)
Lemma circleq_loop_next_spec h xs x ys :
  circle h (xs ++ x :: ys) ⊢
  hwp (CIRCLEQ_LOOP_NEXT h x) (λ p, ⌜p = head (ys ++ xs ++ [x])⌝ ∗ circle h (xs ++ x :: ys)).
Proof.
  iIntros "H". unfold CIRCLEQ_LOOP_NEXT. iApply hwp_bind. iApply hwp_wand. iSplitL; [by iApply circleq_next_spec|].
  iIntros (p) "[-> H]". destruct ys as [|y ys]; simpl.
  - head_cases h h; [|done]. iApply hwp_wand. iSplitL; [by iApply circleq_first_spec|].
    iIntros (p) "[-> $]". by destruct xs.
  - iAssert ⌜y ≠ h⌝%I as %Hy; [rewrite cons_middle app_assoc; by iApply circle_ne|].
    head_cases y h; [done|]. iApply (circleq_next_spec h xs x (y :: ys) with "H").
Qed.

Lemma circleq_loop_prev_spec h xs x ys :
  circle h (xs ++ x :: ys) ⊢
  hwp (CIRCLEQ_LOOP_PREV h x) (λ p, ⌜p = head (reverse xs ++ reverse (x :: ys))⌝ ∗ circle h (xs ++ x :: ys)).
Proof.
  iIntros "H". unfold CIRCLEQ_LOOP_PREV. iApply hwp_bind. iApply hwp_wand. iSplitL; [by iApply circleq_prev_spec|].
  iIntros (p) "[-> H]". destruct xs as [|y xs _] using rev_ind; simpl.
  - head_cases h h; [|done]. iApply hwp_wand. iSplitL; [by iApply circleq_last_spec|].
    iIntros (p) "[-> $]". rewrite reverse_cons. by destruct (reverse ys).
  - iAssert ⌜y ≠ h⌝%I as %Hy; [rewrite -app_assoc; by iApply circle_ne|]. rewrite reverse_snoc. simpl.
    head_cases y h; [done|]. iApply hwp_wand. iSplitL; [by iApply circleq_prev_spec|].
    iIntros (p) "[-> $]". by rewrite reverse_snoc.
Qed.

#[export] Instance circleq_queue : Queue := {|
  queue := circle;
  entry := entry2;
  initializer := CIRCLEQ_HEAD_INITIALIZER;
  init := CIRCLEQ_INIT;
  run fuel h o :=
    match o with
    | InsertHead e => Some (CIRCLEQ_INSERT_HEAD h e)
    | InsertTail e => Some (CIRCLEQ_INSERT_TAIL h e)
    | InsertAfter l e => Some (CIRCLEQ_INSERT_AFTER h l e)
    | InsertBefore l e => Some (CIRCLEQ_INSERT_BEFORE h l e)
    | Remove e => Some (CIRCLEQ_REMOVE h e)
    | RemoveHead => None
    end;
  traverse := @CIRCLEQ_FOREACH;
|}.

#[export] Instance circleq_reverse : ReverseQueue := {| traverse_reverse := @CIRCLEQ_FOREACH_REVERSE |}.

#[export] Instance circleq_queue_laws : QueueLaws.
Proof.
  split.
  - done.
  - intros h v0 v1 [<- [<- _]%prefix_cons_inv]%prefix_cons_inv. iIntros "[H Hl]". iFrame.
  - apply circleq_init_spec.
  - queue_law.
    + apply circleq_insert_head_spec.
    + apply circleq_insert_tail_spec.
    + apply circleq_insert_after_spec.
    + apply circleq_insert_before_spec.
    + apply circleq_remove_spec.
  - intros S I h xs body fuel s Hb Hf. apply foreach_spec; [apply circleq_first_spec| | |done|done].
    + intros ys x zs ->. apply circleq_next_spec.
    + intros ys x zs ->. etrans; [apply circle_ne|]. apply bi.pure_mono. congruence.
Qed.

#[export] Instance circleq_reverse_laws : ReverseLaws.
Proof.
  split. intros S I h xs body fuel s Hb Hf. apply foreach_reverse_spec; [apply circleq_last_spec| | |done|done].
  - intros ys x zs ->. apply circleq_prev_spec.
  - intros ys x zs ->. etrans; [apply circle_ne|]. apply bi.pure_mono. congruence.
Qed.
End CIRCLEQ.
