(* ===== verification/Queues.v ===== *)
(** * The kinds of lists and queues together: include/libosal/queue.h

    Programs that use the macros of one kind, on concrete memories: a head that
    INIT or HEAD_INITIALIZER sets up, a sequence of operations, a traversal,
    and two queues that CONCAT joins. What they return and leave in memory is
    what the operations on lists say, for every kind. *)

From S2P Require Import Prelude BinarySemaphore Heap Queue QueueLists QueueTails QueueCircle.
From iris.proofmode Require Import proofmode environments.

Inductive kind : Type := Klist | Kslist | Kstailq | Ksimpleq | Ktailq | Kcircleq.

Definition kind_queue (k : kind) : Queue :=
  match k with
  | Klist => LIST.list_queue
  | Kslist => SLIST.slist_queue
  | Kstailq => STAILQ.stailq_queue
  | Ksimpleq => SIMPLEQ.simpleq_queue
  | Ktailq => TAILQ.tailq_queue
  | Kcircleq => CIRCLEQ.circleq_queue
  end.

Definition kind_reverse (k : kind) : option ReverseQueue :=
  match k with
  | Ktailq => Some TAILQ.tailq_reverse
  | Kcircleq => Some CIRCLEQ.circleq_reverse
  | _ => None
  end.

Definition kind_concat (k : kind) : option (loc → loc → C mem unit) :=
  match k with
  | Kstailq => Some STAILQ.STAILQ_CONCAT
  | Ktailq => Some TAILQ.TAILQ_CONCAT
  | _ => None
  end.

Lemma kind_laws k : @QueueLaws (kind_queue k).
Proof.
  destruct k.
  - exact LIST.list_queue_laws.
  - exact SLIST.slist_queue_laws.
  - exact STAILQ.stailq_queue_laws.
  - exact SIMPLEQ.simpleq_queue_laws.
  - exact TAILQ.tailq_queue_laws.
  - exact CIRCLEQ.circleq_queue_laws.
Qed.

Lemma kind_reverse_laws k r : kind_reverse k = Some r → @ReverseLaws (kind_queue k) r.
Proof. destruct k; intros [=<-]; [exact TAILQ.tailq_reverse_laws|exact CIRCLEQ.circleq_reverse_laws]. Qed.

Lemma kind_concat_law k c h1 h2 xs ys :
  kind_concat k = Some c →
  queue (Queue := kind_queue k) h1 xs ∗ queue (Queue := kind_queue k) h2 ys ⊢
  hwp (c h1 h2) (λ _, queue (Queue := kind_queue k) h1 (xs ++ ys) ∗ queue (Queue := kind_queue k) h2 []).
Proof. destruct k; intros [=<-]; [apply STAILQ.stailq_concat_spec|apply TAILQ.tailq_concat_spec]. Qed.

(** ** Programs *)

(** A loop body that records the elements it visits. *)
Definition collect (var : loc) (seen : list loc) : C mem (list loc) := mret (seen ++ [var]).

Inductive direction : Type := Forwards | Backwards.

(** FOREACH or FOREACH_REVERSE, if the kind has it. *)
Definition visited (k : kind) (d : direction) (fuel : nat) (h : loc) : option (C mem (list loc)) :=
  match d with
  | Forwards => Some (traverse (Queue := kind_queue k) fuel h collect [])
  | Backwards => r ← kind_reverse k; Some (traverse_reverse (ReverseQueue := r) fuel h collect [])
  end.

Definition in_direction (d : direction) (xs : list loc) : list loc :=
  match d with Forwards => xs | Backwards => reverse xs end.

(** A head that is initialised statically is not initialised by the program. *)
Inductive start : Type := Static | Dynamic.

Definition started (k : kind) (s : start) (h : loc) : C mem unit :=
  match s with Static => mret tt | Dynamic => init (Queue := kind_queue k) h end.

(** A queue that is set up and filled. *)
Definition filled (k : kind) (s : start) (fuel : nat) (h : loc) (os : list operation) : option (C mem unit) :=
  c ← @run_all (kind_queue k) fuel h os; Some (started k s h;; c).

Definition program (k : kind) (s : start) (fuel : nat) (h : loc) (os : list operation) (d : direction) :
    option (C mem (list loc)) :=
  c ← filled k s fuel h os; t ← visited k d fuel h; Some (c;; t).

(** Two queues, joined by CONCAT, used again, the first one and then the
    second one, and traversed. *)
Definition concat_program (k : kind) (fuel : nat) (d : direction)
    (h1 : loc) (os1 os1' : list operation) (h2 : loc) (os2 os2' : list operation) : option (C mem (list loc * list loc)) :=
  concat ← kind_concat k;
  c1 ← filled k Dynamic fuel h1 os1;
  c2 ← filled k Dynamic fuel h2 os2;
  c1' ← @run_all (kind_queue k) fuel h1 os1';
  c2' ← @run_all (kind_queue k) fuel h2 os2';
  t1 ← visited k d fuel h1;
  t2 ← visited k d fuel h2;
  Some (c1;; c2;; concat h1 h2;; c1';; c2';; xs ← t1; ys ← t2; mret (xs, ys)).

(** ** Memories *)

(** The objects [X] have their two cells in [m]. *)
Definition allocated (X : gset loc) (m : mem) : Prop :=
  ∀ x, x ∈ X → is_Some (m !! (x, 0%nat)) ∧ is_Some (m !! (x, 1%nat)).

(** The head of a program that starts [Static] has its initial values. *)
Definition initialised (k : kind) (s : start) (h : loc) (m : mem) : Prop :=
  ∃ v0 v1, m !! (h, 0%nat) = Some v0 ∧ m !! (h, 1%nat) = Some v1 ∧
    (s = Static → initializer (Queue := kind_queue k) h `prefix_of` [v0; v1]).

(** Outside of [X], [m'] has what [m] has. *)
Definition unchanged (X : gset loc) (m m' : mem) : Prop :=
  ∀ c v, c.1 ∉ X → m !! c = Some v → m' !! c = Some v.

#[global] Instance allocated_dec X m : Decision (allocated X m).
Proof. exact (decide (set_Forall (λ x, is_Some (m !! (x, 0%nat)) ∧ is_Some (m !! (x, 1%nat))) X)). Defined.

Lemma holds_pts m c v (Q : hpropI) : m !! c = Some v → holds Q (delete c m) → holds (c ↦ v ∗ Q)%I m.
Proof.
  intros Hc HQ. exists {[c := v]}, (delete c m).
  rewrite -insert_union_singleton_l insert_delete_id //.
  split; [done|]. split; [apply map_disjoint_singleton_l_2, lookup_delete_eq|].
  split; [apply lookup_singleton_eq|done].
Qed.

Lemma allocated_delete X c m : c.1 ∉ X → allocated X m → allocated X (delete c m).
Proof.
  intros Hc HX x Hx. destruct c as [y n]. simpl in Hc.
  rewrite !lookup_delete_ne; [by apply HX|..]; intros [=-> _]; done.
Qed.

(** A memory with two cells for each element holds their cells. *)
Lemma allocated_holds X m : allocated X m → holds ([∗ set] x ∈ X, entry2 x)%I m.
Proof.
  revert m. induction X as [|x X Hx IH] using set_ind_L; intros m HX.
  - apply (hprop_entails emp); [by rewrite big_sepS_empty|done].
  - assert (x ∈ ({[x]} ∪ X : gset loc)) as Hin by set_solver. destruct (HX x Hin) as [[v0 H0] [v1 H1]].
    assert (allocated X m) as HX' by (intros y Hy; apply HX; set_solver).
    apply (hprop_entails ((x, 0%nat) ↦ v0 ∗ (x, 1%nat) ↦ v1 ∗ [∗ set] y ∈ X, entry2 y)).
    + rewrite big_sepS_insert //. iIntros "(H0 & H1 & $)". iSplitL "H0"; by iExists _.
    + apply holds_pts; [done|]. apply holds_pts; [by rewrite lookup_delete_ne|].
      apply IH. do 2 (apply allocated_delete; [done|]). done.
Qed.

(** A computation run in the memory of the objects [X]. *)
Lemma hwp_run {A} (c : C mem A) (P : hpropI) (φ : A → Prop) X m :
  (∀ m', (∀ d, d.1 ∈ X → m' !! d = m !! d) → holds P m') →
  (P ⊢ hwp c (λ a, ⌜φ a⌝)) →
  Prelude.wp c (λ a m', φ a ∧ unchanged X m m') m.
Proof.
  intros HP Hc. set (m1 := filter (λ dv : cell * cval, dv.1.1 ∈ X) m).
  set (m2 := filter (λ dv : cell * cval, ¬ dv.1.1 ∈ X) m).
  rewrite -(map_filter_union_complement (λ dv : cell * cval, dv.1.1 ∈ X) m). fold m1 m2.
  eapply wp_mono; [eapply (hwp_sound P c _ m1 m2 Hc)|].
  - apply HP. intros d Hd. unfold m1. destruct (m !! d) as [v|] eqn:Hm.
    + by apply map_lookup_filter_Some_2.
    + apply map_lookup_filter_None. by left.
  - apply map_disjoint_filter_complement.
  - intros a m' (m1' & Hd & -> & Ha). split; [exact Ha|]. intros d v Hd' Hv.
    apply lookup_union_Some_r; [done|]. apply map_lookup_filter_Some. split; [|done].
    apply lookup_union_Some in Hv as [Hv|Hv]; [|by apply map_lookup_filter_Some in Hv as [??]|
      apply map_disjoint_filter_complement].
    by apply map_lookup_filter_Some in Hv as [??].
Qed.

Lemma allocated_mono X Y m m' :
  X ⊆ Y → allocated Y m → (∀ d, d.1 ∈ X → m' !! d = m !! d) → allocated X m'.
Proof. intros HX HY Hm x Hx. rewrite !Hm //. apply HY. set_solver. Qed.

Lemma perform_all_length os xs free xs' free' :
  perform_all os (xs, free) = Some (xs', free') → (length xs' ≤ length xs + length os)%nat.
Proof.
  revert xs free. induction os as [|o os IH]; simpl; intros xs free H; simplify_eq; [lia|].
  destruct (perform o (xs, free)) as [[xs1 free1]|] eqn:Ho; simpl in H; [|done].
  apply IH in H. apply perform_length in Ho. lia.
Qed.

(** ** The macros of a kind run on a memory *)
Section kind.
Context (k : kind).
#[local] Instance kind_queue_k : Queue := kind_queue k.
#[local] Instance kind_laws_k : QueueLaws := kind_laws k.

(** The cells of a head before the program. *)
Definition head_cells (s : start) (h : loc) : hpropI :=
  match s with
  | Static => ∃ v0 v1, ⌜initializer h `prefix_of` [v0; v1]⌝ ∗ (h, 0%nat) ↦ v0 ∗ (h, 1%nat) ↦ v1
  | Dynamic => entry2 h
  end.

Lemma started_spec s h X :
  head_cells s h ∗ ([∗ set] x ∈ X, entry2 x) ⊢ hwp (started k s h) (λ _, pool h ([], X)).
Proof.
  assert (([∗ set] x ∈ X, entry2 x) ⊢ [∗ set] x ∈ X, entry x) as Hent.
  { apply big_sepS_mono. intros x _. apply entry_law. }
  rewrite Hent. iIntros "[Hh HX]". iApply (hwp_wand _ (λ _, queue h [])). iSplitL "Hh"; [|iIntros (_) "Hq"; by iFrame].
  destruct s; simpl.
  - iDestruct "Hh" as "(%v0 & %v1 & %Hv & H)". iApply hwp_ret. by iApply initializer_law.
  - by iApply init_law.
Qed.

Lemma initialised_holds s h X m :
  h ∉ X → initialised k s h m → allocated X m →
  holds (head_cells s h ∗ [∗ set] x ∈ X, entry2 x)%I m.
Proof.
  intros Hh (v0 & v1 & H0 & H1 & Hs) HX.
  apply (hprop_entails ((h, 0%nat) ↦ v0 ∗ (h, 1%nat) ↦ v1 ∗ [∗ set] x ∈ X, entry2 x)).
  - iIntros "(H0 & H1 & $)". destruct s; simpl.
    + iExists v0, v1. iFrame. iPureIntro. by apply Hs.
    + iSplitL "H0"; by iExists _.
  - apply holds_pts; [done|]. apply holds_pts; [by rewrite lookup_delete_ne|].
    apply allocated_holds. do 2 (apply allocated_delete; [done|]). done.
Qed.

Lemma visited_spec d fuel h xs t :
  visited k d fuel h = Some t → (length xs < fuel)%nat →
  queue h xs ⊢ hwp t (λ ys, ⌜ys = in_direction d xs⌝ ∗ queue h xs).
Proof.
  intros Ht Hf.
  assert (∀ zs, visits (queue h xs) zs (λ ys s, ⌜s = ys⌝)%I collect) as Hc.
  { intros zs ys x zs' s _. iIntros "[H ->]". iApply hwp_ret. by iFrame. }
  destruct d; simpl in Ht.
  - injection Ht as <-. iIntros "H". iApply hwp_wand. iSplitL.
    + iApply (traverse_law (λ ys s, ⌜s = ys⌝)%I h xs collect fuel []); [apply Hc|done|]. by iFrame.
    + iIntros (ys) "[$ ->]". done.
  - destruct (kind_reverse k) as [r|] eqn:Hr; [|done]. injection Ht as <-.
    pose proof (kind_reverse_laws k r Hr) as Hl. iIntros "H". iApply hwp_wand. iSplitL.
    + iApply (reverse_law (λ ys s, ⌜s = ys⌝)%I h xs collect fuel []); [apply Hc|done|]. by iFrame.
    + iIntros (ys) "[$ ->]". done.
Qed.

Lemma filled_spec s fuel h X os c xs X' :
  filled k s fuel h os = Some c → perform_all os ([], X) = Some (xs, X') → (length os ≤ fuel)%nat →
  head_cells s h ∗ ([∗ set] x ∈ X, entry2 x) ⊢ hwp c (λ _, pool h (xs, X')).
Proof.
  intros Hc Ho Hf. unfold filled in Hc.
  destruct (@run_all (kind_queue k) fuel h os) as [c1|] eqn:Hc1; [|done]. injection Hc as <-.
  rewrite started_spec. iIntros "H". iApply hwp_bind. iApply hwp_wand. iFrame.
  iIntros (_) "H". by iApply (run_all_refines fuel h os with "H").
Qed.

(** A queue that is used again. *)
Lemma used_spec fuel h os c xs free σ' :
  run_all fuel h os = Some c → perform_all os (xs, free) = Some σ' → (length xs + length os ≤ fuel)%nat →
  queue h xs ∗ ([∗ set] e ∈ free, entry e) ⊢ hwp c (λ _, pool h σ').
Proof. apply run_all_refines. Qed.

Lemma program_spec s fuel h X os d c xs X' :
  program k s fuel h os d = Some c → perform_all os ([], X) = Some (xs, X') → (length os < fuel)%nat →
  head_cells s h ∗ ([∗ set] x ∈ X, entry2 x) ⊢ hwp c (λ ys, ⌜ys = in_direction d xs⌝).
Proof.
  intros Hc Ho Hf. unfold program in Hc.
  destruct (filled k s fuel h os) as [c1|] eqn:Hc1; [|done].
  destruct (visited k d fuel h) as [t|] eqn:Ht; [|done]. injection Hc as <-.
  pose proof (perform_all_length _ _ _ _ _ Ho) as Hlen. simpl in Hlen.
  rewrite filled_spec //; [|lia]. iIntros "H". iApply hwp_bind. iApply hwp_wand. iFrame.
  iIntros (_) "[Hq _]". iApply hwp_wand. iSplitL "Hq"; [iApply (visited_spec with "Hq"); [done|simpl; lia]|].
  by iIntros (ys) "[$ _]".
Qed.
End kind.

Lemma initialised_agree k s h (X : gset loc) m m' :
  h ∈ X → (∀ d, d.1 ∈ X → m' !! d = m !! d) → initialised k s h m → initialised k s h m'.
Proof. intros Hh Hm (v0 & v1 & H0 & H1 & Hs). exists v0, v1. rewrite !Hm //. Qed.

Lemma two_heads h1 h2 (X1 X2 : gset loc) m :
  h1 ≠ h2 → {[h1; h2]} ## (X1 ∪ X2) → X1 ## X2 → allocated ({[h1; h2]} ∪ X1 ∪ X2) m →
  holds ((entry2 h1 ∗ [∗ set] x ∈ X1, entry2 x) ∗ entry2 h2 ∗ [∗ set] x ∈ X2, entry2 x)%I m.
Proof.
  intros Hne Hh HX Hm. eapply hprop_entails; [|by apply allocated_holds].
  rewrite !big_sepS_union; [|set_solver..]. rewrite !big_sepS_singleton.
  iIntros "[[[$ $] $] $]".
Qed.

(** ** What the macros do, for every kind *)

(** (C4) A program that sets up a head statically or with INIT, runs any operations
    the kind has and that may be run, and traverses the queue with FOREACH or
    FOREACH_REVERSE: it visits the elements that the operations on lists leave,
    in their order or backwards, reads and writes no memory but that of the
    head and of its elements, and changes no other. *)
Theorem queue_programs k s fuel h X os d c xs X' m :
  h ∉ X → initialised k s h m → allocated X m →
  perform_all os ([], X) = Some (xs, X') → program k s fuel h os d = Some c → (length os < fuel)%nat →
  Prelude.wp c (λ ys m', ys = in_direction d xs ∧ unchanged ({[h]} ∪ X) m m') m.
Proof.
  intros Hh Hi HX Ho Hc Hf.
  apply (hwp_run c (head_cells k s h ∗ [∗ set] x ∈ X, entry2 x)%I (λ ys, ys = in_direction d xs)).
  - intros m' Hm. apply initialised_holds; [done| |].
    + eapply initialised_agree; [|exact Hm|done]. set_solver.
    + eapply (allocated_mono X X); [done|done|]. intros c' Hc'. apply Hm. set_solver.
  - by rewrite program_spec.
Qed.

(** (C24) CONCAT moves the elements of the second queue behind those of the first
    one and leaves the second one empty, and both can be used as before: after
    any further operations on the one, from the elements of both queues, and on
    the other, from no element, FOREACH or FOREACH_REVERSE on each of them
    visits what the operations on lists leave. No other memory is changed. *)
Theorem queue_concat k fuel d h1 os1 X1 xs X1' os1' xs' X1'' h2 os2 X2 ys X2' os2' ys' X2'' c m :
  h1 ≠ h2 → {[h1; h2]} ## (X1 ∪ X2) → X1 ## X2 → allocated ({[h1; h2]} ∪ X1 ∪ X2) m →
  perform_all os1 ([], X1) = Some (xs, X1') → perform_all os2 ([], X2) = Some (ys, X2') →
  perform_all os1' (xs ++ ys, X1') = Some (xs', X1'') → perform_all os2' ([], X2') = Some (ys', X2'') →
  concat_program k fuel d h1 os1 os1' h2 os2 os2' = Some c →
  (length os1 + length os2 + length os1' + length os2' < fuel)%nat →
  Prelude.wp c (λ r m', r = (in_direction d xs', in_direction d ys') ∧
    unchanged ({[h1; h2]} ∪ X1 ∪ X2) m m') m.
Proof.
  intros Hne Hh HX Hm Ho1 Ho2 Ho1' Ho2' Hc Hf. unfold concat_program in Hc.
  destruct (kind_concat k) as [cc|] eqn:Hcc; [|done].
  destruct (filled k Dynamic fuel h1 os1) as [c1|] eqn:Hc1; [|done].
  destruct (filled k Dynamic fuel h2 os2) as [c2|] eqn:Hc2; [|done].
  destruct (@run_all (kind_queue k) fuel h1 os1') as [c1'|] eqn:Hc1'; [|done].
  destruct (@run_all (kind_queue k) fuel h2 os2') as [c2'|] eqn:Hc2'; [|done].
  destruct (visited k d fuel h1) as [t1|] eqn:Ht1; [|done].
  destruct (visited k d fuel h2) as [t2|] eqn:Ht2; [|done]. injection Hc as <-.
  pose proof (perform_all_length _ _ _ _ _ Ho1) as Hl1. pose proof (perform_all_length _ _ _ _ _ Ho2) as Hl2.
  pose proof (perform_all_length _ _ _ _ _ Ho1') as Hl1'. pose proof (perform_all_length _ _ _ _ _ Ho2') as Hl2'.
  rewrite ->length_app in Hl1'. simpl in *.
  apply (hwp_run _ ((entry2 h1 ∗ [∗ set] x ∈ X1, entry2 x) ∗ entry2 h2 ∗ [∗ set] x ∈ X2, entry2 x)%I
    (λ r, r = (in_direction d xs', in_direction d ys'))); [intros m' Hm'; apply two_heads; [done..|by eapply allocated_mono]|].
  iIntros "[H1 H2]".
  iApply hwp_bind. iApply hwp_wand. iSplitL "H1"; [iApply (filled_spec k Dynamic with "H1"); [done..|lia]|].
  iIntros (_) "[H1 HX1]".
  iApply hwp_bind. iApply hwp_wand. iSplitL "H2"; [iApply (filled_spec k Dynamic with "H2"); [done..|lia]|].
  iIntros (_) "[H2 HX2]".
  iApply hwp_bind. iApply hwp_wand. iSplitL "H1 H2"; [iApply (kind_concat_law k cc h1 h2 xs ys Hcc); iFrame|].
  iIntros (_) "[H1 H2]".
  iApply hwp_bind. iApply hwp_wand.
  iSplitL "H1 HX1"; [iApply (used_spec k fuel h1 os1' c1' _ _ (xs', X1'') with "[$H1 $HX1]"); [done..|simpl; rewrite length_app; lia]|].
  iIntros (_) "[H1 _]".
  iApply hwp_bind. iApply hwp_wand.
  iSplitL "H2 HX2"; [iApply (used_spec k fuel h2 os2' c2' _ _ (ys', X2'') with "[$H2 $HX2]"); [done..|simpl; lia]|].
  iIntros (_) "[H2 _]".
  iApply hwp_bind. iApply hwp_wand.
  iSplitL "H1"; [iApply (visited_spec k d with "H1"); [done|simpl; lia]|]. iIntros (r1) "[-> _]".
  iApply hwp_bind. iApply hwp_wand.
  iSplitL "H2"; [iApply (visited_spec k d with "H2"); [done|simpl; lia]|]. iIntros (r2) "[-> _]".
  by iApply hwp_ret.
Qed.

(** The objects 1 to 8, with undefined cells. *)
Definition objects : mem :=
  list_to_map ((λ x, ((x, 0%nat), VUndef)) <$> [1; 2; 3; 4; 5; 6; 7; 8]%positive) ∪
  list_to_map ((λ x, ((x, 1%nat), VUndef)) <$> [1; 2; 3; 4; 5; 6; 7; 8]%positive).

Lemma queue_programs_witness :
  ∃ c, program Ktailq Dynamic 6 1%positive
         [InsertTail 2; InsertHead 3; InsertAfter 2 4; InsertBefore 2 5; Remove 2]%positive Backwards = Some c ∧
       Prelude.wp c (λ ys m', ys = [4; 5; 3]%positive ∧ unchanged ({[1]} ∪ {[2; 3; 4; 5]})%positive objects m') objects.
Proof.
  eexists. split; [reflexivity|].
  change [4; 5; 3]%positive with (in_direction Backwards [3; 5; 4]%positive).
  eapply (queue_programs Ktailq Dynamic 6 1%positive {[2; 3; 4; 5]}%positive
    [InsertTail 2; InsertHead 3; InsertAfter 2 4; InsertBefore 2 5; Remove 2]%positive);
    [set_solver| | |vm_compute; reflexivity|reflexivity|simpl; lia].
  - exists VUndef, VUndef. repeat split; done.
  - apply (bool_decide_unpack _). vm_compute. exact I.
Defined.

(** After CONCAT 2, 3 and 5 are in the first queue; 3 is removed and 7 is put
    in front and 3 at the tail again, and 6 and 8 are put into the second one. *)
Lemma queue_concat_witness :
  ∃ c, concat_program Ktailq 12 Backwards 1%positive [InsertTail 2; InsertTail 3]%positive
         [Remove 3; InsertHead 7; InsertTail 3]%positive
         4%positive [InsertHead 5; InsertHead 6; Remove 6]%positive [InsertTail 6; InsertTail 8]%positive = Some c ∧
       Prelude.wp c (λ r m', r = ([3; 5; 2; 7], [8; 6])%positive ∧
         unchanged ({[1; 4]} ∪ {[2; 3; 7]} ∪ {[5; 6; 8]})%positive objects m') objects.
Proof.
  eexists. split; [reflexivity|].
  change ([3; 5; 2; 7], [8; 6])%positive
    with (in_direction Backwards [7; 2; 5; 3]%positive, in_direction Backwards [6; 8]%positive).
  eapply (queue_concat Ktailq 12 Backwards 1%positive [InsertTail 2; InsertTail 3]%positive {[2; 3; 7]}%positive [2; 3]%positive _
    [Remove 3; InsertHead 7; InsertTail 3]%positive [7; 2; 5; 3]%positive _
    4%positive [InsertHead 5; InsertHead 6; Remove 6]%positive {[5; 6; 8]}%positive [5]%positive _
    [InsertTail 6; InsertTail 8]%positive [6; 8]%positive _);
    [done|set_solver|set_solver| |vm_compute; reflexivity|vm_compute; reflexivity|vm_compute; reflexivity|
     vm_compute; reflexivity|reflexivity|simpl; lia].
  apply (bool_decide_unpack _). vm_compute. exact I.
Defined.
