(* ===== verification/VxWorksTimer.v ===== *)
(** * VxWorks clocks and sleeping: src/vxworks/timer.c

    The functions over nanosleep and clock_gettime, the class [VxTime]. The file
    declares what the header has as [osal_uint64_t] as [osal_int64_t]; it has no
    osal_sleep_until. But for the arithmetic on those integers, and for
    osal_timer_gettime_nsec, which computes in [double] here, the functions are
    those of src/posix/timer.c, which is proved at the end. *)

From S2P Require Import Prelude Osal Timer PosixTimer PikeosTimer.

(** [nanosleep] gives its result, and the remaining time when it wrote it. *)
Class VxTime (W : Type) := {
  global_clock_id : W → Z;
  set_global_clock_id : Z → W → W;
  nanosleep : timespec → C W (Z * option timespec);
  clock_gettime : Z → C W (Z * option timespec);
  perror : string → C W unit;
}.

Section timer.
Context {W : Type} `{!VxTime W}.

(** One round of the [while (1)] of [osal_sleep], on the locals [ts], [rest]. *)
Definition osal_sleep_round (s : timespec * option timespec) : C W ((timespec * option timespec) + unit) :=
  let '(ts, rest) := s in
  '(ret, out) ← nanosleep ts;
  let rest := match out with Some r => Some r | None => rest end in
  if ret =? 0 then mret (inr tt)
  else ts' ← deref rest; mret (inl (ts', rest)).

(** Signed division truncates. *)
Definition osal_sleep (fuel : nat) (nsec : Z) : C W unit :=
  cloop fuel osal_sleep_round (mk_timespec (Z.quot nsec NSEC_PER_SEC) (Z.rem nsec NSEC_PER_SEC), None).

Definition osal_timer_set_clock_source (clock_id : Z) : C W unit := modify (set_global_clock_id clock_id).

Definition osal_timer_get_clock_source : C W Z := gets global_clock_id.

Definition osal_timer_gettime (timer : option osal_timer) : C W (Z * osal_timer) :=
  timer ← assert_ptr timer;
  id ← gets global_clock_id;
  '(r, ts) ← clock_gettime id;
  if r =? -1 then perror "clock_gettime";; mret (OSAL_ERR_UNAVAILABLE, timer)
  else ts ← deref ts; mret (OSAL_OK, mk_timer (u64 (tv_sec ts)) (u64 (tv_nsec ts))).

(** [ret = ((tmr.sec * 1E9) + tmr.nsec)], from [double] to [osal_int64_t]. *)
Definition osal_timer_gettime_nsec : C W Z :=
  '(local_ret, tmr) ← osal_timer_gettime (Some (mk_timer 0 0));
  if local_ret =? OSAL_OK then from_double (2 ^ 63) (timer_double tmr) else mret 0.

Definition osal_timer_init (timer : option osal_timer) (timeout : Z) : C W osal_timer :=
  _ ← assert_ptr timer;
  id ← gets global_clock_id;
  '(r, ts) ← clock_gettime id;
  (if r =? -1 then perror "clock_gettime" else mret tt);;
  ts ← deref ts;
  let a := mk_timer (u64 (tv_sec ts)) (u64 (tv_nsec ts)) in
  let b := mk_timer (u64 (Z.quot timeout NSEC_PER_SEC)) (u64 (Z.rem timeout NSEC_PER_SEC)) in
  mret (osal_timer_add a b).

Definition osal_timer_expired (timer : option osal_timer) : C W Z :=
  timer ← assert_ptr timer;
  '(ret, act) ← osal_timer_gettime (Some (mk_timer 0 0));
  mret (if ret =? OSAL_OK then
          if osal_timer_cmp act timer Z.ltb then ret else OSAL_ERR_TIMEOUT
        else ret).
End timer.

(** ** The same calls for the functions of the POSIX back end *)
Definition posix_of_vxworks {W} `{!VxTime W} : PosixTimeOS W := {|
  PosixTimer.global_clock_id := global_clock_id;
  PosixTimer.set_global_clock_id := set_global_clock_id;
  PosixTimer.clock_gettime := clock_gettime;
  PosixTimer.clock_nanosleep _ _ := nanosleep;
  PosixTimer.perror := perror;
|}.

(** A loop is determined by what its body does. *)
Lemma cloop_ext {W S A} (f g : S → C W (S + A)) :
  (∀ s w, f s w = g s w) → ∀ fuel s w, cloop fuel f s w = cloop fuel g s w.
Proof.
  intros Hfg. induction fuel as [|n IH]; intros s w; [done|]. simpl. unfold mbind, C_bind. rewrite Hfg.
  destruct (g s w) as [[s'|a] w'| | |]; [apply IH|done..].
Qed.

Section same.
Context {W : Type} `{!VxTime W}.
#[local] Existing Instance posix_of_vxworks.

(** For times that are not negative, the functions but [osal_timer_gettime_nsec]
    do exactly what those of src/posix/timer.c do. *)
Theorem vxworks_timer_as_posix fuel n timer (w : W) :
  0 ≤ n < 2 ^ 63 →
  osal_sleep fuel n w = PosixTimer.osal_sleep fuel n w ∧
  osal_timer_gettime timer w = PosixTimer.osal_timer_gettime timer w ∧
  osal_timer_init timer n w = PosixTimer.osal_timer_init timer n w ∧
  osal_timer_expired timer w = PosixTimer.osal_timer_expired timer w.
Proof.
  intros Hn. assert (Z.quot n NSEC_PER_SEC = n / NSEC_PER_SEC ∧ Z.rem n NSEC_PER_SEC = n mod NSEC_PER_SEC) as [Hq Hr].
  { unfold NSEC_PER_SEC. rewrite Z.quot_div_nonneg, Z.rem_mod_nonneg by lia. done. }
  split_and!; [|done| |done].
  - unfold osal_sleep, PosixTimer.osal_sleep. rewrite Hq, Hr. apply cloop_ext. by intros [ts rest] w'.
  - unfold osal_timer_init, PosixTimer.osal_timer_init. rewrite Hq, Hr. unfold NSEC_PER_SEC.
    pose proof (Z.mod_pos_bound n 1000000000 ltac:(lia)).
    assert (0 ≤ n / 1000000000 < 2 ^ 63) by (split; [apply Z.div_pos; lia|apply Z.div_lt_upper_bound; lia]).
    by rewrite !(uwrap_id 64 (n / _)), !(uwrap_id 64 (n mod _)) by (unfold in_uint; lia).
Qed.

(** Reading the clock as one number goes through [double]: the first 104 days
    are exact, later times are off by about a microsecond at most. *)
Theorem vxworks_gettime_nsec_near `{!PosixTimeLaws W} (w : W) :
  supported (W := W) (global_clock_id w) →
  wp (osal_timer_gettime (Some (mk_timer 0 0))) (λ _ w', clock_time w' < 2 ^ 62) w →
  wp osal_timer_gettime_nsec (λ v w',
    Z.abs (v - clock_time w') ≤ 1024 ∧ (clock_time w' < 2 ^ 53 → v = clock_time w')) w.
Proof.
  intros Hs Hb. pose proof (gettime_spec (mk_timer 0 0) w Hs) as Hg.
  change (PosixTimer.osal_timer_gettime (Some (mk_timer 0 0))) with (osal_timer_gettime (Some (mk_timer 0 0))) in Hg.
  unfold osal_timer_gettime_nsec. apply wp_bind. unfold wp at 1. unfold wp in Hg, Hb.
  destruct (osal_timer_gettime _ w) as [[r t] w'| | |] eqn:He; try done.
  destruct Hg as (_ & _ & Hr & Ht). simpl in Hr, Ht. subst r.
  destruct Ht as [Hwf Htot]; [unfold NSEC_PER_SEC; lia|]. rewrite <- Htot in Hb.
  destruct (timer_double_near t Hwf Hb) as [Hn Hx]. simpl. apply from_double_spec; [lia|]. by rewrite <- Htot.
Qed.
End same.

(** The POSIX clock of PosixTimer, as one of VxWorks. *)
#[local] Instance sim : VxTime PosixTimer.Sim.world := {|
  global_clock_id := PosixTimer.Sim.clk;
  set_global_clock_id := PosixTimer.set_global_clock_id;
  nanosleep := PosixTimer.clock_nanosleep CLOCK_MONOTONIC 0;
  clock_gettime := PosixTimer.clock_gettime;
  perror := PosixTimer.perror;
|}.

Lemma vxworks_timer_as_posix_witness :
  let w := PosixTimer.Sim.mk_world CLOCK_MONOTONIC 7 2 in
  osal_sleep 3 2500000000 w = Ret tt (PosixTimer.Sim.mk_world CLOCK_MONOTONIC 2500000007 0) ∧
  osal_sleep 3 2500000000 w = @PosixTimer.osal_sleep _ posix_of_vxworks 3 2500000000 w.
Proof.
  split; [vm_compute; reflexivity|].
  exact (proj1 (vxworks_timer_as_posix 3 2500000000 None (PosixTimer.Sim.mk_world CLOCK_MONOTONIC 7 2) ltac:(lia))).
Defined.
