(* ===== verification/Stm32Stubs.v ===== *)
(** * The rest of the bare-metal back end: src/stm32/condvar.c, mq.c, shm.c, spinlock.c, task.c

    There is one thread, and nothing to be shared with another one: the bodies
    of these functions are commented out in the source, but for the checks of
    the pointers and the code returned, and for [osal_shm_close], which closes
    the descriptor that [osal_shm_open] did not open ([close] is the class
    [Newlib]). The structures behind the pointers have no members that are
    used, so that a pointer is its address; nothing is written through one.

    The configuration has no pthread_setaffinity_np, SIGSTOP and SIGCONT: the
    code under these macros uses a member [tid] that the structure of this back
    end does not have. [stm32_task_wrapper] is called by nobody. *)

From S2P Require Import Prelude Osal Timer BinarySemaphore PosixShm PosixMq PosixTask.

Class Newlib (W : Type) := {
  close : Z → C W Z;
}.

Section stubs.
Context {W : Type} `{!Newlib W}.
Implicit Types (cv mtx hdl mq state out : option loc) (attr : option Z) (name msg : option (list Z)).

(** ** condvar.c *)

Definition osal_condvar_init cv attr : C W Z := _ ← assert_ptr cv; mret OSAL_OK.
Definition osal_condvar_signal cv : C W Z := _ ← assert_ptr cv; mret OSAL_OK.
Definition osal_condvar_broadcast cv : C W Z := _ ← assert_ptr cv; mret OSAL_OK.
Definition osal_condvar_wait cv mtx : C W Z := _ ← assert_ptr cv; mret OSAL_OK.
Definition osal_condvar_timedwait cv mtx (to : option osal_timer) : C W Z :=
  _ ← assert_ptr cv; _ ← assert_ptr mtx; _ ← assert_ptr to; mret OSAL_OK.
Definition osal_condvar_destroy cv : C W Z := _ ← assert_ptr cv; mret OSAL_OK.

(** ** mq.c *)

Definition osal_mq_open mq name (attr : option osal_mq_attr) : C W Z :=
  _ ← assert_ptr mq; _ ← assert_ptr name; mret OSAL_OK.
Definition osal_mq_send mq msg (msg_len prio : Z) : C W Z := _ ← assert_ptr mq; _ ← assert_ptr msg; mret OSAL_OK.
Definition osal_mq_timedsend mq msg (msg_len prio : Z) (to : option osal_timer) : C W Z :=
  _ ← assert_ptr mq; _ ← assert_ptr msg; _ ← assert_ptr to; mret OSAL_ERR_INTERRUPTED.
Definition osal_mq_receive mq (msg : option unit) (msg_len : Z) (prio : option Z) : C W Z :=
  _ ← assert_ptr mq; _ ← assert_ptr msg; mret OSAL_OK.
Definition osal_mq_timedreceive mq (msg : option unit) (msg_len : Z) (prio : option Z) (to : option osal_timer) : C W Z :=
  _ ← assert_ptr mq; _ ← assert_ptr msg; _ ← assert_ptr to; mret OSAL_ERR_INTERRUPTED.
Definition osal_mq_close mq : C W Z := _ ← assert_ptr mq; mret OSAL_OK.

(** ** shm.c *)

Definition osal_shm_open (shm : option osal_shm_t) name attr (size : Z) : C W Z :=
  _ ← assert_ptr shm; _ ← assert_ptr name; mret OSAL_OK.
Definition osal_shm_map (shm : option osal_shm_t) attr (ptr : option unit) : C W Z :=
  _ ← assert_ptr shm; _ ← assert_ptr ptr; mret OSAL_OK.
Definition osal_shm_close (shm : option osal_shm_t) : C W Z :=
  shm ← assert_ptr shm; _ ← close (fd shm); mret OSAL_OK.

(** ** spinlock.c *)

Definition osal_spinlock_init mtx attr : C W Z := _ ← assert_ptr mtx; mret OSAL_OK.
Definition osal_spinlock_lock mtx : C W Z := _ ← assert_ptr mtx; mret OSAL_OK.
Definition osal_spinlock_unlock mtx : C W Z := _ ← assert_ptr mtx; mret OSAL_OK.
Definition osal_spinlock_destroy mtx : C W Z := _ ← assert_ptr mtx; mret OSAL_OK.

(** ** task.c *)

Definition osal_task_create hdl (attr : option osal_task_attr) (handler arg : Z) : C W Z :=
  _ ← assert_ptr hdl; mret OSAL_OK.
Definition osal_task_join hdl out : C W Z := mret OSAL_OK.
Definition osal_task_destroy hdl : C W Z := _ ← assert_ptr hdl; mret OSAL_OK.
Definition osal_task_get_hdl hdl : C W Z := _ ← assert_ptr hdl; mret OSAL_ERR_NOT_IMPLEMENTED.
Definition osal_task_set_task_attr hdl (attr : option osal_task_attr) : C W Z := _ ← assert_ptr hdl; mret OSAL_OK.
Definition osal_task_get_task_attr hdl (attr : option osal_task_attr) : C W Z := mret OSAL_OK.
Definition osal_task_set_policy hdl (policy : Z) : C W Z := mret OSAL_OK.
Definition osal_task_get_policy hdl (policy : option Z) : C W Z :=
  _ ← assert_ptr hdl; _ ← assert_ptr policy; mret OSAL_OK.
Definition osal_task_set_priority hdl (prio : Z) : C W Z := mret OSAL_OK.
Definition osal_task_get_priority hdl (prio : option Z) : C W Z := mret OSAL_OK.
Definition osal_task_set_affinity hdl (affinity : Z) : C W Z := mret OSAL_OK.
Definition osal_task_get_affinity hdl (affinity : option Z) : C W Z := mret OSAL_OK.
Definition osal_task_suspend hdl : C W Z := mret OSAL_ERR_NOT_IMPLEMENTED.
Definition osal_task_resume hdl : C W Z := mret OSAL_ERR_NOT_IMPLEMENTED.
Definition osal_task_delete : C W Z := mret OSAL_OK.
Definition osal_task_get_state hdl state : C W Z := _ ← assert_ptr hdl; mret OSAL_ERR_NOT_IMPLEMENTED.
End stubs.
