(* ===== verification/Output.v ===== *)
(** * Output: [osal_puts] of src/posix/io.c, src/stm32/io.c and src/pikeos/io.c

    A message is its bytes without the terminating zero. The output functions of
    the platforms are classes. On PikeOS the output goes through a function that
    is not reentrant, so that a mutex is kept for it, in a static variable that
    the first call initialises. The source of that function checks a variable
    [fmt] that it does not have: it is modelled as it is compiled, without
    assertions (NDEBUG). *)

From S2P Require Import Prelude Osal Timer BinarySemaphore PikeosTimer PikeosSync.
Open Scope list_scope.

(** ** src/posix/io.c *)
Module Posix.
Class Stdio (W : Type) := { fputs : list Z → C W Z }.

Definition osal_puts {W} `{!Stdio W} (msg : option (list Z)) : C W Z :=
  msg ← assert_ptr msg; _ ← fputs msg; mret OSAL_OK.
End Posix.

(** ** src/stm32/io.c

    The length is an [uint16_t]; the first [n] bytes are sent. *)
Module Uart.
Class HAL (W : Type) := { HAL_UART_Transmit : list Z → Z → Z → C W Z }.

Definition osal_puts {W} `{!HAL W} (msg : option (list Z)) : C W Z :=
  msg ← assert_ptr msg;
  _ ← HAL_UART_Transmit msg (uwrap 16 (Z.of_nat (length msg))) 1000;
  mret OSAL_OK.
End Uart.

(** ** src/pikeos/io.c *)
Module Vm.
Class Vm (W : Type) := {
  mutex_printf : loc;
  mutex_printf_init : W → Z;
  set_mutex_printf_init : Z → W → W;
  vm_cprintf : list Z → C W unit;
}.

Section output.
Context {W : Type} `{!PikeosConfig, !P4Codes, !P4Time W, !P4Mutex W, !Vm W}.

Definition osal_puts (msg : option (list Z)) : C W Z :=
  init ← gets mutex_printf_init;
  (if init =? 0 then
     _ ← Mutex.osal_mutex_init (Some mutex_printf) None;
     modify (set_mutex_printf_init 1)
   else mret tt);;
  ret ← Mutex.osal_mutex_lock (Some mutex_printf);
  (if ret =? OSAL_OK then
     msg ← deref msg;
     vm_cprintf msg;;
     _ ← Mutex.osal_mutex_unlock (Some mutex_printf);
     mret tt
   else mret tt);;
  mret OSAL_OK.

(** [osal_vfprintf] where the compiler is GCC 5: [text] is what the format and
    its arguments make; the result is its length. *)
Definition osal_vfprintf (text : list Z) : C W Z :=
  let v_tmp_buf := take 255 text in
  _ ← osal_puts (Some v_tmp_buf);
  mret (Z.of_nat (length text)).

(** One message after the other. *)
Definition puts_all (msgs : list (list Z)) : C W unit :=
  foldr (λ msg m, _ ← osal_puts (Some msg); m) (mret tt) msgs.
End output.

(** What PikeOS promises to a thread that does not compete for the mutex: a
    mutex that was initialised and that nobody holds is given to it, and
    [vm_cprintf] prints, to the thread that holds the mutex. [inits]: how often
    the mutex was initialised; [printed]: the output. *)
Class VmLaws (W : Type) `{!P4Codes, !P4Time W, !P4Mutex W, !Vm W} := {
  holds : W → bool;
  inits : W → nat;
  printed : W → list (list Z);
  set_law v w :
    mutex_printf_init (set_mutex_printf_init v w) = v ∧ holds (set_mutex_printf_init v w) = holds w ∧
    inits (set_mutex_printf_init v w) = inits w ∧ printed (set_mutex_printf_init v w) = printed w;
  init_law w : wp (p4_mutex_init mutex_printf 0) (λ _ w',
    mutex_printf_init w' = mutex_printf_init w ∧ holds w' = false ∧ inits w' = S (inits w) ∧ printed w' = printed w) w;
  lock_law w : (0 < inits w)%nat → holds w = false → wp (p4_mutex_lock mutex_printf P4_TIMEOUT_INFINITE) (λ r w',
    r = P4_E_OK ∧ mutex_printf_init w' = mutex_printf_init w ∧ holds w' = true ∧ inits w' = inits w ∧
    printed w' = printed w) w;
  unlock_law w : holds w = true → wp (p4_mutex_unlock mutex_printf) (λ r w',
    mutex_printf_init w' = mutex_printf_init w ∧ holds w' = false ∧ inits w' = inits w ∧ printed w' = printed w) w;
  print_law msg w : holds w = true → wp (vm_cprintf msg) (λ _ w',
    mutex_printf_init w' = mutex_printf_init w ∧ holds w' = true ∧ inits w' = inits w ∧
    printed w' = printed w ++ [msg]) w;
}.

Section lemmas.
Context {W : Type} `{!PikeosConfig, !P4Codes, !P4Time W, !P4Mutex W, !Vm W, !VmLaws W}.

(** Between two messages: the mutex is free, and the variable tells whether it
    has been initialised. *)
Definition ready (n : nat) (out : list (list Z)) (w : W) : Prop :=
  holds w = false ∧ inits w = n ∧ printed w = out ∧ mutex_printf_init w = (if Nat.eqb n 0 then 0 else 1).

Lemma puts_spec msg n out w :
  ready n out w → wp (osal_puts (Some msg)) (λ r w', r = OSAL_OK ∧ ready (Nat.max n 1) (out ++ [msg]) w') w.
Proof.
  intros (Hh & Hi & Hp & Hv). unfold osal_puts. apply wp_bind. unfold gets. unfold wp at 1. apply wp_bind.
  apply (wp_mono _ (λ _ w', ready (Nat.max n 1) out w')).
  { rewrite Hv. destruct n as [|n]; simpl.
    - unfold Mutex.osal_mutex_init. do 2 apply wp_bind. apply wp_ret. simpl. apply wp_bind.
      eapply wp_mono; [apply init_law|].
      intros _ w1 (H1 & H2 & H3 & H4). apply wp_ret. unfold modify, wp.
      destruct (set_law 1 w1) as (Hs1 & Hs2 & Hs3 & Hs4). split_and!; simpl; congruence.
    - apply wp_ret. split_and!; simpl; (done || lia). }
  intros _ w1 (Hh1 & Hi1 & Hp1 & Hv1). unfold Mutex.osal_mutex_lock. do 2 apply wp_bind. apply wp_ret. simpl. apply wp_bind.
  eapply wp_mono; [apply lock_law; [lia|done]|]. intros r w2 (-> & H1 & H2 & H3 & H4).
  unfold p4_ret. rewrite Z.eqb_refl. apply wp_ret, wp_bind; simpl.
  apply wp_bind, wp_ret, wp_bind.
  eapply wp_mono; [by apply print_law|]. intros _ w3 (H5 & H6 & H7 & H8).
  unfold Mutex.osal_mutex_unlock. do 2 apply wp_bind. apply wp_ret. simpl. apply wp_bind.
  eapply wp_mono; [by apply unlock_law|]. intros r w4 (H9 & H10 & H11 & H12). do 3 apply wp_ret.
  split; [done|]. split_and!; congruence.
Qed.

Lemma puts_all_spec msgs n out w :
  ready n out w →
  wp (puts_all msgs) (λ _, ready (if msgs is [] then n else Nat.max n 1) (out ++ msgs)) w.
Proof.
  revert n out w. induction msgs as [|s msgs IH]; intros n out w Hw; simpl; [by rewrite app_nil_r|].
  apply wp_bind. eapply wp_mono; [by apply puts_spec|]. intros r w1 [_ Hr].
  eapply wp_mono; [by apply IH|]. intros u w2. rewrite <- app_assoc. simpl. destruct msgs; [done|].
  by replace (Nat.max (Nat.max n 1) 1) with (Nat.max n 1) by lia.
Qed.
End lemmas.
End Vm.

(** ** A small PikeOS partition *)
Module Sim.
Record vm : Type := mk_vm { v_init : Z; v_holds : bool; v_inits : nat; v_out : list (list Z) }.

#[global] Instance config : PikeosConfig := {|
  LIBOSAL_HAVE_P4EXT_THREADS_H := false; LIBOSAL_HAVE_P4_MUTEX_INIT_EXT := false;
|}.

#[global] Instance time : P4Time vm := {|
  p4_timeout := Z; P4_NSEC n := n; P4_TIMEOUT_ABS n := n; P4_TIMEOUT_INFINITE := -1; P4_time_bound := 2 ^ 64;
  p4_sleep _ := mret P4_E_OK; p4_get_time := mret 0;
|}.

(** Locking a mutex that was not initialised is an error. *)
#[global] Instance mutex : P4Mutex vm := {|
  P4_MUTEX_SHARED := 1; P4_MUTEX_ROBUST := 2; P4_MUTEX_RECURSIVE := 4; P4_MUTEX_PRIO_INHERIT := 8;
  P4_MUTEX_PRIO_CEILING := 16;
  p4_mutex_init _ _ := modify (λ w, mk_vm (v_init w) false (S (v_inits w)) (v_out w));
  p4_mutex_init_ext _ _ _ := modify (λ w, mk_vm (v_init w) false (S (v_inits w)) (v_out w));
  p4_mutex_lock _ _ := λ w,
    if Nat.eqb (v_inits w) 0 then Ret P4_E_INVAL w
    else if v_holds w then NoReturn else Ret P4_E_OK (mk_vm (v_init w) true (v_inits w) (v_out w));
  p4_mutex_trylock _ := mret P4_E_STATE;
  p4_mutex_unlock _ := λ w,
    if v_holds w then Ret P4_E_OK (mk_vm (v_init w) false (v_inits w) (v_out w)) else Ret P4_E_STATE w;
|}.

#[global] Instance output : Vm.Vm vm := {|
  Vm.mutex_printf := 1%positive;
  Vm.mutex_printf_init := v_init;
  Vm.set_mutex_printf_init v w := mk_vm v (v_holds w) (v_inits w) (v_out w);
  Vm.vm_cprintf s := modify (λ w, mk_vm (v_init w) (v_holds w) (v_inits w) (v_out w ++ [s]));
|}.

#[global] Instance laws : Vm.VmLaws vm.
Proof.
  refine {| Vm.holds := v_holds; Vm.inits := v_inits; Vm.printed := v_out |}.
  - by intros v w.
  - by intros w.
  - intros w Hi Hh. unfold wp. simpl. rewrite Hh. destruct (v_inits w) eqn:E; [lia|]. by split_and!.
  - intros w Hh. unfold wp. simpl. by rewrite Hh.
  - by intros s w Hh.
Defined.
End Sim.

(** ** Properties *)

(** On PikeOS, where the output function needs a mutex that the first call
    initialises, every message is printed, once and in order, while the mutex is
    held; it is initialised exactly once, however many messages follow, and free
    afterwards. *)
Theorem pikeos_puts_prints {W} `{!PikeosConfig, !P4Codes, !P4Time W, !P4Mutex W, !Vm.Vm W, !Vm.VmLaws W} msgs (w : W) :
  Vm.holds w = false → Vm.inits w = 0%nat → Vm.mutex_printf_init w = 0 → msgs ≠ [] →
  wp (Vm.puts_all msgs) (λ _ w',
    Vm.printed w' = Vm.printed w ++ msgs ∧ Vm.inits w' = 1%nat ∧ Vm.holds w' = false) w.
Proof.
  intros Hh Hi Hv Hne.
  eapply wp_mono; [by apply (Vm.puts_all_spec msgs 0 (Vm.printed w))|].
  intros u w' (Ha & Hb & Hc & _). split_and!; [done|by destruct msgs|done].
Qed.

Lemma pikeos_puts_prints_witness :
  Vm.puts_all [[72; 105]; [33]] (Sim.mk_vm 0 false 0 []) = Ret tt (Sim.mk_vm 1 false 1 [[72; 105]; [33]]) ∧
  wp (Vm.puts_all [[72; 105]; [33]]) (λ _ w', Sim.v_out w' = [[72; 105]; [33]] ∧ Sim.v_inits w' = 1%nat ∧ Sim.v_holds w' = false)
    (Sim.mk_vm 0 false 0 []).
Proof. split; [vm_compute; reflexivity|]. refine (pikeos_puts_prints [[72; 105]; [33]] (Sim.mk_vm 0 false 0 []) _ _ _ _); done.
Defined.

(** [osal_vfprintf] returns the length of the text, of which it has printed at
    most 255 bytes. *)
Theorem pikeos_vfprintf_cut {W} `{!PikeosConfig, !P4Codes, !P4Time W, !P4Mutex W, !Vm.Vm W, !Vm.VmLaws W} text n out (w : W) :
  Vm.ready n out w →
  wp (Vm.osal_vfprintf text) (λ r w', r = Z.of_nat (length text) ∧ Vm.printed w' = out ++ [take 255 text]) w.
Proof.
  intros Hw. unfold Vm.osal_vfprintf. apply wp_bind. eapply wp_mono; [by apply Vm.puts_spec|].
  intros r w' (_ & _ & _ & Hp & _). by apply wp_ret.
Qed.

(** The length given to the UART has 16 bits: of a message of 65536 bytes
    nothing is sent, and [OSAL_OK] is returned. *)
Theorem stm32_puts_wraps {W} `{!Uart.HAL W} msg (w : W) :
  length msg = Z.to_nat 65536 →
  Uart.osal_puts (Some msg) w = (_ ← Uart.HAL_UART_Transmit msg 0 1000; mret OSAL_OK) w.
Proof. intros Hl. unfold Uart.osal_puts. erewrite bind_run by reflexivity. by rewrite Hl. Qed.

Lemma stm32_puts_wraps_witness :
  ∃ (i : Uart.HAL unit) msg, length msg = Z.to_nat 65536 ∧
    Uart.osal_puts (Some msg) tt = (_ ← Uart.HAL_UART_Transmit msg 0 1000; mret OSAL_OK) tt.
Proof.
  exists (Uart.Build_HAL unit (λ _ _ _, mret 0)), (replicate (Z.to_nat 65536) 65). split; [by rewrite length_replicate|].
  apply stm32_puts_wraps. by rewrite length_replicate.
Defined.
