(* ===== verification/OutputShared.v ===== *)
(** * Printing threads on PikeOS: [osal_puts] of src/pikeos/io.c

    The function as a program over its accesses to the static variables and its
    calls of the mutex and of [vm_cprintf], which any number of threads
    interleave (Threads). A call of the mutex is one access, one of [vm_cprintf]
    two, where it begins and where it ends: it is not reentrant, and beginning
    it while another call has not ended is undefined.

    Once the mutex is initialised the function is linearizable, printing being
    atomic. It initialises the mutex itself, without protection: two threads
    that print for the first time can be inside [vm_cprintf] at once. *)

From S2P Require Import Prelude Osal Programs Threads.
Open Scope list_scope.

(** ** The memory *)

(** [created], [holder]: the mutex; [inside]: who is in [vm_cprintf];
    [printed]: the output. *)
Record shared : Type := mk_shared {
  mutex_printf_init : Z;
  created : bool;
  holder : option nat;
  inside : option nat;
  printed : list (list Z);
}.

Inductive event : Type :=
  | ReadInit
  | WriteInit (v : Z)
  | MutexInit
  | MutexLock
  | MutexUnlock
  | PrintBegin
  | PrintEnd (msg : list Z).

Abbreviation prog := (Programs.prog event).

(** A mutex that is held makes others wait; the thread that holds it may not
    lock it again. *)
Definition enabled (t : nat) (e : event) (r : shared) : bool :=
  match e with MutexLock => if holder r is Some t' then Nat.eqb t' t else true | _ => true end.

Definition access (t : nat) (e : event) (r : shared) : option (Z * shared) :=
  let '(mk_shared i c h n p) := r in
  match e with
  | ReadInit => Some (i, r)
  | WriteInit v => Some (0, mk_shared v c h n p)
  | MutexInit => Some (OSAL_OK, mk_shared i true None n p)
  | MutexLock =>
      if c then if h is Some _ then None else Some (OSAL_OK, mk_shared i c (Some t) n p) else None
  | MutexUnlock =>
      Some (if bool_decide (h = Some t) then (OSAL_OK, mk_shared i c None n p) else (OSAL_ERR_OPERATION_FAILED, r))
  | PrintBegin => if n is Some _ then None else Some (0, mk_shared i c h (Some t) p)
  | PrintEnd msg => Some (0, mk_shared i c h None (p ++ [msg]))
  end.

Module Shared.
Definition vm_cprintf (msg : list Z) : prog unit := _ ← emit PrintBegin; _ ← emit (PrintEnd msg); mret tt.

Definition osal_puts (t : nat) (msg : list Z) : prog Z :=
  init ← emit ReadInit;
  _ ← (if init =? 0 then _ ← emit MutexInit; emit (WriteInit 1) else mret 0);
  ret ← emit MutexLock;
  if ret =? OSAL_OK then
    _ ← vm_cprintf msg;
    _ ← emit MutexUnlock;
    mret OSAL_OK
  else mret OSAL_OK.
End Shared.

Definition any_start (t : nat) (msg : list Z) (r : shared) : option shared := Some r.

(** Printing is adding to the output. *)
Definition puts_spec (t : nat) (msg : list Z) (out : list (list Z)) (b : Z) (out' : list (list Z)) : Prop :=
  b = OSAL_OK ∧ out' = out ++ [msg].

(** ** Any number of threads *)
Definition ready (t : nat) (r : shared) : Prop := holder r ≠ Some t.

Definition rep_out (r : shared) (out : list (list Z)) : Prop :=
  printed r = out ∧ mutex_printf_init r ≠ 0 ∧ created r = true ∧ (∀ t, inside r = Some t → holder r = Some t).

(** Who holds the mutex keeps it, and is alone in [vm_cprintf]. *)
Definition rely_out (t : nat) (r r' : shared) : Prop :=
  (holder r = Some t ↔ holder r' = Some t) ∧ (holder r = Some t → inside r' = inside r).

#[export] Instance rely_out_preorder t : PreOrder (rely_out t).
Proof.
  unfold rely_out. split; [done|]. intros r1 r2 r3 [H1 H2] [H3 H4]. split; [by rewrite H1|].
  intros H. rewrite H4 by (by apply H1). by apply H2.
Qed.

Section puts.
Context (out0 : list (list Z)).
Abbreviation serves t := (safe (access t) (enabled t) (obj_inv puts_spec out0 rep_out)
  (obj_rely rely_out t) (guar past (obj_rely rely_out) t)).
Implicit Types (t : nat) (r : shared) (o : object (S := list (list Z)) (C := list Z) (B := Z)).

Definition holding t (n : option nat) r : Prop := holder r = Some t ∧ inside r = n.

Lemma ready_stable t r r' : ready t r → rely_out t r r' → ready t r'.
Proof. intros Hr [Hh _] H. by apply Hr, Hh. Qed.

Lemma holding_stable t n r r' : holding t n r → rely_out t r r' → holding t n r'.
Proof. intros [Hh Hi] [Hh' Hi']. split; [by apply Hh'|]. rewrite <- Hi. by apply Hi'. Qed.

(** Holding the mutex, a thread prints and serves its call. *)
Lemma vm_cprintf_serves t msg r o :
  holding t None r → pending o !! t = Some (Waiting msg) →
  serves t (λ _ r o, holding t None r ∧ pending o !! t = Some (Answered OSAL_OK)) (Shared.vm_cprintf msg) r o.
Proof.
  intros Hr Hst. unfold Shared.vm_cprintf.
  apply (serve_access puts_spec _ _ out0 rep_out rely_out (holding t None)
    (λ _ st r, holding t (Some t) r ∧ st = Waiting msg) _ t (Waiting msg)); [apply holding_stable|done..| |].
  { intros [i c h n p] v [Hh Hn] (Hp & Hi & Hc & Hin) Hen. simpl in *. subst.
    exists 0, (mk_shared i true (Some t) (Some t) v), (Waiting msg), v.
    split_and!; [done| | |by left|done..]; [by split_and!|].
    intros t' Hne. split; simpl; [done|congruence]. }
  intros a st1 r1 o1 (Hr1 & ->) Hst1.
  apply (serve_access puts_spec _ _ out0 rep_out rely_out (holding t (Some t))
    (λ _ st r, holding t None r ∧ st = Answered OSAL_OK) _ t (Waiting msg)); [apply holding_stable|done..| |].
  { intros [i c h n p] v [Hh Hn] (Hp & Hi & Hc & Hin) Hen. simpl in *. subst.
    exists 0, (mk_shared i true (Some t) None (v ++ [msg])), (Answered OSAL_OK), (v ++ [msg]).
    split_and!; [done| | | |done..]; [by split_and!| |right; by exists msg, OSAL_OK].
    intros t' Hne. split; simpl; [done|congruence]. }
  intros a2 st2 r2 o2 (Hr2 & ->) Hst2. done.
Qed.

Lemma puts_serves t msg r o :
  ready t r → pending o !! t = Some (Waiting msg) → serves t (obj_finished ready t) (Shared.osal_puts t msg) r o.
Proof.
  intros Hr Hst. unfold Shared.osal_puts.
  apply (serve_access puts_spec _ _ out0 rep_out rely_out (ready t) (λ a st r, a ≠ 0 ∧ ready t r ∧ st = Waiting msg)
    _ t (Waiting msg)); [apply ready_stable|done..| |].
  { intros [i c h n p] v Hr1 Hrep Hen. exists i, (mk_shared i c h n p), (Waiting msg), v.
    split_and!; [done|done|reflexivity|by left|by apply Hrep|done..]. }
  intros a st1 r1 o1 (Ha & Hr1 & ->) Hst1. destruct (Z.eqb_spec a 0) as [|_]; [done|].
  apply (serve_access puts_spec _ _ out0 rep_out rely_out (ready t)
    (λ a st r, a = OSAL_OK ∧ holding t None r ∧ st = Waiting msg) _ t (Waiting msg)); [apply ready_stable|done..| |].
  { intros [i c h n p] v Hr2 (Hp & Hi & Hc & Hin) Hen. simpl in *. subst c.
    destruct h as [t'|]; [apply Nat.eqb_eq in Hen as ->; by exfalso; apply Hr2|].
    exists OSAL_OK, (mk_shared i true (Some t) n p), (Waiting msg), v.
    assert (n = None) as -> by (destruct n as [t'|]; [by specialize (Hin t' eq_refl)|done]).
    split_and!; [done| | |by left|done..]; [by split_and!|].
    intros t' Hne. split; simpl; [split; congruence|done]. }
  intros a2 st2 r2 o2 (-> & Hr2 & ->) Hst2. cbn [Z.eqb]. apply safe_bind.
  eapply safe_mono; [by apply vm_cprintf_serves|]. clear dependent r2 o2. intros u r2 o2 [Hr2 Hst2].
  apply (serve_access puts_spec _ _ out0 rep_out rely_out (holding t None)
    (λ _ st r, ready t r ∧ st = Answered OSAL_OK) _ t (Answered OSAL_OK)); [apply holding_stable|done..| |].
  { intros [i c h n p] v [Hh Hn] (Hp & Hi & Hc & Hin) Hen. simpl in *. subst.
    exists OSAL_OK, (mk_shared i true None None v), (Answered OSAL_OK), v. rewrite bool_decide_true by done.
    split_and!; [done| | |by left|done..]; [by split_and!|].
    intros t' Hne. split; simpl; [split; congruence|done]. }
  intros a3 st3 r3 o3 (Hr3 & ->) Hst3. done.
Qed.
End puts.

(** ** No deadlock *)
Lemma puts_ends t msg : ends_within 7 (Shared.osal_puts t msg).
Proof. cbn. intros init. destruct (init =? 0); simpl; intros; by repeat case_match. Qed.

(** A thread that waits for the mutex waits for one that is in a call. *)
Lemma puts_can_step s t p :
  ¬ faulty access enabled s → (∀ t p, running s !! t = Some p → ∃ n, ends_within n p) →
  (∀ t, running s !! t = None → ready t (memory s)) → running s !! t = Some p →
  can_step access enabled Shared.osal_puts any_start s.
Proof.
  intros Hf Hends Hready Hp.
  assert (∀ t', holder (memory s) = Some t' → can_step access enabled Shared.osal_puts any_start s) as Hholder.
  { intros t' Hh. destruct (running s !! t') as [p'|] eqn:Hp'; [|by apply Hready in Hp'].
    eapply can_step_at; [exact Hp'|done|by eapply Hends|]. intros e k _. unfold enabled.
    destruct e; try done. rewrite Hh. apply Nat.eqb_refl. }
  destruct (holder (memory s)) as [t'|] eqn:Hh; [by eapply Hholder|].
  eapply can_step_at; [exact Hp|done|by eapply Hends|]. intros e k _. unfold enabled. destruct e; try done. by rewrite Hh.
Qed.

(** ** Properties *)

(** What the first call leaves: the mutex is there and free. *)
Definition initialised (out : list (list Z)) : shared := mk_shared 1 true None None out.
Definition uninitialised : shared := mk_shared 0 false None None [].

(** (C9) Once the mutex is initialised, any number of threads print at the same time
    and [vm_cprintf] is never begun twice; the calls are a history of an output
    that takes whole messages, and this output is what has been printed. There
    is no deadlock: while a thread is in a call, some thread can go on. *)
Theorem pikeos_puts_linearizable out s :
  rtc (tstep access enabled Shared.osal_puts any_start) (mk_threads (initialised out) ∅ []) s →
  ¬ faulty access enabled s ∧
  (∃ o, rtc (ostep puts_spec) (mk_object out ∅ []) o ∧ past o = history s ∧ printed (memory s) = value o) ∧
  (if decide (running s = ∅) then holder (memory s) = None else can_step access enabled Shared.osal_puts any_start s).
Proof.
  intros Hsteps.
  destruct (linearizable puts_spec access enabled Shared.osal_puts any_start out rep_out rely_out ready)
    with (r := initialised out) (s := s) as ((o & Ho & Hpast & Hrep) & Hready & Hf); [| | |done|done|exact Hsteps|].
  - apply ready_stable.
  - intros t msg r r' v Hrep [= <-]. split; [done|]. by intros.
  - intros t msg r r' o _ [= <-] Hst Hr. by apply puts_serves.
  - split; [done|]. split; [exists o; split_and!; [done..|by apply Hrep]|].
    assert (∀ t p, running s !! t = Some p → ∃ n, ends_within n p) as Hends.
    { eapply tstep_ends; [| |exact Hsteps]; [intros t msg; exists 7%nat; apply puts_ends|intros t p Hp; cbn in Hp; by rewrite lookup_empty in Hp]. }
    case_decide as Hrun.
    + destruct (holder (memory s)) as [t|] eqn:Hh; [|done]. exfalso. apply (Hready t); [by rewrite Hrun|done].
    + apply map_choose in Hrun as (t & p & Hp). by eapply puts_can_step.
Qed.

(** Threads 0 and 1 print in turns. *)
Lemma pikeos_puts_linearizable_witness :
  ∃ s, rtc (tstep access enabled Shared.osal_puts any_start) (mk_threads (initialised []) ∅ []) s ∧
    printed (memory s) = [[72; 105]; [33]] ∧ ¬ faulty access enabled s.
Proof.
  eexists. assert (tschedule access enabled Shared.osal_puts any_start
    ([(0%nat, Some [72; 105]); (1%nat, Some [33]); (0%nat, None); (1%nat, None)] ++ replicate 4 (0%nat, None) ++
     replicate 5 (1%nat, None) ++ [(0%nat, None)]) (mk_threads (initialised []) ∅ []) = Some _) as Hs by (vm_compute; reflexivity).
  apply tschedule_reachable in Hs. split; [exact Hs|]. split; [reflexivity|].
  exact (proj1 (pikeos_puts_linearizable [] _ Hs)).
Defined.

(** A first call by itself initialises the mutex, prints, and leaves it free. *)
Lemma pikeos_puts_first msg :
  run (access 0) (Shared.osal_puts 0 msg) uninitialised = Some (OSAL_OK, initialised [msg]).
Proof. reflexivity. Qed.

(** Two first calls: thread 1 has read that the mutex is not initialised, and
    initialises it again while thread 0, which holds it, is printing. Both are
    about to be in [vm_cprintf]. *)
Theorem pikeos_puts_race :
  ∃ s, rtc (tstep access enabled Shared.osal_puts any_start) (mk_threads uninitialised ∅ []) s ∧
    inside (memory s) = Some 0%nat ∧ faulty access enabled s.
Proof.
  eexists. assert (tschedule access enabled Shared.osal_puts any_start
    ([(0%nat, Some [65]); (1%nat, Some [66]); (1%nat, None)] ++ replicate 5 (0%nat, None) ++ replicate 3 (1%nat, None))
    (mk_threads uninitialised ∅ []) = Some _) as Hs by (vm_compute; reflexivity).
  apply tschedule_reachable in Hs. split; [exact Hs|]. split; [reflexivity|].
  exists 1%nat. eexists. split; [reflexivity|]. by split.
Qed.
