(* ===== verification/ReturnCodes.v ===== *)
(** * Return codes: what the headers document and the back ends return

    The headers under include/libosal/ list, function by function, the codes a
    caller has to expect. Here the lists are written down ([documented]), the
    operations of every back end that are modelled are brought together in a list
    of calls, and each is checked against the list of its function, whatever the
    operating system answers: no class of laws is assumed. The codes a header
    does not list but that are returned all the same are divergences of code and
    header, and are listed one by one ([..._undocumented]). For twelve functions a
    header says "OK or ERROR_CODE" and no more: what each back end returns from
    them is listed too ([..._unlisted]). Both kinds of lists are taken from the
    code, and contain nothing that is not returned with some answers of the
    system ([undocumented_codes_returned], [unlisted_codes_returned]). *)

From S2P Require Import Stm32 Stm32Stubs.
From S2P Require Import Output VxWorksTimer.
From S2P Require Import Prelude Programs Osal Timer PosixTimer BinarySemaphore PosixBinarySemaphore PosixMutex.
From S2P Require Import PosixSpinlock PosixSemaphore PosixCondvar PosixShm PosixMq PosixTask.
From S2P Require Import PikeosTimer PikeosSync PikeosTask PikeosShm Win32 VxWorks.
Open Scope list_scope.

(** ** The interface *)

(** The functions of the interface that return an [osal_retval_t]. *)
Module Api.
Inductive fn : Type :=
  | binary_semaphore_init | binary_semaphore_post | binary_semaphore_wait | binary_semaphore_trywait
  | binary_semaphore_timedwait | binary_semaphore_destroy
  | condvar_init | condvar_signal | condvar_broadcast | condvar_wait | condvar_timedwait | condvar_destroy
  | mq_open | mq_send | mq_timedsend | mq_receive | mq_timedreceive | mq_close
  | mutex_init | mutex_lock | mutex_trylock | mutex_unlock | mutex_destroy
  | semaphore_init | semaphore_post | semaphore_wait | semaphore_trywait | semaphore_timedwait | semaphore_destroy
  | shm_open | shm_map | shm_close
  | spinlock_init | spinlock_lock | spinlock_unlock | spinlock_destroy
  | task_create | task_join | task_destroy | task_get_hdl | task_set_task_attr | task_get_task_attr
  | task_set_policy | task_get_policy | task_set_priority | task_get_priority
  | task_set_affinity | task_get_affinity | task_suspend | task_resume | task_delete | task_get_state
  | sleep_until | sleep_until_nsec | timer_gettime | timer_expired
  | puts.

#[global] Instance fn_eq_dec : EqDecision fn.
Proof. solve_decision. Defined.
End Api.

(** The lists of [\retval]; none where a header says "OK or ERROR_CODE". *)
Definition documented (f : Api.fn) : option (list Z) :=
  match f with
  | Api.binary_semaphore_init | Api.binary_semaphore_post | Api.binary_semaphore_wait => None
  | Api.binary_semaphore_trywait | Api.binary_semaphore_timedwait => Some [OSAL_OK; OSAL_ERR_TIMEOUT]
  | Api.binary_semaphore_destroy => Some [OSAL_OK]
  | Api.condvar_init =>
      Some [OSAL_OK; OSAL_ERR_OUT_OF_MEMORY; OSAL_ERR_INVALID_PARAM; OSAL_ERR_UNAVAILABLE; OSAL_ERR_BUSY;
       OSAL_ERR_OPERATION_FAILED]
  | Api.condvar_wait => Some [OSAL_OK]
  | Api.condvar_timedwait => Some [OSAL_OK; OSAL_ERR_TIMEOUT; OSAL_ERR_PERMISSION_DENIED; OSAL_ERR_INVALID_PARAM]
  | Api.condvar_signal | Api.condvar_broadcast => Some [OSAL_OK; OSAL_ERR_INVALID_PARAM]
  | Api.condvar_destroy => Some [OSAL_OK; OSAL_ERR_BUSY]
  | Api.mq_open =>
      Some [OSAL_OK; OSAL_ERR_PERMISSION_DENIED; OSAL_ERR_INVALID_PARAM; OSAL_ERR_SYSTEM_LIMIT_REACHED;
       OSAL_ERR_NOT_FOUND; OSAL_ERR_OUT_OF_MEMORY; OSAL_ERR_OPERATION_FAILED]
  | Api.mq_send | Api.mq_timedsend | Api.mq_receive | Api.mq_timedreceive | Api.mq_close => None
  | Api.mutex_init | Api.spinlock_init =>
      Some [OSAL_OK; OSAL_ERR_SYSTEM_LIMIT_REACHED; OSAL_ERR_OUT_OF_MEMORY; OSAL_ERR_PERMISSION_DENIED;
       OSAL_ERR_INVALID_PARAM; OSAL_ERR_UNAVAILABLE]
  | Api.mutex_lock | Api.spinlock_lock =>
      Some [OSAL_OK; OSAL_ERR_SYSTEM_LIMIT_REACHED; OSAL_ERR_INVALID_PARAM; OSAL_ERR_NOT_RECOVERABLE;
       OSAL_ERR_OWNER_DEAD; OSAL_ERR_DEAD_LOCK; OSAL_ERR_UNAVAILABLE]
  | Api.mutex_trylock =>
      Some [OSAL_OK; OSAL_ERR_SYSTEM_LIMIT_REACHED; OSAL_ERR_INVALID_PARAM; OSAL_ERR_NOT_RECOVERABLE;
       OSAL_ERR_OWNER_DEAD; OSAL_ERR_BUSY; OSAL_ERR_UNAVAILABLE]
  | Api.mutex_unlock | Api.spinlock_unlock => Some [OSAL_OK; OSAL_ERR_PERMISSION_DENIED; OSAL_ERR_UNAVAILABLE]
  | Api.mutex_destroy | Api.spinlock_destroy => Some [OSAL_OK; OSAL_ERR_OPERATION_FAILED]
  | Api.semaphore_init => Some [OSAL_OK; OSAL_ERR_NOT_IMPLEMENTED; OSAL_ERR_INVALID_PARAM]
  | Api.semaphore_post => Some [OSAL_OK; OSAL_ERR_INVALID_PARAM; OSAL_ERR_OPERATION_FAILED]
  | Api.semaphore_wait => Some [OSAL_OK; OSAL_ERR_INTERRUPTED; OSAL_ERR_INVALID_PARAM]
  | Api.semaphore_trywait => Some [OSAL_OK; OSAL_ERR_BUSY; OSAL_ERR_OPERATION_FAILED]
  | Api.semaphore_timedwait => Some [OSAL_OK; OSAL_ERR_INTERRUPTED; OSAL_ERR_INVALID_PARAM; OSAL_ERR_TIMEOUT]
  | Api.semaphore_destroy => Some [OSAL_OK; OSAL_ERR_INVALID_PARAM]
  | Api.shm_open | Api.shm_map | Api.shm_close => None
  | Api.task_create =>
      Some [OSAL_OK; OSAL_ERR_SYSTEM_LIMIT_REACHED; OSAL_ERR_PERMISSION_DENIED; OSAL_ERR_INVALID_PARAM;
       OSAL_ERR_OPERATION_FAILED]
  | Api.task_join =>
      Some [OSAL_OK; OSAL_ERR_DEAD_LOCK; OSAL_ERR_INVALID_PARAM; OSAL_ERR_NOT_FOUND; OSAL_ERR_OPERATION_FAILED]
  | Api.task_destroy => Some [OSAL_OK; OSAL_ERR_NOT_FOUND]
  | Api.task_get_hdl | Api.task_get_state => Some [OSAL_OK; OSAL_ERR_NOT_IMPLEMENTED]
  | Api.task_set_task_attr | Api.task_get_task_attr | Api.task_set_policy | Api.task_get_policy
  | Api.task_set_priority | Api.task_get_priority =>
      Some [OSAL_OK; OSAL_ERR_OPERATION_FAILED; OSAL_ERR_PERMISSION_DENIED; OSAL_ERR_INVALID_PARAM]
  | Api.task_set_affinity | Api.task_delete => Some [OSAL_OK]
  | Api.task_get_affinity => Some [OSAL_OK; OSAL_ERR_INVALID_PARAM]
  | Api.task_suspend | Api.task_resume => Some [OSAL_OK; OSAL_ERR_NOT_IMPLEMENTED; OSAL_ERR_INVALID_PARAM]
  | Api.sleep_until | Api.sleep_until_nsec => Some [OSAL_OK; OSAL_ERR_INVALID_PARAM; OSAL_ERR_OPERATION_FAILED]
  | Api.timer_gettime => Some [OSAL_OK; OSAL_ERR_UNAVAILABLE]
  | Api.timer_expired => Some [OSAL_OK; OSAL_ERR_TIMEOUT]
  | Api.puts => None
  end.

(** ** What a computation may return *)

(** If [m] returns, [P] holds of the value, in whatever world it is run. *)
Definition yields {W A} (P : A → Prop) (m : C W A) : Prop :=
  ∀ w, match m w with Ret a _ => P a | _ => True end.

(** The same of a program over the threads library, whatever the answers. *)
Fixpoint prog_yields {A} (P : A → Prop) (p : prog A) : Prop :=
  match p with
  | Done a => P a
  | Vis e k => ∀ r, prog_yields P (k r)
  | AssertFailed | OutOfFuel => True
  end.

(** The code a function returns, without what it writes through pointers. *)
Definition code {W A} (m : C W (Z * A)) : C W Z := '(r, _) ← m; mret r.

Section yields.
Context {W : Type}.

Lemma yields_ret {A} P (a : A) : P a → yields (W := W) P (mret a).
Proof. by intros H w. Qed.

Lemma yields_any {A} (m : C W A) : yields (λ _, True) m.
Proof. intros w. by destruct (m w). Qed.

Lemma yields_bind {A B} Q P (m : C W A) (f : A → C W B) :
  yields Q m → (∀ a, Q a → yields P (f a)) → yields P (m ≫= f).
Proof.
  intros Hm Hf w. specialize (Hm w). unfold mbind, C_bind. destruct (m w) as [a w'| | |]; try done. by apply Hf.
Qed.

Lemma yields_bind_any {A B} P (m : C W A) (f : A → C W B) : (∀ a, yields P (f a)) → yields P (m ≫= f).
Proof. intros Hf. eapply yields_bind; [apply yields_any|by intros a _]. Qed.

Lemma yields_if {A} P (b : bool) (m n : C W A) : yields P m → yields P n → yields P (if b then m else n).
Proof. by destruct b. Qed.

Lemma yields_code {A} P (m : C W (Z * A)) : yields (λ x, P x.1) m → yields P (code m).
Proof. intros H. eapply yields_bind; [exact H|]. by intros [r a] Hr w. Qed.

Lemma yields_cloop {S A} (I : S → Prop) P fuel (body : S → C W (S + A)) s :
  (∀ s, I s → yields (λ r, match r with inl s' => I s' | inr a => P a end) (body s)) →
  I s → yields P (cloop fuel body s).
Proof.
  intros Hbody. revert s. induction fuel as [|n IH]; intros s Hs; [by intros w|].
  simpl. eapply yields_bind; [by apply Hbody|]. intros [s'|a] H; [by apply IH|by apply yields_ret].
Qed.
End yields.

Lemma prog_yields_bind {A B} Q P (p : prog A) (f : A → prog B) :
  prog_yields Q p → (∀ a, Q a → prog_yields P (f a)) → prog_yields P (p ≫= f).
Proof.
  intros Hp Hf. induction p as [a|e k IH| |]; try done; [by apply Hf|]. intros r. by apply IH.
Qed.

Lemma prog_yields_loop {A} P fuel (body : prog (option A)) :
  prog_yields (λ r, match r with Some a => P a | None => True end) body → prog_yields P (ploop fuel body).
Proof.
  intros Hb. induction fuel as [|n IH]; [done|]. simpl.
  eapply prog_yields_bind; [exact Hb|]. by intros [a|] H; [|apply IH].
Qed.

(** ** The calls

    [more] lists what is returned beside the documented codes. *)
Definition allowed (more : list (Api.fn * Z)) (f : Api.fn) (r : Z) : Prop :=
  r ∈ default [] (documented f) ∨ (f, r) ∈ more.

Definition conforms (more : list (Api.fn * Z)) {W} (c : Api.fn * C W Z) : Prop := yields (allowed more c.1) c.2.

Definition prog_conforms (more : list (Api.fn * Z)) (c : Api.fn * prog Z) : Prop := prog_yields (allowed more c.1) c.2.

(** The arguments of a call, null pointers and ill-formed values included. *)
Section arguments.
Context (fuel : nat) (obj mtx : option loc) (hdl attr out : option Z) (name msg : option (list Z))
  (shm : option osal_shm_t) (mq_attr : option osal_mq_attr) (task_attr : option osal_task_attr)
  (to : option osal_timer) (ptr : option unit) (num num' : Z).

(** *** POSIX *)
Section posix.
Context `{!Config} {W F : Type} (handler : F).
Context `{!PosixTimeOS W, !PthreadMutex W, !PthreadSpin W, !PosixSem W, !PthreadCond W, !PosixShmOS W,
  !PosixMqOS W, !PthreadTask W F, !Output.Posix.Stdio W}.

Definition posix_calls : list (Api.fn * C W Z) := [
  (Api.mutex_init, PosixMutex.osal_mutex_init mtx attr);
  (Api.mutex_lock, PosixMutex.osal_mutex_lock mtx);
  (Api.mutex_trylock, PosixMutex.osal_mutex_trylock mtx);
  (Api.mutex_unlock, PosixMutex.osal_mutex_unlock mtx);
  (Api.mutex_destroy, PosixMutex.osal_mutex_destroy mtx);
  (Api.spinlock_init, osal_spinlock_init mtx attr);
  (Api.spinlock_lock, osal_spinlock_lock mtx);
  (Api.spinlock_unlock, osal_spinlock_unlock mtx);
  (Api.spinlock_destroy, osal_spinlock_destroy mtx);
  (Api.semaphore_init, PosixSemaphore.osal_semaphore_init obj attr num);
  (Api.semaphore_post, PosixSemaphore.osal_semaphore_post obj);
  (Api.semaphore_wait, PosixSemaphore.osal_semaphore_wait obj);
  (Api.semaphore_trywait, PosixSemaphore.osal_semaphore_trywait obj);
  (Api.semaphore_timedwait, PosixSemaphore.osal_semaphore_timedwait fuel obj to);
  (Api.semaphore_destroy, PosixSemaphore.osal_semaphore_destroy obj);
  (Api.condvar_init, PosixCondvar.osal_condvar_init obj attr);
  (Api.condvar_signal, PosixCondvar.osal_condvar_signal obj);
  (Api.condvar_broadcast, PosixCondvar.osal_condvar_broadcast obj);
  (Api.condvar_wait, PosixCondvar.osal_condvar_wait obj mtx);
  (Api.condvar_timedwait, PosixCondvar.osal_condvar_timedwait fuel obj mtx to);
  (Api.condvar_destroy, PosixCondvar.osal_condvar_destroy obj);
  (Api.shm_open, code (PosixShm.osal_shm_open shm name attr num));
  (Api.shm_map, code (PosixShm.osal_shm_map shm attr ptr));
  (Api.shm_close, PosixShm.osal_shm_close shm);
  (Api.mq_open, code (osal_mq_open hdl name mq_attr));
  (Api.mq_send, osal_mq_send hdl msg num num');
  (Api.mq_timedsend, osal_mq_timedsend fuel hdl msg num num' to);
  (Api.mq_receive, code (osal_mq_receive hdl ptr num));
  (Api.mq_timedreceive, code (osal_mq_timedreceive fuel hdl ptr num to));
  (Api.mq_close, osal_mq_close hdl);
  (Api.task_create, code (PosixTask.osal_task_create fuel hdl task_attr handler num));
  (Api.task_join, code (PosixTask.osal_task_join hdl));
  (Api.task_destroy, PosixTask.osal_task_destroy hdl);
  (Api.task_get_hdl, PosixTask.osal_task_get_hdl hdl);
  (Api.task_set_task_attr, PosixTask.osal_task_set_task_attr hdl task_attr);
  (Api.task_get_task_attr, code (PosixTask.osal_task_get_task_attr hdl task_attr));
  (Api.task_set_policy, osal_task_set_policy hdl num);
  (Api.task_get_policy, code (osal_task_get_policy hdl out));
  (Api.task_set_priority, PosixTask.osal_task_set_priority hdl num);
  (Api.task_get_priority, code (PosixTask.osal_task_get_priority hdl out));
  (Api.task_set_affinity, osal_task_set_affinity hdl num);
  (Api.task_get_affinity, code (osal_task_get_affinity hdl out));
  (Api.task_suspend, PosixTask.osal_task_suspend hdl);
  (Api.task_resume, PosixTask.osal_task_resume hdl);
  (Api.task_delete, PosixTask.osal_task_delete);
  (Api.task_get_state, PosixTask.osal_task_get_state hdl);
  (Api.sleep_until, PosixTimer.osal_sleep_until fuel to);
  (Api.sleep_until_nsec, PosixTimer.osal_sleep_until_nsec fuel num);
  (Api.timer_gettime, code (PosixTimer.osal_timer_gettime to));
  (Api.timer_expired, PosixTimer.osal_timer_expired to);
  (Api.puts, Output.Posix.osal_puts msg)].
End posix.

(** The binary semaphore of the POSIX back end, with whatever the calls of the
    threads library answer and whatever other threads do to the flag. *)
Definition posix_programs : list (Api.fn * prog Z) := [
  (Api.binary_semaphore_init, Posix.osal_binary_semaphore_init obj);
  (Api.binary_semaphore_post, Posix.osal_binary_semaphore_post obj);
  (Api.binary_semaphore_wait, Posix.osal_binary_semaphore_wait fuel obj);
  (Api.binary_semaphore_trywait, Posix.osal_binary_semaphore_trywait obj);
  (Api.binary_semaphore_timedwait, Posix.osal_binary_semaphore_timedwait fuel obj to);
  (Api.binary_semaphore_destroy, Posix.osal_binary_semaphore_destroy obj)].

(** *** VxWorks *)
Section vxworks.
Context {W A : Type} `{!VxWorks W, !VxTime W} (vx_attr : option VxWorks.Task.osal_task_attr_t) (vx_handler : A → C W unit) (arg : A).

Definition vxworks_calls : list (Api.fn * C W Z) := [
  (Api.mutex_init, code (VxWorks.Mutex.osal_mutex_init ptr attr));
  (Api.mutex_lock, VxWorks.Mutex.osal_mutex_lock hdl);
  (Api.mutex_trylock, VxWorks.Mutex.osal_mutex_trylock hdl);
  (Api.mutex_unlock, VxWorks.Mutex.osal_mutex_unlock hdl);
  (Api.mutex_destroy, VxWorks.Mutex.osal_mutex_destroy hdl);
  (Api.semaphore_init, code (VxWorks.Semaphore.osal_semaphore_init ptr attr num));
  (Api.semaphore_post, VxWorks.Semaphore.osal_semaphore_post hdl);
  (Api.semaphore_wait, VxWorks.Semaphore.osal_semaphore_wait hdl);
  (Api.semaphore_trywait, VxWorks.Semaphore.osal_semaphore_trywait hdl);
  (Api.semaphore_timedwait, VxWorks.Semaphore.osal_semaphore_timedwait hdl to);
  (Api.semaphore_destroy, VxWorks.Semaphore.osal_semaphore_destroy hdl);
  (Api.binary_semaphore_init, code (VxWorks.BinSem.osal_binary_semaphore_init ptr attr));
  (Api.binary_semaphore_post, VxWorks.BinSem.osal_binary_semaphore_post hdl);
  (Api.binary_semaphore_wait, VxWorks.BinSem.osal_binary_semaphore_wait hdl);
  (Api.binary_semaphore_trywait, VxWorks.BinSem.osal_binary_semaphore_trywait hdl);
  (Api.binary_semaphore_timedwait, VxWorks.BinSem.osal_binary_semaphore_timedwait hdl to);
  (Api.binary_semaphore_destroy, VxWorks.BinSem.osal_binary_semaphore_destroy hdl);
  (Api.condvar_init, code (VxWorks.Condvar.osal_condvar_init ptr attr));
  (Api.condvar_signal, VxWorks.Condvar.osal_condvar_signal hdl);
  (Api.condvar_broadcast, VxWorks.Condvar.osal_condvar_broadcast hdl);
  (Api.condvar_wait, VxWorks.Condvar.osal_condvar_wait hdl out);
  (Api.condvar_timedwait, VxWorks.Condvar.osal_condvar_timedwait hdl out to);
  (Api.condvar_destroy, VxWorks.Condvar.osal_condvar_destroy hdl);
  (Api.task_create, code (VxWorks.Task.osal_task_create ptr vx_attr vx_handler arg));
  (Api.timer_gettime, code (VxWorksTimer.osal_timer_gettime to));
  (Api.timer_expired, VxWorksTimer.osal_timer_expired to)].
End vxworks.

(** *** Win32 *)
Section win32.
Context {W : Type} `{!Win32 W}.

Definition win32_calls : list (Api.fn * C W Z) := [
  (Api.mutex_init, code (Win32.Mutex.osal_mutex_init ptr attr));
  (Api.mutex_lock, Win32.Mutex.osal_mutex_lock hdl);
  (Api.mutex_trylock, Win32.Mutex.osal_mutex_trylock hdl);
  (Api.mutex_unlock, Win32.Mutex.osal_mutex_unlock hdl);
  (Api.mutex_destroy, Win32.Mutex.osal_mutex_destroy hdl);
  (Api.semaphore_init, code (Win32.Semaphore.osal_semaphore_init ptr attr num));
  (Api.semaphore_post, Win32.Semaphore.osal_semaphore_post hdl);
  (Api.semaphore_wait, Win32.Semaphore.osal_semaphore_wait hdl);
  (Api.semaphore_trywait, Win32.Semaphore.osal_semaphore_trywait hdl);
  (Api.semaphore_timedwait, Win32.Semaphore.osal_semaphore_timedwait hdl to);
  (Api.semaphore_destroy, Win32.Semaphore.osal_semaphore_destroy hdl);
  (Api.binary_semaphore_init, code (Win32.BinSem.osal_binary_semaphore_init ptr attr));
  (Api.binary_semaphore_post, Win32.BinSem.osal_binary_semaphore_post hdl);
  (Api.binary_semaphore_wait, Win32.BinSem.osal_binary_semaphore_wait hdl);
  (Api.binary_semaphore_trywait, Win32.BinSem.osal_binary_semaphore_trywait hdl);
  (Api.binary_semaphore_timedwait, Win32.BinSem.osal_binary_semaphore_timedwait hdl to);
  (Api.binary_semaphore_destroy, Win32.BinSem.osal_binary_semaphore_destroy hdl)].
End win32.

(** *** PikeOS *)
Section pikeos.
Context {W F : Type} (handler : F) `{!PikeosConfig, !P4Codes, !P4Time W, !P4Sem W, !P4Mutex W, !P4Cond W,
  !P4Task W F, !P4Shm W, !Output.Vm.Vm W} (pikeos_shm : option osal_shm).

Definition pikeos_calls : list (Api.fn * C W Z) := [
  (Api.mutex_init, PikeosSync.Mutex.osal_mutex_init mtx attr);
  (Api.mutex_lock, PikeosSync.Mutex.osal_mutex_lock mtx);
  (Api.mutex_trylock, PikeosSync.Mutex.osal_mutex_trylock mtx);
  (Api.mutex_unlock, PikeosSync.Mutex.osal_mutex_unlock mtx);
  (Api.mutex_destroy, PikeosSync.Mutex.osal_mutex_destroy mtx);
  (Api.semaphore_init, PikeosSync.Semaphore.osal_semaphore_init obj attr num);
  (Api.semaphore_post, PikeosSync.Semaphore.osal_semaphore_post obj);
  (Api.semaphore_wait, PikeosSync.Semaphore.osal_semaphore_wait obj);
  (Api.semaphore_trywait, PikeosSync.Semaphore.osal_semaphore_trywait obj);
  (Api.semaphore_timedwait, PikeosSync.Semaphore.osal_semaphore_timedwait obj to);
  (Api.semaphore_destroy, PikeosSync.Semaphore.osal_semaphore_destroy obj);
  (Api.binary_semaphore_init, PikeosSync.BinSem.osal_binary_semaphore_init obj attr);
  (Api.binary_semaphore_post, PikeosSync.BinSem.osal_binary_semaphore_post obj);
  (Api.binary_semaphore_wait, PikeosSync.BinSem.osal_binary_semaphore_wait obj);
  (Api.binary_semaphore_trywait, PikeosSync.BinSem.osal_binary_semaphore_trywait obj);
  (Api.binary_semaphore_timedwait, PikeosSync.BinSem.osal_binary_semaphore_timedwait obj to);
  (Api.binary_semaphore_destroy, PikeosSync.BinSem.osal_binary_semaphore_destroy obj);
  (Api.condvar_init, PikeosSync.Condvar.osal_condvar_init obj attr);
  (Api.condvar_signal, PikeosSync.Condvar.osal_condvar_signal obj);
  (Api.condvar_broadcast, PikeosSync.Condvar.osal_condvar_broadcast obj);
  (Api.condvar_wait, PikeosSync.Condvar.osal_condvar_wait obj mtx);
  (Api.condvar_timedwait, PikeosSync.Condvar.osal_condvar_timedwait obj mtx to);
  (Api.condvar_destroy, PikeosSync.Condvar.osal_condvar_destroy obj);
  (Api.task_create, code (PikeosTask.osal_task_create fuel hdl task_attr handler num));
  (Api.task_join, PikeosTask.osal_task_join fuel hdl);
  (Api.task_destroy, PikeosTask.osal_task_destroy hdl);
  (Api.task_get_hdl, PikeosTask.osal_task_get_hdl hdl);
  (Api.task_set_task_attr, PikeosTask.osal_task_set_task_attr hdl task_attr);
  (Api.task_get_task_attr, PikeosTask.osal_task_get_task_attr hdl task_attr);
  (Api.task_set_priority, PikeosTask.osal_task_set_priority hdl num);
  (Api.task_get_priority, code (PikeosTask.osal_task_get_priority hdl ptr));
  (Api.task_suspend, PikeosTask.osal_task_suspend hdl);
  (Api.task_resume, PikeosTask.osal_task_resume hdl);
  (Api.task_delete, PikeosTask.osal_task_delete);
  (Api.task_get_state, code (PikeosTask.osal_task_get_state hdl (Some out)));
  (Api.shm_open, code (PikeosShm.osal_shm_open pikeos_shm name attr num));
  (Api.shm_map, code (PikeosShm.osal_shm_map pikeos_shm attr ptr));
  (Api.shm_close, PikeosShm.osal_shm_close pikeos_shm);
  (Api.sleep_until, PikeosTimer.osal_sleep_until fuel to);
  (Api.sleep_until_nsec, PikeosTimer.osal_sleep_until_nsec fuel num);
  (Api.timer_gettime, code (PikeosTimer.osal_timer_gettime ptr));
  (Api.timer_expired, PikeosTimer.osal_timer_expired to);
  (Api.puts, Output.Vm.osal_puts msg)].
End pikeos.

(** *** STM32 *)
Section stm32.
Context {E : Type} `{!Stm32 E, !Newlib (mcu E), !Output.Uart.HAL (mcu E)}.

Definition stm32_calls : list (Api.fn * C (mcu E) Z) := [
  (Api.mutex_init, Stm32.osal_mutex_init mtx attr);
  (Api.mutex_lock, Stm32.osal_mutex_lock mtx);
  (Api.mutex_trylock, Stm32.osal_mutex_trylock mtx);
  (Api.mutex_unlock, Stm32.osal_mutex_unlock mtx);
  (Api.mutex_destroy, Stm32.osal_mutex_destroy mtx);
  (Api.semaphore_init, Stm32.osal_semaphore_init obj num);
  (Api.semaphore_post, Stm32.osal_semaphore_post obj);
  (Api.semaphore_wait, Stm32.osal_semaphore_wait fuel obj);
  (Api.semaphore_trywait, Stm32.osal_semaphore_trywait obj);
  (Api.semaphore_timedwait, Stm32.osal_semaphore_timedwait fuel obj to);
  (Api.semaphore_destroy, Stm32.osal_semaphore_destroy obj);
  (Api.binary_semaphore_init, Stm32.osal_binary_semaphore_init obj);
  (Api.binary_semaphore_post, Stm32.osal_binary_semaphore_post obj);
  (Api.binary_semaphore_wait, Stm32.osal_binary_semaphore_wait fuel obj);
  (Api.binary_semaphore_trywait, Stm32.osal_binary_semaphore_trywait obj);
  (Api.binary_semaphore_timedwait, Stm32.osal_binary_semaphore_timedwait fuel obj to);
  (Api.binary_semaphore_destroy, Stm32.osal_binary_semaphore_destroy obj);
  (Api.condvar_init, Stm32Stubs.osal_condvar_init obj attr);
  (Api.condvar_signal, Stm32Stubs.osal_condvar_signal obj);
  (Api.condvar_broadcast, Stm32Stubs.osal_condvar_broadcast obj);
  (Api.condvar_wait, Stm32Stubs.osal_condvar_wait obj mtx);
  (Api.condvar_timedwait, Stm32Stubs.osal_condvar_timedwait obj mtx to);
  (Api.condvar_destroy, Stm32Stubs.osal_condvar_destroy obj);
  (Api.mq_open, Stm32Stubs.osal_mq_open obj name mq_attr);
  (Api.mq_send, Stm32Stubs.osal_mq_send obj msg num num');
  (Api.mq_timedsend, Stm32Stubs.osal_mq_timedsend obj msg num num' to);
  (Api.mq_receive, Stm32Stubs.osal_mq_receive obj ptr num out);
  (Api.mq_timedreceive, Stm32Stubs.osal_mq_timedreceive obj ptr num out to);
  (Api.mq_close, Stm32Stubs.osal_mq_close obj);
  (Api.shm_open, Stm32Stubs.osal_shm_open shm name attr num);
  (Api.shm_map, Stm32Stubs.osal_shm_map shm attr ptr);
  (Api.shm_close, Stm32Stubs.osal_shm_close shm);
  (Api.spinlock_init, Stm32Stubs.osal_spinlock_init mtx attr);
  (Api.spinlock_lock, Stm32Stubs.osal_spinlock_lock mtx);
  (Api.spinlock_unlock, Stm32Stubs.osal_spinlock_unlock mtx);
  (Api.spinlock_destroy, Stm32Stubs.osal_spinlock_destroy mtx);
  (Api.task_create, Stm32Stubs.osal_task_create obj task_attr num num');
  (Api.task_join, Stm32Stubs.osal_task_join obj mtx);
  (Api.task_destroy, Stm32Stubs.osal_task_destroy obj);
  (Api.task_get_hdl, Stm32Stubs.osal_task_get_hdl obj);
  (Api.task_set_task_attr, Stm32Stubs.osal_task_set_task_attr obj task_attr);
  (Api.task_get_task_attr, Stm32Stubs.osal_task_get_task_attr obj task_attr);
  (Api.task_set_policy, Stm32Stubs.osal_task_set_policy obj num);
  (Api.task_get_policy, Stm32Stubs.osal_task_get_policy obj out);
  (Api.task_set_priority, Stm32Stubs.osal_task_set_priority obj num);
  (Api.task_get_priority, Stm32Stubs.osal_task_get_priority obj out);
  (Api.task_set_affinity, Stm32Stubs.osal_task_set_affinity obj num);
  (Api.task_get_affinity, Stm32Stubs.osal_task_get_affinity obj out);
  (Api.task_suspend, Stm32Stubs.osal_task_suspend obj);
  (Api.task_resume, Stm32Stubs.osal_task_resume obj);
  (Api.task_delete, Stm32Stubs.osal_task_delete);
  (Api.task_get_state, Stm32Stubs.osal_task_get_state obj mtx);
  (Api.sleep_until, Stm32.osal_sleep_until fuel to);
  (Api.sleep_until_nsec, Stm32.osal_sleep_until_nsec fuel num);
  (Api.timer_gettime, code (Stm32.osal_timer_gettime to));
  (Api.timer_expired, Stm32.osal_timer_expired to);
  (Api.puts, Output.Uart.osal_puts msg)].
End stm32.
End arguments.

(** ** Automation: through a function, one step of the monad after another *)
Ltac head t := lazymatch t with ?f _ => head f | _ => t end.

(** The code a branch ends with is in one of the two lists. *)
Ltac code_listed :=
  cbn [fst]; unfold mq_errno, sched_ret, wait_ret, bool_ret, PikeosSync.Condvar.wake_ret, p4_ret, op_ret,
    VxWorks.Mutex.sem_ret, VxWorks.Condvar.status_ret; cbn [switch app];
  repeat match goal with
    | |- context [if ?b then _ else _] =>
        lazymatch b with
        | context [if _ then _ else _] => fail
        | _ => let v := eval vm_compute in b in
               lazymatch v with true => change b with true | false => change b with false | _ => destruct b end
        end; cbn [switch app fst]
    | |- context [match ?x with Some _ => _ | None => _ end] => is_var x; destruct x; cbn [switch app fst]
    end;
  first [exact I | assumption | apply (bool_decide_unpack _); vm_compute; exact I].

(** A part of a function that computes its code yields a listed one itself; so
    does a loop that passes the code from round to round. *)
Ltac yields_step :=
  lazymatch goal with
  | |- yields _ (mret _) => apply yields_ret; try code_listed
  | |- yields _ (code _) => apply yields_code
  | |- yields ?P (?m ≫= ?f) =>
      first
        [ lazymatch m with
          | if _ then _ else _ => idtac
          | timedwait_deadline _ => idtac
          | PosixTimer.osal_timer_gettime _ => idtac
          | Stm32.osal_timer_gettime _ => idtac
          | VxWorksTimer.osal_timer_gettime _ => idtac
          | PikeosTimer.osal_timer_gettime _ => idtac
          | cloop _ _ _ => idtac
          end;
          first [apply (yields_bind P) | apply (yields_bind (λ x, P x.1))]; [solve [repeat yields_step]|];
          intros ? ?
        | apply yields_bind_any; intros ? ]; cbv beta iota
  | |- yields _ (if _ then _ else _) => apply yields_if
  | |- yields _ (match ?x with _ => _ end) => destruct x
  | |- yields ?P (cloop _ _ _) =>
      first [apply (yields_cloop P); [intros ? ?|code_listed] | apply (yields_cloop (λ _, True)); [intros ? _|exact I]]
  | |- yields _ ?m => let h := head m in unfold h
  end.

Create HintDb return_codes.

Ltac conform :=
  repeat (apply Forall_cons; split); try apply Forall_nil_2;
  first [solve [auto with return_codes] | unfold conforms, allowed; cbn [fst snd documented default]; repeat yields_step].

(** A call between two operations of the threads library. *)
Ltac prog_step :=
  lazymatch goal with
  | |- prog_yields _ (mret _) => simpl; code_listed
  | |- prog_yields _ (if ?b then _ else _) => destruct b
  | |- prog_yields ?P (?m ≫= _) =>
      first [apply (prog_yields_bind P); [solve [repeat prog_step]|]; intros ? ?
            | apply (prog_yields_bind (λ _, True)); [solve [repeat prog_step]|]; intros ? _]
  | |- prog_yields ?P (ploop _ _) => apply prog_yields_loop
  | |- prog_yields _ (emit _) => intros ?; exact I
  | |- prog_yields _ (Vis _ _) => intros ?
  | |- prog_yields _ (p_assert_ptr ?p) => destruct p; exact I
  | |- prog_yields _ (match ?x with _ => _ end) => destruct x
  | |- prog_yields _ ?m => let h := head m in unfold h
  end; cbv beta iota.

(** ** What is returned where no code is documented *)
Definition each (f : Api.fn) (rs : list Z) : list (Api.fn * Z) := pair f <$> rs.

Definition posix_unlisted : list (Api.fn * Z) :=
  each Api.binary_semaphore_init [OSAL_OK] ++ each Api.binary_semaphore_post [OSAL_OK] ++
  each Api.binary_semaphore_wait [OSAL_OK] ++
  each Api.mq_send [OSAL_OK; OSAL_ERR_BUSY; OSAL_ERR_INVALID_PARAM; OSAL_ERR_INTERRUPTED; OSAL_ERR_OPERATION_FAILED] ++
  each Api.mq_receive [OSAL_OK; OSAL_ERR_BUSY; OSAL_ERR_INVALID_PARAM; OSAL_ERR_INTERRUPTED; OSAL_ERR_OPERATION_FAILED] ++
  each Api.mq_timedsend [OSAL_OK; OSAL_ERR_BUSY; OSAL_ERR_INVALID_PARAM; OSAL_ERR_TIMEOUT; OSAL_ERR_OPERATION_FAILED] ++
  each Api.mq_timedreceive [OSAL_OK; OSAL_ERR_BUSY; OSAL_ERR_INVALID_PARAM; OSAL_ERR_TIMEOUT; OSAL_ERR_OPERATION_FAILED] ++
  each Api.mq_close [OSAL_OK; OSAL_ERR_INVALID_PARAM] ++
  each Api.shm_open [OSAL_OK; OSAL_ERR_PERMISSION_DENIED; OSAL_ERR_OPERATION_FAILED; OSAL_ERR_INVALID_PARAM;
    OSAL_ERR_SYSTEM_LIMIT_REACHED; OSAL_ERR_NOT_FOUND] ++
  each Api.shm_map [OSAL_OK; OSAL_ERR_PERMISSION_DENIED; OSAL_ERR_OPERATION_FAILED; OSAL_ERR_INVALID_PARAM;
    OSAL_ERR_SYSTEM_LIMIT_REACHED; OSAL_ERR_NOT_IMPLEMENTED; OSAL_ERR_OUT_OF_MEMORY] ++
  each Api.shm_close [OSAL_OK] ++ each Api.puts [OSAL_OK].

Definition vxworks_unlisted : list (Api.fn * Z) :=
  each Api.binary_semaphore_init [OSAL_OK] ++ each Api.binary_semaphore_post [OSAL_OK] ++
  each Api.binary_semaphore_wait [OSAL_OK].

Definition win32_unlisted : list (Api.fn * Z) :=
  each Api.binary_semaphore_init [OSAL_OK; OSAL_ERR_OPERATION_FAILED] ++
  each Api.binary_semaphore_post [OSAL_OK; OSAL_ERR_OPERATION_FAILED] ++
  each Api.binary_semaphore_wait [OSAL_OK; OSAL_ERR_OWNER_DEAD; OSAL_ERR_TIMEOUT; OSAL_ERR_OPERATION_FAILED].

Definition pikeos_unlisted : list (Api.fn * Z) :=
  each Api.binary_semaphore_init [OSAL_OK] ++
  each Api.binary_semaphore_post [OSAL_OK; OSAL_ERR_INVALID_PARAM; OSAL_ERR_OPERATION_FAILED] ++
  each Api.binary_semaphore_wait [OSAL_OK; OSAL_ERR_INVALID_PARAM; OSAL_ERR_OPERATION_FAILED] ++
  each Api.shm_open [OSAL_OK; OSAL_ERR_PERMISSION_DENIED; OSAL_ERR_NOT_IMPLEMENTED; OSAL_ERR_INVALID_PARAM;
    OSAL_ERR_NOT_FOUND; OSAL_ERR_SYSTEM_LIMIT_REACHED; OSAL_ERR_OPERATION_FAILED; OSAL_ERR_TIMEOUT] ++
  each Api.shm_map [OSAL_OK; OSAL_ERR_OUT_OF_MEMORY; OSAL_ERR_PERMISSION_DENIED; OSAL_ERR_INVALID_PARAM;
    OSAL_ERR_TIMEOUT; OSAL_ERR_OPERATION_FAILED] ++
  each Api.shm_close [OSAL_OK] ++ each Api.puts [OSAL_OK].

Definition stm32_unlisted : list (Api.fn * Z) :=
  (flip pair OSAL_OK <$>
    [Api.binary_semaphore_init; Api.binary_semaphore_post; Api.binary_semaphore_wait; Api.mq_send;
     Api.mq_receive; Api.mq_close; Api.shm_open; Api.shm_map; Api.shm_close; Api.puts]) ++
  [(Api.mq_timedsend, OSAL_ERR_INTERRUPTED); (Api.mq_timedreceive, OSAL_ERR_INTERRUPTED)].

(** ** What is returned beside the documented codes *)
Definition posix_undocumented : list (Api.fn * Z) := [
  (Api.semaphore_timedwait, OSAL_ERR_OPERATION_FAILED);
  (Api.task_set_affinity, OSAL_ERR_INVALID_PARAM);
  (Api.timer_expired, OSAL_ERR_UNAVAILABLE);
  (Api.binary_semaphore_trywait, OSAL_ERR_BUSY)].

Definition vxworks_undocumented : list (Api.fn * Z) := [
  (Api.mutex_unlock, OSAL_ERR_INVALID_PARAM);
  (Api.mutex_destroy, OSAL_ERR_INVALID_PARAM);
  (Api.condvar_wait, OSAL_ERR_INVALID_PARAM);
  (Api.timer_expired, OSAL_ERR_UNAVAILABLE)].

Definition win32_undocumented : list (Api.fn * Z) := [
  (Api.mutex_init, OSAL_ERR_OPERATION_FAILED);
  (Api.mutex_lock, OSAL_ERR_OPERATION_FAILED); (Api.mutex_lock, OSAL_ERR_TIMEOUT);
  (Api.mutex_trylock, OSAL_ERR_OPERATION_FAILED); (Api.mutex_trylock, OSAL_ERR_TIMEOUT);
  (Api.mutex_unlock, OSAL_ERR_OPERATION_FAILED);
  (Api.semaphore_init, OSAL_ERR_OPERATION_FAILED);
  (Api.semaphore_wait, OSAL_ERR_OPERATION_FAILED); (Api.semaphore_wait, OSAL_ERR_TIMEOUT);
  (Api.semaphore_wait, OSAL_ERR_OWNER_DEAD);
  (Api.semaphore_trywait, OSAL_ERR_TIMEOUT); (Api.semaphore_trywait, OSAL_ERR_OWNER_DEAD);
  (Api.semaphore_timedwait, OSAL_ERR_OPERATION_FAILED); (Api.semaphore_timedwait, OSAL_ERR_OWNER_DEAD);
  (Api.semaphore_destroy, OSAL_ERR_OPERATION_FAILED);
  (Api.binary_semaphore_trywait, OSAL_ERR_OPERATION_FAILED);
  (Api.binary_semaphore_trywait, OSAL_ERR_OWNER_DEAD);
  (Api.binary_semaphore_timedwait, OSAL_ERR_OPERATION_FAILED);
  (Api.binary_semaphore_timedwait, OSAL_ERR_OWNER_DEAD);
  (Api.binary_semaphore_destroy, OSAL_ERR_OPERATION_FAILED)].

Definition pikeos_undocumented : list (Api.fn * Z) := [
  (Api.mutex_lock, OSAL_ERR_BUSY); (Api.mutex_lock, OSAL_ERR_TIMEOUT);
  (Api.mutex_unlock, OSAL_ERR_MUTEX_IS_LOCKED); (Api.mutex_unlock, OSAL_ERR_OPERATION_FAILED);
  (Api.semaphore_wait, OSAL_ERR_OPERATION_FAILED);
  (Api.semaphore_timedwait, OSAL_ERR_OPERATION_FAILED);
  (Api.semaphore_timedwait, OSAL_ERR_SYSTEM_LIMIT_REACHED);
  (Api.semaphore_timedwait, OSAL_ERR_PERMISSION_DENIED);
  (Api.binary_semaphore_trywait, OSAL_ERR_BUSY);
  (Api.binary_semaphore_timedwait, OSAL_ERR_INVALID_PARAM);
  (Api.binary_semaphore_timedwait, OSAL_ERR_OPERATION_FAILED);
  (Api.condvar_signal, OSAL_ERR_OPERATION_FAILED); (Api.condvar_signal, OSAL_ERR_PERMISSION_DENIED);
  (Api.condvar_broadcast, OSAL_ERR_OPERATION_FAILED); (Api.condvar_broadcast, OSAL_ERR_PERMISSION_DENIED);
  (Api.condvar_wait, OSAL_ERR_INVALID_PARAM); (Api.condvar_wait, OSAL_ERR_OPERATION_FAILED);
  (Api.condvar_timedwait, OSAL_ERR_OPERATION_FAILED);
  (Api.task_destroy, OSAL_ERR_OPERATION_FAILED);
  (Api.task_set_task_attr, OSAL_ERR_NOT_IMPLEMENTED); (Api.task_get_task_attr, OSAL_ERR_NOT_IMPLEMENTED);
  (Api.task_suspend, OSAL_ERR_OPERATION_FAILED); (Api.task_resume, OSAL_ERR_OPERATION_FAILED);
  (Api.task_delete, OSAL_ERR_OPERATION_FAILED);
  (Api.task_get_state, OSAL_ERR_INVALID_PARAM)].

Definition stm32_undocumented : list (Api.fn * Z) := [
  (Api.semaphore_trywait, OSAL_ERR_UNAVAILABLE); (Api.binary_semaphore_trywait, OSAL_ERR_BUSY)].

(** Joining returns what reading the state of the task returned last. *)
Lemma pikeos_task_join_conforms {W F} `{!P4Codes, !P4Time W, !P4Task W F} fuel hdl :
  conforms (pikeos_unlisted ++ pikeos_undocumented) (Api.task_join, PikeosTask.osal_task_join (F := F) (W := W) fuel hdl).
Proof.
  unfold conforms; cbn [fst snd]. do 2 yields_step. apply (yields_cloop (λ _, True)); [intros st _|done].
  unfold join_round. apply (yields_bind (λ x, x.1 ∈ [OSAL_OK; OSAL_ERR_INVALID_PARAM])); [repeat yields_step|].
  intros [r s] Hr. assert (r ∈ default [] (documented Api.task_join)) as Hd
    by (revert Hr; cbn; set_solver).
  repeat yields_step; by left.
Qed.
#[export] Hint Resolve pikeos_task_join_conforms : return_codes.

Section conform.
Context (fuel : nat) (obj mtx : option loc) (hdl attr out : option Z) (name msg : option (list Z))
  (shm : option osal_shm_t) (mq_attr : option osal_mq_attr) (task_attr : option osal_task_attr)
  (to : option osal_timer) (ptr : option unit) (num num' : Z).

(** (C39) The operations of the POSIX back end that return a code (one of
    osal_puts, of the timers and of each object), on any arguments and whatever
    the operating system answers, return a code that their headers list, or one
    of the four of [posix_undocumented]; the twelve whose headers list none
    return only the codes of [posix_unlisted]. *)
Theorem posix_return_codes `{!Config} {W F : Type} `{!PosixTimeOS W, !PthreadMutex W, !PthreadSpin W,
    !PosixSem W, !PthreadCond W, !PosixShmOS W, !PosixMqOS W, !PthreadTask W F, !Output.Posix.Stdio W} (handler : F) :
  Forall (conforms (posix_unlisted ++ posix_undocumented))
    (posix_calls fuel obj mtx hdl attr out name msg shm mq_attr task_attr to ptr num num' handler) ∧
  Forall (prog_conforms (posix_unlisted ++ posix_undocumented)) (posix_programs fuel obj to).
Proof.
  split; [conform|]. repeat (apply Forall_cons; split); try apply Forall_nil_2;
    unfold prog_conforms, allowed; cbn [fst snd]; repeat prog_step.
Qed.

(** (C40) The same of the operations of the VxWorks, the Win32, the PikeOS and the
    STM32 back end that return a code, with the divergences and the unlisted
    codes of each. *)
Theorem ported_return_codes {V A W P F E : Type} `{!VxWorks V, !VxTime V, !Win32 W, !PikeosConfig, !P4Codes, !P4Time P,
    !P4Sem P, !P4Mutex P, !P4Cond P, !P4Task P F, !P4Shm P, !Output.Vm.Vm P, !Stm32 E, !Newlib (mcu E),
    !Output.Uart.HAL (mcu E)} (handler : F) pikeos_shm vx_attr (vx_handler : A → C V unit) arg :
  Forall (conforms (vxworks_unlisted ++ vxworks_undocumented))
    (vxworks_calls hdl attr out to ptr num vx_attr vx_handler arg) ∧
  Forall (conforms (win32_unlisted ++ win32_undocumented)) (win32_calls hdl attr to ptr num) ∧
  Forall (conforms (pikeos_unlisted ++ pikeos_undocumented))
    (pikeos_calls fuel obj mtx hdl attr out name msg task_attr to ptr num handler pikeos_shm) ∧
  Forall (conforms (stm32_unlisted ++ stm32_undocumented))
    (stm32_calls fuel obj mtx attr out name msg shm mq_attr task_attr to ptr num num').
Proof. split_and!; conform. Qed.
End conform.

(** ** They are returned indeed

    A system that answers as it is told: the world is the list of the numbers
    that the calls are going to return. *)
Module Oracle.
Definition world : Type := list Z.

Definition answer : C world Z := λ w, match w with [] => Ret 0 [] | r :: w => Ret r w end.

(** The result of a call and the value of [errno] after it. *)
Definition answers : C world (Z * Z) := r ← answer; e ← answer; mret (r, e).

#[global] Instance time : PosixTimeOS world := {|
  global_clock_id _ := CLOCK_REALTIME;
  set_global_clock_id _ w := w;
  clock_gettime _ := r ← answer; mret (r, Some (mk_timespec 0 0));
  clock_nanosleep _ _ _ := r ← answer; mret (r, None);
  perror _ := mret tt;
|}.

#[global] Instance mutex : PthreadMutex world := {|
  pthread_mutex_init _ _ := answer; pthread_mutex_lock _ := answer; pthread_mutex_trylock _ := answer;
  pthread_mutex_unlock _ := answer; pthread_mutex_destroy _ := answer;
|}.

#[global] Instance spin : PthreadSpin world := {|
  pthread_spin_init _ _ := answer; pthread_spin_lock _ := answer; pthread_spin_unlock _ := answer;
  pthread_spin_destroy _ := answer;
|}.

#[global] Instance sem : PosixSem world := {|
  sem_init _ _ _ := answers; sem_post _ := answers; sem_wait _ := answers; sem_trywait _ := answers;
  sem_timedwait _ _ := answers; sem_destroy _ := answers;
|}.

#[global] Instance cond : PthreadCond world := {|
  pthread_condattr_init := answer; pthread_condattr_setclock _ := answer; pthread_condattr_destroy := answer;
  pthread_cond_init _ _ := answer; pthread_cond_signal _ := answer; pthread_cond_broadcast _ := answer;
  pthread_cond_wait _ _ := answer; pthread_cond_timedwait _ _ _ := answer; pthread_cond_destroy _ := answer;
|}.

#[global] Instance shm : PosixShmOS world := {|
  PosixShm.shm_open _ _ _ := answers; fstat_size _ := r ← answer; mret (Some r); ftruncate _ _ := answer;
  mmap _ _ _ _ := e ← answer; mret (if e =? 0 then Some 1%positive else None, e); close _ := answer;
|}.

#[global] Instance mq : PosixMqOS world := {|
  PosixMq.mq_open _ _ _ _ := answers; PosixMq.mq_send _ _ _ _ := answers; mq_timedsend _ _ _ _ _ := answers;
  PosixMq.mq_receive _ _ := r ← answers; mret (r, ([], 0));
  mq_timedreceive _ _ _ := r ← answers; mret (r, ([], 0)); PosixMq.mq_close _ := answers;
|}.

#[global] Instance task : PthreadTask world Z := {|
  pthread_self := mret 1; pthread_getschedparam _ := r ← answer; mret (r, (0, 0));
  pthread_setschedparam _ _ _ := answer; pthread_setaffinity_np _ _ := answer;
  pthread_getaffinity_np _ := answers; sched_get_priority_min _ := 0; sched_get_priority_max _ := 99;
  prctl_set_name _ := mret tt; prctl_get_name := mret []; pthread_create _ := answers;
  start_running := mret 1; set_running _ := mret tt; run_handler _ _ := answer; pthread_join _ := answers;
  pthread_cancel _ := answer; pthread_kill _ _ := answer; pthread_exit := mret tt; fprintf_stderr _ _ _ := mret tt;
|}.

#[global] Instance vxworks : VxWorks world := {|
  SEM_Q_FIFO := 0; SEM_EMPTY := 0; CONDVAR_Q_PRIORITY := 1; CONDVAR_INTERRUPTIBLE := 2;
  S_objLib_OBJ_ID_ERROR := 3; S_objLib_OBJ_UNAVAILABLE := 4; S_objLib_OBJ_TIMEOUT := 5;
  semBCreate _ _ := answer; semCCreate _ _ := answer; semMCreate _ := answer; semTake _ _ := answer;
  semGive _ := answer; semDelete _ := answer; condVarCreate _ := answer; condVarSignal _ := answer;
  condVarBroadcast _ := answer; condVarWait _ _ _ := answer; condVarDelete _ := answer;
  sysClkRateGet := answer; taskSpawn _ _ _ _ _ := answer;
|}.

#[global] Instance win32 : Win32 world := {|
  WAIT_OBJECT_0 := 0; WAIT_ABANDONED := 0x80; WAIT_TIMEOUT := 0x102; WAIT_FAILED := 0xFFFFFFFF;
  INFINITE := 0xFFFFFFFF;
  CreateSemaphoreW _ _ := answer; ReleaseSemaphore _ _ := answer; CreateMutexA := answer;
  ReleaseMutex _ := answer; WaitForSingleObject _ _ := answer; CloseHandle _ := answer;
|}.

#[global] Instance pikeos_config : PikeosConfig := {|
  LIBOSAL_HAVE_P4EXT_THREADS_H := true; LIBOSAL_HAVE_P4_MUTEX_INIT_EXT := true;
|}.

#[global] Instance p4_time : P4Time world := {|
  p4_timeout := Z; P4_NSEC n := n; P4_TIMEOUT_ABS n := n; P4_TIMEOUT_INFINITE := -1; P4_time_bound := 2 ^ 64;
  p4_sleep _ := answer; p4_get_time := answer;
|}.

#[global] Instance p4_sem : P4Sem world := {|
  p4_sem_init _ _ _ := mret tt; p4_sem_post _ := answer; p4_sem_wait _ _ := answer; p4_sem_trywait _ := answer;
|}.

#[global] Instance p4_mutex : P4Mutex world := {|
  P4_MUTEX_SHARED := 1; P4_MUTEX_ROBUST := 2; P4_MUTEX_RECURSIVE := 4; P4_MUTEX_PRIO_INHERIT := 8;
  P4_MUTEX_PRIO_CEILING := 16; p4_mutex_init _ _ := mret tt; p4_mutex_init_ext _ _ _ := mret tt;
  p4_mutex_lock _ _ := answer; p4_mutex_trylock _ := answer; p4_mutex_unlock _ := answer;
|}.

#[global] Instance p4_cond : P4Cond world := {|
  P4_COND_SHARED := 1; p4_cond_init _ _ := mret tt; p4_cond_wake _ _ := answer; p4_cond_broadcast _ := answer;
  p4_cond_wait _ _ _ := answer;
|}.

#[global] Instance p4_task : P4Task world Z := {|
  P4EXT_THR_NUM_INVALID := -1; P4_THREAD_MYSELF := -2; P4_THREAD_STOPPED := 0; P4_THREAD_READY := 1;
  P4_THREAD_CURRENT := 2; P4_THREAD_SLEEPING := 3; P4_THREAD_WAIT_RX := 4; P4_THREAD_WAIT_RX_EV := 5;
  P4_THREAD_WAIT_TX := 6; P4_THREAD_WAIT_EV := 7; P4_THREAD_WAIT_INT := 8;
  p4ext_thr_create _ _ _ := r ← answer; mret (r, Some 1); p4_thread_delete _ := answer;
  p4_thread_ex_priority _ _ := answer; p4_thread_get_priority _ := answers; p4_thread_stop _ := answer;
  p4_thread_resume _ := answer; p4_thread_get_attr _ := answers; p4_start_running := mret 1;
  p4_set_running _ := mret tt; p4_run_handler _ _ := answer;
|}.

#[global] Instance p4_shm : P4Shm world := {|
  vm_fd := Z; VM_O_RD := 1; VM_O_WR := 2; VM_O_CREAT := 4; VM_O_EXCL := 8; VM_O_MAP := 16;
  vm_open _ _ := r ← answer; mret (r, Some 1); p4ext_vmem_alloc_aligned _ := mret (Some 1%positive);
  vm_map _ _ _ := answer;
|}.

#[global] Instance stdio : Output.Posix.Stdio world := {| Output.Posix.fputs _ := answer |}.

#[global] Instance vm : Output.Vm.Vm world := {|
  Output.Vm.mutex_printf := 1%positive; Output.Vm.mutex_printf_init _ := 1; Output.Vm.set_mutex_printf_init _ w := w;
  Output.Vm.vm_cprintf _ := mret tt;
|}.

#[global] Instance vx_time : VxTime world := {|
  VxWorksTimer.global_clock_id _ := CLOCK_REALTIME; VxWorksTimer.set_global_clock_id _ w := w;
  VxWorksTimer.nanosleep _ := r ← answer; mret (r, None);
  VxWorksTimer.clock_gettime _ := r ← answer; mret (r, Some (mk_timespec 0 0)); VxWorksTimer.perror _ := mret tt;
|}.

(** The call of [f] among [calls]. *)
Definition call {W} (f : Api.fn) (calls : list (Api.fn * C W Z)) : C W Z :=
  match filter (λ c, c.1 = f) calls with c :: _ => c.2 | [] => undef end.

(** The answers tried: each number that the systems use, alone and as an errno. *)
Definition worlds : list world :=
  ((λ e, [e]) <$> seqZ (-1) 135) ++ ((λ e, [-1; e]) <$> seqZ 0 135) ++ [[0x102]].

Definition returns {W} (r : Z) (m : C W Z) (w : W) : bool := match m w with Ret a _ => a =? r | _ => false end.

(** [f] returns [r] in some of the worlds [ws]. *)
Definition returned {W} (ws : list W) (calls : list (Api.fn * C W Z)) (u : Api.fn * Z) : bool :=
  existsb (returns u.2 (call u.1 calls)) ws.

Definition shm0 : osal_shm_t := PosixShm.mk_shm 3 0.

Definition posix : list (Api.fn * C world Z) :=
  posix_calls (H := linux_config) 1 (Some 1%positive) (Some 1%positive) (Some 1) None (Some 0) (Some []) (Some [])
    (Some shm0) None None (Some (mk_timer 0 0)) (Some tt) 1 1 0.

Definition vxworks_all : list (Api.fn * C world Z) :=
  vxworks_calls (Some 1) None (Some 1) (Some (mk_timer 0 0)) (Some tt) 1 None (λ _, mret tt) 0.

Definition win32_all : list (Api.fn * C world Z) :=
  win32_calls (Some 1) None (Some (mk_timer 0 0)) (Some tt) 1.

Definition pikeos : list (Api.fn * C world Z) :=
  pikeos_calls 1 (Some 1%positive) (Some 1%positive) (Some 1) None (Some 1) (Some []) (Some []) None (Some (mk_timer 0 0))
    (Some tt) 1 0 (Some (PikeosShm.mk_shm None 0)).

#[global] Instance stm32 : Stm32 unit := {|
  interrupts := mret tt; TIM2_CNT := mret 0; TIM4_CNT := mret 0;
|}.

#[global] Instance newlib : Newlib (mcu unit) := {| Stm32Stubs.close _ := mret 0 |}.
#[global] Instance hal : Output.Uart.HAL (mcu unit) := {| Output.Uart.HAL_UART_Transmit _ _ _ := mret 0 |}.

Definition stm32_all : list (Api.fn * C (mcu unit) Z) :=
  stm32_calls 1 (Some 1%positive) (Some 1%positive) None (Some 0) (Some []) (Some []) (Some shm0) None None
    (Some (mk_timer 0 0)) (Some tt) 1 1.

(** A semaphore with nothing to take, and one with a unit. *)
Definition mcus : list (mcu unit) := [mk_mcu {[1%positive := 0]} false tt; mk_mcu {[1%positive := 1]} false tt].
End Oracle.

(** Each code that the two theorems on return codes allow beside the documented
    ones is returned, with some answers of the system; and each function that is
    said to have no list has none. *)
Theorem undocumented_codes_returned :
  forallb (Oracle.returned Oracle.worlds Oracle.posix) (take 3 posix_undocumented) = true ∧
  alone 1 (Posix.osal_binary_semaphore_trywait (Some 1%positive)) (mk_sems {[1%positive := 0]} 0) =
    Ret OSAL_ERR_BUSY (mk_sems {[1%positive := 0]} 0) ∧
  forallb (Oracle.returned Oracle.worlds Oracle.vxworks_all) vxworks_undocumented = true ∧
  forallb (Oracle.returned Oracle.worlds Oracle.win32_all) win32_undocumented = true ∧
  forallb (Oracle.returned Oracle.worlds Oracle.pikeos) pikeos_undocumented = true ∧
  forallb (Oracle.returned Oracle.mcus Oracle.stm32_all) stm32_undocumented = true.
Proof. split_and!; vm_compute; reflexivity. Qed.

(** The operations on the binary semaphore of POSIX, the first three, are
    programs. *)
Theorem unlisted_codes_returned :
  forallb (Oracle.returned Oracle.worlds Oracle.posix) (drop 3 posix_unlisted) = true ∧
  forallb (Oracle.returned Oracle.worlds Oracle.vxworks_all) vxworks_unlisted = true ∧
  forallb (Oracle.returned Oracle.worlds Oracle.win32_all) win32_unlisted = true ∧
  forallb (Oracle.returned Oracle.worlds Oracle.pikeos) pikeos_unlisted = true ∧
  forallb (Oracle.returned Oracle.mcus Oracle.stm32_all) stm32_unlisted = true ∧
  forallb (λ u, if documented u.1 is Some _ then false else true)
    (posix_unlisted ++ vxworks_unlisted ++ win32_unlisted ++ pikeos_unlisted ++ stm32_unlisted) = true.
Proof. split_and!; vm_compute; reflexivity. Qed.
